(** * FlowForge client: network-state orchestrator, verified model

    A shallow embedding of the client-side orchestrator of the FlowForge
    split-tunnel VPN (Core/Client): the firewall allow-rules with their
    snapshots, the DNS registry override, the network configurator
    (pin + split-default), the rollback record and the slice of
    [ClientMain] that validates the configuration and wires them.

    The operating system is modelled as an explicit world that the code
    reads and writes through the API calls it makes.  Every fallible API
    call consults a fault script carried by the world, so that a statement
    quantified over worlds covers every pattern of OS failures. *)

From Stdlib Require Import String Ascii List ZArith NArith Bool Lia DecimalString.
From Stdlib Require Import Permutation Sorted.
From Stdlib Require OrderedTypeEx.
Import ListNotations.
Local Open Scope list_scope.

Set Implicit Arguments.

(** ** Exceptions and the state-and-exception monad *)

(** The three standard exception classes thrown by the sources. *)
Inductive exn : Type :=
| InvalidArgument (what : string)
| RuntimeError (what : string)
| LogicError (what : string).

Inductive outcome (A : Type) : Type :=
| Returns (a : A)
| Throws (e : exn).
Arguments Returns {A} a.
Arguments Throws {A} e.

Definition is_thrown {A} (o : outcome A) : bool :=
  match o with Throws _ => true | Returns _ => false end.

(** A computation over a state [S] (object fields and the OS world).
    A thrown exception keeps the state reached so far: side effects
    performed before the [throw] are not rolled back. *)
Definition M (S A : Type) : Type := S -> outcome A * S.

Definition ret {S A} (a : A) : M S A := fun s => (Returns a, s).

Definition bind {S A B} (m : M S A) (k : A -> M S B) : M S B :=
  fun s => match m s with
           | (Returns a, s') => k a s'
           | (Throws e, s') => (Throws e, s')
           end.

Definition throw {S A} (e : exn) : M S A := fun s => (Throws e, s).

(** [try { m } catch (...) { h }] *)
Definition try_catch {S A} (m : M S A) (h : M S A) : M S A :=
  fun s => match m s with
           | (Returns a, s') => (Returns a, s')
           | (Throws _, s') => h s'
           end.

Definition get {S} : M S S := fun s => (Returns s, s).
Definition put {S} (s : S) : M S unit := fun _ => (Returns tt, s).
Definition modify {S} (f : S -> S) : M S unit := fun s => (Returns tt, f s).

(** Run a computation on the second component of a pair state
    (a [const] helper of a class acting on the world only). *)
Definition liftW {O W A} (m : M W A) : M (O * W) A :=
  fun s => let '(r, w') := m (snd s) in (r, (fst s, w')).

Declare Scope exec_scope.
Delimit Scope exec_scope with exec.
Notation "x <- c ;; k" := (bind c (fun x => k))
  (at level 100, c at next level, right associativity) : exec_scope.
Notation "c ;;; k" := (bind c (fun _ => k))
  (at level 100, right associativity) : exec_scope.
Notation "'when' b 'then' c" := (if b then c else ret tt)
  (at level 100, b at next level, right associativity) : exec_scope.
Local Open Scope exec_scope.

(** Range-for over a container. *)
Fixpoint for_each {S A} (l : list A) (body : A -> M S unit) : M S unit :=
  match l with
  | [] => ret tt
  | x :: l' => body x ;;; for_each l' body
  end.

(** ** Address literals

    [InetPton] belongs to the OS, so the code is verified against an
    arbitrary literal parser: IPv4 literals denote 32-bit values, IPv6
    literals 128-bit values. *)
Class InetPton : Type := {
  inet_pton4 : string -> option N;
  inet_pton6 : string -> option N
}.

(** No address literal is the empty string. *)
Definition pton_rejects_empty (P : InetPton) : Prop :=
  inet_pton4 "" = None /\ inet_pton6 "" = None.

(** [s.find(c) != npos] *)
Fixpoint contains_char (c : ascii) (s : string) : bool :=
  match s with
  | EmptyString => false
  | String a s' => Ascii.eqb a c || contains_char c s'
  end.

(** [std::to_wstring] / [std::to_string] of an unsigned value. *)
Definition to_wstring (n : N) : string := NilZero.string_of_uint (N.to_uint n).

(** *** A reference parser

    A plain dotted-decimal and colon-hexadecimal reader, used to build the
    concrete worlds of the examples below. *)
Module RefParser.
Local Open Scope N_scope.

Fixpoint split_on (sep : ascii) (s : string) : list string :=
  match s with
  | EmptyString => [EmptyString]
  | String c s' =>
      if Ascii.eqb c sep then EmptyString :: split_on sep s'
      else match split_on sep s' with
           | [] => [String c EmptyString]
           | h :: t => String c h :: t
           end
  end.

Definition hex_val (c : ascii) : option N :=
  let n := N_of_ascii c in
  if (48 <=? n) && (n <=? 57) then Some (n - 48)
  else if (97 <=? n) && (n <=? 102) then Some (n - 87)
  else if (65 <=? n) && (n <=? 70) then Some (n - 55)
  else None.

Definition dec_val (c : ascii) : option N :=
  let n := N_of_ascii c in
  if (48 <=? n) && (n <=? 57) then Some (n - 48) else None.

Fixpoint read_digits (digit : ascii -> option N) (base : N) (s : string) (acc : N)
  : option N :=
  match s with
  | EmptyString => Some acc
  | String c s' =>
      match digit c with
      | Some d => read_digits digit base s' (acc * base + d)
      | None => None
      end
  end.

Definition read_octet (s : string) : option N :=
  if (1 <=? String.length s)%nat && (String.length s <=? 3)%nat then
    match read_digits dec_val 10 s 0 with
    | Some v => if v <=? 255 then Some v else None
    | None => None
    end
  else None.

Definition read_group (s : string) : option N :=
  if (1 <=? String.length s)%nat && (String.length s <=? 4)%nat then
    read_digits hex_val 16 s 0
  else None.

Fixpoint all_some {A} (l : list (option A)) : option (list A) :=
  match l with
  | [] => Some []
  | Some a :: l' => option_map (cons a) (all_some l')
  | None :: _ => None
  end.

Definition pack (width : N) (l : list N) : N :=
  fold_left (fun acc v => acc * 2 ^ width + v) l 0.

Definition pton4 (s : string) : option N :=
  match all_some (map read_octet (split_on "." s)) with
  | Some ([_; _; _; _] as l) => Some (pack 8 l)
  | _ => None
  end.

(** Split at the first ["::"], if any. *)
Fixpoint split_gap (s : string) : option (string * string) :=
  match s with
  | String ":" (String ":" rest) => Some (EmptyString, rest)
  | String c s' =>
      match split_gap s' with
      | Some (l, r) => Some (String c l, r)
      | None => None
      end
  | EmptyString => None
  end.

Definition groups (s : string) : option (list N) :=
  match s with
  | EmptyString => Some []
  | _ => all_some (map read_group (split_on ":" s))
  end.

Definition pton6 (s : string) : option N :=
  match split_gap s with
  | Some (l, r) =>
      match groups l, groups r with
      | Some gl, Some gr =>
          if (length gl + length gr <=? 7)%nat then
            Some (pack 16 (gl ++ repeat 0 (8 - (length gl + length gr))%nat ++ gr))
          else None
      | _, _ => None
      end
  | None =>
      match groups s with
      | Some l => if (length l =? 8)%nat then Some (pack 16 l) else None
      | None => None
      end
  end.

Definition parser : InetPton := {| inet_pton4 := pton4; inet_pton6 := pton6 |}.

End RefParser.

(** ** Firewall rules (Core/Client/FirewallRules.cpp) *)
Module Firewall.

(** [enum class Protocol] *)
Inductive Protocol : Type := UDP | TCP.

Definition Protocol_eqb (a b : Protocol) : bool :=
  match a, b with
  | UDP, UDP | TCP, TCP => true
  | _, _ => false
  end.

(** [struct ClientRule] *)
Record ClientRule : Type := mkClientRule {
  rule_prefix : string;
  app_path : string;
  server_ip : string
}.

(** Values of the firewall enumerations used by the source (netfw.h). *)
Definition NET_FW_RULE_DIR_OUT : Z := 2.
Definition NET_FW_ACTION_ALLOW : Z := 1.
Definition NET_FW_PROFILE2_ALL : Z := 2147483647.
Definition NET_FW_IP_PROTOCOL_TCP : Z := 6.
Definition NET_FW_IP_PROTOCOL_UDP : Z := 17.

(** An [INetFwRule] object: the eleven properties the source reads and
    writes. *)
Record FwRule : Type := mkFwRule {
  Name : string;
  Description : string;
  Direction : Z;
  Action : Z;
  Enabled : bool;
  Profiles : Z;
  InterfaceTypes : string;
  IpProtocol : Z;
  RemoteAddresses : string;
  RemotePorts : string;
  ApplicationName : string
}.

(** The object returned by [CoCreateInstance(NetFwRule)] before any
    property is put.  The source puts each of the eleven properties
    before it hands the object to the collection, so these values show
    only where a put had no effect. *)
Definition blank_rule : FwRule :=
  mkFwRule "" "" 1 1 false NET_FW_PROFILE2_ALL "All" 256 "*" "" "".

Definition put_Name v r := mkFwRule v (Description r) (Direction r) (Action r)
  (Enabled r) (Profiles r) (InterfaceTypes r) (IpProtocol r) (RemoteAddresses r)
  (RemotePorts r) (ApplicationName r).
Definition put_Description v r := mkFwRule (Name r) v (Direction r) (Action r)
  (Enabled r) (Profiles r) (InterfaceTypes r) (IpProtocol r) (RemoteAddresses r)
  (RemotePorts r) (ApplicationName r).
Definition put_Direction v r := mkFwRule (Name r) (Description r) v (Action r)
  (Enabled r) (Profiles r) (InterfaceTypes r) (IpProtocol r) (RemoteAddresses r)
  (RemotePorts r) (ApplicationName r).
Definition put_Action v r := mkFwRule (Name r) (Description r) (Direction r) v
  (Enabled r) (Profiles r) (InterfaceTypes r) (IpProtocol r) (RemoteAddresses r)
  (RemotePorts r) (ApplicationName r).
Definition put_Enabled v r := mkFwRule (Name r) (Description r) (Direction r)
  (Action r) v (Profiles r) (InterfaceTypes r) (IpProtocol r) (RemoteAddresses r)
  (RemotePorts r) (ApplicationName r).
Definition put_Profiles v r := mkFwRule (Name r) (Description r) (Direction r)
  (Action r) (Enabled r) v (InterfaceTypes r) (IpProtocol r) (RemoteAddresses r)
  (RemotePorts r) (ApplicationName r).
Definition put_InterfaceTypes v r := mkFwRule (Name r) (Description r) (Direction r)
  (Action r) (Enabled r) (Profiles r) v (IpProtocol r) (RemoteAddresses r)
  (RemotePorts r) (ApplicationName r).
Definition put_Protocol v r := mkFwRule (Name r) (Description r) (Direction r)
  (Action r) (Enabled r) (Profiles r) (InterfaceTypes r) v (RemoteAddresses r)
  (RemotePorts r) (ApplicationName r).
Definition put_RemoteAddresses v r := mkFwRule (Name r) (Description r) (Direction r)
  (Action r) (Enabled r) (Profiles r) (InterfaceTypes r) (IpProtocol r) v
  (RemotePorts r) (ApplicationName r).
Definition put_RemotePorts v r := mkFwRule (Name r) (Description r) (Direction r)
  (Action r) (Enabled r) (Profiles r) (InterfaceTypes r) (IpProtocol r)
  (RemoteAddresses r) v (ApplicationName r).
Definition put_ApplicationName v r := mkFwRule (Name r) (Description r) (Direction r)
  (Action r) (Enabled r) (Profiles r) (InterfaceTypes r) (IpProtocol r)
  (RemoteAddresses r) (RemotePorts r) v.

(** [struct RuleSnapshot] *)
Record RuleSnapshot : Type := mkRuleSnapshot {
  present : bool;
  name : string;
  description : string;
  direction : Z;
  action : Z;
  enabled : bool;
  profiles : Z;
  interface_types : string;
  protocol : Z;
  remote_addresses : string;
  remote_ports : string;
  application_name : string
}.

(** [out = {}]: the default member initialisers. *)
Definition empty_snapshot : RuleSnapshot :=
  mkRuleSnapshot false "" "" 0 0 true 0 "" 0 "" "" "".

(** [struct Entry] *)
Record Entry : Type := mkEntry {
  e_proto : Protocol;
  e_port : N;
  e_name : string;
  snapshot : RuleSnapshot;
  had_before : bool;
  touched : bool
}.

(** The data members of [class FirewallRules]. *)
Record FirewallRules : Type := mkFirewallRules {
  cfg_ : ClientRule;
  entries_ : list Entry;
  applied_ : bool
}.

(** *** The firewall side of the OS *)

(** What a run leaves behind: the lines the source logs at the steps of
    [Revert], and the calls that changed the rule collection. *)
Inductive Event : Type :=
| LogRevertRemove (rule_name : string)
| LogRevertRemoveFailed
| LogRevertRestore (rule_name : string)
| LogRevertRestoreFailed
| RulesRemove (rule_name : string)
| RulesAdd (r : FwRule).

(** [rules]: the rule collection, in insertion order (names need not be
    unique).  [faults]: one flag per fallible COM call still to come,
    [true] making that call fail; an exhausted script means success.
    Property getters and puts, whose results the source tests or drops,
    are such calls too. *)
Record World : Type := mkWorld {
  rules : list FwRule;
  faults : list bool;
  log : list Event
}.

Definition com_call : M World bool :=
  fun w => match faults w with
           | [] => (Returns false, w)
           | f :: fs => (Returns f, mkWorld (rules w) fs (log w))
           end.

Definition emit (ev : Event) : M World unit :=
  modify (fun w => mkWorld (rules w) (faults w) (log w ++ [ev])).

(** [HrErr(where, hr)]: a [std::runtime_error] naming the failed call
    (the hexadecimal HRESULT of the message is not modelled). *)
Definition HrErr (where_ : string) : exn := RuntimeError where_.

(** [ComInit::ComInit] (the destructor only balances the call). *)
Definition ComInit : M World unit :=
  failed <- com_call ;;
  if failed then throw (HrErr "CoInitializeEx") else ret tt.

Definition GetPolicy2 : M World unit :=
  failed <- com_call ;;
  if failed then throw (HrErr "CoCreateInstance(NetFwPolicy2)") else ret tt.

Definition GetRules : M World unit :=
  GetPolicy2 ;;;
  failed <- com_call ;;
  if failed then throw (HrErr "INetFwPolicy2::get_Rules") else ret tt.

Definition has_name (n : string) (r : FwRule) : bool := String.eqb (Name r) n.

(** [INetFwRules::Item]: the first rule of that name; a failed call
    yields no rule. *)
Definition Item (n : string) : M World (option FwRule) :=
  failed <- com_call ;;
  w <- get ;;
  ret (if failed then None else find (has_name n) (rules w)).

Fixpoint remove_rule (n : string) (l : list FwRule) : list FwRule :=
  match l with
  | [] => []
  | r :: l' => if has_name n r then l' else r :: remove_rule n l'
  end.

(** [INetFwRules::Remove]; the source discards its result. *)
Definition Remove (n : string) : M World unit :=
  failed <- com_call ;;
  if failed then ret tt
  else modify (fun w => mkWorld (remove_rule n (rules w)) (faults w)
                                (log w ++ [RulesRemove n])).

(** [INetFwRules::Add]; returns [SUCCEEDED(hr)]. *)
Definition Add (r : FwRule) : M World bool :=
  failed <- com_call ;;
  if failed then ret false
  else modify (fun w => mkWorld (rules w ++ [r]) (faults w) (log w ++ [RulesAdd r])) ;;;
       ret true.

Definition CoCreateInstance_NetFwRule : M World FwRule :=
  failed <- com_call ;;
  if failed then throw (HrErr "CoCreateInstance(NetFwRule)") else ret blank_rule.

(** *** Private helpers of the class *)

Definition ValidateConfig {S} (cfg : ClientRule) : M S unit :=
  if String.eqb (rule_prefix cfg) "" then
    throw (InvalidArgument "FirewallRules: rule_prefix is empty")
  else if String.eqb (app_path cfg) "" then
    throw (InvalidArgument "FirewallRules: app_path is empty")
  else if String.eqb (server_ip cfg) "" then
    throw (InvalidArgument "FirewallRules: server_ip is empty")
  else ret tt.

Definition MakeRuleName (cfg : ClientRule) (proto : Protocol) (port : N) : string :=
  let is_tcp := Protocol_eqb proto TCP in
  (rule_prefix cfg ++ (if is_tcp then " Out TCP to " else " Out UDP to ")
     ++ server_ip cfg ++ ":" ++ to_wstring port)%string.

(** A property getter as [ReadSnapshot] uses it:
    [if (SUCCEEDED(r->get_X(&v))) { out.x = v; }].  A getter that fails
    leaves the member of the snapshot at its default.  (A null [BSTR] is
    the empty text, which is the default of the text members.) *)
Definition get_prop {A} (v dflt : A) : M World A :=
  failed <- com_call ;; ret (if failed then dflt else v).

Definition ReadSnapshot (n : string) : M World RuleSnapshot :=
  let out := empty_snapshot in
  GetRules ;;;
  found <- Item n ;;
  match found with
  | None => ret out
  | Some r =>
      v_name <- get_prop (Name r) (name out) ;;
      v_description <- get_prop (Description r) (description out) ;;
      v_direction <- get_prop (Direction r) (direction out) ;;
      v_action <- get_prop (Action r) (action out) ;;
      v_enabled <- get_prop (Enabled r) (enabled out) ;;
      v_profiles <- get_prop (Profiles r) (profiles out) ;;
      v_interface_types <- get_prop (InterfaceTypes r) (interface_types out) ;;
      v_protocol <- get_prop (IpProtocol r) (protocol out) ;;
      v_remote_addresses <- get_prop (RemoteAddresses r) (remote_addresses out) ;;
      v_remote_ports <- get_prop (RemotePorts r) (remote_ports out) ;;
      v_application_name <- get_prop (ApplicationName r) (application_name out) ;;
      ret (mkRuleSnapshot true v_name v_description v_direction v_action v_enabled
             v_profiles v_interface_types v_protocol v_remote_addresses v_remote_ports
             v_application_name)
  end.

Definition RemoveIfExists (n : string) : M World unit :=
  GetRules ;;;
  existing <- Item n ;;
  match existing with
  | Some _ => Remove n
  | None => ret tt
  end.

(** A property put on a rule object.  The source discards the result of
    every put, so a put that fails leaves the property as it was. *)
Definition put_prop (p : FwRule -> FwRule) (r : FwRule) : M World FwRule :=
  failed <- com_call ;; ret (if failed then r else p r).

(** Puts one after the other, on the same object. *)
Fixpoint put_each (puts : list (FwRule -> FwRule)) (r : FwRule) : M World FwRule :=
  match puts with
  | [] => ret r
  | p :: puts' => r' <- put_prop p r ;; put_each puts' r'
  end.

Definition UpsertOutbound (cfg : ClientRule) (proto : Protocol) (port : N) (n : string)
  : M World unit :=
  GetRules ;;;
  r0 <- CoCreateInstance_NetFwRule ;;
  let ip_proto := if Protocol_eqb proto TCP then NET_FW_IP_PROTOCOL_TCP
                  else NET_FW_IP_PROTOCOL_UDP in
  r <- put_each [put_Name n;
                 put_Description "VPN client outbound allow";
                 put_Direction NET_FW_RULE_DIR_OUT;
                 put_Action NET_FW_ACTION_ALLOW;
                 put_Enabled true;
                 put_Profiles NET_FW_PROFILE2_ALL;
                 put_InterfaceTypes "All";
                 put_Protocol ip_proto;
                 put_RemoteAddresses (server_ip cfg);
                 put_RemotePorts (to_wstring port);
                 put_ApplicationName (app_path cfg)] r0 ;;
  RemoveIfExists n ;;;
  ok <- Add r ;;
  if ok then ret tt else throw (HrErr "INetFwRules::Add").

(** The rule object the eleven puts of [RestoreFromSnapshot] make of [r0]
    when each of them takes effect. *)
Definition restored_rule (s : RuleSnapshot) (r0 : FwRule) : FwRule :=
  put_ApplicationName (application_name s)
 (put_RemotePorts (remote_ports s)
 (put_RemoteAddresses (remote_addresses s)
 (put_Protocol (protocol s)
 (put_InterfaceTypes (interface_types s)
 (put_Profiles (profiles s)
 (put_Enabled (enabled s)
 (put_Action (action s)
 (put_Direction (direction s)
 (put_Description (description s)
 (put_Name (name s) r0)))))))))).

Definition RestoreFromSnapshot (s : RuleSnapshot) : M World unit :=
  if negb (present s) then ret tt
  else
    GetRules ;;;
    r0 <- CoCreateInstance_NetFwRule ;;
    r <- put_each [put_Name (name s);
                   put_Description (description s);
                   put_Direction (direction s);
                   put_Action (action s);
                   put_Enabled (enabled s);
                   put_Profiles (profiles s);
                   put_InterfaceTypes (interface_types s);
                   put_Protocol (protocol s);
                   put_RemoteAddresses (remote_addresses s);
                   put_RemotePorts (remote_ports s);
                   put_ApplicationName (application_name s)] r0 ;;
    RemoveIfExists (name s) ;;;
    ok <- Add r ;;
    if ok then ret tt else throw (HrErr "INetFwRules::Add (restore)").

(** *** Public API *)

Definition FirewallRules_ctor (cfg : ClientRule) : FirewallRules :=
  mkFirewallRules cfg [] false.

Definition same_key (proto : Protocol) (port : N) (e : Entry) : bool :=
  Protocol_eqb (e_proto e) proto && (e_port e =? port)%N.

Definition Allow (proto : Protocol) (port : N) : M (FirewallRules * World) unit :=
  s <- get ;;
  let this := fst s in
  ValidateConfig (cfg_ this) ;;;
  if (port =? 0)%N then throw (InvalidArgument "FirewallRules::Allow: port is zero")
  else if existsb (same_key proto port) (entries_ this) then ret tt
  else
    let n := MakeRuleName (cfg_ this) proto port in
    liftW ComInit ;;;
    snap <- liftW (ReadSnapshot n) ;;
    liftW (UpsertOutbound (cfg_ this) proto port n) ;;;
    let entry := mkEntry proto port n snap (present snap) true in
    modify (fun s' => (mkFirewallRules (cfg_ (fst s')) (entries_ (fst s') ++ [entry]) true,
                       snd s')).

(** One iteration of the loop of [Revert]; [err] is the flag so far. *)
Definition Revert_entry (it : Entry) (err : bool) : M World bool :=
  err1 <- try_catch
            ((if touched it
              then emit (LogRevertRemove (e_name it)) ;;; RemoveIfExists (e_name it)
              else ret tt) ;;; ret err)
            (emit LogRevertRemoveFailed ;;; ret true) ;;
  try_catch
    ((if had_before it
      then emit (LogRevertRestore (name (snapshot it))) ;;;
           RestoreFromSnapshot (snapshot it)
      else ret tt) ;;; ret err1)
    (emit LogRevertRestoreFailed ;;; ret true).

Fixpoint Revert_loop (its : list Entry) (err : bool) : M World bool :=
  match its with
  | [] => ret err
  | it :: its' => err' <- Revert_entry it err ;; Revert_loop its' err'
  end.

Definition Revert_failed : exn :=
  RuntimeError "FirewallRules::Revert: one or more operations failed".

Definition Revert : M (FirewallRules * World) unit :=
  s <- get ;;
  let this := fst s in
  if negb (applied_ this) then ret tt
  else
    liftW ComInit ;;;
    err <- liftW (Revert_loop (rev (entries_ this)) false) ;;
    modify (fun s' => (mkFirewallRules (cfg_ (fst s')) [] false, snd s')) ;;;
    if err then throw Revert_failed else ret tt.

(** *** Removal by prefix *)

(** [!prefix.empty() && n.rfind(prefix, 0) == 0] *)
Definition starts_with (prefix n : string) : bool :=
  negb (String.eqb prefix "") && String.prefix prefix n.

(** The enumeration loop of [RemoveAllWithPrefix]: one [IEnumVARIANT::Next]
    per rule and one more at the end of the collection; a call that does
    not answer [S_OK] ends the loop.  An item is looked at only when it is
    a dispatch object ([v.vt == VT_DISPATCH && v.pdispVal], for which the
    script of the world answers as for a call), answers
    [QueryInterface(INetFwRule)] and gives its name; otherwise the loop
    goes on to the next item.  [to_remove] is the vector so far. *)
Fixpoint enumerate (prefix : string) (l : list FwRule) (to_remove : list string)
  : M World (list string) :=
  match l with
  | [] => failed <- com_call ;; ret to_remove
  | r :: l' =>
      failed <- com_call ;;
      if failed then ret to_remove
      else
        no_dispatch <- com_call ;;
        if no_dispatch then enumerate prefix l' to_remove
        else
          no_rule <- com_call ;;
          if no_rule then enumerate prefix l' to_remove
          else
            no_name <- com_call ;;
            if no_name then enumerate prefix l' to_remove
            else enumerate prefix l'
                   (if starts_with prefix (Name r) then to_remove ++ [Name r]
                    else to_remove)
  end.

Definition RemoveAllWithPrefix (prefix : string) : M World unit :=
  GetRules ;;;
  failed <- com_call ;;
  if failed then throw (HrErr "INetFwRules::get__NewEnum")
  else
    failed2 <- com_call ;;
    if failed2 then throw (HrErr "QueryInterface(IEnumVARIANT)")
    else
      w <- get ;;
      to_remove <- enumerate prefix (rules w) [] ;;
      for_each to_remove Remove.

Definition RemoveByPrefix (prefix : string) : M World unit :=
  if String.eqb prefix "" then
    throw (InvalidArgument "FirewallRules::RemoveByPrefix: empty prefix")
  else ComInit ;;; RemoveAllWithPrefix prefix.

End Firewall.


(** ** DNS override through the registry (Core/Client/DNS.cpp) *)
Module DNS.
Local Open Scope Z_scope.

Definition ERROR_SUCCESS : Z := 0.
Definition ERROR_FILE_NOT_FOUND : Z := 2.
Definition AF_INET : N := 2.
Definition AF_INET6 : N := 23.

(** A registry value: a well-formed [REG_SZ] string, or anything else
    (another type, or data of zero bytes). *)
Inductive regval : Type :=
| REG_SZ (data : string)
| REG_malformed.

(** A write the registry received. *)
Inductive RegWrite : Type :=
| SetValue (key : string) (data : string)
| DeleteValue (key : string).

(** The registry side of the OS.  [reg key] is [None] when the interface
    key does not exist, [Some v] when it does, [v] being its [NameServer]
    value if any.  [guid_of luid] is the text of the interface GUID, when
    the LUID is known.  [faults]: the status the next registry calls are
    forced to return, [0] letting a call take its course. *)
Record World : Type := mkWorld {
  reg : string -> option (option regval);
  guid_of : N -> option string;
  faults : list Z;
  writes : list RegWrite
}.

Definition reg_call : M World Z :=
  fun w => match faults w with
           | [] => (Returns 0, w)
           | c :: cs => (Returns c, mkWorld (reg w) (guid_of w) cs (writes w))
           end.

Definition reg_update (key : string) (v : option regval)
           (r : string -> option (option regval)) : string -> option (option regval) :=
  fun k => if String.eqb k key then Some v else r k.

(** The data members of [class DNS]. *)
Record DNS : Type := mkDNS {
  luid_ : N;
  guid_str_ : string;
  applied_ : bool;
  prev_v4_present_ : bool;
  prev_v6_present_ : bool;
  prev_v4_ : string;
  prev_v6_ : string;
  touched_v4_ : bool;
  touched_v6_ : bool
}.

Definition DNS_ctor (luid : N) : DNS :=
  mkDNS luid "" false false false "" "" false false.

Definition Throw_ {S A} (msg : string) : M S A := throw (RuntimeError msg).

Definition ThrowWin {S A} (prefix : string) (code : Z) : M S A :=
  throw (RuntimeError (prefix ++ " (Win32=" ++ to_wstring (Z.to_N code) ++ ")")%string).

(** Strings are kept in one encoding, so the conversion is the identity. *)
Definition Utf8 (ws : string) : string := ws.

Section Literals.
Context {P : InetPton}.

Definition IsIPv4 (s : string) : bool :=
  match inet_pton4 s with Some _ => true | None => false end.

Definition IsIPv6 (s : string) : bool :=
  match inet_pton6 s with Some _ => true | None => false end.

End Literals.

Definition JoinComma (l : list string) : string := String.concat "," l.

Definition LuidToGuidString (luid : N) : M World string :=
  w <- get ;;
  match guid_of w luid with
  | None => Throw_ "ConvertInterfaceLuidToGuid failed"
  | Some g => if String.eqb g "" then Throw_ "Empty GUID string" else ret g
  end.

(** The handle of an opened key is modelled by the key's path. *)
Definition OpenInterfaceKey (base_path guid_str : string) : M World string :=
  let path := (base_path ++ guid_str)%string in
  st <- reg_call ;;
  if negb (st =? ERROR_SUCCESS) then ThrowWin ("RegOpenKeyExW failed: " ++ Utf8 path) st
  else
    w <- get ;;
    match reg w path with
    | None => ThrowWin ("RegOpenKeyExW failed: " ++ Utf8 path) ERROR_FILE_NOT_FOUND
    | Some _ => ret path
    end.

Definition RegDeleteValueW (hkey : string) : M World Z :=
  st <- reg_call ;;
  if negb (st =? ERROR_SUCCESS) then ret st
  else
    w <- get ;;
    match reg w hkey with
    | Some (Some _) =>
        put (mkWorld (reg_update hkey None (reg w)) (guid_of w) (faults w)
                     (writes w ++ [DeleteValue hkey])) ;;;
        ret ERROR_SUCCESS
    | _ => ret ERROR_FILE_NOT_FOUND
    end.

Definition RegSetValueExW (hkey : string) (value : string) : M World Z :=
  st <- reg_call ;;
  if negb (st =? ERROR_SUCCESS) then ret st
  else
    modify (fun w => mkWorld (reg_update hkey (Some (REG_SZ value)) (reg w)) (guid_of w)
                             (faults w) (writes w ++ [SetValue hkey value])) ;;;
    ret ERROR_SUCCESS.

(** [RegQueryValueExW]: the status and, on success, the value found. *)
Definition RegQueryValueExW (hkey : string) : M World (Z * option regval) :=
  st <- reg_call ;;
  if negb (st =? ERROR_SUCCESS) then ret (st, None)
  else
    w <- get ;;
    match reg w hkey with
    | Some (Some v) => ret (ERROR_SUCCESS, Some v)
    | _ => ret (ERROR_FILE_NOT_FOUND, None)
    end.

Definition WriteNameServer (hkey : string) (value : string) : M World unit :=
  if String.eqb value "" then
    del <- RegDeleteValueW hkey ;;
    if (del =? ERROR_SUCCESS) || (del =? ERROR_FILE_NOT_FOUND) then ret tt
    else ThrowWin "RegDeleteValueW(NameServer) failed" del
  else
    st <- RegSetValueExW hkey value ;;
    if negb (st =? ERROR_SUCCESS) then ThrowWin "RegSetValueExW(NameServer) failed" st
    else ret tt.

(** Returns [(out_value, present)]. *)
Definition ReadNameServer (base_path guid_str : string) : M World (string * bool) :=
  hkey <- OpenInterfaceKey base_path guid_str ;;
  q <- RegQueryValueExW hkey ;;
  let '(st, v) := q in
  if st =? ERROR_FILE_NOT_FOUND then ret (EmptyString, false)
  else
    match st =? ERROR_SUCCESS, v with
    | true, Some (REG_SZ _) =>
        q2 <- RegQueryValueExW hkey ;;
        let '(st2, v2) := q2 in
        match st2 =? ERROR_SUCCESS, v2 with
        | true, Some (REG_SZ buf) => ret (buf, true)
        | _, _ => ThrowWin "RegQueryValueExW(NameServer #2) failed" st2
        end
    | _, _ => ThrowWin "RegQueryValueExW(NameServer) failed" st
    end.

Definition BasePathForAf (af : N) : string :=
  if (af =? AF_INET)%N
  then "SYSTEM\CurrentControlSet\Services\Tcpip\Parameters\Interfaces\"
  else "SYSTEM\CurrentControlSet\Services\Tcpip6\Parameters\Interfaces\".

Definition SetForFamily (guid_str : string) (af : N) (servers : list string)
  : M World unit :=
  match servers with
  | [] => ret tt
  | _ =>
      let value := JoinComma servers in
      let base := BasePathForAf af in
      hkey <- OpenInterfaceKey base guid_str ;;
      WriteNameServer hkey value
  end.

Definition UnsetForFamily (guid_str : string) (af : N) : M World unit :=
  let base := BasePathForAf af in
  hkey <- OpenInterfaceKey base guid_str ;;
  WriteNameServer hkey "".

(** [noexcept]; the resolver cache is no part of the registry. *)
Definition FlushResolverCache : M World unit := ret tt.

Section Api.
Context {P : InetPton}.

(** The classification loop of [Apply]: IPv4 first, then IPv6, else the
    call is aborted. *)
Fixpoint classify (servers v4 v6 : list string) : outcome (list string * list string) :=
  match servers with
  | [] => Returns (v4, v6)
  | s :: rest =>
      if IsIPv4 s then classify rest (v4 ++ [s]) v6
      else if IsIPv6 s then classify rest v4 (v6 ++ [s])
      else Throws (InvalidArgument ("DNS.Apply: invalid IP address: " ++ Utf8 s)%string)
  end.

Definition Apply (servers : list string) : M (DNS * World) unit :=
  modify (fun s => let d := fst s in
                   (mkDNS (luid_ d) (guid_str_ d) (applied_ d) false false "" "" false false,
                    snd s)) ;;;
  match servers with
  | [] => throw (InvalidArgument "DNS.Apply: servers list is empty")
  | _ =>
      s <- get ;;
      (if String.eqb (guid_str_ (fst s)) ""
       then g <- liftW (LuidToGuidString (luid_ (fst s))) ;;
            modify (fun s' => let d := fst s' in
                      (mkDNS (luid_ d) g (applied_ d) (prev_v4_present_ d)
                             (prev_v6_present_ d) (prev_v4_ d) (prev_v6_ d)
                             (touched_v4_ d) (touched_v6_ d), snd s'))
       else ret tt) ;;;
      match classify servers [] [] with
      | Throws e => throw e
      | Returns (v4, v6) =>
          s1 <- get ;;
          let guid := guid_str_ (fst s1) in
          p4 <- liftW (ReadNameServer (BasePathForAf AF_INET) guid) ;;
          modify (fun s' => let d := fst s' in
                    (mkDNS (luid_ d) (guid_str_ d) (applied_ d) (snd p4)
                           (prev_v6_present_ d) (fst p4) (prev_v6_ d)
                           (touched_v4_ d) (touched_v6_ d), snd s')) ;;;
          p6 <- liftW (ReadNameServer (BasePathForAf AF_INET6) guid) ;;
          modify (fun s' => let d := fst s' in
                    (mkDNS (luid_ d) (guid_str_ d) (applied_ d) (prev_v4_present_ d)
                           (snd p6) (prev_v4_ d) (fst p6)
                           (touched_v4_ d) (touched_v6_ d), snd s')) ;;;
          (match v4 with
           | [] => ret tt
           | _ =>
               liftW (SetForFamily guid AF_INET v4) ;;;
               modify (fun s' => let d := fst s' in
                         (mkDNS (luid_ d) (guid_str_ d) (applied_ d) (prev_v4_present_ d)
                                (prev_v6_present_ d) (prev_v4_ d) (prev_v6_ d)
                                true (touched_v6_ d), snd s'))
           end) ;;;
          (match v6 with
           | [] => ret tt
           | _ =>
               liftW (SetForFamily guid AF_INET6 v6) ;;;
               modify (fun s' => let d := fst s' in
                         (mkDNS (luid_ d) (guid_str_ d) (applied_ d) (prev_v4_present_ d)
                                (prev_v6_present_ d) (prev_v4_ d) (prev_v6_ d)
                                (touched_v4_ d) true, snd s'))
           end) ;;;
          liftW FlushResolverCache ;;;
          modify (fun s' => let d := fst s' in
                    (mkDNS (luid_ d) (guid_str_ d) true (prev_v4_present_ d)
                           (prev_v6_present_ d) (prev_v4_ d) (prev_v6_ d)
                           (touched_v4_ d) (touched_v6_ d), snd s'))
      end
  end.

End Api.

(** One [if (touched)] block of [Revert]; [any_error] is the flag so far. *)
Definition Revert_family (touched prev_present : bool) (prev guid_str : string) (af : N)
           (any_error : bool) : M World bool :=
  if touched then
    try_catch
      ((if prev_present
        then hkey <- OpenInterfaceKey (BasePathForAf af) guid_str ;;
             WriteNameServer hkey prev
        else UnsetForFamily guid_str af) ;;; ret any_error)
      (ret true)
  else ret any_error.

Definition Revert_failed : exn := RuntimeError "DNS.Revert: one or more operations failed".

Definition Revert : M (DNS * World) unit :=
  s <- get ;;
  let this := fst s in
  if negb (applied_ this) then ret tt
  else
    e4 <- liftW (Revert_family (touched_v4_ this) (prev_v4_present_ this) (prev_v4_ this)
                               (guid_str_ this) AF_INET false) ;;
    e6 <- liftW (Revert_family (touched_v6_ this) (prev_v6_present_ this) (prev_v6_ this)
                               (guid_str_ this) AF_INET6 e4) ;;
    liftW FlushResolverCache ;;;
    modify (fun s' => let d := fst s' in
              (mkDNS (luid_ d) (guid_str_ d) false false false "" "" false false, snd s')) ;;;
    if e6 then throw Revert_failed else ret tt.

End DNS.


(** ** The IP Helper side of the OS (netioapi.h / iphlpapi.h) *)
Module IpHelper.
Local Open Scope N_scope.

Definition NO_ERROR : N := 0.
Definition ERROR_INVALID_PARAMETER : N := 87.
Definition ERROR_NOT_FOUND : N := 1168.
Definition ERROR_OBJECT_ALREADY_EXISTS : N := 5010.
Definition MIB_IPPROTO_NETMGMT : N := 3.
Definition AF_UNSPEC : N := 0.
Definition AF_INET : N := 2.
Definition AF_INET6 : N := 23.

(** [SOCKADDR_INET]: the family and the address it holds. *)
Record SOCKADDR_INET : Type := mkSockaddr {
  si_family : N;
  sin_addr : N
}.

Record MIB_IPFORWARD_ROW2 : Type := mkRow {
  InterfaceLuid : N;
  InterfaceIndex : N;
  DestinationPrefix : SOCKADDR_INET;
  PrefixLength : N;
  NextHop : SOCKADDR_INET;
  Metric : N;
  Protocol : N
}.

(** The legacy [MIB_IPFORWARDROW]. *)
Record MIB_IPFORWARDROW : Type := mkLegacyRow {
  dwForwardDest : N;
  dwForwardMask : N;
  dwForwardPolicy : N;
  dwForwardNextHop : N;
  dwForwardIfIndex : N;
  dwForwardType : N;
  dwForwardProto : N;
  dwForwardMetric1 : N
}.

Record MIB_IPINTERFACE_ROW : Type := mkIfRow {
  UseAutomaticMetric : bool;
  IfMetric : N;
  NlMtu : N
}.

Record MIB_UNICASTIPADDRESS_ROW : Type := mkUnicast {
  AddressLuid : N;
  Address : SOCKADDR_INET;
  OnLinkPrefixLength : N
}.

(** The lines the sources log at the turning points of [ConfigureNetwork]
    and of [NetworkRollback::Revert]. *)
Inductive Event : Type :=
| LogPinned (family : N) (server : string) (via_luid : N)
| LogNoRouteToServer (family : N)
| LogPinNotNeeded
| LogDefaultsActivated (family : N)
| LogRemoveSplitDefaultsBegin
| LogRemovePinnedSkip
| LogRemovePinnedBegin (server : string)
| LogRestoreBaselineBegin
| LogRevertStepFailed (step : string).

(** [interfaces family luid]: the IP interface row, if the interface has
    that family.  [route_hist]: every state the forwarding table went
    through, the last one being the current table.  [best_route]: the
    answer of [GetBestRoute2].  [faults]: the error the next calls are
    forced to fail with, [0] letting a call take its course; a call answers
    [ERROR_OBJECT_ALREADY_EXISTS] only when the object is there, so that
    code forces nothing. *)
Record World : Type := mkWorld {
  interfaces : N -> N -> option MIB_IPINTERFACE_ROW;
  addresses : list MIB_UNICASTIPADDRESS_ROW;
  route_hist : list (list MIB_IPFORWARD_ROW2);
  best_route : SOCKADDR_INET -> option MIB_IPFORWARD_ROW2;
  luid_of_index : N -> N;
  faults : list N;
  log : list Event
}.

(** The forwarding table as it stands. *)
Definition routes (w : World) : list MIB_IPFORWARD_ROW2 := last (route_hist w) [].

Definition ip_call : M World N :=
  fun w => match faults w with
           | [] => (Returns NO_ERROR, w)
           | c :: cs =>
               (Returns (if c =? ERROR_OBJECT_ALREADY_EXISTS then NO_ERROR else c),
                mkWorld (interfaces w) (addresses w) (route_hist w)
                        (best_route w) (luid_of_index w) cs (log w))
           end.

Definition emit (ev : Event) : M World unit :=
  modify (fun w => mkWorld (interfaces w) (addresses w) (route_hist w) (best_route w)
                           (luid_of_index w) (faults w) (log w ++ [ev])).

Definition set_routes (t : list MIB_IPFORWARD_ROW2) : M World unit :=
  modify (fun w => mkWorld (interfaces w) (addresses w) (route_hist w ++ [t]) (best_route w)
                           (luid_of_index w) (faults w) (log w)).

Definition set_addresses (a : list MIB_UNICASTIPADDRESS_ROW) : M World unit :=
  modify (fun w => mkWorld (interfaces w) a (route_hist w) (best_route w)
                           (luid_of_index w) (faults w) (log w)).

Definition set_interface (family luid : N) (row : MIB_IPINTERFACE_ROW) : M World unit :=
  modify (fun w => mkWorld (fun f l => if (f =? family) && (l =? luid) then Some row
                                       else interfaces w f l)
                           (addresses w) (route_hist w) (best_route w)
                           (luid_of_index w) (faults w) (log w)).

Definition GetIpInterfaceEntry (family luid : N) : M World (option MIB_IPINTERFACE_ROW) :=
  rc <- ip_call ;;
  w <- get ;;
  ret (if rc =? NO_ERROR then interfaces w family luid else None).

Definition SetIpInterfaceEntry (family luid : N) (row : MIB_IPINTERFACE_ROW) : M World N :=
  rc <- ip_call ;;
  if negb (rc =? NO_ERROR) then ret rc
  else
    w <- get ;;
    match interfaces w family luid with
    | Some _ => set_interface family luid row ;;; ret NO_ERROR
    | None => ret ERROR_NOT_FOUND
    end.

Definition same_address (a b : MIB_UNICASTIPADDRESS_ROW) : bool :=
  (AddressLuid a =? AddressLuid b) && (si_family (Address a) =? si_family (Address b))
  && (sin_addr (Address a) =? sin_addr (Address b)).

Definition CreateUnicastIpAddressEntry (row : MIB_UNICASTIPADDRESS_ROW) : M World N :=
  rc <- ip_call ;;
  if negb (rc =? NO_ERROR) then ret rc
  else
    w <- get ;;
    if existsb (same_address row) (addresses w) then ret ERROR_OBJECT_ALREADY_EXISTS
    else set_addresses (addresses w ++ [row]) ;;; ret NO_ERROR.

Definition SetUnicastIpAddressEntry (row : MIB_UNICASTIPADDRESS_ROW) : M World N :=
  rc <- ip_call ;;
  if negb (rc =? NO_ERROR) then ret rc
  else
    w <- get ;;
    if existsb (same_address row) (addresses w)
    then set_addresses (map (fun a => if same_address row a then row else a) (addresses w)) ;;;
         ret NO_ERROR
    else ret ERROR_NOT_FOUND.

(** A route is identified by its destination prefix, its next hop and its
    interface. *)
Definition same_route (a b : MIB_IPFORWARD_ROW2) : bool :=
  (InterfaceLuid a =? InterfaceLuid b)
  && (si_family (DestinationPrefix a) =? si_family (DestinationPrefix b))
  && (sin_addr (DestinationPrefix a) =? sin_addr (DestinationPrefix b))
  && (PrefixLength a =? PrefixLength b)
  && (sin_addr (NextHop a) =? sin_addr (NextHop b)).

Definition in_family (family : N) (r : MIB_IPFORWARD_ROW2) : bool :=
  (family =? AF_UNSPEC) || (si_family (DestinationPrefix r) =? family).

Definition GetIpForwardTable2 (family : N) : M World (option (list MIB_IPFORWARD_ROW2)) :=
  rc <- ip_call ;;
  w <- get ;;
  ret (if rc =? NO_ERROR then Some (filter (in_family family) (routes w)) else None).

Definition CreateIpForwardEntry2 (row : MIB_IPFORWARD_ROW2) : M World N :=
  rc <- ip_call ;;
  if negb (rc =? NO_ERROR) then ret rc
  else
    w <- get ;;
    if existsb (same_route row) (routes w) then ret ERROR_OBJECT_ALREADY_EXISTS
    else set_routes (routes w ++ [row]) ;;; ret NO_ERROR.

Definition SetIpForwardEntry2 (row : MIB_IPFORWARD_ROW2) : M World N :=
  rc <- ip_call ;;
  if negb (rc =? NO_ERROR) then ret rc
  else
    w <- get ;;
    if existsb (same_route row) (routes w)
    then set_routes (map (fun r => if same_route row r then row else r) (routes w)) ;;;
         ret NO_ERROR
    else ret ERROR_NOT_FOUND.

Definition DeleteIpForwardEntry2 (row : MIB_IPFORWARD_ROW2) : M World N :=
  rc <- ip_call ;;
  if negb (rc =? NO_ERROR) then ret rc
  else
    w <- get ;;
    if existsb (same_route row) (routes w)
    then set_routes (filter (fun r => negb (same_route row r)) (routes w)) ;;; ret NO_ERROR
    else ret ERROR_NOT_FOUND.

(** Length of the prefix a contiguous mask stands for. *)
Definition mask_length (mask : N) : N := N.log2 (mask + 1).

(** The legacy call adds the row to the same table. *)
Definition CreateIpForwardEntry (r : MIB_IPFORWARDROW) : M World N :=
  w <- get ;;
  CreateIpForwardEntry2
    (mkRow (luid_of_index w (dwForwardIfIndex r)) (dwForwardIfIndex r)
           (mkSockaddr AF_INET (dwForwardDest r)) (mask_length (dwForwardMask r))
           (mkSockaddr AF_INET (dwForwardNextHop r)) (dwForwardMetric1 r)
           (dwForwardProto r)).

Definition GetBestRoute2 (dst : SOCKADDR_INET) : M World (option MIB_IPFORWARD_ROW2) :=
  rc <- ip_call ;;
  w <- get ;;
  ret (if rc =? NO_ERROR then best_route w dst else None).

End IpHelper.


(** ** The network configurator (Core/Client/Network.cpp) *)
Module Network.
Import IpHelper.
Local Open Scope N_scope.

(** [enum class IpVersion] *)
Inductive IpVersion : Type := V4 | V6.

Definition is_V6 (ver : IpVersion) : bool :=
  match ver with V6 => true | V4 => false end.

Definition fam (ver : IpVersion) : N := if is_V6 ver then AF_INET6 else AF_INET.

Definition is_v6_string (s : string) : bool := contains_char ":" s.

(** [struct AddressPlan] *)
Record AddressPlan : Type := mkAddressPlan {
  local4 : string;
  peer4 : string;
  local6 : string;
  peer6 : string;
  mtu : N
}.

(** The file-scope variables [g_LOCAL4 ... g_mtu]. *)
Record Globals : Type := mkGlobals {
  g_LOCAL4 : string;
  g_PEER4 : string;
  g_LOCAL6 : string;
  g_PEER6 : string;
  g_mtu : N
}.

Definition initial_globals : Globals :=
  mkGlobals "10.200.0.2" "10.200.0.1" "fd00:dead:beef::2" "fd00:dead:beef::1" 1400.

(** A Wintun adapter handle: null, or the adapter and its LUID. *)
Definition WINTUN_ADAPTER_HANDLE : Type := option N.

Section Api.
Context {P : InetPton}.

Definition set_if_metric (ifLuid metric : N) (ver : IpVersion) : M World unit :=
  got <- GetIpInterfaceEntry (fam ver) ifLuid ;;
  match got with
  | None => throw (RuntimeError "GetIpInterfaceEntry failed for metric")
  | Some row =>
      err <- SetIpInterfaceEntry (fam ver) ifLuid (mkIfRow false metric (NlMtu row)) ;;
      if err =? ERROR_INVALID_PARAMETER then ret tt
      else if negb (err =? NO_ERROR) then
             throw (RuntimeError "SetIpInterfaceEntry(metric) failed")
      else ret tt
  end.

Definition set_if_mtu (ifLuid mtu_ : N) (ver : IpVersion) : M World unit :=
  got <- GetIpInterfaceEntry (fam ver) ifLuid ;;
  match got with
  | None => throw (RuntimeError "GetIpInterfaceEntry failed for mtu")
  | Some row =>
      err <- SetIpInterfaceEntry (fam ver) ifLuid
               (mkIfRow (UseAutomaticMetric row) (IfMetric row) mtu_) ;;
      if err =? ERROR_INVALID_PARAMETER then ret tt
      else if negb (err =? NO_ERROR) then throw (RuntimeError "SetIpInterfaceEntry(mtu) failed")
      else ret tt
  end.

Definition add_ip_address_on_if (ifLuid : N) (ip : string) (prefixLen : N) (ver : IpVersion)
  : M World unit :=
  match (if is_V6 ver then inet_pton6 ip else inet_pton4 ip) with
  | None =>
      throw (InvalidArgument (if is_V6 ver then "add_ip_address_on_if: invalid IPv6"
                              else "add_ip_address_on_if: invalid IPv4"))
  | Some a =>
      let row := mkUnicast ifLuid (mkSockaddr (fam ver) a) prefixLen in
      err <- CreateUnicastIpAddressEntry row ;;
      if err =? NO_ERROR then ret tt
      else
        updated <- (if err =? ERROR_OBJECT_ALREADY_EXISTS
                    then rc <- SetUnicastIpAddressEntry row ;; ret (rc =? NO_ERROR)
                    else ret false) ;;
        if updated then ret tt else throw (RuntimeError "add_ip_address_on_if failed")
  end.

Definition get_best_route_to_generic (dest_ip : string) (ver : IpVersion)
  : M World (option MIB_IPFORWARD_ROW2) :=
  match (if is_V6 ver then inet_pton6 dest_ip else inet_pton4 dest_ip) with
  | None =>
      throw (InvalidArgument (if is_V6 ver then "get_best_route_to_generic: invalid IPv6"
                              else "get_best_route_to_generic: invalid IPv4"))
  | Some a => GetBestRoute2 (mkSockaddr (fam ver) a)
  end.

(** The selection loop of [fallback_default_route_excluding]. *)
Definition pick_default (exclude family : N) (tbl : list MIB_IPFORWARD_ROW2)
  : option MIB_IPFORWARD_ROW2 :=
  fold_left
    (fun best row =>
       if InterfaceLuid row =? exclude then best
       else if negb (si_family (DestinationPrefix row) =? family) then best
       else if negb (PrefixLength row =? 0) then best
       else match best with
            | None => Some row
            | Some b => if Metric row <? Metric b then Some row else best
            end)
    tbl None.

Definition fallback_default_route_excluding (exclude : N) (ver : IpVersion)
  : M World (option MIB_IPFORWARD_ROW2) :=
  tbl <- GetIpForwardTable2 (fam ver) ;;
  match tbl with
  | None => throw (RuntimeError "GetIpForwardTable2 failed")
  | Some t => ret (pick_default exclude (fam ver) t)
  end.

Definition host_prefix_length (ver : IpVersion) : N := if is_V6 ver then 128 else 32.

(** The test of the update loop: an entry of the family with a host
    prefix and the destination wanted. *)
Definition is_host_entry (ver : IpVersion) (dest : N) (row : MIB_IPFORWARD_ROW2) : bool :=
  (si_family (DestinationPrefix row) =? fam ver)
  && (PrefixLength row =? host_prefix_length ver)
  && (sin_addr (DestinationPrefix row) =? dest).

Definition add_or_update_host_route_via (host : string) (via : MIB_IPFORWARD_ROW2)
           (metric : N) (ver : IpVersion) : M World unit :=
  if negb (si_family (DestinationPrefix via) =? fam ver) then
    throw (InvalidArgument "add_or_update_host_route_via: family mismatch")
  else
    match (if is_V6 ver then inet_pton6 host else inet_pton4 host) with
    | None =>
        throw (InvalidArgument (if is_V6 ver
                                then "add_or_update_host_route_via: invalid IPv6"
                                else "add_or_update_host_route_via: invalid IPv4"))
    | Some a =>
        let next_hop := if si_family (NextHop via) =? fam ver then NextHop via
                        else mkSockaddr (fam ver) 0 in
        let desired := mkRow (InterfaceLuid via) 0 (mkSockaddr (fam ver) a)
                             (host_prefix_length ver) next_hop metric MIB_IPPROTO_NETMGMT in
        tbl <- GetIpForwardTable2 (fam ver) ;;
        match (match tbl with Some t => find (is_host_entry ver a) t | None => None end) with
        | Some row =>
            rc <- SetIpForwardEntry2
                    (mkRow (InterfaceLuid desired) (InterfaceIndex row) (DestinationPrefix row)
                           (PrefixLength row) (NextHop desired) (Metric desired)
                           MIB_IPPROTO_NETMGMT) ;;
            if negb (rc =? NO_ERROR) then
              throw (RuntimeError "SetIpForwardEntry2(/host) failed")
            else ret tt
        | None =>
            rc <- CreateIpForwardEntry2 desired ;;
            if (rc =? NO_ERROR) || (rc =? ERROR_OBJECT_ALREADY_EXISTS) then ret tt
            else if is_V6 ver then throw (RuntimeError "CreateIpForwardEntry2(v6 /128) failed")
            else
              let hop := sin_addr (NextHop desired) in
              let r := mkLegacyRow (sin_addr (DestinationPrefix desired)) 4294967295 0 hop
                                   (InterfaceIndex via) (if hop =? 0 then 3 else 4)
                                   MIB_IPPROTO_NETMGMT metric in
              rc2 <- CreateIpForwardEntry r ;;
              if negb ((rc2 =? NO_ERROR) || (rc2 =? ERROR_OBJECT_ALREADY_EXISTS)) then
                throw (RuntimeError "CreateIpForwardEntry(legacy v4 /32) failed")
              else ret tt
        end
    end.

Definition add_route_via_gateway (ifLuid : N) (prefix : string) (prefixLen : N)
           (gateway : string) (metric : N) (ver : IpVersion) : M World unit :=
  match (if is_V6 ver then inet_pton6 prefix else inet_pton4 prefix) with
  | None =>
      throw (InvalidArgument (if is_V6 ver then "add_route_via_gateway: invalid IPv6 prefix"
                              else "add_route_via_gateway: invalid IPv4 prefix"))
  | Some p =>
      match (if is_V6 ver then inet_pton6 gateway else inet_pton4 gateway) with
      | None =>
          throw (InvalidArgument (if is_V6 ver
                                  then "add_route_via_gateway: invalid IPv6 gateway"
                                  else "add_route_via_gateway: invalid IPv4 gateway"))
      | Some g =>
          err <- CreateIpForwardEntry2
                   (mkRow ifLuid 0 (mkSockaddr (fam ver) p) prefixLen
                          (mkSockaddr (fam ver) g) metric MIB_IPPROTO_NETMGMT) ;;
          if (err =? NO_ERROR) || (err =? ERROR_OBJECT_ALREADY_EXISTS) then ret tt
          else throw (RuntimeError "add_route_via_gateway failed")
      end
  end.

Definition add_onlink_host_route (ifLuid : N) (ip : string) (metric : N) (ver : IpVersion)
  : M World unit :=
  match (if is_V6 ver then inet_pton6 ip else inet_pton4 ip) with
  | None =>
      throw (InvalidArgument (if is_V6 ver then "add_onlink_host_route: invalid IPv6"
                              else "add_onlink_host_route: invalid IPv4"))
  | Some a =>
      err <- CreateIpForwardEntry2
               (mkRow ifLuid 0 (mkSockaddr (fam ver) a) (if is_V6 ver then 128 else 32)
                      (mkSockaddr (fam ver) 0) metric MIB_IPPROTO_NETMGMT) ;;
      if (err =? NO_ERROR) || (err =? ERROR_OBJECT_ALREADY_EXISTS) then ret tt
      else throw (RuntimeError "add_onlink_host_route failed")
  end.

Definition add_onlink_route (ifLuid : N) (prefix : string) (prefixLen metric : N)
           (ver : IpVersion) : M World unit :=
  match (if is_V6 ver then inet_pton6 prefix else inet_pton4 prefix) with
  | None =>
      throw (InvalidArgument (if is_V6 ver then "add_onlink_route: invalid IPv6 prefix"
                              else "add_onlink_route: invalid IPv4 prefix"))
  | Some p =>
      err <- CreateIpForwardEntry2
               (mkRow ifLuid 0 (mkSockaddr (fam ver) p) prefixLen
                      (mkSockaddr (fam ver) 0) metric MIB_IPPROTO_NETMGMT) ;;
      if (err =? NO_ERROR) || (err =? ERROR_OBJECT_ALREADY_EXISTS) then ret tt
      else throw (RuntimeError "add_onlink_route failed")
  end.

(** The pin step of [ConfigureNetwork]; returns [pinned]. *)
Definition pin_server (luid : N) (server_ip : string) (ver : IpVersion) : M World bool :=
  let server_is_v6 := is_v6_string server_ip in
  let need_pin := Bool.eqb (is_V6 ver) server_is_v6 in
  if need_pin then
    best0 <- get_best_route_to_generic server_ip ver ;;
    best <- (match best0 with
             | None => fallback_default_route_excluding luid ver
             | Some b => ret (Some b)
             end) ;;
    match best with
    | Some b =>
        add_or_update_host_route_via server_ip b 1 ver ;;;
        emit (LogPinned (fam ver) server_ip (InterfaceLuid b)) ;;;
        ret true
    | None => emit (LogNoRouteToServer (fam ver)) ;;; ret false
    end
  else emit LogPinNotNeeded ;;; ret false.

(** The activation step of [ConfigureNetwork]. *)
Definition activate_split_default (g : Globals) (luid : N) (ver : IpVersion) : M World unit :=
  (if is_V6 ver then
     add_route_via_gateway luid "::" 1 (g_PEER6 g) 1 V6 ;;;
     add_route_via_gateway luid "8000::" 1 (g_PEER6 g) 1 V6
   else
     add_route_via_gateway luid "0.0.0.0" 1 (g_PEER4 g) 1 V4 ;;;
     add_route_via_gateway luid "128.0.0.0" 1 (g_PEER4 g) 1 V4) ;;;
  emit (LogDefaultsActivated (fam ver)).

Definition ConfigureNetwork (adapter : WINTUN_ADAPTER_HANDLE) (server_ip : string)
           (ver : IpVersion) : M (Globals * World) unit :=
  match adapter with
  | None => throw (InvalidArgument "ConfigureNetwork: null adapter")
  | Some luid =>
      s <- get ;;
      let g := fst s in
      liftW (set_if_mtu luid (g_mtu g) ver) ;;;
      (if is_V6 ver then
         liftW (add_ip_address_on_if luid (g_LOCAL6 g) 64 V6) ;;;
         liftW (set_if_metric luid 1 V6)
       else
         liftW (add_ip_address_on_if luid (g_LOCAL4 g) 22 V4) ;;;
         liftW (set_if_metric luid 1 V4)) ;;;
      pinned <- liftW (pin_server luid server_ip ver) ;;
      if pinned then liftW (activate_split_default g luid ver) else ret tt
  end.

Definition set_LOCAL4 (v : string) (g : Globals) : Globals :=
  mkGlobals v (g_PEER4 g) (g_LOCAL6 g) (g_PEER6 g) (g_mtu g).
Definition set_PEER4 (v : string) (g : Globals) : Globals :=
  mkGlobals (g_LOCAL4 g) v (g_LOCAL6 g) (g_PEER6 g) (g_mtu g).
Definition set_LOCAL6 (v : string) (g : Globals) : Globals :=
  mkGlobals (g_LOCAL4 g) (g_PEER4 g) v (g_PEER6 g) (g_mtu g).
Definition set_PEER6 (v : string) (g : Globals) : Globals :=
  mkGlobals (g_LOCAL4 g) (g_PEER4 g) (g_LOCAL6 g) v (g_mtu g).
Definition set_mtu (v : N) (g : Globals) : Globals :=
  mkGlobals (g_LOCAL4 g) (g_PEER4 g) (g_LOCAL6 g) (g_PEER6 g) v.

Definition is_empty (s : string) : bool := String.eqb s "".

Definition SetAddressPlan (plan : AddressPlan) : M Globals unit :=
  (if negb (is_empty (local4 plan)) then
     match inet_pton4 (local4 plan) with
     | None => throw (InvalidArgument "Network::SetAddressPlan: invalid local4")
     | Some _ => modify (set_LOCAL4 (local4 plan))
     end
   else ret tt) ;;;
  (if negb (is_empty (peer4 plan)) then
     match inet_pton4 (peer4 plan) with
     | None => throw (InvalidArgument "Network::SetAddressPlan: invalid peer4")
     | Some _ => modify (set_PEER4 (peer4 plan))
     end
   else ret tt) ;;;
  (if negb (is_empty (local6 plan)) then
     match inet_pton6 (local6 plan) with
     | None => throw (InvalidArgument "Network::SetAddressPlan: invalid local6")
     | Some _ => modify (set_LOCAL6 (local6 plan))
     end
   else ret tt) ;;;
  (if negb (is_empty (peer6 plan)) then
     match inet_pton6 (peer6 plan) with
     | None => throw (InvalidArgument "Network::SetAddressPlan: invalid peer6")
     | Some _ => modify (set_PEER6 (peer6 plan))
     end
   else ret tt) ;;;
  (if negb (mtu plan =? 0) then
     if (mtu plan <? 576) || (9000 <? mtu plan) then
       throw (InvalidArgument "Network::SetAddressPlan: invalid MTU")
     else modify (set_mtu (mtu plan))
   else ret tt).

End Api.
End Network.


(** ** The rollback record (Core/Client/NetworkRollback.cpp) *)
Module NetworkRollback.
Import IpHelper.
Local Open Scope N_scope.

(** [struct Snapshot] *)
Record Snapshot : Type := mkSnapshot {
  luid : N;
  have_v4 : bool;
  have_v6 : bool;
  v4_auto_metric : bool;
  v4_metric : N;
  v4_mtu : N;
  v6_auto_metric : bool;
  v6_metric : N;
  v6_mtu : N
}.

(** The data members of [class NetworkRollback]. *)
Record NetworkRollback : Type := mkNetworkRollback {
  snap_ : Snapshot;
  server_ip_ : string;
  captured_ : bool
}.

Definition load_ip_if_row (family luid_ : N) : M World (option MIB_IPINTERFACE_ROW) :=
  GetIpInterfaceEntry family luid_.

(** [save_iface]: the three values read, or [None] when the row cannot
    be loaded (the out-parameters are then left as they were). *)
Definition save_iface (family luid_ : N) : M World (option (bool * N * N)) :=
  got <- load_ip_if_row family luid_ ;;
  match got with
  | None => ret None
  | Some row => ret (Some (UseAutomaticMetric row, IfMetric row, NlMtu row))
  end.

Definition tolerated (rc : N) : bool := (rc =? NO_ERROR) || (rc =? ERROR_INVALID_PARAMETER).

Definition restore_iface (family luid_ : N) (autoMetric : bool) (metric mtu : N)
  : M World bool :=
  got <- load_ip_if_row family luid_ ;;
  match got with
  | None => ret false
  | Some row =>
      rc1 <- SetIpInterfaceEntry family luid_ (mkIfRow autoMetric metric (NlMtu row)) ;;
      got2 <- load_ip_if_row family luid_ ;;
      match got2 with
      | None => ret (rc1 =? NO_ERROR)
      | Some row2 =>
          rc2 <- SetIpInterfaceEntry family luid_
                   (mkIfRow (UseAutomaticMetric row2) (IfMetric row2) mtu) ;;
          ret (tolerated rc1 && tolerated rc2)
      end
  end.

(** The deletion loop of [delete_routes_where]; [ok] is the flag so far. *)
Fixpoint delete_all (toDel : list MIB_IPFORWARD_ROW2) (ok : bool) : M World bool :=
  match toDel with
  | [] => ret ok
  | r :: rest =>
      rc2 <- DeleteIpForwardEntry2 r ;;
      delete_all rest (if negb (rc2 =? NO_ERROR) then false else ok)
  end.

Definition delete_routes_where (family : N) (pred : MIB_IPFORWARD_ROW2 -> bool)
  : M World bool :=
  tbl <- GetIpForwardTable2 family ;;
  match tbl with
  | None => ret false
  | Some t => delete_all (filter pred t) true
  end.

Section Api.
Context {P : InetPton}.

(** The value an address variable holds after [InetPtonA] ran on it: the
    parsed address, or the zero it was initialised with. *)
Definition parsed_or_zero (r : option N) : N :=
  match r with Some a => a | None => 0 end.

Definition is_split_default_v4 (this : NetworkRollback) (r : MIB_IPFORWARD_ROW2) : bool :=
  if negb (InterfaceLuid r =? luid (snap_ this)) then false
  else if negb (Protocol r =? MIB_IPPROTO_NETMGMT) then false
  else if negb (si_family (DestinationPrefix r) =? AF_INET) then false
  else if negb (PrefixLength r =? 1) then false
  else
    let zero := parsed_or_zero (inet_pton4 "0.0.0.0") in
    let one28 := parsed_or_zero (inet_pton4 "128.0.0.0") in
    let dst := sin_addr (DestinationPrefix r) in
    (dst =? zero) || (dst =? one28).

Definition is_split_default_v6 (this : NetworkRollback) (r : MIB_IPFORWARD_ROW2) : bool :=
  if negb (InterfaceLuid r =? luid (snap_ this)) then false
  else if negb (Protocol r =? MIB_IPPROTO_NETMGMT) then false
  else if negb (si_family (DestinationPrefix r) =? AF_INET6) then false
  else if negb (PrefixLength r =? 1) then false
  else
    let zero6 := parsed_or_zero (inet_pton6 "::") in
    let eight6 := parsed_or_zero (inet_pton6 "8000::") in
    let dst := sin_addr (DestinationPrefix r) in
    (dst =? zero6) || (dst =? eight6).

Definition is_pinned_route (family hostlen dst : N) (r : MIB_IPFORWARD_ROW2) : bool :=
  if negb (Protocol r =? MIB_IPPROTO_NETMGMT) then false
  else if negb (si_family (DestinationPrefix r) =? family) then false
  else if negb (PrefixLength r =? hostlen) then false
  else sin_addr (DestinationPrefix r) =? dst.

Definition CaptureBaseline_ (this : NetworkRollback) : M World NetworkRollback :=
  s4 <- save_iface AF_INET (luid (snap_ this)) ;;
  s6 <- save_iface AF_INET6 (luid (snap_ this)) ;;
  let sn := snap_ this in
  let sn4 := match s4 with
             | Some (a, m, t) =>
                 mkSnapshot (luid sn) true (have_v6 sn) a m t
                            (v6_auto_metric sn) (v6_metric sn) (v6_mtu sn)
             | None => sn
             end in
  let sn6 := match s6 with
             | Some (a, m, t) =>
                 mkSnapshot (luid sn4) (have_v4 sn4) true (v4_auto_metric sn4)
                            (v4_metric sn4) (v4_mtu sn4) a m t
             | None => sn4
             end in
  match s4, s6 with
  | None, None => throw (RuntimeError "NetworkRollback: failed to capture baseline (v4/v6)")
  | _, _ => ret (mkNetworkRollback sn6 (server_ip_ this) true)
  end.

(** The constructor: the member initialisers, then [CaptureBaseline_]. *)
Definition NetworkRollback_ctor (if_luid : N) (server_ip : string) : M World NetworkRollback :=
  CaptureBaseline_
    (mkNetworkRollback (mkSnapshot if_luid false false true 0 0 true 0 0) server_ip false).

Definition RemoveSplitDefaults_ (this : NetworkRollback) : M World unit :=
  emit LogRemoveSplitDefaultsBegin ;;;
  ok4 <- delete_routes_where AF_INET (is_split_default_v4 this) ;;
  ok6 <- delete_routes_where AF_INET6 (is_split_default_v6 this) ;;
  if negb ok4 && negb ok6 then
    throw (RuntimeError "NetworkRollback: failed to remove split-default routes")
  else ret tt.

Definition RemovePinnedRouteToServer_ (this : NetworkRollback) : M World unit :=
  if String.eqb (server_ip_ this) "" then emit LogRemovePinnedSkip
  else
    emit (LogRemovePinnedBegin (server_ip_ this)) ;;;
    match inet_pton4 (server_ip_ this) with
    | Some dst4 =>
        ok4 <- delete_routes_where AF_INET (is_pinned_route AF_INET 32 dst4) ;;
        if negb ok4 then throw (RuntimeError "NetworkRollback: failed to remove pinned IPv4 route")
        else ret tt
    | None =>
        match inet_pton6 (server_ip_ this) with
        | Some dst6 =>
            ok6 <- delete_routes_where AF_INET6 (is_pinned_route AF_INET6 128 dst6) ;;
            if negb ok6 then
              throw (RuntimeError "NetworkRollback: failed to remove pinned IPv6 route")
            else ret tt
        | None =>
            throw (InvalidArgument
                     "NetworkRollback: server_ip is not a valid IPv4/IPv6 address")
        end
    end.

Definition RestoreBaseline_ (this : NetworkRollback) : M World unit :=
  emit LogRestoreBaselineBegin ;;;
  let sn := snap_ this in
  ok4 <- (if have_v4 sn
          then restore_iface AF_INET (luid sn) (v4_auto_metric sn) (v4_metric sn) (v4_mtu sn)
          else ret true) ;;
  ok6 <- (if have_v6 sn
          then restore_iface AF_INET6 (luid sn) (v6_auto_metric sn) (v6_metric sn) (v6_mtu sn)
          else ret true) ;;
  if negb (ok4 && ok6) then
    throw (RuntimeError "NetworkRollback: failed to restore interface metrics/mtu")
  else ret tt.

Definition Revert_without_baseline : exn :=
  LogicError "NetworkRollback::Revert called without baseline".

Definition Revert_failed : exn :=
  RuntimeError "NetworkRollback::Revert: one or more operations failed".

(** [try { step } catch (...) { LOGE ...; error = true; }] *)
Definition guarded (step : M World unit) (label : string) (error : bool) : M World bool :=
  try_catch (step ;;; ret error) (emit (LogRevertStepFailed label) ;;; ret true).

Definition Revert : M (NetworkRollback * World) unit :=
  s <- get ;;
  let this := fst s in
  if negb (captured_ this) then throw Revert_without_baseline
  else
    e1 <- liftW (guarded (RemoveSplitDefaults_ this) "RemoveSplitDefaults_" false) ;;
    e2 <- liftW (guarded (RemovePinnedRouteToServer_ this) "RemovePinnedRouteToServer_" e1) ;;
    e3 <- liftW (guarded (RestoreBaseline_ this) "RestoreBaseline_" e2) ;;
    modify (fun s' => (mkNetworkRollback (snap_ (fst s')) (server_ip_ (fst s')) false,
                       snd s')) ;;;
    if e3 then throw Revert_failed else ret tt.

End Api.
End NetworkRollback.


(** ** The lifecycle worker (Core/Client/Client.cpp) *)
Module Client.
Local Open Scope Z_scope.

(** The fields [ClientMain] requires of the JSON configuration. *)
Record Config : Type := mkConfig {
  tun : string;
  server : string;
  port : Z;
  plugin : string;
  local4 : string;
  peer4 : string;
  local6 : string;
  peer6 : string;
  mtu : Z;
  dns : list string
}.

Fixpoint last_char (s : string) : option ascii :=
  match s with
  | EmptyString => None
  | String c EmptyString => Some c
  | String _ s' => last_char s'
  end.

Definition strip_brackets (s : string) : string :=
  match s, last_char s with
  | String "[" _, Some "]"%char => String.substring 1 (String.length s - 2) s
  | _, _ => s
  end.

Definition utf8_to_wide (s : string) : string := s.

(** [std::set<std::wstring>::insert]: a sorted container without
    duplicates. *)
Fixpoint set_insert (x : string) (l : list string) : list string :=
  match l with
  | [] => [x]
  | y :: l' =>
      if String.eqb x y then l
      else if String.ltb x y then x :: l
      else y :: set_insert x l'
  end.

(** [getaddrinfo] is given as a function: [None] when the call fails,
    else the addresses of the answer as [InetNtopW] prints them. *)
Definition ResolveFirewallAddressesW (getaddrinfo : string -> option (list string))
           (host : string) : string :=
  let h := strip_brackets host in
  match getaddrinfo h with
  | None => utf8_to_wide h
  | Some answers =>
      let uniq := fold_left (fun u a => set_insert a u) answers [] in
      match uniq with
      | [] => utf8_to_wide h
      | _ =>
          fold_left (fun out it =>
                       let out1 := if negb (String.eqb out "") then ","%string else out in
                       let out2 := it in
                       out2)
                    uniq EmptyString
      end
  end.

(** The characters [trim_copy] strips: space, tab, CR, LF. *)
Definition is_blank (c : ascii) : bool :=
  Ascii.eqb c " " || Ascii.eqb c "009" || Ascii.eqb c "013" || Ascii.eqb c "010".

(** [s.find_first_not_of(" \t\r\n")], counting from [i]. *)
Fixpoint find_first_not_of (s : string) (i : nat) : option nat :=
  match s with
  | EmptyString => None
  | String c s' => if is_blank c then find_first_not_of s' (S i) else Some i
  end.

(** [s.find_last_not_of(" \t\r\n")], counting from [i]. *)
Fixpoint find_last_not_of (s : string) (i : nat) : option nat :=
  match s with
  | EmptyString => None
  | String c s' =>
      match find_last_not_of s' (S i) with
      | Some j => Some j
      | None => if is_blank c then None else Some i
      end
  end.

(** The lambda [trim_copy] of [ClientMain]. *)
Definition trim_copy (s : string) : string :=
  match find_first_not_of s 0 with
  | None => EmptyString
  | Some b =>
      match find_last_not_of s 0 with
      | Some e => String.substring b (e - b + 1) s
      | None => EmptyString
      end
  end.

(** [if (!tok.empty()) dns_cli.emplace_back(tok)] *)
Definition push_token (tok : string) (out : list string) : list string :=
  if String.eqb tok "" then out else out ++ [tok].

(** The loop over a "dns" field given as one string: [v] is what is left
    after [start], [tok] the characters since [start] up to the scan
    position, [out] the vector so far. *)
Fixpoint split_dns (v tok : string) (out : list string) : list string :=
  match v with
  | EmptyString => push_token (trim_copy tok) out
  | String c v' =>
      if Ascii.eqb c "," then split_dns v' EmptyString (push_token (trim_copy tok) out)
      else split_dns v' (tok ++ String c EmptyString) out
  end.

(** The "dns" field: an array of strings, or one comma-separated string. *)
Inductive DnsField : Type :=
| DnsArray (items : list string)
| DnsString (v : string).

Definition parse_dns (f : DnsField) : list string :=
  match f with
  | DnsArray items => fold_left (fun out x => push_token (trim_copy x) out) items []
  | DnsString v => split_dns v EmptyString []
  end.

(** The "basic validation" block of [ClientMain]. *)
Definition validate {S} (c : Config) : M S unit :=
  if String.eqb (server c) "" then throw (RuntimeError "'server' cannot be empty")
  else if (port c <=? 0) || (65535 <? port c) then
         throw (RuntimeError "'port' must be in [1..65535]")
  else if (mtu c <? 576) || (9200 <? mtu c) then
         throw (RuntimeError "'mtu' must be in [576..9200]")
  else ret tt.

(** Conversions of an [int] to [std::uint16_t] and to [unsigned long]. *)
Definition to_uint16 (z : Z) : N := Z.to_N (z mod 65536).
Definition to_ulong (z : Z) : N := Z.to_N (z mod 4294967296).

(** What the worker finds around it besides the three OS subsystems. *)
Record Env : Type := mkEnv {
  elevated : bool;
  wintun_loads : bool;
  wsa_starts : bool;
  module_path : option string;
  getaddrinfo : string -> option (list string);
  plugin_loads : bool;
  adapter_luid : option N
}.

(** The state the worker acts on: the three sides of the OS and the
    address plan variables of [Network]. *)
Record Machine : Type := mkMachine {
  fw_world : Firewall.World;
  reg_world : DNS.World;
  ip_world : IpHelper.World;
  globals : Network.Globals
}.

Definition on_fw {O A} (m : M (O * Firewall.World) A) (o : O) : M Machine (A * O) :=
  fun h => let '(r, (o', w')) := m (o, fw_world h) in
           let h' := mkMachine w' (reg_world h) (ip_world h) (globals h) in
           match r with
           | Returns a => (Returns (a, o'), h')
           | Throws e => (Throws e, h')
           end.

Definition on_reg {O A} (m : M (O * DNS.World) A) (o : O) : M Machine (A * O) :=
  fun h => let '(r, (o', w')) := m (o, reg_world h) in
           let h' := mkMachine (fw_world h) w' (ip_world h) (globals h) in
           match r with
           | Returns a => (Returns (a, o'), h')
           | Throws e => (Throws e, h')
           end.

Definition on_ip {A} (m : M IpHelper.World A) : M Machine A :=
  fun h => let '(r, w') := m (ip_world h) in
           (r, mkMachine (fw_world h) (reg_world h) w' (globals h)).

Definition on_globals {A} (m : M Network.Globals A) : M Machine A :=
  fun h => let '(r, g') := m (globals h) in
           (r, mkMachine (fw_world h) (reg_world h) (ip_world h) g').

(** The objects alive when the worker reaches the session. *)
Record Session : Type := mkSession {
  s_server_ip : string;
  s_luid : N;
  s_fw : Firewall.FirewallRules;
  s_rollback : NetworkRollback.NetworkRollback;
  s_dns : DNS.DNS
}.

Inductive Status : Type :=
| Exit (code : Z)
| Serving (session : Session).

(** [~FirewallRules]: [Revert] with every exception swallowed. *)
Definition destroy_fw (fw : Firewall.FirewallRules) : M Machine unit :=
  r <- on_fw (try_catch Firewall.Revert (ret tt)) fw ;; ret tt.

Section Worker.
Context {P : InetPton}.

(** The [reapply] closure handed to the watcher. *)
Definition reapply (adapter : Network.WINTUN_ADAPTER_HANDLE) (server_ip : string)
  : M (Network.Globals * IpHelper.World) unit :=
  v4_ok <- try_catch (Network.ConfigureNetwork adapter server_ip Network.V4 ;;; ret true)
                     (ret false) ;;
  v6_ok <- try_catch (Network.ConfigureNetwork adapter server_ip Network.V6 ;;; ret true)
                     (ret false) ;;
  ret tt.

(** [ClientMain] from its entry to the construction of the watcher, the
    configuration being parsed already. *)
Definition ClientMain_init (env : Env) (c : Config) : M Machine Status :=
  if negb (elevated env) then ret (Exit 1)
  else
    validate c ;;;
    let server_ip := strip_brackets (server c) in
    if negb (wintun_loads env) then ret (Exit 1)
    else if negb (wsa_starts env) then ret (Exit 1)
    else
      match module_path env with
      | None => throw (RuntimeError "GetModuleFileNameW failed")
      | Some exe_path_w =>
          let fw_addrs_w := ResolveFirewallAddressesW (getaddrinfo env) server_ip in
          let cfg := Firewall.mkClientRule "FlowForge" exe_path_w fw_addrs_w in
          let fw0 := Firewall.FirewallRules_ctor cfg in
          a <- on_fw (Firewall.Allow Firewall.TCP (to_uint16 (port c))) fw0 ;;
          let fw := snd a in
          if negb (plugin_loads env) then destroy_fw fw ;;; ret (Exit 1)
          else
            match adapter_luid env with
            | None => destroy_fw fw ;;; ret (Exit 1)
            | Some luid =>
                let plan := Network.mkAddressPlan (local4 c) (peer4 c) (local6 c) (peer6 c)
                                                  (to_ulong (mtu c)) in
                on_globals (Network.SetAddressPlan plan) ;;;
                rollback <- on_ip (NetworkRollback.NetworkRollback_ctor luid server_ip) ;;
                d <- on_reg (DNS.Apply (dns c)) (DNS.DNS_ctor luid) ;;
                ret (Serving (mkSession server_ip luid fw rollback (snd d)))
            end
      end.

End Worker.
End Client.


(** ** The watcher of network changes (Core/Client/NetWatcher.cpp) *)
Module NetWatcher.
Local Open Scope N_scope.

(** The data members of [class NetWatcher] besides [reapply_]; a handle
    is a number, [None] is [nullptr]. *)
Record NetWatcher : Type := mkNetWatcher {
  h_stop_ : option N;
  h_kick_ : option N;
  h_thread_ : option N;
  h_if_notif_ : option N;
  h_route_notif_ : option N;
  debounce_ms_ : N;
  started_ : bool;
  suppress_until_ms_ : N
}.

(** The kernel objects the watcher deals with: the open event and thread
    handles, the registered change notifications, the events that were
    set, the handle the next successful creation returns, the clock
    ([GetTickCount64]) and one flag per fallible call still to come. *)
Record World : Type := mkWorld {
  handles : list N;
  notifications : list N;
  signaled : list N;
  next_handle : N;
  now_ms : N;
  faults : list bool
}.

Definition os_call : M World bool :=
  fun w => match faults w with
           | [] => (Returns false, w)
           | f :: fs => (Returns f, mkWorld (handles w) (notifications w) (signaled w)
                                            (next_handle w) (now_ms w) fs)
           end.

Definition without (h : N) (l : list N) : list N := filter (fun x => negb (x =? h)) l.

(** [CreateEventW] and [CreateThread]: a new handle, or null. *)
Definition create_handle : M World (option N) :=
  failed <- os_call ;;
  if failed then ret None
  else
    w <- get ;;
    put (mkWorld (handles w ++ [next_handle w]) (notifications w) (signaled w)
                 (next_handle w + 1) (now_ms w) (faults w)) ;;;
    ret (Some (next_handle w)).

Definition CreateEventW : M World (option N) := create_handle.
Definition CreateThread : M World (option N) := create_handle.

Definition CloseHandle (h : N) : M World unit :=
  modify (fun w => mkWorld (without h (handles w)) (notifications w) (signaled w)
                           (next_handle w) (now_ms w) (faults w)).

(** [NotifyIpInterfaceChange] and [NotifyRouteChange2]: the handle of the
    registration, or [None] when the call does not answer [NO_ERROR]. *)
Definition notify_change : M World (option N) :=
  failed <- os_call ;;
  if failed then ret None
  else
    w <- get ;;
    put (mkWorld (handles w) (notifications w ++ [next_handle w]) (signaled w)
                 (next_handle w + 1) (now_ms w) (faults w)) ;;;
    ret (Some (next_handle w)).

Definition NotifyIpInterfaceChange : M World (option N) := notify_change.
Definition NotifyRouteChange2 : M World (option N) := notify_change.

Definition CancelMibChangeNotify2 (h : N) : M World unit :=
  modify (fun w => mkWorld (handles w) (without h (notifications w)) (signaled w)
                           (next_handle w) (now_ms w) (faults w)).

Definition SetEvent (h : N) : M World unit :=
  modify (fun w => mkWorld (handles w) (notifications w) (signaled w ++ [h])
                           (next_handle w) (now_ms w) (faults w)).

(** [WaitForSingleObject(h_thread_, INFINITE)]: the worker has seen the
    stop event and returned. *)
Definition WaitForSingleObject (h : N) : M World unit := ret tt.

Definition NowMs : M World N := w <- get ;; ret (now_ms w).

(** Assignments to the members. *)
Definition set_events (hs hk : option N) (this : NetWatcher) : NetWatcher :=
  mkNetWatcher hs hk (h_thread_ this) (h_if_notif_ this) (h_route_notif_ this)
               (debounce_ms_ this) (started_ this) (suppress_until_ms_ this).
Definition set_if_notif (h : option N) (this : NetWatcher) : NetWatcher :=
  mkNetWatcher (h_stop_ this) (h_kick_ this) (h_thread_ this) h (h_route_notif_ this)
               (debounce_ms_ this) (started_ this) (suppress_until_ms_ this).
Definition set_route_notif (h : option N) (this : NetWatcher) : NetWatcher :=
  mkNetWatcher (h_stop_ this) (h_kick_ this) (h_thread_ this) (h_if_notif_ this) h
               (debounce_ms_ this) (started_ this) (suppress_until_ms_ this).
Definition set_thread (h : option N) (this : NetWatcher) : NetWatcher :=
  mkNetWatcher (h_stop_ this) (h_kick_ this) h (h_if_notif_ this) (h_route_notif_ this)
               (debounce_ms_ this) (started_ this) (suppress_until_ms_ this).
Definition set_started (b : bool) (this : NetWatcher) : NetWatcher :=
  mkNetWatcher (h_stop_ this) (h_kick_ this) (h_thread_ this) (h_if_notif_ this)
               (h_route_notif_ this) (debounce_ms_ this) b (suppress_until_ms_ this).
Definition set_suppress_until (t : N) (this : NetWatcher) : NetWatcher :=
  mkNetWatcher (h_stop_ this) (h_kick_ this) (h_thread_ this) (h_if_notif_ this)
               (h_route_notif_ this) (debounce_ms_ this) (started_ this) t.

Definition update (f : NetWatcher -> NetWatcher) : M (NetWatcher * World) unit :=
  modify (fun s => (f (fst s), snd s)).

(** [if (h) CloseHandle(h)] *)
Definition close_if (h : option N) : M World unit :=
  match h with Some x => CloseHandle x | None => ret tt end.

Definition StartCore : M (NetWatcher * World) unit :=
  s <- get ;;
  if started_ (fst s) then throw (LogicError "NetWatcher already started")
  else
    h_stop <- liftW CreateEventW ;;
    h_kick <- liftW CreateEventW ;;
    match h_stop, h_kick with
    | Some hs, Some hk =>
        update (set_events (Some hs) (Some hk)) ;;;
        h_if <- liftW NotifyIpInterfaceChange ;;
        match h_if with
        | None =>
            liftW (CloseHandle hs) ;;; liftW (CloseHandle hk) ;;;
            update (set_events None None) ;;;
            throw (RuntimeError "NotifyIpInterfaceChange failed")
        | Some hi =>
            update (set_if_notif (Some hi)) ;;;
            h_route <- liftW NotifyRouteChange2 ;;
            match h_route with
            | None =>
                liftW (CancelMibChangeNotify2 hi) ;;;
                liftW (CloseHandle hs) ;;; liftW (CloseHandle hk) ;;;
                update (set_events None None) ;;;
                update (set_if_notif None) ;;;
                throw (RuntimeError "NotifyRouteChange2 failed")
            | Some hr =>
                update (set_route_notif (Some hr)) ;;;
                th <- liftW CreateThread ;;
                match th with
                | None =>
                    liftW (CancelMibChangeNotify2 hi) ;;;
                    liftW (CancelMibChangeNotify2 hr) ;;;
                    liftW (CloseHandle hs) ;;; liftW (CloseHandle hk) ;;;
                    update (set_events None None) ;;;
                    update (set_if_notif None) ;;;
                    update (set_route_notif None) ;;;
                    throw (RuntimeError "CreateThread failed")
                | Some t =>
                    update (set_thread (Some t)) ;;;
                    update (set_started true)
                end
            end
        end
    | _, _ =>
        liftW (close_if h_stop) ;;; liftW (close_if h_kick) ;;;
        throw (RuntimeError "CreateEventW failed")
    end.

Definition StopCore : M (NetWatcher * World) unit :=
  s <- get ;;
  if negb (started_ (fst s)) then ret tt
  else
    (match h_if_notif_ (fst s) with
     | Some h => liftW (CancelMibChangeNotify2 h) ;;; update (set_if_notif None)
     | None => ret tt
     end) ;;;
    (match h_route_notif_ (fst s) with
     | Some h => liftW (CancelMibChangeNotify2 h) ;;; update (set_route_notif None)
     | None => ret tt
     end) ;;;
    (match h_stop_ (fst s) with Some h => liftW (SetEvent h) | None => ret tt end) ;;;
    (match h_thread_ (fst s) with
     | Some h => liftW (WaitForSingleObject h) ;;; liftW (CloseHandle h) ;;;
                 update (set_thread None)
     | None => ret tt
     end) ;;;
    s1 <- get ;;
    (match h_stop_ (fst s1) with
     | Some h => liftW (CloseHandle h) ;;; update (set_events None (h_kick_ (fst s1)))
     | None => ret tt
     end) ;;;
    s2 <- get ;;
    (match h_kick_ (fst s2) with
     | Some h => liftW (CloseHandle h) ;;; update (set_events (h_stop_ (fst s2)) None)
     | None => ret tt
     end) ;;;
    update (set_started false).

(** The constructor: the member initialisers, then [StartCore]. *)
Definition NetWatcher_ctor (debounce : N) : M World NetWatcher :=
  fun w => let '(r, s) := StartCore (mkNetWatcher None None None None None debounce false 0, w) in
           match r with
           | Returns _ => (Returns (fst s), snd s)
           | Throws e => (Throws e, snd s)
           end.

(** The destructor: [StopCore] with every exception swallowed. *)
Definition NetWatcher_dtor : M (NetWatcher * World) unit := try_catch StopCore (ret tt).

Definition Kick : M (NetWatcher * World) unit :=
  s <- get ;;
  now <- liftW NowMs ;;
  if now <? suppress_until_ms_ (fst s) then ret tt
  else match h_kick_ (fst s) with Some h => liftW (SetEvent h) | None => ret tt end.

Definition Suppress (dur : N) : M (NetWatcher * World) unit :=
  now <- liftW NowMs ;;
  update (set_suppress_until (now + dur)).

(** What [WaitForMultipleObjects] on the stop and kick events answers:
    [WAIT_OBJECT_0], [WAIT_OBJECT_0 + 1], [WAIT_TIMEOUT], or anything else. *)
Inductive WaitResult : Type := WAIT_STOP | WAIT_KICK | WAIT_TIMEOUT | WAIT_OTHER.

(** How a run of the worker ends: it returned, or it is still waiting
    when the answers known of the OS are used up. *)
Inductive ThreadEnd : Type := Exited | Waiting.

(** [ThreadMain] over the answers of its waits, each with the clock at
    that moment.  [debouncing] tells the inner loop (the wait with the
    debounce timeout) from the outer one; [reapply] acts on a state of its
    own, the watcher being the first component of the pair. *)
Fixpoint ThreadMain_from {S} (reapply : option (M S unit)) (debouncing : bool)
         (script : list (WaitResult * N)) : M (NetWatcher * S) ThreadEnd :=
  match script with
  | [] => ret Waiting
  | (dw, now) :: rest =>
      if negb debouncing then
        match dw with
        | WAIT_STOP => ret Exited
        | WAIT_KICK => ThreadMain_from reapply true rest
        | _ => ThreadMain_from reapply false rest
        end
      else
        match dw with
        | WAIT_STOP => ret Exited
        | WAIT_TIMEOUT =>
            try_catch
              (match reapply with
               | Some f =>
                   s <- get ;;
                   modify (fun s' => (set_suppress_until (now + debounce_ms_ (fst s)) (fst s'),
                                      snd s')) ;;;
                   liftW f
               | None => ret tt
               end)
              (ret tt) ;;;
            ThreadMain_from reapply false rest
        | WAIT_KICK => ThreadMain_from reapply true rest
        | WAIT_OTHER => ThreadMain_from reapply false rest
        end
  end.

Definition ThreadMain {S} (reapply : option (M S unit)) (script : list (WaitResult * N))
  : M (NetWatcher * S) ThreadEnd :=
  ThreadMain_from reapply false script.

End NetWatcher.


(** ** Scenario 1 of the specification: clean start, IPv4-only server *)
Module Scenario1.
Import IpHelper.
Local Open Scope N_scope.

Definition config : Client.Config :=
  Client.mkConfig "cvpn0" "198.51.100.7" 5555 "./libPlugSRT.so"
                  "10.200.0.2" "10.200.0.1" "fd00::2" "fd00::1" 1400
                  ["10.200.0.1"; "1.1.1.1"]%string.

(** The tunnel adapter and the physical interface. *)
Definition tun_luid : N := 7.
Definition nic_luid : N := 3.
Definition nic_index : N := 12.

Definition guid : string := "{BAF1C3A1-5175-4A68-9B4B-2C3D6F1F0011}".

(** A resolver that answers a literal with the literal itself. *)
Definition getaddrinfo (h : string) : option (list string) :=
  match RefParser.pton4 h, RefParser.pton6 h with
  | None, None => None
  | _, _ => Some [h]
  end.

Definition env : Client.Env :=
  Client.mkEnv true true true (Some "C:\FlowForge\Client.exe"%string) getaddrinfo true
               (Some tun_luid).

(** Default routes through the physical interface: 0.0.0.0/0 via
    192.168.1.1 and ::/0 via fe80::1. *)
Definition default4 : MIB_IPFORWARD_ROW2 :=
  mkRow nic_luid nic_index (mkSockaddr AF_INET 0) 0 (mkSockaddr AF_INET 3232235777) 25 3.
Definition default6 : MIB_IPFORWARD_ROW2 :=
  mkRow nic_luid nic_index (mkSockaddr AF_INET6 0) 0
        (mkSockaddr AF_INET6 338288524927261089654018896841347694593) 25 3.

Definition ip_world : World :=
  mkWorld (fun f l => if l =? tun_luid then Some (mkIfRow true 5 1500) else None)
          []
          [[default4; default6]]
          (fun dst => if si_family dst =? AF_INET then Some default4 else Some default6)
          (fun _ => nic_luid)
          []
          [].

(** Both interface keys exist; IPv4 has a previous [NameServer]. *)
Definition registry (k : string) : option (option DNS.regval) :=
  if String.eqb k (DNS.BasePathForAf DNS.AF_INET ++ guid)%string
  then Some (Some (DNS.REG_SZ "192.168.1.1"))
  else if String.eqb k (DNS.BasePathForAf DNS.AF_INET6 ++ guid)%string
  then Some None
  else None.

Definition reg_world : DNS.World :=
  DNS.mkWorld registry (fun l => if l =? tun_luid then Some guid else None) [] [].

Definition fw_world : Firewall.World := Firewall.mkWorld [] [] [].

Definition machine : Client.Machine :=
  Client.mkMachine fw_world reg_world ip_world Network.initial_globals.

(** The run of the worker up to the session, and the state it leaves. *)
Definition started : outcome Client.Status * Client.Machine :=
  @Client.ClientMain_init RefParser.parser env config machine.

(** The first [reapply] of the watcher on that state. *)
Definition configured : outcome unit * (Network.Globals * World) :=
  @Client.reapply RefParser.parser (Some tun_luid) "198.51.100.7"
                  (Client.globals (snd started), Client.ip_world (snd started)).

(** The same configuration with another MTU. *)
Definition with_mtu (m : Z) : Client.Config :=
  Client.mkConfig "cvpn0" "198.51.100.7" 5555 "./libPlugSRT.so"
                  "10.200.0.2" "10.200.0.1" "fd00::2" "fd00::1" m
                  ["10.200.0.1"; "1.1.1.1"]%string.

(** The objects of the session: the firewall rules after the [Allow] of
    the worker, the rollback record with its baseline, the DNS object
    before [Apply]. *)
Definition rule : Firewall.ClientRule :=
  Firewall.mkClientRule "FlowForge" "C:\FlowForge\Client.exe" "198.51.100.7".

Definition fw : Firewall.FirewallRules :=
  fst (snd (Firewall.Allow Firewall.TCP 5555 (Firewall.FirewallRules_ctor rule, fw_world))).

Definition rollback : NetworkRollback.NetworkRollback :=
  NetworkRollback.mkNetworkRollback
    (NetworkRollback.mkSnapshot tun_luid true true true 5 1500 true 5 1500)
    "198.51.100.7" true.

Definition resolver : DNS.DNS := DNS.DNS_ctor tun_luid.

(** Server lists besides the one of the configuration: one with an
    element that is no address, one with an address of each family. *)
Definition bad_servers : list string := ["10.200.0.1"; "dns.example"]%string.
Definition other_servers : list string := ["9.9.9.9"; "2001:db8::1"]%string.

End Scenario1.


(** ** Vocabulary of the statements *)

(** [post m s Q]: running [m] from [s] ends, by return or by throw, in
    an outcome and a state that satisfy [Q]. *)
Definition post {S A} (m : M S A) (s : S) (Q : outcome A -> S -> Prop) : Prop :=
  Q (fst (m s)) (snd (m s)).

Module FirewallSpec.
Import Firewall.

(** The key of an entry. *)
Definition key (e : Entry) : Protocol * N := (e_proto e, e_port e).

(** The states a [FirewallRules] object goes through: constructed from
    [cfg], then any calls of [Allow] and [Revert] in any worlds. *)
Inductive reachable (cfg : ClientRule) : FirewallRules -> Prop :=
| reach_ctor : reachable cfg (FirewallRules_ctor cfg)
| reach_Allow this w proto port :
    reachable cfg this -> reachable cfg (fst (snd (Allow proto port (this, w))))
| reach_Revert this w :
    reachable cfg this -> reachable cfg (fst (snd (Revert (this, w)))).

Definition config_valid (cfg : ClientRule) : Prop :=
  rule_prefix cfg <> EmptyString /\ app_path cfg <> EmptyString
  /\ server_ip cfg <> EmptyString.

Definition entry_ok (cfg : ClientRule) (e : Entry) : Prop :=
  touched e = true /\ had_before e = present (snapshot e)
  /\ e_name e = MakeRuleName cfg (e_proto e) (e_port e)
  /\ e_port e <> 0%N
  /\ (present (snapshot e) = true ->
      name (snapshot e) = e_name e \/ name (snapshot e) = EmptyString).

(** What every reachable state satisfies. *)
Definition well_formed (cfg : ClientRule) (this : FirewallRules) : Prop :=
  cfg_ this = cfg
  /\ applied_ this = negb (match entries_ this with [] => true | _ => false end)
  /\ NoDup (map key (entries_ this))
  /\ Forall (entry_ok cfg) (entries_ this)
  /\ (entries_ this <> [] -> config_valid cfg).




(** The rules handed to [INetFwRules::Add], in order. *)
Definition added (seg : list Event) : list FwRule :=
  flat_map (fun ev => match ev with RulesAdd r => [r] | _ => [] end) seg.


(** What the calls recorded in a stretch of the log make of a rule
    collection. *)
Definition replay_event (l : list FwRule) (ev : Event) : list FwRule :=
  match ev with
  | RulesRemove n => remove_rule n l
  | RulesAdd r => l ++ [r]
  | _ => l
  end.

Definition replay (seg : list Event) (l : list FwRule) : list FwRule :=
  fold_left replay_event seg l.






(** The rule [Allow] installs for a key. *)
Definition allow_rule (cfg : ClientRule) (proto : Protocol) (port : N) : FwRule :=
  mkFwRule (MakeRuleName cfg proto port) "VPN client outbound allow"
           NET_FW_RULE_DIR_OUT NET_FW_ACTION_ALLOW true NET_FW_PROFILE2_ALL "All"
           (if Protocol_eqb proto TCP then NET_FW_IP_PROTOCOL_TCP else NET_FW_IP_PROTOCOL_UDP)
           (server_ip cfg) (to_wstring port) (app_path cfg).

(** A stretch of the log that tells how the collection went from the one
    of [w] to the one of [w']. *)
Definition traces (w w' : World) (seg : list Event) : Prop :=
  log w' = log w ++ seg /\ rules w' = replay seg (rules w).


(** The entry [Allow] records for a key. *)
Definition recorded (this : FirewallRules) (proto : Protocol) (port : N) (snap : RuleSnapshot)
  : FirewallRules :=
  mkFirewallRules (cfg_ this)
    (entries_ this ++ [mkEntry proto port (MakeRuleName (cfg_ this) proto port) snap
                               (present snap) true])
    true.

(** What [ReadSnapshot] makes of the rule [Item] found when every getter
    succeeds. *)
Definition snapshot_rule (found : option FwRule) : RuleSnapshot :=
  match found with
  | None => empty_snapshot
  | Some r =>
      mkRuleSnapshot true (Name r) (Description r) (Direction r) (Action r) (Enabled r)
                     (Profiles r) (InterfaceTypes r) (IpProtocol r) (RemoteAddresses r)
                     (RemotePorts r) (ApplicationName r)
  end.

(** A configuration [ValidateConfig] refuses. *)
Definition config_invalid (cfg : ClientRule) : Prop :=
  rule_prefix cfg = EmptyString \/ app_path cfg = EmptyString \/ server_ip cfg = EmptyString.

(** The rules whose name does not begin with the prefix. *)
Definition others (prefix : string) (l : list FwRule) : list FwRule :=
  filter (fun r => negb (String.prefix prefix (Name r))) l.

End FirewallSpec.

Module DnsSpec.
Import DNS.

Section Families.
Context {P : InetPton}.

(** An element [Apply] accepts. *)
Definition valid (s : string) : bool := IsIPv4 s || IsIPv6 s.

(** The addresses of the list that [Apply] files under each family. *)
Definition of_v4 (servers : list string) : list string := filter IsIPv4 servers.
Definition of_v6 (servers : list string) : list string :=
  filter (fun s => negb (IsIPv4 s) && IsIPv6 s) servers.

End Families.

(** The registry key of the interface for each family. *)
Definition key4 (guid : string) : string := (BasePathForAf AF_INET ++ guid)%string.
Definition key6 (guid : string) : string := (BasePathForAf AF_INET6 ++ guid)%string.

Definition key_of (x : RegWrite) : string :=
  match x with SetValue k _ | DeleteValue k => k end.

(** The GUID text [Apply] works with: the cached one, or the one the OS
    gives for the LUID. *)
Definition guid_ready (d : DNS) (w : World) : Prop :=
  guid_str_ d <> EmptyString
  \/ exists g, guid_of w (luid_ d) = Some g /\ g <> EmptyString.

(** [steps w w' seg]: from [w] to [w'] the registry received the writes
    [seg] and changed under no other key. *)
Definition steps (w w' : World) (seg : list RegWrite) : Prop :=
  writes w' = writes w ++ seg
  /\ guid_of w' = guid_of w
  /\ forall k, ~ In k (map key_of seg) -> reg w' k = reg w k.

Section Plans.
Context {P : InetPton}.

(** The writes a list of servers calls for: one per family that has an
    address, IPv4 first. *)
Definition planned_writes (guid : string) (servers : list string) : list RegWrite :=
  (match of_v4 servers with
   | [] => []
   | v4 => [SetValue (key4 guid) (JoinComma v4)]
   end)
  ++ (match of_v6 servers with
      | [] => []
      | v6 => [SetValue (key6 guid) (JoinComma v6)]
      end).

End Plans.

(** What [ReadNameServer] makes of a value. *)
Definition snapshot_of (v : option regval) : string * bool :=
  match v with
  | Some (REG_SZ s) => (s, true)
  | _ => (EmptyString, false)
  end.

(** The value a key holds after [WriteNameServer] ran its course: an
    empty text deletes the value. *)
Definition written (v : string) : option regval :=
  if String.eqb v "" then None else Some (REG_SZ v).

(** [g] is the GUID text [Apply] will use. *)
Definition resolves (d : DNS) (w : World) (g : string) : Prop :=
  g <> EmptyString
  /\ (guid_str_ d = g \/ (guid_str_ d = EmptyString /\ guid_of w (luid_ d) = Some g)).

Definition is_nil {A} (l : list A) : bool :=
  match l with [] => true | _ => false end.

(** The value of a family after an [Apply] that ran its course: the
    comma-joined addresses of the family, or the value [a] it had. *)
Definition applied_value (family_servers : list string) (a : option regval) : option regval :=
  match family_servers with
  | [] => a
  | _ => Some (REG_SZ (JoinComma family_servers))
  end.

(** The value [Revert] leaves where the snapshot was taken of [a]: the
    string again, the value deleted when there was none or when the
    string was empty. *)
Definition restored (a : option regval) : option regval :=
  match a with
  | Some (REG_SZ s) => written s
  | _ => None
  end.

End DnsSpec.


Module NetSpec.
Import IpHelper Network.
Local Open Scope N_scope.

Section Tables.
Context {P : InetPton}.

(** The address a literal denotes in a family. *)
Definition parse (ver : IpVersion) (s : string) : option N :=
  if is_V6 ver then inet_pton6 s else inet_pton4 s.

(** The table holds a host route to [dest]. *)
Definition host_route_present (ver : IpVersion) (dest : N) (t : list MIB_IPFORWARD_ROW2)
  : Prop :=
  exists row, In row t /\ is_host_entry ver dest row = true.

(** One half of a split default: a /1 route of the family. *)
Definition is_half_default (ver : IpVersion) (row : MIB_IPFORWARD_ROW2) : bool :=
  (si_family (DestinationPrefix row) =? fam ver) && (PrefixLength row =? 1).

(** A table in which every split-default half that was not in [t0]
    already stands beside a host route to the server. *)
Definition safe_table (ver : IpVersion) (server_ip : string)
           (t0 t : list MIB_IPFORWARD_ROW2) : Prop :=
  forall row, In row t -> is_half_default ver row = true ->
    In row t0
    \/ exists dest, parse ver server_ip = Some dest /\ host_route_present ver dest t.

End Tables.

Definition is_pinned_event (family : N) (server_ip : string) (ev : Event) : bool :=
  match ev with
  | LogPinned f s _ => (f =? family) && String.eqb s server_ip
  | _ => false
  end.


(** Replacement of the rows a call of [SetIpForwardEntry2] identifies. *)
Definition replace_route (row : MIB_IPFORWARD_ROW2) (t : list MIB_IPFORWARD_ROW2)
  : list MIB_IPFORWARD_ROW2 :=
  map (fun r => if same_route row r then row else r) t.

(** The two ways the pin changes a table: a host row is added, or the
    rows identified by one are replaced by it. *)
Definition host_change (ver : IpVersion) (dest : N) (t0 t : list MIB_IPFORWARD_ROW2) : Prop :=
  exists row,
    is_host_entry ver dest row = true
    /\ (t = t0 ++ [row]
        \/ (existsb (same_route row) t0 = true /\ t = replace_route row t0)).

(** The line the second step of [Revert] logs on entry. *)
Definition pinned_marker (this : NetworkRollback.NetworkRollback) : Event :=
  if String.eqb (NetworkRollback.server_ip_ this) ""
  then LogRemovePinnedSkip
  else LogRemovePinnedBegin (NetworkRollback.server_ip_ this).

(** The line [Revert] logs when a step threw. *)
Definition failure_line (failed : bool) (step : string) : list Event :=
  if failed then [LogRevertStepFailed step] else [].

(** Nothing happened to the forwarding table nor to the log. *)
Definition ip_frame (w w' : World) : Prop :=
  route_hist w' = route_hist w /\ log w' = log w.

(** A row of another family than the one being configured. *)
Definition other_family (ver : IpVersion) (r : MIB_IPFORWARD_ROW2) : bool :=
  negb (si_family (DestinationPrefix r) =? fam ver).

(** The part of a table a family's configuration has no business with. *)
Definition foreign (ver : IpVersion) (t : list MIB_IPFORWARD_ROW2) : list MIB_IPFORWARD_ROW2 :=
  filter (other_family ver) t.

(** What a route-changing step did to the history of the table: nothing,
    or one more table that stands in relation [R] to the one before. *)
Definition table_step (R : list MIB_IPFORWARD_ROW2 -> list MIB_IPFORWARD_ROW2 -> Prop)
           (w w' : World) : Prop :=
  route_hist w' = route_hist w
  \/ exists t, route_hist w' = route_hist w ++ [t] /\ R (routes w) t.

(** One row of the family added at the end. *)
Definition row_added (ver : IpVersion) (t0 t : list MIB_IPFORWARD_ROW2) : Prop :=
  exists row, si_family (DestinationPrefix row) = fam ver /\ t = t0 ++ [row].

Section PinVocabulary.
Context {P : InetPton}.

(** The table changed by one pin of [host]. *)
Definition pin_change (ver : IpVersion) (host : string)
           (t0 t : list MIB_IPFORWARD_ROW2) : Prop :=
  exists dest, parse ver host = Some dest /\ host_change ver dest t0 t.

(** The table holds a host route to the address [host] denotes. *)
Definition pinned_in (ver : IpVersion) (host : string) (t : list MIB_IPFORWARD_ROW2) : Prop :=
  exists dest, parse ver host = Some dest /\ host_route_present ver dest t.

End PinVocabulary.

(** Rows of the family added at the end. *)
Definition rows_added (ver : IpVersion) (t0 t : list MIB_IPFORWARD_ROW2) : Prop :=
  exists rows, t = t0 ++ rows
               /\ Forall (fun row => si_family (DestinationPrefix row) = fam ver) rows.

(** Every split-default half of [t] was in [t0] already. *)
Definition no_new_half (ver : IpVersion) (t0 t : list MIB_IPFORWARD_ROW2) : Prop :=
  forall row, In row t -> is_half_default ver row = true -> In row t0.

Section ConfigureVocabulary.
Context {P : InetPton}.

(** What one invocation of [ConfigureNetwork] for [ver] did to the
    world [w]: the tables it went through and the lines it logged. *)
Definition configure_effect (ver : IpVersion) (server_ip : string) (w w' : World) : Prop :=
  exists tables events,
    route_hist w' = route_hist w ++ tables
    /\ log w' = log w ++ events
    /\ Forall (safe_table ver server_ip (routes w)) tables
    /\ Forall (fun t => foreign ver t = foreign ver (routes w)) tables
    /\ (existsb (is_pinned_event (fam ver) server_ip) events = false ->
        Forall (no_new_half ver (routes w)) tables)
    /\ (In (LogNoRouteToServer (fam ver)) events -> tables = [])
    /\ (Bool.eqb (is_V6 ver) (is_v6_string server_ip) = false -> tables = []).

End ConfigureVocabulary.

(** A row the fallback search considers: a default route of the family
    through another interface than the excluded one. *)
Definition default_candidate (exclude : N) (ver : IpVersion) (row : MIB_IPFORWARD_ROW2) : bool :=
  negb (InterfaceLuid row =? exclude)
  && (si_family (DestinationPrefix row) =? fam ver)
  && (PrefixLength row =? 0).

(** The value a variable of the address plan takes: the field of the
    plan, or the old value when the field is empty. *)
Definition chosen (field old : string) : string := if is_empty field then old else field.

(** A field of the plan [SetAddressPlan] lets through: empty, or a
    literal of its family. *)
Definition acceptable (p : string -> option N) (field : string) : bool :=
  is_empty field || match p field with Some _ => true | None => false end.

Definition mtu_acceptable (m : N) : bool := (m =? 0) || ((576 <=? m) && (m <=? 9000)).

Section PlanVocabulary.
Context {P : InetPton}.

Definition addresses_acceptable (plan : AddressPlan) : bool :=
  acceptable inet_pton4 (local4 plan) && acceptable inet_pton4 (peer4 plan)
  && acceptable inet_pton6 (local6 plan) && acceptable inet_pton6 (peer6 plan).

(** The variables after the four address fields of the plan were stored. *)
Definition with_addresses (plan : AddressPlan) (g : Globals) : Globals :=
  mkGlobals (chosen (local4 plan) (g_LOCAL4 g)) (chosen (peer4 plan) (g_PEER4 g))
            (chosen (local6 plan) (g_LOCAL6 g)) (chosen (peer6 plan) (g_PEER6 g)) (g_mtu g).

(** A row that is not a host route to the server. *)
Definition not_server_host (ver : IpVersion) (server_ip : string) (row : MIB_IPFORWARD_ROW2)
  : Prop :=
  forall dest, parse ver server_ip = Some dest -> is_host_entry ver dest row = false.

(** Every row of [t0] that is not a host route to the server is in [t]. *)
Definition keeps (ver : IpVersion) (server_ip : string) (t0 t : list MIB_IPFORWARD_ROW2)
  : Prop :=
  forall row, In row t0 -> not_server_host ver server_ip row -> In row t.

End PlanVocabulary.

(** An address that is not on the interface [luid]. *)
Definition off_adapter (luid : N) (a : MIB_UNICASTIPADDRESS_ROW) : bool :=
  negb (AddressLuid a =? luid).

(** Nothing happened to the interface rows nor to the addresses. *)
Definition net_untouched (w w' : World) : Prop :=
  interfaces w' = interfaces w /\ addresses w' = addresses w.

(** Interface rows other than the one of [family] on [luid], and the
    addresses of other interfaces than [luid], are as they were. *)
Definition adapter_frame (family luid : N) (w w' : World) : Prop :=
  (forall f l, f <> family \/ l <> luid -> interfaces w' f l = interfaces w f l)
  /\ filter (off_adapter luid) (addresses w') = filter (off_adapter luid) (addresses w).

(** Interface rows of other interfaces than [luid] and all addresses are
    as they were. *)
Definition rollback_frame (luid : N) (w w' : World) : Prop :=
  (forall f l, l <> luid -> interfaces w' f l = interfaces w f l)
  /\ addresses w' = addresses w.

(** The world after one interface row, one address, one table or one
    log line was written. *)
Definition with_interface (family luid : N) (row : MIB_IPINTERFACE_ROW) (w : World) : World :=
  snd (set_interface family luid row w).
Definition with_table (t : list MIB_IPFORWARD_ROW2) (w : World) : World :=
  snd (set_routes t w).
Definition with_line (ev : Event) (w : World) : World := snd (emit ev w).






Section RollbackVocabulary.
Context {P : InetPton}.

(** The rows the second step of [Revert] looks for. *)
Definition is_pinned_target (this : NetworkRollback.NetworkRollback)
           (r : MIB_IPFORWARD_ROW2) : bool :=
  if String.eqb (NetworkRollback.server_ip_ this) "" then false
  else match inet_pton4 (NetworkRollback.server_ip_ this) with
       | Some dst4 => NetworkRollback.is_pinned_route AF_INET 32 dst4 r
       | None =>
           match inet_pton6 (NetworkRollback.server_ip_ this) with
           | Some dst6 => NetworkRollback.is_pinned_route AF_INET6 128 dst6 r
           | None => false
           end
       end.

(** The rows [Revert] looks for: the split defaults through the
    interface and the pinned host routes to the server. *)
Definition rollback_target (this : NetworkRollback.NetworkRollback)
           (r : MIB_IPFORWARD_ROW2) : bool :=
  NetworkRollback.is_split_default_v4 this r || NetworkRollback.is_split_default_v6 this r
  || is_pinned_target this r.

(** [t] is [t0] without some rows that the system identifies with a
    target of the rollback. *)
Definition pruned (this : NetworkRollback.NetworkRollback)
           (t0 t : list MIB_IPFORWARD_ROW2) : Prop :=
  incl t t0
  /\ forall r, In r t0 ->
       In r t \/ exists row, In row t0 /\ rollback_target this row = true
                             /\ same_route row r = true.

(** The server address of the record is empty or an address literal, so
    that the second step of [Revert] knows what to look for. *)
Definition server_known (this : NetworkRollback.NetworkRollback) : Prop :=
  NetworkRollback.server_ip_ this = EmptyString
  \/ inet_pton4 (NetworkRollback.server_ip_ this) <> None
  \/ inet_pton6 (NetworkRollback.server_ip_ this) <> None.

(** What the steps of [Revert] keep: the table is pruned, interface rows
    of other interfaces and all addresses stay. *)
Definition reverting (this : NetworkRollback.NetworkRollback) (w0 w : World) : Prop :=
  pruned this (routes w0) (routes w)
  /\ rollback_frame (NetworkRollback.luid (NetworkRollback.snap_ this)) w0 w.

End RollbackVocabulary.

(** The snapshot the constructor takes of an interface whose rows of the
    two families are [i4] and [i6]. *)
Definition baseline (if_luid : N) (i4 i6 : option MIB_IPINTERFACE_ROW)
  : NetworkRollback.Snapshot :=
  NetworkRollback.mkSnapshot
    if_luid
    (match i4 with Some _ => true | None => false end)
    (match i6 with Some _ => true | None => false end)
    (match i4 with Some r => UseAutomaticMetric r | None => true end)
    (match i4 with Some r => IfMetric r | None => 0 end)
    (match i4 with Some r => NlMtu r | None => 0 end)
    (match i6 with Some r => UseAutomaticMetric r | None => true end)
    (match i6 with Some r => IfMetric r | None => 0 end)
    (match i6 with Some r => NlMtu r | None => 0 end).

(** No row of the table is one that [pred] looks for. *)
Definition cleared (pred : MIB_IPFORWARD_ROW2 -> bool) (w : World) : Prop :=
  forall r, In r (routes w) -> pred r = false.

(** The system identifies no two rows of the table with each other. *)
Fixpoint keyed (t : list MIB_IPFORWARD_ROW2) : bool :=
  match t with
  | [] => true
  | r :: t' => negb (existsb (same_route r) t') && keyed t'
  end.

(** The interface rows the record has captured are still there. *)
Definition rows_present (this : NetworkRollback.NetworkRollback) (w : World) : Prop :=
  let sn := NetworkRollback.snap_ this in
  (NetworkRollback.have_v4 sn = true -> interfaces w AF_INET (NetworkRollback.luid sn) <> None)
  /\ (NetworkRollback.have_v6 sn = true
      -> interfaces w AF_INET6 (NetworkRollback.luid sn) <> None).

(** The interface rows after the captured ones were put back over those
    of [w]. *)
Definition restored_interfaces (this : NetworkRollback.NetworkRollback) (w : World)
           (f l : N) : option MIB_IPINTERFACE_ROW :=
  let sn := NetworkRollback.snap_ this in
  if (f =? AF_INET6) && (l =? NetworkRollback.luid sn) && NetworkRollback.have_v6 sn
  then Some (mkIfRow (NetworkRollback.v6_auto_metric sn) (NetworkRollback.v6_metric sn)
                     (NetworkRollback.v6_mtu sn))
  else if (f =? AF_INET) && (l =? NetworkRollback.luid sn) && NetworkRollback.have_v4 sn
       then Some (mkIfRow (NetworkRollback.v4_auto_metric sn) (NetworkRollback.v4_metric sn)
                          (NetworkRollback.v4_mtu sn))
       else interfaces w f l.

(** A table after the rows the system identifies with those of [toDel]
    were deleted one by one. *)
Definition prune_table (toDel t : list MIB_IPFORWARD_ROW2) : list MIB_IPFORWARD_ROW2 :=
  fold_left (fun t row => filter (fun r => negb (same_route row r)) t) toDel t.

(** Every deletion of the rows of [toDel], in order, finds a row. *)
Fixpoint all_found (toDel t : list MIB_IPFORWARD_ROW2) : bool :=
  match toDel with
  | [] => true
  | row :: rest =>
      existsb (same_route row) t
      && all_found rest (filter (fun r => negb (same_route row r)) t)
  end.

(** A world in which no call fails, with the table [t] and the interface
    rows and addresses of [w]. *)
Definition quiet_step (w w' : World) (t : list MIB_IPFORWARD_ROW2) : Prop :=
  faults w' = [] /\ routes w' = t
  /\ interfaces w' = interfaces w /\ addresses w' = addresses w.

End NetSpec.


Module WatcherSpec.
Import NetWatcher.
Local Open Scope N_scope.

Definition is_stop (e : WaitResult * N) : bool :=
  match fst e with WAIT_STOP => true | _ => false end.

Definition is_kick (e : WaitResult * N) : bool :=
  match fst e with WAIT_KICK => true | _ => false end.

(** A [reapply] that counts its invocations beside its own state. *)
Definition counted {S} (f : M S unit) : M (S * nat) unit :=
  fun s => let '(r, s') := f (fst s) in (r, (s', Datatypes.S (snd s))).

(** Every handle and registration in the world is older than the next
    one the system hands out. *)
Definition fresh_handles (w : World) : bool :=
  forallb (fun x => x <? next_handle w) (handles w ++ notifications w).

End WatcherSpec.


Module ClientSpec.
Import Client.

(** The order of [std::set<std::wstring>], equality included. *)
Definition string_le (a b : string) : Prop := a = b \/ String.ltb a b = true.

(** The pieces of a comma-separated string, joined again. *)
Definition join_commas (items : list string) : string := String.concat "," items.

Definition comma_free (x : string) : bool := negb (contains_char "," x).

End ClientSpec.


(** ** Variants of scenario 1 *)
Module Variants.
Import Scenario1.
Local Open Scope N_scope.

(** COM cannot be initialised. *)
Definition no_com : Firewall.World := Firewall.mkWorld [] [true] [].

(** The registry of scenario 1 on a machine that knows no GUID for the
    adapter ([ConvertInterfaceLuidToGuid] fails). *)
Definition reg_world_without_guid : DNS.World :=
  DNS.mkWorld registry (fun _ => None) [] [].

(** A rule of the name [Allow] generates for TCP 5555, left in the
    collection by someone else, and a rule of another name. *)
Definition former_rule : Firewall.FwRule :=
  Firewall.mkFwRule "FlowForge Out TCP to 198.51.100.7:5555" "left by an earlier run"
                    2 0 false 1 "Lan" 6 "203.0.113.9" "5555" "C:\Old\Client.exe".

Definition foreign_rule : Firewall.FwRule :=
  Firewall.mkFwRule "Core Networking - DNS (UDP-Out)" "" 2 1 true 2147483647 "All" 17
                    "*" "53" "".

Definition fw_world_used : Firewall.World :=
  Firewall.mkWorld [foreign_rule; former_rule] [] [].






(** [Allow] on that firewall when the fifth COM call fails: [get_Name] of
    the rule found by [ReadSnapshot]. *)
Definition fw_name_unread : Firewall.FirewallRules :=
  fst (snd (Firewall.Allow Firewall.TCP 5555
              (Firewall.FirewallRules_ctor rule,
               Firewall.mkWorld [foreign_rule; former_rule]
                                [false; false; false; false; true] []))).

(** The machine of scenario 1 with that firewall. *)
Definition machine_used : Client.Machine :=
  Client.mkMachine fw_world_used reg_world ip_world Network.initial_globals.

(** The network scenario 1 leaves after its first [reapply], with a
    script of IP Helper failures to come. *)
Definition configured_world (script : list N) : IpHelper.World :=
  let c := snd (snd configured) in
  IpHelper.mkWorld (IpHelper.interfaces c) (IpHelper.addresses c) (IpHelper.route_hist c)
                   (IpHelper.best_route c) (IpHelper.luid_of_index c) script [].

(** The two IPv4 split defaults of scenario 1. *)
Definition low_half4 : IpHelper.MIB_IPFORWARD_ROW2 :=
  IpHelper.mkRow tun_luid 0 (IpHelper.mkSockaddr 2 0) 1 (IpHelper.mkSockaddr 2 180879361) 1 3.
Definition high_half4 : IpHelper.MIB_IPFORWARD_ROW2 :=
  IpHelper.mkRow tun_luid 0 (IpHelper.mkSockaddr 2 2147483648) 1
                 (IpHelper.mkSockaddr 2 180879361) 1 3.


(** The address plan of the configuration with an MTU of 9001. *)
Definition plan_9001 : Network.AddressPlan :=
  Network.mkAddressPlan "10.200.0.2" "10.200.0.1" "fd00::2" "fd00::1" 9001.

(** The environment of scenario 1 without its plug-in. *)
Definition env_without_plugin : Client.Env :=
  Client.mkEnv true true true (Some "C:\FlowForge\Client.exe"%string) getaddrinfo false
               (Some tun_luid).

Definition rule_of_config : Firewall.ClientRule :=
  Firewall.mkClientRule
    "FlowForge" "C:\FlowForge\Client.exe"
    (Client.ResolveFirewallAddressesW (Client.getaddrinfo env_without_plugin)
                                      (Client.strip_brackets (Client.server config))).

(** The kernel objects before the watcher: none; in the second world the
    fourth system call of the constructor fails. *)
Definition kernel : NetWatcher.World := NetWatcher.mkWorld [] [] [] 1 0 [].
Definition kernel_failing : NetWatcher.World :=
  NetWatcher.mkWorld [] [] [] 1 0 [false; false; false; true].

(** The watcher the constructor makes in [kernel]. *)
Definition watcher : NetWatcher.NetWatcher :=
  NetWatcher.mkNetWatcher (Some 1) (Some 2) (Some 5) (Some 3) (Some 4) 500 true 0.

(** Two kicks and the debounce interval that runs out after them. *)
Definition kick1 : NetWatcher.WaitResult * N := (NetWatcher.WAIT_KICK, 0).
Definition kick2 : NetWatcher.WaitResult * N := (NetWatcher.WAIT_KICK, 120).

(** A "dns" field with a padded and an empty piece. *)
Definition dns_items : list string := ["10.200.0.1"; " 1.1.1.1 "; ""]%string.


End Variants.


(** * Proofs *)

(** ** Rules of [post] *)

Lemma post_ret {S A} (a : A) (s : S) (Q : outcome A -> S -> Prop) :
  Q (Returns a) s -> post (ret a) s Q.
Proof. exact (fun H => H). Qed.

Lemma post_throw {S A} (e : exn) (s : S) (Q : outcome A -> S -> Prop) :
  Q (Throws e) s -> post (throw e) s Q.
Proof. exact (fun H => H). Qed.

Lemma post_bind {S A B} (m : M S A) (k : A -> M S B) (s : S) (Q : outcome B -> S -> Prop) :
  post m s (fun r s1 => match r with
                        | Returns a => post (k a) s1 Q
                        | Throws e => Q (Throws e) s1
                        end) ->
  post (bind m k) s Q.
Proof.
  unfold post, bind. destruct (m s) as [[a | e] s1]; simpl; trivial.
Qed.

Lemma post_try_catch {S A} (m h : M S A) (s : S) (Q : outcome A -> S -> Prop) :
  post m s (fun r s1 => match r with
                        | Returns a => Q (Returns a) s1
                        | Throws _ => post h s1 Q
                        end) ->
  post (try_catch m h) s Q.
Proof.
  unfold post, try_catch. destruct (m s) as [[a | e] s1]; simpl; trivial.
Qed.

Lemma post_weaken {S A} (m : M S A) (s : S) (Q1 Q2 : outcome A -> S -> Prop) :
  post m s Q1 -> (forall r s', Q1 r s' -> Q2 r s') -> post m s Q2.
Proof. unfold post. auto. Qed.

Lemma post_liftW {O W A} (m : M W A) (s : O * W) (Q : outcome A -> O * W -> Prop) :
  post m (snd s) (fun r w' => Q r (fst s, w')) -> post (liftW m) s Q.
Proof.
  unfold post, liftW. destruct (m (snd s)) as [r w']. simpl. trivial.
Qed.

Lemma post_get {S} (s : S) (Q : outcome S -> S -> Prop) : Q (Returns s) s -> post get s Q.
Proof. exact (fun H => H). Qed.

Lemma post_modify {S} (f : S -> S) (s : S) (Q : outcome unit -> S -> Prop) :
  Q (Returns tt) (f s) -> post (modify f) s Q.
Proof. exact (fun H => H). Qed.

Lemma post_put {S} (s0 s : S) (Q : outcome unit -> S -> Prop) :
  Q (Returns tt) s0 -> post (put s0) s Q.
Proof. exact (fun H => H). Qed.

Lemma post_run {S A} (m : M S A) (s : S) (Q : outcome A -> S -> Prop) r s' :
  post m s Q -> m s = (r, s') -> Q r s'.
Proof. unfold post. intros H E. rewrite E in H. exact H. Qed.

Ltac post_step :=
  lazy beta iota;
  lazymatch goal with
  | |- post (bind _ _) _ _ => apply post_bind
  | |- post (try_catch _ _) _ _ => apply post_try_catch
  | |- post (liftW _) _ _ => apply post_liftW
  | |- post (ret _) _ _ => apply post_ret
  | |- post (throw _) _ _ => apply post_throw
  | |- post get _ _ => apply post_get
  | |- post (modify _) _ _ => apply post_modify
  | |- post (put _) _ _ => apply post_put
  end.


Tactic Notation "post_use" constr(L) "as" ident(r) ident(s) ident(H) :=
  eapply post_weaken; [apply L | cbv beta; intros r s H].

Section FirewallFacts.
Import Firewall FirewallSpec.

(** *** What the calls leave in the log and in the collection *)

Lemma traces_refl w : traces w w [].
Proof. split; [rewrite app_nil_r|]; reflexivity. Qed.

Lemma replay_app a b l : replay (a ++ b) l = replay b (replay a l).
Proof. unfold replay. apply fold_left_app. Qed.

Lemma traces_trans w w1 w2 a b : traces w w1 a -> traces w1 w2 b -> traces w w2 (a ++ b).
Proof.
  intros [L1 R1] [L2 R2]. split.
  - rewrite L2, L1, app_assoc. reflexivity.
  - rewrite R2, R1, replay_app. reflexivity.
Qed.

Lemma traces_nil w w1 w2 b : traces w w1 [] -> traces w1 w2 b -> traces w w2 b.
Proof. intros H1 H2. exact (traces_trans H1 H2). Qed.

Lemma added_app a b : added (a ++ b) = added a ++ added b.
Proof. unfold added. apply flat_map_app. Qed.


Lemma com_call_trace w :
  post com_call w (fun r w' => traces w w' [] /\ exists f, r = Returns f).
Proof.
  unfold post, com_call. destruct (faults w); simpl; (split; [|eauto]).
  - apply traces_refl.
  - split; simpl; [rewrite app_nil_r|]; reflexivity.
Qed.

Lemma GetRules_trace w : post GetRules w (fun _ w' => traces w w' []).
Proof.
  unfold GetRules, GetPolicy2. post_step. post_step. post_use com_call_trace as r w1 H1.
  destruct H1 as [T1 [f ->]]. destruct f; post_step; [exact T1|].
  post_step. post_use com_call_trace as r w2 H2. destruct H2 as [T2 [f ->]].
  destruct f; post_step; exact (traces_nil T1 T2).
Qed.

Lemma Item_trace n w :
  post (Item n) w
       (fun r w' => traces w w' []
                    /\ exists x, r = Returns x /\ (forall y, x = Some y -> Name y = n)).
Proof.
  unfold Item. post_step. post_use com_call_trace as r w1 H1.
  destruct H1 as [T1 [f ->]]. post_step. post_step. split; [exact T1|].
  eexists; split; [reflexivity|]. intros y Hy. destruct f; [discriminate|].
  apply find_some in Hy. destruct Hy as [_ Hy]. apply String.eqb_eq. exact Hy.
Qed.

Lemma get_prop_trace {A} (v d : A) w :
  post (get_prop v d) w
       (fun r w' => traces w w' [] /\ exists x, r = Returns x /\ (x = v \/ x = d)).
Proof.
  unfold get_prop. post_step. post_use com_call_trace as r w1 H1.
  destruct H1 as [T1 [f ->]]. post_step. split; [exact T1|].
  destruct f; eauto.
Qed.
















Lemma post_true {S A} (m : M S A) (s : S) : post m s (fun _ _ => True).
Proof. exact I. Qed.

(** The name in a snapshot of a rule is the name asked for, or empty when
    the name could not be read. *)
Lemma ReadSnapshot_name n w :
  post (ReadSnapshot n) w
       (fun r _ => forall snap, r = Returns snap -> present snap = true ->
                                name snap = n \/ name snap = EmptyString).
Proof.
  unfold ReadSnapshot. lazy zeta. post_step. post_use GetRules_trace as r w1 H1.
  destruct r; [|discriminate]. post_step. post_use Item_trace as r w2 H2.
  destruct H2 as [_ [x [-> Hx]]]. destruct x as [y|].
  - post_step. post_use (@get_prop_trace string) as r w3 H3.
    destruct H3 as [_ [v [-> Hv]]].
    assert (Hn : v = n \/ v = EmptyString).
    { destruct Hv as [-> | ->]; [left; apply Hx; reflexivity | right; reflexivity]. }
    clear Hv.
    do 10 (post_step; eapply post_weaken; [apply get_prop_trace|];
           cbv beta; intros ? ? [_ [? [-> _]]]).
    post_step. intros snap E _. injection E as <-. exact Hn.
  - post_step. intros snap E Hp. injection E as <-. discriminate.
Qed.

Lemma ValidateConfig_cases {S} cfg (s : S) :
  post (ValidateConfig cfg) s
       (fun r s' => s' = s /\ (r = Returns tt -> config_valid cfg)).
Proof.
  unfold ValidateConfig, config_valid.
  destruct (String.eqb_spec (rule_prefix cfg) ""); [post_step; split; [reflexivity|discriminate]|].
  destruct (String.eqb_spec (app_path cfg) ""); [post_step; split; [reflexivity|discriminate]|].
  destruct (String.eqb_spec (server_ip cfg) ""); [post_step; split; [reflexivity|discriminate]|].
  post_step. auto.
Qed.

(** [Allow] leaves the object as it was, or records one entry for a key
    that was not there. *)
Lemma Allow_cases proto port this w :
  post (Allow proto port) (this, w)
       (fun _ s' =>
          fst s' = this
          \/ exists snap,
               fst s' = recorded this proto port snap
               /\ (present snap = true ->
                   name snap = MakeRuleName (cfg_ this) proto port \/ name snap = EmptyString)
               /\ existsb (same_key proto port) (entries_ this) = false
               /\ port <> 0%N /\ config_valid (cfg_ this)).
Proof.
  unfold Allow. post_step. post_step. lazy beta. simpl fst.
  post_step. post_use (@ValidateConfig_cases (FirewallRules * World)) as r s1 H1.
  destruct H1 as [-> Hv]. destruct r as [[]|]; [|left; reflexivity]. specialize (Hv eq_refl).
  destruct (N.eqb_spec port 0); [post_step; left; reflexivity|].
  destruct (existsb (same_key proto port) (entries_ this)) eqn:Hex;
    [post_step; left; reflexivity|].
  post_step. post_step. post_use (@post_true World unit) as r w1 H1.
  destruct r; [|left; reflexivity].
  post_step. post_step. post_use ReadSnapshot_name as r w2 H2.
  destruct r as [snap|]; [|left; reflexivity]. specialize (H2 snap eq_refl).
  post_step. post_step. post_use (@post_true World unit) as r w3 H3.
  destruct r; [|left; reflexivity].
  post_step. right. exists snap. simpl. auto.
Qed.

Lemma Protocol_eqb_eq a b : Protocol_eqb a b = true <-> a = b.
Proof. destruct a, b; simpl; split; congruence. Qed.

Lemma same_key_iff proto port e : same_key proto port e = true <-> key e = (proto, port).
Proof.
  unfold same_key, key. rewrite andb_true_iff, Protocol_eqb_eq, N.eqb_eq.
  split; [intros [-> ->]; reflexivity | intros E; injection E; auto].
Qed.

Lemma key_absent proto port l :
  existsb (same_key proto port) l = false -> ~ In (proto, port) (map key l).
Proof.
  intros Hex Hin. apply in_map_iff in Hin. destruct Hin as [e [Hk He]].
  assert (existsb (same_key proto port) l = true); [|congruence].
  apply existsb_exists. exists e. split; [exact He | apply same_key_iff; exact Hk].
Qed.

Lemma well_formed_ctor cfg : well_formed cfg (FirewallRules_ctor cfg).
Proof.
  unfold well_formed. simpl. repeat split; try constructor; congruence.
Qed.

Lemma well_formed_Allow cfg this w proto port :
  well_formed cfg this -> well_formed cfg (fst (snd (Allow proto port (this, w)))).
Proof.
  intros Hw. destruct (Allow_cases proto port this w) as [E | [snap [E [Hn [Hex [Hp Hv]]]]]];
    rewrite E; [exact Hw|].
  destruct Hw as [Hc [_ [Hnd [Hall _]]]]. unfold well_formed, recorded. simpl.
  repeat split.
  - exact Hc.
  - destruct (entries_ this); reflexivity.
  - rewrite map_app. apply NoDup_app; [exact Hnd | repeat constructor; intros [] |].
    intros a Ha [<- | []]. revert Ha. apply key_absent. exact Hex.
  - apply Forall_app. split; [exact Hall|]. constructor; [|constructor].
    unfold entry_ok. simpl. rewrite <- Hc. auto.
  - rewrite <- Hc. apply Hv.
  - rewrite <- Hc. apply Hv.
  - rewrite <- Hc. apply Hv.
Qed.

(** [Revert] leaves the object as it was, or with no entry. *)
Lemma Revert_cases this w :
  post Revert (this, w)
       (fun _ s' => fst s' = this \/ fst s' = mkFirewallRules (cfg_ this) [] false).
Proof.
  unfold Revert. post_step. post_step. lazy beta. simpl fst.
  destruct (applied_ this); simpl negb; lazy iota; [|post_step; left; reflexivity].
  post_step. post_step. post_use (@post_true World unit) as r w1 H1.
  destruct r; [|left; reflexivity].
  post_step. post_step. post_use (@post_true World bool) as r w2 H2.
  destruct r as [err|]; [|left; reflexivity].
  post_step. post_step. destruct err; post_step; right; reflexivity.
Qed.

Lemma well_formed_Revert cfg this w :
  well_formed cfg this -> well_formed cfg (fst (snd (Revert (this, w)))).
Proof.
  intros Hw. destruct (Revert_cases this w) as [E | E]; rewrite E; [exact Hw|].
  destruct Hw as [Hc _]. unfold well_formed. simpl.
  repeat split; try constructor; congruence.
Qed.

Lemma reachable_well_formed cfg this : reachable cfg this -> well_formed cfg this.
Proof.
  induction 1;
    [apply well_formed_ctor | apply well_formed_Allow | apply well_formed_Revert]; assumption.
Qed.

(** A repeated key: nothing is validated anew, no COM call is made. *)
Lemma Allow_known_key cfg this w proto port :
  well_formed cfg this ->
  (exists e, In e (entries_ this) /\ key e = (proto, port)) ->
  Allow proto port (this, w) = (Returns tt, (this, w)).
Proof.
  intros [Hc [_ [_ [Hall Hv]]]] [e [He Hk]].
  assert (Hex : existsb (same_key proto port) (entries_ this) = true).
  { apply existsb_exists. exists e. split; [exact He | apply same_key_iff; exact Hk]. }
  assert (Hp : (port =? 0)%N = false).
  { apply N.eqb_neq. rewrite Forall_forall in Hall. destruct (Hall e He) as [_ [_ [_ [Hp _]]]].
    injection Hk as _ <-. exact Hp. }
  destruct Hv as [V1 [V2 V3]]; [intros E; rewrite E in He; contradiction|].
  rewrite <- Hc in V1, V2, V3.
  apply String.eqb_neq in V1, V2, V3.
  unfold Allow, bind, get, ValidateConfig, ret. simpl.
  rewrite V1, V2, V3, Hp, Hex. reflexivity.
Qed.

(** C7. [Allow] is idempotent per (protocol, port) key.  In every state a
    [FirewallRules] object can reach, the entries hold at most one record
    per key, and a call of [Allow] whose key is already recorded returns
    normally and leaves the object and the whole firewall world (rules,
    pending COM calls, log) exactly as they were: nothing is snapshotted,
    deleted or created. *)
Theorem Allow_idempotent cfg this :
  reachable cfg this ->
  NoDup (map key (entries_ this))
  /\ forall proto port w,
       (exists e, In e (entries_ this) /\ key e = (proto, port)) ->
       Allow proto port (this, w) = (Returns tt, (this, w)).
Proof.
  intros Hr. apply reachable_well_formed in Hr. split.
  - apply Hr.
  - intros proto port w He. apply Allow_known_key with (cfg := cfg); assumption.
Qed.

(** *** When every call succeeds *)

Lemma com_call_quiet w :
  faults w = [] -> post com_call w (fun r w' => r = Returns false /\ w' = w).
Proof. intros H. unfold post, com_call. rewrite H. auto. Qed.

Lemma GetRules_quiet w :
  faults w = [] -> post GetRules w (fun r w' => r = Returns tt /\ w' = w).
Proof.
  intros H. unfold GetRules, GetPolicy2. post_step. post_step.
  post_use (@com_call_quiet w H) as r w1 H1. destruct H1 as [-> ->]. post_step.
  post_step. post_use (@com_call_quiet w H) as r w1 H1. destruct H1 as [-> ->]. post_step. auto.
Qed.

Lemma Item_quiet n w :
  faults w = [] ->
  post (Item n) w (fun r w' => r = Returns (find (has_name n) (rules w)) /\ w' = w).
Proof.
  intros H. unfold Item. post_step. post_use (@com_call_quiet w H) as r w1 H1.
  destruct H1 as [-> ->]. post_step. post_step. post_step. auto.
Qed.

Lemma remove_rule_none n l : find (has_name n) l = None -> remove_rule n l = l.
Proof.
  induction l as [|r l IH]; simpl; [reflexivity|].
  destruct (has_name n r); [discriminate|]. intros H. rewrite (IH H). reflexivity.
Qed.

Lemma RemoveIfExists_quiet n w :
  faults w = [] ->
  post (RemoveIfExists n) w
       (fun r w' => r = Returns tt /\ faults w' = []
                    /\ rules w' = remove_rule n (rules w)
                    /\ log w' = log w ++ (match find (has_name n) (rules w) with
                                          | Some _ => [RulesRemove n]
                                          | None => []
                                          end)).
Proof.
  intros H. unfold RemoveIfExists. post_step. post_use (@GetRules_quiet w H) as r w1 H1.
  destruct H1 as [-> ->]. post_step. post_use (@Item_quiet n w H) as r w1 H1.
  destruct H1 as [-> ->]. destruct (find (has_name n) (rules w)) eqn:Hf.
  - unfold Remove. post_step. post_use (@com_call_quiet w H) as r w1 H1.
    destruct H1 as [-> ->]. post_step. simpl. auto.
  - post_step. rewrite (remove_rule_none _ _ Hf), app_nil_r. auto.
Qed.

Lemma Add_quiet r0 w :
  faults w = [] ->
  post (Add r0) w
       (fun r w' => r = Returns true /\ faults w' = [] /\ rules w' = rules w ++ [r0]
                    /\ log w' = log w ++ [RulesAdd r0]).
Proof.
  intros H. unfold Add. post_step. post_use (@com_call_quiet w H) as r w1 H1.
  destruct H1 as [-> ->]. post_step. post_step. post_step. simpl. auto.
Qed.

Lemma CoCreateInstance_NetFwRule_quiet w :
  faults w = [] ->
  post CoCreateInstance_NetFwRule w (fun r w' => r = Returns blank_rule /\ w' = w).
Proof.
  intros H. unfold CoCreateInstance_NetFwRule. post_step.
  post_use (@com_call_quiet w H) as r w1 H1. destruct H1 as [-> ->]. post_step. auto.
Qed.

Lemma ComInit_quiet w :
  faults w = [] -> post ComInit w (fun r w' => r = Returns tt /\ w' = w).
Proof.
  intros H. unfold ComInit. post_step. post_use (@com_call_quiet w H) as r w1 H1.
  destruct H1 as [-> ->]. post_step. auto.
Qed.

Lemma get_prop_quiet {A} (v d : A) w :
  faults w = [] -> post (get_prop v d) w (fun r w' => r = Returns v /\ w' = w).
Proof.
  intros H. unfold get_prop. post_step. post_use (@com_call_quiet w H) as r w1 H1.
  destruct H1 as [-> ->]. post_step. auto.
Qed.

Lemma ReadSnapshot_quiet n w :
  faults w = [] ->
  post (ReadSnapshot n) w
       (fun r w' => r = Returns (snapshot_rule (find (has_name n) (rules w))) /\ w' = w).
Proof.
  intros H. unfold ReadSnapshot. lazy zeta. post_step.
  post_use (@GetRules_quiet w H) as r w1 H1.
  destruct H1 as [-> ->]. post_step. post_use (@Item_quiet n w H) as r w1 H1.
  destruct H1 as [-> ->]. destruct (find (has_name n) (rules w)); [|post_step; auto].
  do 11 (post_step; eapply post_weaken; [apply (@get_prop_quiet _ _ _ _ H)|];
         cbv beta; intros ? ? [-> ->]).
  post_step. auto.
Qed.

Lemma put_each_quiet puts r w :
  faults w = [] ->
  post (put_each puts r) w
       (fun res w' => res = Returns (fold_left (fun x p => p x) puts r) /\ w' = w).
Proof.
  intros H. revert r. induction puts as [|p puts IH]; intros r; simpl.
  - post_step. auto.
  - post_step. unfold put_prop. post_step. post_use (@com_call_quiet w H) as res w1 H1.
    destruct H1 as [-> ->]. post_step. apply IH.
Qed.

Lemma UpsertOutbound_quiet cfg proto port w :
  faults w = [] ->
  post (UpsertOutbound cfg proto port (MakeRuleName cfg proto port)) w
       (fun r w' => r = Returns tt /\ faults w' = []
                    /\ rules w' = remove_rule (MakeRuleName cfg proto port) (rules w)
                                  ++ [allow_rule cfg proto port]).
Proof.
  intros H. unfold UpsertOutbound. post_step. post_use (@GetRules_quiet w H) as r w1 H1.
  destruct H1 as [-> ->]. post_step.
  post_use (@CoCreateInstance_NetFwRule_quiet w H) as r w1 H1. destruct H1 as [-> ->].
  lazy zeta. post_step.
  eapply post_weaken; [apply (@put_each_quiet _ _ _ H)|]. cbv beta. intros r w1 [-> ->].
  change (fold_left _ _ blank_rule) with (allow_rule cfg proto port). post_step.
  post_use (@RemoveIfExists_quiet (MakeRuleName cfg proto port) w H) as r w1 H1.
  destruct H1 as [-> [F1 [R1 _]]]. post_step.
  post_use (@Add_quiet (allow_rule cfg proto port) w1 F1) as r w2 H2.
  destruct H2 as [-> [F2 [R2 _]]]. post_step. rewrite R2, R1. auto.
Qed.

Lemma config_valid_run {S} cfg (s : S) :
  config_valid cfg -> ValidateConfig cfg s = (Returns tt, s).
Proof.
  intros [A [B C]]. unfold ValidateConfig.
  destruct (String.eqb_spec (rule_prefix cfg) ""); [contradiction|].
  destruct (String.eqb_spec (app_path cfg) ""); [contradiction|].
  destruct (String.eqb_spec (server_ip cfg) ""); [contradiction|]. reflexivity.
Qed.

Lemma post_eq {S A} (m : M S A) (s : S) r s' (Q : outcome A -> S -> Prop) :
  m s = (r, s') -> Q r s' -> post m s Q.
Proof. intros E H. unfold post. rewrite E. exact H. Qed.

Lemma Allow_quiet proto port this w :
  faults w = [] -> config_valid (cfg_ this) -> port <> 0%N ->
  existsb (same_key proto port) (entries_ this) = false ->
  post (Allow proto port) (this, w)
       (fun r s' =>
          r = Returns tt
          /\ fst s' = recorded this proto port
                        (snapshot_rule (find (has_name (MakeRuleName (cfg_ this) proto port))
                                             (rules w)))
          /\ faults (snd s') = []
          /\ rules (snd s') = remove_rule (MakeRuleName (cfg_ this) proto port) (rules w)
                              ++ [allow_rule (cfg_ this) proto port]).
Proof.
  intros Hf Hc Hp He. unfold Allow. post_step. post_step. lazy zeta. cbn [fst snd].
  post_step. eapply post_eq; [apply (config_valid_run _ Hc)|].
  apply N.eqb_neq in Hp. rewrite Hp, He. post_step. post_step. cbn [fst snd].
  post_use (@ComInit_quiet w Hf) as r w1 H1. destruct H1 as [-> ->].
  post_step. post_step. cbn [fst snd].
  post_use (@ReadSnapshot_quiet (MakeRuleName (cfg_ this) proto port) w Hf) as r w1 H1.
  destruct H1 as [-> ->]. post_step. post_step. cbn [fst snd].
  post_use (@UpsertOutbound_quiet (cfg_ this) proto port w Hf) as r w1 H1.
  destruct H1 as [-> [F1 R1]]. post_step. cbn [fst snd]. unfold recorded. auto.
Qed.

Lemma restored_snapshot r : restored_rule (snapshot_rule (Some r)) blank_rule = r.
Proof. destruct r. reflexivity. Qed.

Lemma RestoreFromSnapshot_quiet s w :
  faults w = [] -> present s = true ->
  post (RestoreFromSnapshot s) w
       (fun r w' => r = Returns tt /\ faults w' = []
                    /\ rules w' = remove_rule (name s) (rules w) ++ [restored_rule s blank_rule]
                    /\ exists seg, log w' = log w ++ seg
                                   /\ added seg = [restored_rule s blank_rule]).
Proof.
  intros Hf Hp. unfold RestoreFromSnapshot. rewrite Hp. simpl negb. lazy iota.
  post_step. post_use (@GetRules_quiet w Hf) as r w1 H1. destruct H1 as [-> ->].
  post_step. post_use (@CoCreateInstance_NetFwRule_quiet w Hf) as r w1 H1.
  destruct H1 as [-> ->]. post_step.
  eapply post_weaken; [apply (@put_each_quiet _ _ _ Hf)|]. cbv beta. intros r w1 [-> ->].
  change (fold_left _ _ blank_rule) with (restored_rule s blank_rule). post_step.
  post_use (@RemoveIfExists_quiet (name s) w Hf) as r w1 H1. destruct H1 as [-> [F1 [R1 L1]]].
  post_step. post_use (@Add_quiet (restored_rule s blank_rule) w1 F1) as r w2 H2.
  destruct H2 as [-> [F2 [R2 L2]]]. post_step. rewrite R2, R1.
  split; [reflexivity|]. split; [exact F2|]. split; [reflexivity|].
  eexists. split; [rewrite L2, L1, <- app_assoc; reflexivity|].
  rewrite added_app. destruct (find (has_name (name s)) (rules w)); reflexivity.
Qed.

Lemma emit_quiet ev w :
  post (emit ev) w (fun r w' => r = Returns tt /\ faults w' = faults w /\ rules w' = rules w
                                /\ log w' = log w ++ [ev]).
Proof. unfold emit. post_step. auto. Qed.

(** One iteration of the loop of [Revert] when every call succeeds. *)
Lemma Revert_entry_quiet it err w :
  faults w = [] -> touched it = true -> had_before it = present (snapshot it) ->
  post (Revert_entry it err) w
       (fun r w' =>
          r = Returns err /\ faults w' = []
          /\ rules w' = (if had_before it
                         then remove_rule (name (snapshot it))
                                          (remove_rule (e_name it) (rules w))
                              ++ [restored_rule (snapshot it) blank_rule]
                         else remove_rule (e_name it) (rules w))
          /\ exists seg, log w' = log w ++ seg
                         /\ added seg = if had_before it
                                        then [restored_rule (snapshot it) blank_rule]
                                        else []).
Proof.
  intros Hf Ht Hh. unfold Revert_entry. rewrite Ht. post_step. post_step. post_step.
  post_step. post_use emit_quiet as r w1 H1. destruct H1 as [-> [F1 [R1 L1]]].
  rewrite Hf in F1.
  post_use (@RemoveIfExists_quiet (e_name it) w1 F1) as r w2 H2.
  destruct H2 as [-> [F2 [R2 L2]]]. post_step. rewrite R1 in R2, L2.
  assert (A2 : exists seg, log w2 = log w ++ seg /\ added seg = []).
  { eexists. split; [rewrite L2, L1, <- app_assoc; reflexivity|].
    destruct (find (has_name (e_name it)) (rules w)); reflexivity. }
  destruct A2 as [seg2 [E2 A2]].
  destruct (had_before it) eqn:Hb.
  - post_step. post_step. post_step. post_use emit_quiet as r w3 H3.
    destruct H3 as [-> [F3 [R3 L3]]]. rewrite F2 in F3.
    post_use (@RestoreFromSnapshot_quiet (snapshot it) w3 F3 (eq_sym Hh)) as r w4 H4.
    destruct H4 as [-> [F4 [R4 [seg4 [L4 A4]]]]]. post_step. rewrite R4, R3, R2.
    split; [reflexivity|]. split; [exact F4|]. split; [reflexivity|].
    exists (seg2 ++ [LogRevertRestore (name (snapshot it))] ++ seg4).
    split; [rewrite L4, L3, E2, <- !app_assoc; reflexivity|].
    rewrite !added_app, A2, A4. reflexivity.
  - post_step. post_step. post_step. post_step.
    split; [reflexivity|]. split; [exact F2|]. split; [exact R2|].
    exists seg2. auto.
Qed.



(** *** [Revert] *)

Lemma ComInit_ok w :
  hd false (faults w) = false ->
  post ComInit w (fun r w' => r = Returns tt /\ traces w w' []).
Proof.
  intros H. unfold post, ComInit, bind, com_call. destruct (faults w) as [|f fs]; simpl in *.
  - split; [reflexivity | apply traces_refl].
  - subst f. simpl. split; [reflexivity|]. split; simpl; [rewrite app_nil_r|]; reflexivity.
Qed.

Lemma ComInit_fails w :
  hd false (faults w) = true ->
  post ComInit w (fun r w' => r = Throws (HrErr "CoInitializeEx") /\ rules w' = rules w
                              /\ log w' = log w).
Proof.
  intros H. unfold post, ComInit, bind, com_call. destruct (faults w) as [|f fs]; [discriminate|].
  simpl in H. subst f. simpl. auto.
Qed.





(** With no COM failure pending and no rule of that name in the
    collection, a first [Allow] that returns has added its rule last. *)
Lemma Allow_ctor_run cfg proto port w s' :
  faults w = [] ->
  find (has_name (MakeRuleName cfg proto port)) (rules w) = None ->
  Allow proto port (FirewallRules_ctor cfg, w) = (Returns tt, s') ->
  rules (snd s') = rules w ++ [allow_rule cfg proto port].
Proof.
  intros Hf Hn. destruct w as [rs fs lg]. simpl in Hf, Hn. subst fs.
  unfold Allow, bind, get, ValidateConfig, ret, throw, liftW, modify. simpl.
  destruct (String.eqb (rule_prefix cfg) ""); [discriminate|].
  destruct (String.eqb (app_path cfg) ""); [discriminate|].
  destruct (String.eqb (server_ip cfg) ""); [discriminate|].
  destruct (port =? 0)%N; [discriminate|]. simpl.
  unfold ReadSnapshot, UpsertOutbound, RemoveIfExists, GetRules, GetPolicy2, Item, Add,
    CoCreateInstance_NetFwRule, put_each, put_prop, get_prop, bind, get, ret, throw,
    com_call, modify. simpl.
  rewrite Hn. simpl. rewrite Hn. simpl.
  intros E. injection E as <-. reflexivity.
Qed.

End FirewallFacts.

Section ClientFacts.
Import Client.
Context {P : InetPton}.

Lemma on_globals_fw {A} (m : M Network.Globals A) h :
  post (on_globals m) h (fun _ h' => fw_world h' = fw_world h).
Proof. unfold post, on_globals. destruct (m (globals h)). reflexivity. Qed.

Lemma on_ip_fw {A} (m : M IpHelper.World A) h :
  post (on_ip m) h (fun _ h' => fw_world h' = fw_world h).
Proof. unfold post, on_ip. destruct (m (ip_world h)). reflexivity. Qed.

Lemma on_reg_fw {O A} (m : M (O * DNS.World) A) o h :
  post (on_reg m o) h (fun _ h' => fw_world h' = fw_world h).
Proof.
  unfold post, on_reg. destruct (m (o, reg_world h)) as [[a|e] [o' w']]; reflexivity.
Qed.

Lemma on_fw_run {O A} (m : M (O * Firewall.World) A) o h :
  post (on_fw m o) h
       (fun r h' => match r with
                    | Returns (a, o') => m (o, fw_world h) = (Returns a, (o', fw_world h'))
                    | Throws _ => True
                    end).
Proof.
  unfold post, on_fw. destruct (m (o, fw_world h)) as [[a|e] [o' w']]; simpl; trivial.
Qed.

Lemma validate_state {S} c (s : S) : post (validate c) s (fun _ s' => s' = s).
Proof.
  unfold validate.
  destruct (String.eqb (server c) ""); [reflexivity|].
  destruct ((port c <=? 0)%Z || (65535 <? port c)%Z); [reflexivity|].
  destruct ((mtu c <? 576)%Z || (9200 <? mtu c)%Z); reflexivity.
Qed.

(** C9, amended.  When the worker reaches the session on a
    machine whose firewall calls all succeed and which holds no rule of
    that name yet, the firewall holds exactly one rule more than before:
    a TCP rule named "FlowForge Out TCP to <remote_addresses>:<port>",
    for the addresses the server resolved to and the configured port. *)
Theorem Start_installs_one_TCP_rule env c m session :
  Firewall.faults (fw_world m) = [] ->
  fst (ClientMain_init env c m) = Returns (Serving session) ->
  let addrs := ResolveFirewallAddressesW (getaddrinfo env) (strip_brackets (server c)) in
  let n := ("FlowForge Out TCP to " ++ addrs ++ ":" ++ to_wstring (to_uint16 (port c)))%string in
  find (Firewall.has_name n) (Firewall.rules (fw_world m)) = None ->
  exists r,
    Firewall.rules (fw_world (snd (ClientMain_init env c m))) = Firewall.rules (fw_world m) ++ [r]
    /\ Firewall.Name r = n
    /\ Firewall.IpProtocol r = Firewall.NET_FW_IP_PROTOCOL_TCP
    /\ Firewall.RemoteAddresses r = addrs
    /\ Firewall.RemotePorts r = to_wstring (to_uint16 (port c)).
Proof.
  intros Hf Hs addrs n Hn. revert Hs.
  change (post (ClientMain_init env c) m
            (fun r m' =>
               r = Returns (Serving session) ->
               exists r0,
                 Firewall.rules (fw_world m') = Firewall.rules (fw_world m) ++ [r0]
                 /\ Firewall.Name r0 = n
                 /\ Firewall.IpProtocol r0 = Firewall.NET_FW_IP_PROTOCOL_TCP
                 /\ Firewall.RemoteAddresses r0 = addrs
                 /\ Firewall.RemotePorts r0 = to_wstring (to_uint16 (port c)))).
  unfold ClientMain_init.
  destruct (elevated env); simpl negb; lazy iota; [|post_step; discriminate].
  post_step. eapply post_weaken; [apply validate_state|]. cbv beta. intros r m1 ->.
  destruct r; [|discriminate]. lazy beta iota.
  destruct (wintun_loads env); simpl negb; lazy iota; [|post_step; discriminate].
  destruct (wsa_starts env); simpl negb; lazy iota; [|post_step; discriminate].
  destruct (module_path env) as [exe|]; [|post_step; discriminate].
  post_step. eapply post_weaken; [apply on_fw_run|]. cbv beta. intros r m2 H2.
  destruct r as [[[] fw]|]; [|discriminate].
  apply Allow_ctor_run in H2; trivial. simpl snd in H2.
  assert (Hgoal : exists r0,
             Firewall.rules (fw_world m2) = Firewall.rules (fw_world m) ++ [r0]
             /\ Firewall.Name r0 = n
             /\ Firewall.IpProtocol r0 = Firewall.NET_FW_IP_PROTOCOL_TCP
             /\ Firewall.RemoteAddresses r0 = addrs
             /\ Firewall.RemotePorts r0 = to_wstring (to_uint16 (port c))).
  { eexists. split; [exact H2|]. repeat split. }
  clear H2.
  destruct (plugin_loads env); simpl negb; lazy iota.
  2:{ post_step. post_use (@post_true Machine unit) as r m3 H3.
      destruct r; [post_step|]; discriminate. }
  destruct (adapter_luid env) as [luid|].
  2:{ post_step. post_use (@post_true Machine unit) as r m3 H3.
      destruct r; [post_step|]; discriminate. }
  post_step. eapply post_weaken; [apply on_globals_fw|]. cbv beta. intros r m3 H3.
  destruct r; [|discriminate].
  post_step. eapply post_weaken; [apply on_ip_fw|]. cbv beta. intros r m4 H4.
  destruct r; [|discriminate].
  post_step. eapply post_weaken; [apply on_reg_fw|]. cbv beta. intros r m5 H5.
  destruct r; [|discriminate].
  post_step. intros _. rewrite H5, H4, H3. exact Hgoal.
Qed.

End ClientFacts.


(** ** The DNS override *)

Ltac dns_proj :=
  cbn [fst snd DNS.guid_str_ DNS.luid_ DNS.applied_ DNS.prev_v4_present_ DNS.prev_v6_present_
       DNS.prev_v4_ DNS.prev_v6_ DNS.touched_v4_ DNS.touched_v6_].

Ltac dns_fin :=
  repeat match goal with
         | |- _ /\ _ => split
         | |- _ -> _ => intro
         end;
  trivial; try discriminate; try congruence; auto.

Section DnsFacts.
Import DNS DnsSpec.
Context {P : InetPton}.

Lemma classify_invalid servers :
  (exists s, In s servers /\ valid s = false) ->
  forall v4 v6, exists what, classify servers v4 v6 = Throws (InvalidArgument what).
Proof.
  induction servers as [|s0 rest IH]; intros [s [Hin Hv]] v4 v6; [contradiction|].
  simpl. destruct (IsIPv4 s0) eqn:E4.
  - apply IH. destruct Hin as [-> | Hin]; [|eauto].
    unfold valid in Hv. rewrite E4 in Hv. discriminate.
  - destruct (IsIPv6 s0) eqn:E6; [|eauto].
    apply IH. destruct Hin as [-> | Hin]; [|eauto].
    unfold valid in Hv. rewrite E4, E6 in Hv. discriminate.
Qed.

(** C5, amended.  [Apply] on an empty list, or on a list with an element
    that is neither an IPv4 nor an IPv6 literal, throws and leaves the
    registry world exactly as it was: no value is written or deleted and
    no registry call is even made.  The exception is the invalid-argument
    one for the empty list, and for a bad element whenever the GUID text
    of the interface is cached or can be obtained; when it is neither, the
    list is not classified at all and the exception is the runtime error
    of [LuidToGuidString]. *)
Theorem Apply_rejects_bad_list d w servers :
  (servers = [] \/ exists s, In s servers /\ valid s = false) ->
  snd (snd (Apply servers (d, w))) = w
  /\ is_thrown (fst (Apply servers (d, w))) = true
  /\ (servers = [] ->
      fst (Apply servers (d, w)) = Throws (InvalidArgument "DNS.Apply: servers list is empty"))
  /\ (guid_ready d w ->
      exists what, fst (Apply servers (d, w)) = Throws (InvalidArgument what))
  /\ (servers <> [] -> ~ guid_ready d w ->
      exists what, fst (Apply servers (d, w)) = Throws (RuntimeError what)).
Proof.
  intros Hbad. destruct servers as [|s0 rest].
  - simpl. split; [reflexivity|]. split; [reflexivity|]. split; [reflexivity|].
    split; [eauto|]. intros H. contradiction.
  - destruct Hbad as [Hbad | Hbad]; [discriminate|].
    destruct (@classify_invalid (s0 :: rest) Hbad [] []) as [what Hc].
    unfold Apply. rewrite Hc. unfold LuidToGuidString, Throw_.
    unfold bind, modify, get, liftW, throw, ret. simpl.
    destruct (String.eqb_spec (guid_str_ d) "") as [Eg | Eg]; simpl.
    + destruct (guid_of w (luid_ d)) as [g|] eqn:Hg; simpl.
      * destruct (String.eqb_spec g "") as [Eg' | Eg']; simpl.
        -- split; [reflexivity | split; [reflexivity | split; [discriminate|]]].
           split; [|eauto].
           intros [Hr | [g' [Hg' Hne]]]; [contradiction | congruence].
        -- split; [reflexivity | split; [reflexivity | split; [discriminate|]]].
           split; [eauto|]. intros _ Hn. exfalso. apply Hn. right. eauto.
      * split; [reflexivity | split; [reflexivity | split; [discriminate|]]].
        split; [|eauto].
        intros [Hr | [g' [Hg' Hne]]]; [contradiction | congruence].
    + split; [reflexivity | split; [reflexivity | split; [discriminate|]]].
      split; [eauto|]. intros _ Hn. exfalso. apply Hn. left. exact Eg.
Qed.

Lemma steps_refl w : steps w w [].
Proof. unfold steps. rewrite app_nil_r. auto. Qed.

Lemma steps_trans w w1 w2 a b : steps w w1 a -> steps w1 w2 b -> steps w w2 (a ++ b).
Proof.
  intros [A1 [A2 A3]] [B1 [B2 B3]]. unfold steps.
  rewrite B1, A1, app_assoc, B2, A2. repeat split.
  intros k Hk. rewrite map_app, in_app_iff in Hk.
  rewrite B3, A3; tauto.
Qed.

Lemma steps_nil_l w w1 w2 b : steps w w1 [] -> steps w1 w2 b -> steps w w2 b.
Proof. intros H1 H2. exact (steps_trans H1 H2). Qed.

Lemma steps_nil_r w w1 w2 a : steps w w1 a -> steps w1 w2 [] -> steps w w2 a.
Proof. intros H1 H2. rewrite <- (app_nil_r a). exact (steps_trans H1 H2). Qed.

Lemma reg_call_steps w :
  post reg_call w (fun r w' => (exists c, r = Returns c) /\ steps w w' []).
Proof.
  unfold post, reg_call. destruct (faults w); simpl; (split; [eauto|]);
    unfold steps; simpl; rewrite app_nil_r; auto.
Qed.

Lemma OpenInterfaceKey_steps base g w :
  post (OpenInterfaceKey base g) w
       (fun r w' => steps w w' [] /\ forall h, r = Returns h -> h = (base ++ g)%string).
Proof.
  unfold OpenInterfaceKey, ThrowWin. post_step. post_use reg_call_steps as r w1 H1.
  destruct H1 as [[c ->] S1].
  destruct (negb (c =? ERROR_SUCCESS)%Z); [post_step; split; [exact S1 | discriminate]|].
  post_step. post_step. lazy beta.
  destruct (reg w1 (base ++ g)%string); post_step; (split; [exact S1|]); intros h E;
    [injection E; auto | discriminate].
Qed.

Lemma RegQueryValueExW_steps h w :
  post (RegQueryValueExW h) w (fun r w' => (exists q, r = Returns q) /\ steps w w' []).
Proof.
  unfold RegQueryValueExW. post_step. post_use reg_call_steps as r w1 H1.
  destruct H1 as [[c ->] S1].
  destruct (negb (c =? ERROR_SUCCESS)%Z); [post_step; eauto|].
  post_step. post_step. lazy beta.
  destruct (reg w1 h) as [[v|]|]; post_step; eauto.
Qed.

Lemma ReadNameServer_steps base g w :
  post (ReadNameServer base g) w (fun _ w' => steps w w' []).
Proof.
  unfold ReadNameServer, ThrowWin. post_step. post_use OpenInterfaceKey_steps as r w1 H1.
  destruct H1 as [S1 _]. destruct r as [h|]; [|exact S1].
  post_step. post_use RegQueryValueExW_steps as r w2 H2. destruct H2 as [[[st v] ->] S2].
  pose proof (steps_nil_l S1 S2) as S12.
  destruct (st =? ERROR_FILE_NOT_FOUND)%Z; [post_step; exact S12|].
  destruct (st =? ERROR_SUCCESS)%Z; [|post_step; exact S12].
  destruct v as [[buf|]|]; try (post_step; exact S12).
  post_step. post_use RegQueryValueExW_steps as r w3 H3. destruct H3 as [[[st2 v2] ->] S3].
  pose proof (steps_nil_l S12 S3) as S123.
  destruct (st2 =? ERROR_SUCCESS)%Z; [|post_step; exact S123].
  destruct v2 as [[buf2|]|]; post_step; exact S123.
Qed.

Lemma reg_update_same k v r : reg_update k v r k = Some v.
Proof. unfold reg_update. rewrite String.eqb_refl. reflexivity. Qed.

Lemma reg_update_other k v r k' : k' <> k -> reg_update k v r k' = r k'.
Proof. unfold reg_update. intros H. apply String.eqb_neq in H. rewrite H. reflexivity. Qed.

Lemma RegSetValueExW_steps h v w :
  post (RegSetValueExW h v) w
       (fun r w' => exists st, r = Returns st
                    /\ if (st =? ERROR_SUCCESS)%Z
                       then steps w w' [SetValue h v] /\ reg w' h = Some (Some (REG_SZ v))
                       else steps w w' []).
Proof.
  unfold RegSetValueExW. post_step. post_use reg_call_steps as r w1 H1.
  destruct H1 as [[c ->] [S1 [S2 S3]]].
  destruct (c =? ERROR_SUCCESS)%Z eqn:Ec; simpl negb; lazy iota.
  - post_step. post_step. post_step. exists ERROR_SUCCESS. split; [reflexivity|]. simpl.
    split; [|apply reg_update_same].
    unfold steps. simpl. rewrite S1, S2, app_nil_r. repeat split.
    intros k Hk. simpl in Hk. rewrite reg_update_other;
      [apply S3; simpl; tauto | intros E; apply Hk; left; symmetry; exact E].
  - post_step. exists c. split; [reflexivity|]. rewrite Ec. repeat split; assumption.
Qed.

Lemma RegDeleteValueW_steps h w :
  post (RegDeleteValueW h) w
       (fun r w' => (exists st, r = Returns st)
                    /\ exists seg, steps w w' seg /\ (seg = [] \/ seg = [DeleteValue h])).
Proof.
  unfold RegDeleteValueW. post_step. post_use reg_call_steps as r w1 H1.
  destruct H1 as [[c ->] [S1 [S2 S3]]].
  destruct (negb (c =? ERROR_SUCCESS)%Z).
  - post_step. split; [eauto|]. exists []. split; [repeat split; assumption | auto].
  - post_step. post_step. lazy beta.
    destruct (reg w1 h) as [[v|]|].
    + post_step. post_step. post_step. split; [eauto|]. exists [DeleteValue h].
      split; [|auto]. unfold steps. simpl. rewrite S1, S2, app_nil_r. repeat split.
      intros k Hk. simpl in Hk. rewrite reg_update_other;
      [apply S3; simpl; tauto | intros E; apply Hk; left; symmetry; exact E].
    + post_step. split; [eauto|]. exists []. split; [repeat split; assumption | auto].
    + post_step. split; [eauto|]. exists []. split; [repeat split; assumption | auto].
Qed.

(** Whatever it is given, [WriteNameServer] writes under its key only. *)
Lemma WriteNameServer_frame h v w :
  post (WriteNameServer h v) w
       (fun _ w' => exists seg, steps w w' seg /\ forall x, In x seg -> key_of x = h).
Proof.
  unfold WriteNameServer, ThrowWin. destruct (String.eqb v "").
  - post_step. post_use RegDeleteValueW_steps as r w1 H1.
    destruct H1 as [[st ->] [seg [S1 Hseg]]].
    assert (Hk : forall x, In x seg -> key_of x = h).
    { intros x Hx. destruct Hseg as [-> | ->]; [contradiction|].
      destruct Hx as [<- | []]. reflexivity. }
    destruct ((st =? ERROR_SUCCESS)%Z || (st =? ERROR_FILE_NOT_FOUND)%Z); post_step; eauto.
  - post_step. post_use RegSetValueExW_steps as r w1 H1. destruct H1 as [st [-> H1]].
    destruct (st =? ERROR_SUCCESS)%Z; simpl negb; lazy iota; post_step.
    + destruct H1 as [S1 _]. exists [SetValue h v]. split; [exact S1|].
      intros x [<- | []]. reflexivity.
    + exists []. split; [exact H1 | intros x []].
Qed.

(** A value that is not empty is set, or the call throws having written
    nothing. *)
Lemma WriteNameServer_set h v w :
  v <> EmptyString ->
  post (WriteNameServer h v) w
       (fun r w' => match r with
                    | Returns _ => steps w w' [SetValue h v]
                                   /\ reg w' h = Some (Some (REG_SZ v))
                    | Throws _ => steps w w' []
                    end).
Proof.
  intros Hv. apply String.eqb_neq in Hv. unfold WriteNameServer, ThrowWin. rewrite Hv.
  post_step. post_use RegSetValueExW_steps as r w1 H1. destruct H1 as [st [-> H1]].
  destruct (st =? ERROR_SUCCESS)%Z; simpl negb; lazy iota; post_step; exact H1.
Qed.

Lemma JoinComma_nonempty l :
  l <> [] -> (forall s, In s l -> s <> EmptyString) -> JoinComma l <> EmptyString.
Proof.
  destruct l as [|s rest]; [congruence|]. intros _ H.
  assert (Hs : s <> EmptyString) by (apply H; left; reflexivity).
  destruct s as [|c s']; [congruence|].
  unfold JoinComma. simpl. destruct rest; simpl; discriminate.
Qed.

Lemma valid_nonempty s : pton_rejects_empty P -> valid s = true -> s <> EmptyString.
Proof.
  intros [E4 E6] Hv ->. unfold valid, IsIPv4, IsIPv6 in Hv. rewrite E4, E6 in Hv. discriminate.
Qed.

Lemma classify_valid servers :
  Forall (fun s => valid s = true) servers ->
  forall v4 v6, classify servers v4 v6 = Returns (v4 ++ of_v4 servers, v6 ++ of_v6 servers).
Proof.
  induction 1 as [|s rest Hs _ IH]; intros v4 v6; simpl.
  - rewrite !app_nil_r. reflexivity.
  - unfold valid in Hs. destruct (IsIPv4 s) eqn:E4; simpl.
    + rewrite IH, <- app_assoc. reflexivity.
    + simpl in Hs. rewrite Hs. simpl. rewrite IH, <- app_assoc. reflexivity.
Qed.

Lemma of_v4_valid servers s :
  Forall (fun s => valid s = true) servers -> In s (of_v4 servers) -> valid s = true.
Proof.
  intros H Hin. apply filter_In in Hin. rewrite Forall_forall in H. apply H, Hin.
Qed.

Lemma of_v6_valid servers s :
  Forall (fun s => valid s = true) servers -> In s (of_v6 servers) -> valid s = true.
Proof.
  intros H Hin. apply filter_In in Hin. rewrite Forall_forall in H. apply H, Hin.
Qed.

Lemma key4_key6 g : key4 g <> key6 g.
Proof. unfold key4, key6. simpl. discriminate. Qed.

Lemma SetForFamily_steps g af servers w :
  servers <> [] -> JoinComma servers <> EmptyString ->
  post (SetForFamily g af servers) w
       (fun r w' =>
          match r with
          | Returns _ =>
              steps w w' [SetValue (BasePathForAf af ++ g) (JoinComma servers)]
              /\ reg w' (BasePathForAf af ++ g)%string = Some (Some (REG_SZ (JoinComma servers)))
          | Throws _ => steps w w' []
          end).
Proof.
  intros Hne Hj. unfold SetForFamily. destruct servers as [|s0 rest]; [congruence|].
  lazy beta iota zeta.
  post_step. post_use OpenInterfaceKey_steps as r w1 H1. destruct H1 as [S1 Hh].
  destruct r as [h|]; [|exact S1]. rewrite (Hh h eq_refl).
  post_use (@WriteNameServer_set (BasePathForAf af ++ g) (JoinComma (s0 :: rest)) w1 Hj)
    as r w2 H2.
  destruct r.
  - destruct H2 as [S2 R2]. split; [exact (steps_nil_l S1 S2) | exact R2].
  - exact (steps_nil_l S1 H2).
Qed.

Lemma LuidToGuidString_state l w : post (LuidToGuidString l) w (fun _ w' => w' = w).
Proof.
  unfold LuidToGuidString, Throw_. post_step. post_step. lazy beta.
  destruct (guid_of w l) as [g|]; [|post_step; reflexivity].
  destruct (String.eqb g ""); post_step; reflexivity.
Qed.

Lemma Apply_steps d w servers :
  servers <> [] ->
  Forall (fun s => valid s = true) servers ->
  pton_rejects_empty P ->
  post (Apply servers) (d, w)
       (fun r s' =>
          let g := guid_str_ (fst s') in
          exists seg rest,
            steps w (snd s') seg
            /\ planned_writes g servers = seg ++ rest
            /\ (touched_v4_ (fst s') = true -> of_v4 servers <> [])
            /\ (touched_v6_ (fst s') = true -> of_v6 servers <> [])
            /\ (r = Returns tt ->
                rest = []
                /\ applied_ (fst s') = true
                /\ (of_v4 servers <> [] ->
                    touched_v4_ (fst s') = true
                    /\ reg (snd s') (key4 g)
                       = Some (Some (REG_SZ (JoinComma (of_v4 servers)))))
                /\ (of_v6 servers <> [] ->
                    touched_v6_ (fst s') = true
                    /\ reg (snd s') (key6 g)
                       = Some (Some (REG_SZ (JoinComma (of_v6 servers))))))).
Proof.
  intros Hne Hvalid Hempty.
  assert (Hj4 : of_v4 servers <> [] -> JoinComma (of_v4 servers) <> EmptyString).
  { intros H. apply JoinComma_nonempty; [exact H|]. intros s Hs.
    apply valid_nonempty; [exact Hempty | eapply of_v4_valid; eassumption]. }
  assert (Hj6 : of_v6 servers <> [] -> JoinComma (of_v6 servers) <> EmptyString).
  { intros H. apply JoinComma_nonempty; [exact H|]. intros s Hs.
    apply valid_nonempty; [exact Hempty | eapply of_v6_valid; eassumption]. }
  unfold Apply. rewrite (classify_valid Hvalid). simpl app.
  unfold planned_writes.
  set (v4 := of_v4 servers) in *. set (v6 := of_v6 servers) in *.
  destruct servers as [|s0 srest]; [congruence|]. clear Hne.
  post_step. post_step. lazy beta iota. dns_proj.
  post_step. post_step. lazy beta. dns_proj.
  post_step.
  (* the GUID text *)
  eapply post_weaken with
    (Q1 := fun r s1 => snd s1 = w
                       /\ touched_v4_ (fst s1) = false /\ touched_v6_ (fst s1) = false).
  { destruct (String.eqb (guid_str_ d) ""); [|post_step; auto].
    post_step. post_step. dns_proj.
    post_use LuidToGuidString_state as r w1 H1. subst w1.
    destruct r; [post_step|]; auto. }
  cbv beta. intros r [d1 w1] [Hw1 [T4 T6]]. simpl in Hw1, T4, T6. subst w1.
  destruct r.
  2:{ simpl. exists []; eexists. split; [apply steps_refl|]. split; [reflexivity|].
      rewrite T4, T6. dns_fin. }
  post_step. post_step. lazy beta zeta. dns_proj.
  post_step. post_step. dns_proj.
  post_use ReadNameServer_steps as r w2 S2.
  destruct r as [p4|].
  2:{ simpl. exists []; eexists. split; [exact S2|]. split; [reflexivity|].
      rewrite T4, T6. dns_fin. }
  post_step. post_step. dns_proj.
  post_step. post_step. dns_proj.
  post_use ReadNameServer_steps as r w3 S3. pose proof (steps_nil_l S2 S3) as S23.
  destruct r as [p6|].
  2:{ simpl. exists []; eexists. split; [exact S23|]. split; [reflexivity|].
      rewrite T4, T6. dns_fin. }
  post_step. post_step. dns_proj.
  post_step.
  (* the IPv4 write *)
  eapply post_weaken with
    (Q1 := fun r s1 =>
             guid_str_ (fst s1) = guid_str_ d1
             /\ touched_v6_ (fst s1) = false
             /\ (touched_v4_ (fst s1) = true -> v4 <> [])
             /\ match r with
                | Returns _ =>
                    match v4 with
                    | [] => steps w (snd s1) []
                    | _ => steps w (snd s1) [SetValue (key4 (guid_str_ d1)) (JoinComma v4)]
                           /\ touched_v4_ (fst s1) = true
                           /\ reg (snd s1) (key4 (guid_str_ d1))
                              = Some (Some (REG_SZ (JoinComma v4)))
                    end
                | Throws _ => steps w (snd s1) [] /\ touched_v4_ (fst s1) = false
                end).
  { destruct v4 as [|a4 l4] eqn:E4.
    - post_step. simpl. rewrite T4, T6. dns_fin.
    - post_step. post_step. dns_proj.
      assert (N4 : a4 :: l4 <> []) by discriminate.
      post_use (@SetForFamily_steps (guid_str_ d1) AF_INET (a4 :: l4) w3 N4 (Hj4 N4)) as r w4 S4.
      destruct r.
      + post_step. simpl. destruct S4 as [S4 R4].
        pose proof (steps_nil_l S23 S4). dns_fin.
      + simpl. rewrite T4, T6. pose proof (steps_nil_l S23 S4). dns_fin. }
  cbv beta. intros r [d4 w4] [G4 [T6' [T4' H4]]]. simpl in G4, T6', T4', H4.
  destruct r.
  2:{ destruct H4 as [S4 T4'']. simpl. rewrite G4, T6', T4''.
      exists []; eexists. split; [exact S4|]. split; [reflexivity|]. dns_fin. }
  post_step.
  (* the IPv6 write *)
  eapply post_weaken with
    (Q1 := fun r s1 =>
             guid_str_ (fst s1) = guid_str_ d1
             /\ touched_v4_ (fst s1) = touched_v4_ d4
             /\ (touched_v6_ (fst s1) = true -> v6 <> [])
             /\ match r with
                | Returns _ =>
                    match v6 with
                    | [] => snd s1 = w4
                    | _ => steps w4 (snd s1) [SetValue (key6 (guid_str_ d1)) (JoinComma v6)]
                           /\ touched_v6_ (fst s1) = true
                           /\ reg (snd s1) (key6 (guid_str_ d1))
                              = Some (Some (REG_SZ (JoinComma v6)))
                    end
                | Throws _ => steps w4 (snd s1) [] /\ touched_v6_ (fst s1) = false
                end).
  { destruct v6 as [|a6 l6] eqn:E6.
    - post_step. simpl. rewrite T6'. dns_fin.
    - post_step. post_step. dns_proj. rewrite G4.
      assert (N6 : a6 :: l6 <> []) by discriminate.
      post_use (@SetForFamily_steps (guid_str_ d1) AF_INET6 (a6 :: l6) w4 N6 (Hj6 N6)) as r w5 S5.
      destruct r.
      + post_step. simpl. destruct S5 as [S5 R5]. dns_fin.
      + simpl. rewrite T6'. dns_fin. }
  cbv beta. intros r [d6 w6] [G6 [T4'' [T6'' H6]]]. simpl in G6, T4'', T6'', H6.
  destruct r.
  2:{ destruct H6 as [S6 T6f]. simpl. rewrite G6, T4'', T6f.
      destruct v4 as [|a4 l4].
      - exists []; eexists. split; [exact (steps_nil_l H4 S6)|]. split; [reflexivity|].
        dns_fin.
      - destruct H4 as [S4 _]. exists [SetValue (key4 (guid_str_ d1)) (JoinComma (a4 :: l4))]; eexists.
        split; [exact (steps_nil_r S4 S6)|]. split; [reflexivity|].
        dns_fin. }
  post_step. post_step. unfold FlushResolverCache. post_step. post_step.
  simpl. rewrite G6.
  destruct v4 as [|a4 l4]; destruct v6 as [|a6 l6].
  - subst w6. exists [], []. split; [exact H4|]. split; [reflexivity|].
    rewrite T4''. dns_fin.
  - destruct H6 as [S6 [T6t R6]]. exists [SetValue (key6 (guid_str_ d1)) (JoinComma (a6 :: l6))], [].
    split; [exact (steps_nil_l H4 S6)|]. split; [reflexivity|].
    rewrite T4''. dns_fin.
  - subst w6. destruct H4 as [S4 [T4t R4]].
    exists [SetValue (key4 (guid_str_ d1)) (JoinComma (a4 :: l4))], [].
    split; [exact S4|]. split; [reflexivity|].
    rewrite T4''. dns_fin.
  - destruct H4 as [S4 [T4t R4]]. destruct H6 as [S6 [T6t R6]].
    exists [SetValue (key4 (guid_str_ d1)) (JoinComma (a4 :: l4));
            SetValue (key6 (guid_str_ d1)) (JoinComma (a6 :: l6))], [].
    split; [exact (steps_trans S4 S6)|]. split; [reflexivity|].
    rewrite T4''. dns_fin.
    destruct S6 as [_ [_ F6]]. rewrite F6; [exact R4|].
    simpl. intros [E | []]. exact (key4_key6 (eq_sym E)).
Qed.

Lemma Revert_family_frame touched present prev g af err w :
  post (Revert_family touched present prev g af err) w
       (fun r w' => (exists e, r = Returns e)
                    /\ exists seg, steps w w' seg
                       /\ forall x, In x seg ->
                            key_of x = (BasePathForAf af ++ g)%string /\ touched = true).
Proof.
  unfold Revert_family, UnsetForFamily. destruct touched.
  2:{ post_step. split; [eauto|]. exists []. split; [apply steps_refl | intros x []]. }
  post_step. post_step.
  eapply post_weaken with
    (Q1 := fun _ w' => exists seg, steps w w' seg
                       /\ forall x, In x seg -> key_of x = (BasePathForAf af ++ g)%string).
  { destruct present.
    - post_step. post_use OpenInterfaceKey_steps as r w1 H1. destruct H1 as [S1 Hh].
      destruct r as [h|].
      + rewrite (Hh h eq_refl). post_use WriteNameServer_frame as r w2 H2.
        destruct H2 as [seg [S2 K2]]. exists seg. split; [exact (steps_nil_l S1 S2) | exact K2].
      + exists []. split; [exact S1 | intros x []].
    - lazy zeta. post_step. post_use OpenInterfaceKey_steps as r w1 H1. destruct H1 as [S1 Hh].
      destruct r as [h|].
      + rewrite (Hh h eq_refl). post_use WriteNameServer_frame as r w2 H2.
        destruct H2 as [seg [S2 K2]]. exists seg. split; [exact (steps_nil_l S1 S2) | exact K2].
      + exists []. split; [exact S1 | intros x []]. }
  cbv beta. intros r w1 [seg [S1 K1]].
  destruct r; post_step; (split; [eauto|]); exists seg; (split; [exact S1|]);
    intros x Hx; split; [apply K1; exact Hx | reflexivity | apply K1; exact Hx | reflexivity].
Qed.

(** [Revert] writes under the keys of the touched families only. *)
Lemma Revert_steps d w :
  post Revert (d, w)
       (fun _ s' =>
          exists seg, steps w (snd s') seg
                      /\ forall x, In x seg ->
                           (key_of x = key4 (guid_str_ d) /\ touched_v4_ d = true)
                           \/ (key_of x = key6 (guid_str_ d) /\ touched_v6_ d = true)).
Proof.
  unfold Revert. post_step. post_step. lazy beta zeta. dns_proj.
  destruct (applied_ d); simpl negb; lazy iota.
  2:{ post_step. exists []. split; [apply steps_refl | intros x []]. }
  post_step. post_step. dns_proj. post_use Revert_family_frame as r w1 H1.
  destruct H1 as [[e4 ->] [seg1 [S1 K1]]].
  post_step. post_step. dns_proj. post_use Revert_family_frame as r w2 H2.
  destruct H2 as [[e6 ->] [seg2 [S2 K2]]].
  assert (Hall : exists seg, steps w w2 seg
                   /\ forall x, In x seg ->
                        (key_of x = key4 (guid_str_ d) /\ touched_v4_ d = true)
                        \/ (key_of x = key6 (guid_str_ d) /\ touched_v6_ d = true)).
  { exists (seg1 ++ seg2). split; [exact (steps_trans S1 S2)|].
    intros x Hx. apply in_app_iff in Hx. destruct Hx as [Hx | Hx];
      [left; exact (K1 x Hx) | right; exact (K2 x Hx)]. }
  post_step. post_step. unfold FlushResolverCache. post_step. post_step. post_step.
  destruct e6; post_step; exact Hall.
Qed.


End DnsFacts.

Section DnsQuiet.
Import DNS DnsSpec.
Context {P : InetPton}.

Lemma reg_call_quiet w :
  faults w = [] -> post reg_call w (fun r w' => r = Returns 0%Z /\ w' = w).
Proof. intros H. unfold post, reg_call. rewrite H. simpl. auto. Qed.

Lemma OpenInterfaceKey_quiet base g w a :
  faults w = [] -> reg w (base ++ g)%string = Some a ->
  post (OpenInterfaceKey base g) w (fun r w' => r = Returns (base ++ g)%string /\ w' = w).
Proof.
  intros Hf Hk. unfold OpenInterfaceKey. post_step.
  post_use (@reg_call_quiet w Hf) as r w1 H1. destruct H1 as [-> ->]. simpl negb. lazy iota.
  post_step. post_step. lazy beta. rewrite Hk. post_step. auto.
Qed.

Lemma RegQueryValueExW_quiet h w a :
  faults w = [] -> reg w h = Some a ->
  post (RegQueryValueExW h) w
       (fun r w' => r = Returns (match a with
                                 | Some v => (ERROR_SUCCESS, Some v)
                                 | None => (ERROR_FILE_NOT_FOUND, None)
                                 end) /\ w' = w).
Proof.
  intros Hf Hk. unfold RegQueryValueExW. post_step.
  post_use (@reg_call_quiet w Hf) as r w1 H1. destruct H1 as [-> ->]. simpl negb. lazy iota.
  post_step. post_step. lazy beta. rewrite Hk. destruct a; post_step; auto.
Qed.

Lemma ReadNameServer_quiet base g w a :
  faults w = [] -> reg w (base ++ g)%string = Some a -> a <> Some REG_malformed ->
  post (ReadNameServer base g) w (fun r w' => r = Returns (snapshot_of a) /\ w' = w).
Proof.
  intros Hf Hk Ha. unfold ReadNameServer. post_step.
  post_use (@OpenInterfaceKey_quiet base g w a Hf Hk) as r w1 H1. destruct H1 as [-> ->].
  post_step. post_use (@RegQueryValueExW_quiet (base ++ g)%string w _ Hf Hk) as r w1 H1. destruct H1 as [-> ->].
  destruct a as [[s|]|]; [| congruence |]; lazy beta iota; simpl Z.eqb; lazy iota.
  - post_step. post_use (@RegQueryValueExW_quiet (base ++ g)%string w _ Hf Hk) as r w1 H1. destruct H1 as [-> ->].
    lazy beta iota. simpl Z.eqb. lazy iota. post_step. auto.
  - post_step. auto.
Qed.

Lemma WriteNameServer_quiet h v w a :
  faults w = [] -> reg w h = Some a ->
  post (WriteNameServer h v) w
       (fun r w' => r = Returns tt /\ faults w' = [] /\ guid_of w' = guid_of w
                    /\ reg w' h = Some (written v)
                    /\ forall k, k <> h -> reg w' k = reg w k).
Proof.
  intros Hf Hk. unfold WriteNameServer, written. destruct (String.eqb v "").
  - unfold RegDeleteValueW. post_step. post_step.
    post_use (@reg_call_quiet w Hf) as r w1 H1. destruct H1 as [-> ->]. simpl negb. lazy iota.
    post_step. post_step. lazy beta. rewrite Hk. destruct a as [x|].
    + post_step. post_step. post_step. simpl. post_step. simpl.
      rewrite reg_update_same. repeat split; trivial.
      intros k Hne. apply reg_update_other. exact Hne.
    + post_step. simpl. post_step. auto.
  - unfold RegSetValueExW. post_step. post_step.
    post_use (@reg_call_quiet w Hf) as r w1 H1. destruct H1 as [-> ->]. simpl negb. lazy iota.
    post_step. post_step. post_step. simpl. post_step. simpl.
    rewrite reg_update_same. repeat split; trivial.
    intros k Hne. apply reg_update_other. exact Hne.
Qed.

Lemma SetForFamily_quiet g af servers w a :
  faults w = [] -> reg w (BasePathForAf af ++ g)%string = Some a ->
  servers <> [] -> JoinComma servers <> EmptyString ->
  post (SetForFamily g af servers) w
       (fun r w' => r = Returns tt /\ faults w' = [] /\ guid_of w' = guid_of w
                    /\ reg w' (BasePathForAf af ++ g)%string
                       = Some (Some (REG_SZ (JoinComma servers)))
                    /\ forall k, k <> (BasePathForAf af ++ g)%string -> reg w' k = reg w k).
Proof.
  intros Hf Hk Hne Hj. unfold SetForFamily. destruct servers as [|s0 rest]; [congruence|].
  lazy beta iota zeta. post_step.
  post_use (@OpenInterfaceKey_quiet (BasePathForAf af) g w a Hf Hk) as r w1 H1.
  destruct H1 as [-> ->].
  post_use (@WriteNameServer_quiet (BasePathForAf af ++ g)%string (JoinComma (s0 :: rest)) w a
              Hf Hk) as r w1 H1.
  unfold written in H1. apply String.eqb_neq in Hj. rewrite Hj in H1. exact H1.
Qed.

Lemma Revert_family_quiet touched present prev g af err w a :
  faults w = [] -> reg w (BasePathForAf af ++ g)%string = Some a ->
  post (Revert_family touched present prev g af err) w
       (fun r w' => r = Returns err /\ faults w' = [] /\ guid_of w' = guid_of w
                    /\ reg w' (BasePathForAf af ++ g)%string
                       = Some (if touched then if present then written prev else None else a)
                    /\ forall k, k <> (BasePathForAf af ++ g)%string -> reg w' k = reg w k).
Proof.
  intros Hf Hk. unfold Revert_family, UnsetForFamily. destruct touched.
  2:{ post_step. auto. }
  post_step. post_step. destruct present; lazy zeta.
  - post_step. post_use (@OpenInterfaceKey_quiet (BasePathForAf af) g w a Hf Hk) as r w1 H1.
    destruct H1 as [-> ->].
    post_use (@WriteNameServer_quiet (BasePathForAf af ++ g)%string prev w a Hf Hk) as r w1 H1.
    destruct H1 as [-> H1]. post_step. split; [reflexivity | exact H1].
  - post_step. post_use (@OpenInterfaceKey_quiet (BasePathForAf af) g w a Hf Hk) as r w1 H1.
    destruct H1 as [-> ->].
    post_use (@WriteNameServer_quiet (BasePathForAf af ++ g)%string "" w a Hf Hk) as r w1 H1.
    destruct H1 as [-> H1]. post_step. split; [reflexivity | exact H1].
Qed.

(** [Revert] in a world whose registry calls all take their course. *)
Lemma Revert_quiet d w a4 a6 :
  faults w = [] -> applied_ d = true ->
  reg w (key4 (guid_str_ d)) = Some a4 -> reg w (key6 (guid_str_ d)) = Some a6 ->
  post Revert (d, w)
       (fun r s' =>
          r = Returns tt
          /\ reg (snd s') (key4 (guid_str_ d))
             = Some (if touched_v4_ d
                     then if prev_v4_present_ d then written (prev_v4_ d) else None
                     else a4)
          /\ reg (snd s') (key6 (guid_str_ d))
             = Some (if touched_v6_ d
                     then if prev_v6_present_ d then written (prev_v6_ d) else None
                     else a6)).
Proof.
  intros Hf Ha H4 H6. unfold Revert. post_step. post_step. lazy beta zeta. dns_proj.
  rewrite Ha. simpl negb. lazy iota.
  post_step. post_step. dns_proj.
  post_use (@Revert_family_quiet (touched_v4_ d) (prev_v4_present_ d) (prev_v4_ d)
              (guid_str_ d) AF_INET false w a4 Hf H4) as r w1 H1.
  destruct H1 as [-> [Hf1 [_ [R4 F4]]]].
  assert (H6' : reg w1 (key6 (guid_str_ d)) = Some a6).
  { rewrite F4; [exact H6 | intros E; exact (key4_key6 (eq_sym E))]. }
  post_step. post_step. dns_proj.
  post_use (@Revert_family_quiet (touched_v6_ d) (prev_v6_present_ d) (prev_v6_ d)
              (guid_str_ d) AF_INET6 false w1 a6 Hf1 H6') as r w2 H2.
  destruct H2 as [-> [Hf2 [_ [R6 F6]]]].
  post_step. post_step. unfold FlushResolverCache. post_step. post_step. post_step. post_step.
  simpl. split; [reflexivity|]. split; [|exact R6].
  rewrite F6; [exact R4 | exact (@key4_key6 (guid_str_ d))].
Qed.

(** [Apply] in a world whose registry calls all take their course. *)
Lemma Apply_quiet d w servers g a4 a6 :
  pton_rejects_empty P -> faults w = [] -> resolves d w g ->
  reg w (key4 g) = Some a4 -> a4 <> Some REG_malformed ->
  reg w (key6 g) = Some a6 -> a6 <> Some REG_malformed ->
  servers <> [] -> Forall (fun s => valid s = true) servers ->
  post (Apply servers) (d, w)
       (fun r s' =>
          r = Returns tt
          /\ faults (snd s') = []
          /\ (guid_str_ (fst s') = g /\ applied_ (fst s') = true)
          /\ (prev_v4_ (fst s'), prev_v4_present_ (fst s')) = snapshot_of a4
          /\ (prev_v6_ (fst s'), prev_v6_present_ (fst s')) = snapshot_of a6
          /\ touched_v4_ (fst s') = negb (is_nil (of_v4 servers))
          /\ touched_v6_ (fst s') = negb (is_nil (of_v6 servers))
          /\ reg (snd s') (key4 g) = Some (applied_value (of_v4 servers) a4)
          /\ reg (snd s') (key6 g) = Some (applied_value (of_v6 servers) a6)).
Proof.
  intros Hempty Hf [Hg Hres] H4 Ha4 H6 Ha6 Hne Hvalid.
  assert (Hj4 : of_v4 servers <> [] -> JoinComma (of_v4 servers) <> EmptyString).
  { intros H. apply JoinComma_nonempty; [exact H|]. intros s Hs.
    apply valid_nonempty; [exact Hempty | eapply of_v4_valid; eassumption]. }
  assert (Hj6 : of_v6 servers <> [] -> JoinComma (of_v6 servers) <> EmptyString).
  { intros H. apply JoinComma_nonempty; [exact H|]. intros s Hs.
    apply valid_nonempty; [exact Hempty | eapply of_v6_valid; eassumption]. }
  unfold Apply. rewrite (classify_valid Hvalid). simpl app.
  set (v4 := of_v4 servers) in *. set (v6 := of_v6 servers) in *.
  destruct servers as [|s0 srest]; [congruence|]. clear Hne.
  post_step. post_step. lazy beta iota. dns_proj.
  post_step. post_step. lazy beta. dns_proj.
  post_step.
  eapply post_weaken with
    (Q1 := fun r s1 =>
             r = Returns tt /\ snd s1 = w
             /\ fst s1 = mkDNS (luid_ d) g (applied_ d) false false "" "" false false).
  { destruct Hres as [Hres | [Hres Hluid]].
    - apply String.eqb_neq in Hg. rewrite Hres, Hg. post_step. auto.
    - rewrite Hres. simpl String.eqb. lazy iota. post_step. post_step. dns_proj.
      unfold LuidToGuidString. post_step. post_step. lazy beta. rewrite Hluid.
      apply String.eqb_neq in Hg. rewrite Hg. post_step. post_step. auto. }
  cbv beta. intros r [d1 w1] [-> [Hw1 Hd1]]. simpl in Hw1, Hd1. subst w1 d1.
  post_step. post_step. lazy beta zeta. dns_proj.
  post_step. post_step. dns_proj.
  post_use (@ReadNameServer_quiet (BasePathForAf AF_INET) g w a4 Hf H4 Ha4) as r w1 H1.
  destruct H1 as [-> ->].
  post_step. post_step. dns_proj.
  post_step. post_step. dns_proj.
  post_use (@ReadNameServer_quiet (BasePathForAf AF_INET6) g w a6 Hf H6 Ha6) as r w1 H1.
  destruct H1 as [-> ->].
  post_step. post_step. dns_proj.
  post_step.
  eapply post_weaken with
    (Q1 := fun r s1 =>
             r = Returns tt /\ faults (snd s1) = []
             /\ fst s1 = mkDNS (luid_ d) g (applied_ d) (snd (snapshot_of a4))
                               (snd (snapshot_of a6)) (fst (snapshot_of a4))
                               (fst (snapshot_of a6)) (negb (is_nil v4)) false
             /\ reg (snd s1) (key4 g) = Some (applied_value v4 a4)
             /\ reg (snd s1) (key6 g) = Some a6).
  { unfold applied_value. destruct v4 as [|x4 l4] eqn:E4.
    - post_step. simpl. auto.
    - assert (N4 : x4 :: l4 <> []) by discriminate.
      post_step. post_step. dns_proj.
      post_use (@SetForFamily_quiet g AF_INET (x4 :: l4) w a4 Hf H4 N4 (Hj4 N4)) as r w1 H1.
      destruct H1 as [-> [Hf1 [_ [R1 F1]]]]. post_step. simpl.
      repeat split; trivial. rewrite F1; [exact H6 | intros E; exact (key4_key6 (eq_sym E))]. }
  cbv beta. intros r [d4 w4] [-> [Hf4 [Hd4 [R4 R6]]]]. simpl in Hf4, Hd4, R4, R6. subst d4.
  post_step.
  eapply post_weaken with
    (Q1 := fun r s1 =>
             r = Returns tt /\ faults (snd s1) = []
             /\ fst s1 = mkDNS (luid_ d) g (applied_ d) (snd (snapshot_of a4))
                               (snd (snapshot_of a6)) (fst (snapshot_of a4))
                               (fst (snapshot_of a6)) (negb (is_nil v4)) (negb (is_nil v6))
             /\ reg (snd s1) (key4 g) = Some (applied_value v4 a4)
             /\ reg (snd s1) (key6 g) = Some (applied_value v6 a6)).
  { unfold applied_value at 2. destruct v6 as [|x6 l6] eqn:E6.
    - post_step. simpl. auto.
    - assert (N6 : x6 :: l6 <> []) by discriminate.
      post_step. post_step. dns_proj.
      post_use (@SetForFamily_quiet g AF_INET6 (x6 :: l6) w4 a6 Hf4 R6 N6 (Hj6 N6)) as r w1 H1.
      destruct H1 as [-> [Hf1 [_ [R1 F1]]]]. post_step. simpl.
      repeat split; trivial. rewrite F1; [exact R4 | exact (@key4_key6 g)]. }
  cbv beta. intros r [d6 w6] [-> [Hf6 [Hd6 [R4' R6']]]]. simpl in Hf6, Hd6, R4', R6'. subst d6.
  post_step. post_step. unfold FlushResolverCache. post_step. post_step. simpl.
  repeat split; trivial; destruct (snapshot_of a4), (snapshot_of a6); reflexivity.
Qed.

(** C10. A second [Apply] without a [Revert] in between drops the
    snapshot of the first call and takes a new one from the registry as
    it stands, that is, as the first [Apply] left it.  In a world whose
    registry calls all take their course, two [Apply] calls on valid
    lists followed by [Revert] all return, the snapshot held after the
    second call is the state the first call left, and for every family the
    first list had addresses of, [Revert] leaves the value the first
    [Apply] installed, whatever the value before the first call was. *)
Theorem second_Apply_recaptures_snapshot d w s1 s2 g a4 a6 :
  pton_rejects_empty P -> faults w = [] -> resolves d w g ->
  reg w (key4 g) = Some a4 -> a4 <> Some REG_malformed ->
  reg w (key6 g) = Some a6 -> a6 <> Some REG_malformed ->
  s1 <> [] -> Forall (fun s => valid s = true) s1 ->
  s2 <> [] -> Forall (fun s => valid s = true) s2 ->
  let run1 := Apply s1 (d, w) in
  let run2 := Apply s2 (snd run1) in
  let run3 := Revert (snd run2) in
  (fst run1 = Returns tt /\ fst run2 = Returns tt /\ fst run3 = Returns tt)
  /\ reg (snd (snd run1)) (key4 g) = Some (applied_value (of_v4 s1) a4)
  /\ reg (snd (snd run1)) (key6 g) = Some (applied_value (of_v6 s1) a6)
  /\ (prev_v4_ (fst (snd run2)), prev_v4_present_ (fst (snd run2)))
     = snapshot_of (applied_value (of_v4 s1) a4)
  /\ (prev_v6_ (fst (snd run2)), prev_v6_present_ (fst (snd run2)))
     = snapshot_of (applied_value (of_v6 s1) a6)
  /\ (of_v4 s1 <> [] ->
      reg (snd (snd run3)) (key4 g) = Some (Some (REG_SZ (JoinComma (of_v4 s1)))))
  /\ (of_v6 s1 <> [] ->
      reg (snd (snd run3)) (key6 g) = Some (Some (REG_SZ (JoinComma (of_v6 s1))))).
Proof.
  intros Hempty Hf Hres H4 Ha4 H6 Ha6 N1 V1 N2 V2 run1 run2 run3.
  assert (Hj4 : of_v4 s1 <> [] -> JoinComma (of_v4 s1) <> EmptyString).
  { intros H. apply JoinComma_nonempty; [exact H|]. intros s Hs.
    apply valid_nonempty; [exact Hempty | eapply of_v4_valid; [exact V1 | exact Hs]]. }
  assert (Hj6 : of_v6 s1 <> [] -> JoinComma (of_v6 s1) <> EmptyString).
  { intros H. apply JoinComma_nonempty; [exact H|]. intros s Hs.
    apply valid_nonempty; [exact Hempty | eapply of_v6_valid; [exact V1 | exact Hs]]. }
  assert (Hg : g <> EmptyString) by apply Hres.
  pose proof (Apply_quiet Hempty Hf Hres H4 Ha4 H6 Ha6 N1 V1) as A1.
  unfold post in A1. fold run1 in A1.
  destruct A1 as [E1 [F1 [[G1 _] [_ [_ [_ [_ [R14 R16]]]]]]]].
  destruct (snd run1) as [d1 w1] eqn:S1. simpl in F1, G1, R14, R16.
  assert (M14 : applied_value (of_v4 s1) a4 <> Some REG_malformed).
  { unfold applied_value. destruct (of_v4 s1); [exact Ha4 | discriminate]. }
  assert (M16 : applied_value (of_v6 s1) a6 <> Some REG_malformed).
  { unfold applied_value. destruct (of_v6 s1); [exact Ha6 | discriminate]. }
  assert (Hres1 : resolves d1 w1 g) by (split; [exact Hg | left; exact G1]).
  pose proof (Apply_quiet Hempty F1 Hres1 R14 M14 R16 M16 N2 V2) as A2.
  unfold post in A2. fold run2 in A2.
  destruct A2 as [E2 [F2 [[G2 Ap2] [P24 [P26 [T24 [T26 [R24 R26]]]]]]]].
  destruct (snd run2) as [d2 w2] eqn:S2. simpl in F2, G2, Ap2, P24, P26, T24, T26, R24, R26.
  rewrite <- G2 in R24, R26.
  pose proof (@Revert_quiet d2 w2 _ _ F2 Ap2 R24 R26) as A3.
  unfold post in A3. fold run3 in A3. destruct A3 as [E3 [R34 R36]].
  rewrite G2 in R34, R36.
  split; [auto|]. split; [exact R14|]. split; [exact R16|].
  split; [exact P24|]. split; [exact P26|].
  assert (P24v : prev_v4_ d2 = fst (snapshot_of (applied_value (of_v4 s1) a4)))
    by (rewrite <- P24; reflexivity).
  assert (P24p : prev_v4_present_ d2 = snd (snapshot_of (applied_value (of_v4 s1) a4)))
    by (rewrite <- P24; reflexivity).
  assert (P26v : prev_v6_ d2 = fst (snapshot_of (applied_value (of_v6 s1) a6)))
    by (rewrite <- P26; reflexivity).
  assert (P26p : prev_v6_present_ d2 = snd (snapshot_of (applied_value (of_v6 s1) a6)))
    by (rewrite <- P26; reflexivity).
  split.
  - intros Hn. rewrite R34, T24, P24p, P24v.
    unfold applied_value. destruct (of_v4 s1) as [|x l] eqn:E; [congruence|].
    rewrite <- E in *. simpl snd. simpl fst.
    unfold written. specialize (Hj4 Hn). apply String.eqb_neq in Hj4. rewrite Hj4.
    destruct (of_v4 s2); reflexivity.
  - intros Hn. rewrite R36, T26, P26p, P26v.
    unfold applied_value. destruct (of_v6 s1) as [|x l] eqn:E; [congruence|].
    rewrite <- E in *. simpl snd. simpl fst.
    unfold written. specialize (Hj6 Hn). apply String.eqb_neq in Hj6. rewrite Hj6.
    destruct (of_v6 s2); reflexivity.
Qed.

End DnsQuiet.


(** ** The network configurator *)

Section NetFacts.
Import IpHelper Network NetSpec.
Local Open Scope N_scope.
Context {P : InetPton}.

Lemma ip_frame_refl w : ip_frame w w.
Proof. split; reflexivity. Qed.

Lemma ip_frame_trans w w1 w2 : ip_frame w w1 -> ip_frame w1 w2 -> ip_frame w w2.
Proof. intros [A B] [C D]. split; congruence. Qed.

Lemma ip_frame_routes w w' : ip_frame w w' -> routes w' = routes w.
Proof. intros [A _]. unfold routes. rewrite A. reflexivity. Qed.

Lemma ip_call_frame w :
  post ip_call w
       (fun r w' => ip_frame w w'
                    /\ exists rc, r = Returns rc /\ rc <> ERROR_OBJECT_ALREADY_EXISTS).
Proof.
  unfold post, ip_call. destruct (faults w) as [|c cs]; simpl.
  - split; [apply ip_frame_refl|]. eexists; split; [reflexivity | discriminate].
  - split; [split; reflexivity|]. eexists; split; [reflexivity|].
    destruct (N.eqb_spec c ERROR_OBJECT_ALREADY_EXISTS); [discriminate | assumption].
Qed.

Lemma GetIpInterfaceEntry_frame f l w :
  post (GetIpInterfaceEntry f l) w (fun r w' => ip_frame w w' /\ exists x, r = Returns x).
Proof.
  unfold GetIpInterfaceEntry. post_step. post_use ip_call_frame as r w1 H1.
  destruct H1 as [F [rc [-> _]]]. post_step. post_step. post_step. eauto.
Qed.

Lemma SetIpInterfaceEntry_frame f l row w :
  post (SetIpInterfaceEntry f l row) w (fun r w' => ip_frame w w' /\ exists x, r = Returns x).
Proof.
  unfold SetIpInterfaceEntry, set_interface. post_step. post_use ip_call_frame as r w1 H1.
  destruct H1 as [F [rc [-> _]]].
  destruct (negb (rc =? NO_ERROR)); [post_step; eauto|].
  post_step. post_step. lazy beta. destruct (interfaces w1 f l).
  - post_step. post_step. post_step. split; [exact F | eauto].
  - post_step. eauto.
Qed.

Lemma CreateUnicastIpAddressEntry_frame row w :
  post (CreateUnicastIpAddressEntry row) w
       (fun r w' => ip_frame w w' /\ exists x, r = Returns x).
Proof.
  unfold CreateUnicastIpAddressEntry, set_addresses. post_step.
  post_use ip_call_frame as r w1 H1. destruct H1 as [F [rc [-> _]]].
  destruct (negb (rc =? NO_ERROR)); [post_step; eauto|].
  post_step. post_step. lazy beta. destruct (existsb (same_address row) (addresses w1)).
  - post_step. eauto.
  - post_step. post_step. post_step. split; [exact F | eauto].
Qed.

Lemma SetUnicastIpAddressEntry_frame row w :
  post (SetUnicastIpAddressEntry row) w
       (fun r w' => ip_frame w w' /\ exists x, r = Returns x).
Proof.
  unfold SetUnicastIpAddressEntry, set_addresses. post_step.
  post_use ip_call_frame as r w1 H1. destruct H1 as [F [rc [-> _]]].
  destruct (negb (rc =? NO_ERROR)); [post_step; eauto|].
  post_step. post_step. lazy beta. destruct (existsb (same_address row) (addresses w1)).
  - post_step. post_step. post_step. split; [exact F | eauto].
  - post_step. eauto.
Qed.

Lemma GetIpForwardTable2_frame f w :
  post (GetIpForwardTable2 f) w
       (fun r w' => ip_frame w w'
                    /\ exists x, r = Returns x
                       /\ forall t, x = Some t -> t = filter (in_family f) (routes w)).
Proof.
  unfold GetIpForwardTable2. post_step. post_use ip_call_frame as r w1 H1.
  destruct H1 as [F [rc [-> _]]]. post_step. post_step. post_step.
  split; [exact F|]. eexists; split; [reflexivity|]. intros t Ht.
  destruct (rc =? NO_ERROR); [|discriminate]. injection Ht as <-.
  rewrite (ip_frame_routes F). reflexivity.
Qed.

Lemma GetBestRoute2_frame dst w :
  post (GetBestRoute2 dst) w (fun r w' => ip_frame w w' /\ exists x, r = Returns x).
Proof.
  unfold GetBestRoute2. post_step. post_use ip_call_frame as r w1 H1.
  destruct H1 as [F [rc [-> _]]]. post_step. post_step. post_step. eauto.
Qed.

Lemma set_if_mtu_frame l m ver w : post (set_if_mtu l m ver) w (fun _ w' => ip_frame w w').
Proof.
  unfold set_if_mtu. post_step. post_use GetIpInterfaceEntry_frame as r w1 H1.
  destruct H1 as [F1 [x ->]]. destruct x as [row|]; [|post_step; exact F1].
  post_step. post_use SetIpInterfaceEntry_frame as r w2 H2. destruct H2 as [F2 [err ->]].
  pose proof (ip_frame_trans F1 F2).
  destruct (err =? ERROR_INVALID_PARAMETER); [post_step; assumption|].
  destruct (negb (err =? NO_ERROR)); post_step; assumption.
Qed.

Lemma set_if_metric_frame l m ver w :
  post (set_if_metric l m ver) w (fun _ w' => ip_frame w w').
Proof.
  unfold set_if_metric. post_step. post_use GetIpInterfaceEntry_frame as r w1 H1.
  destruct H1 as [F1 [x ->]]. destruct x as [row|]; [|post_step; exact F1].
  post_step. post_use SetIpInterfaceEntry_frame as r w2 H2. destruct H2 as [F2 [err ->]].
  pose proof (ip_frame_trans F1 F2).
  destruct (err =? ERROR_INVALID_PARAMETER); [post_step; assumption|].
  destruct (negb (err =? NO_ERROR)); post_step; assumption.
Qed.

Lemma add_ip_address_on_if_frame l ip len ver w :
  post (add_ip_address_on_if l ip len ver) w (fun _ w' => ip_frame w w').
Proof.
  unfold add_ip_address_on_if.
  destruct (if is_V6 ver then inet_pton6 ip else inet_pton4 ip) as [a|];
    [|post_step; apply ip_frame_refl].
  lazy zeta. post_step. post_use CreateUnicastIpAddressEntry_frame as r w1 H1.
  destruct H1 as [F1 [err ->]]. destruct (err =? NO_ERROR); [post_step; exact F1|].
  post_step. destruct (err =? ERROR_OBJECT_ALREADY_EXISTS).
  - post_step. post_use SetUnicastIpAddressEntry_frame as r w2 H2.
    destruct H2 as [F2 [rc ->]]. pose proof (ip_frame_trans F1 F2). post_step.
    destruct (rc =? NO_ERROR); post_step; assumption.
  - post_step. post_step. exact F1.
Qed.

Lemma get_best_route_to_generic_frame ip ver w :
  post (get_best_route_to_generic ip ver) w (fun _ w' => ip_frame w w').
Proof.
  unfold get_best_route_to_generic.
  destruct (if is_V6 ver then inet_pton6 ip else inet_pton4 ip) as [a|];
    [|post_step; apply ip_frame_refl].
  post_use GetBestRoute2_frame as r w1 H1. apply H1.
Qed.

Lemma fallback_default_route_excluding_frame l ver w :
  post (fallback_default_route_excluding l ver) w (fun _ w' => ip_frame w w').
Proof.
  unfold fallback_default_route_excluding. post_step.
  post_use GetIpForwardTable2_frame as r w1 H1. destruct H1 as [F1 [x [-> _]]].
  destruct x; post_step; exact F1.
Qed.

Lemma emit_effect ev w :
  post (emit ev) w
       (fun r w' => r = Returns tt /\ route_hist w' = route_hist w /\ log w' = log w ++ [ev]).
Proof. unfold emit. post_step. auto. Qed.

Lemma routes_push w w' t : route_hist w' = route_hist w ++ [t] -> routes w' = t.
Proof. intros H. unfold routes. rewrite H. apply last_last. Qed.

Lemma routes_same w w' : route_hist w' = route_hist w -> routes w' = routes w.
Proof. intros H. unfold routes. rewrite H. reflexivity. Qed.

Lemma CreateIpForwardEntry2_effect row w :
  post (CreateIpForwardEntry2 row) w
       (fun r w' =>
          log w' = log w
          /\ exists rc, r = Returns rc
             /\ ((rc = NO_ERROR /\ route_hist w' = route_hist w ++ [routes w ++ [row]])
                 \/ (rc <> NO_ERROR /\ route_hist w' = route_hist w
                     /\ (rc = ERROR_OBJECT_ALREADY_EXISTS ->
                         existsb (same_route row) (routes w) = true)))).
Proof.
  unfold CreateIpForwardEntry2, set_routes. post_step. post_use ip_call_frame as r w1 H1.
  destruct H1 as [[F1 L1] [rc [-> Hrc]]]. pose proof (routes_same _ _ F1) as R1.
  destruct (N.eqb_spec rc NO_ERROR) as [-> | Hne]; simpl negb; lazy iota.
  - post_step. post_step. lazy beta.
    destruct (existsb (same_route row) (routes w1)) eqn:Hex.
    + post_step. split; [exact L1|]. eexists; split; [reflexivity|]. right.
      split; [discriminate|]. split; [exact F1|]. intros _. rewrite <- R1. exact Hex.
    + post_step. post_step. post_step. simpl. split; [exact L1|].
      eexists; split; [reflexivity|]. left. split; [reflexivity|]. rewrite F1, R1. reflexivity.
  - post_step. split; [exact L1|]. eexists; split; [reflexivity|]. right.
    split; [exact Hne|]. split; [exact F1|]. intros E. contradiction.
Qed.

Lemma SetIpForwardEntry2_effect row w :
  post (SetIpForwardEntry2 row) w
       (fun r w' =>
          log w' = log w
          /\ exists rc, r = Returns rc
             /\ ((rc = NO_ERROR /\ existsb (same_route row) (routes w) = true
                  /\ route_hist w' = route_hist w ++ [replace_route row (routes w)])
                 \/ (rc <> NO_ERROR /\ route_hist w' = route_hist w))).
Proof.
  unfold SetIpForwardEntry2, set_routes. post_step. post_use ip_call_frame as r w1 H1.
  destruct H1 as [[F1 L1] [rc [-> Hrc]]]. pose proof (routes_same _ _ F1) as R1.
  destruct (N.eqb_spec rc NO_ERROR) as [-> | Hne]; simpl negb; lazy iota.
  - post_step. post_step. lazy beta.
    destruct (existsb (same_route row) (routes w1)) eqn:Hex.
    + post_step. post_step. post_step. simpl. split; [exact L1|].
      eexists; split; [reflexivity|]. left. split; [reflexivity|].
      rewrite <- R1. split; [exact Hex|]. rewrite F1. reflexivity.
    + post_step. split; [exact L1|]. eexists; split; [reflexivity|]. right.
      split; [discriminate | exact F1].
  - post_step. split; [exact L1|]. eexists; split; [reflexivity|]. right.
    split; [exact Hne | exact F1].
Qed.

Lemma same_route_host ver dest a b :
  same_route a b = true -> is_host_entry ver dest a = true -> is_host_entry ver dest b = true.
Proof.
  unfold same_route, is_host_entry. rewrite !andb_true_iff, !N.eqb_eq.
  intros [[[[_ A] B] C] _] [[D E] F]. repeat split; congruence.
Qed.

Lemma existsb_host ver dest row t :
  existsb (same_route row) t = true -> is_host_entry ver dest row = true ->
  host_route_present ver dest t.
Proof.
  intros Hex Hh. apply existsb_exists in Hex. destruct Hex as [r0 [Hin Hs]].
  exists r0. split; [exact Hin | exact (same_route_host ver dest _ _ Hs Hh)].
Qed.

Lemma replace_route_In row t :
  existsb (same_route row) t = true -> In row (replace_route row t).
Proof.
  intros Hex. apply existsb_exists in Hex. destruct Hex as [r0 [Hin Hs]].
  unfold replace_route. apply in_map_iff. exists r0. rewrite Hs. auto.
Qed.

Lemma host_change_present ver dest t0 t :
  host_change ver dest t0 t -> host_route_present ver dest t.
Proof.
  intros [row [Hh [-> | [Hex ->]]]]; exists row; (split; [|exact Hh]).
  - apply in_app_iff. right. left. reflexivity.
  - apply replace_route_In. exact Hex.
Qed.

Lemma host_not_half ver dest row :
  is_host_entry ver dest row = true -> is_half_default ver row = false.
Proof.
  unfold is_host_entry, is_half_default, host_prefix_length.
  rewrite !andb_true_iff, !N.eqb_eq. intros [[_ Hl] _].
  apply andb_false_iff. right. apply N.eqb_neq. rewrite Hl. destruct (is_V6 ver); discriminate.
Qed.

Lemma host_change_halves ver dest t0 t row :
  host_change ver dest t0 t -> In row t -> is_half_default ver row = true -> In row t0.
Proof.
  intros [h [Hh [-> | [Hex ->]]]] Hin Hhalf.
  - apply in_app_iff in Hin. destruct Hin as [Hin | [<- | []]]; [exact Hin|].
    rewrite (host_not_half _ _ _ Hh) in Hhalf. discriminate.
  - unfold replace_route in Hin. apply in_map_iff in Hin. destruct Hin as [r0 [E Hin]].
    destruct (same_route h r0); [|subst; exact Hin].
    subst row. rewrite (host_not_half _ _ _ Hh) in Hhalf. discriminate.
Qed.

Lemma host_entry_family ver dest row :
  is_host_entry ver dest row = true -> other_family ver row = false.
Proof.
  unfold is_host_entry, other_family. rewrite !andb_true_iff. intros [[-> _] _]. reflexivity.
Qed.

Lemma host_change_foreign ver dest t0 t :
  host_change ver dest t0 t -> foreign ver t = foreign ver t0.
Proof.
  unfold foreign. intros [h [Hh [-> | [Hex ->]]]].
  - rewrite filter_app. simpl. rewrite (host_entry_family _ _ _ Hh), app_nil_r. reflexivity.
  - unfold replace_route. clear Hex. induction t0 as [|r0 t0 IH]; simpl; [reflexivity|].
    destruct (same_route h r0) eqn:Hs.
    + rewrite (host_entry_family _ _ _ Hh).
      assert (Hr0 : other_family ver r0 = false).
      { apply (host_entry_family ver dest). exact (same_route_host ver dest _ _ Hs Hh). }
      rewrite Hr0. exact IH.
    + destruct (other_family ver r0); [rewrite IH|]; auto.
Qed.

Lemma row_added_foreign ver t0 t : row_added ver t0 t -> foreign ver t = foreign ver t0.
Proof.
  intros [row [Hf ->]]. unfold foreign, other_family. rewrite filter_app. simpl.
  rewrite Hf, N.eqb_refl. simpl. apply app_nil_r.
Qed.

Lemma table_step_frame R w w1 w' :
  ip_frame w w1 -> table_step R w1 w' -> table_step R w w'.
Proof.
  intros [F L] [E | [t [E HR]]].
  - left. congruence.
  - right. exists t. rewrite (routes_same _ _ F) in HR. split; [congruence | exact HR].
Qed.

Lemma create_host_effect ver host a h w :
  parse ver host = Some a -> is_host_entry ver a h = true ->
  post (CreateIpForwardEntry2 h) w
       (fun r w' => log w' = log w
                    /\ table_step (pin_change ver host) w w'
                    /\ exists rc, r = Returns rc
                       /\ (rc <> NO_ERROR -> route_hist w' = route_hist w)
                       /\ (rc = NO_ERROR \/ rc = ERROR_OBJECT_ALREADY_EXISTS ->
                           pinned_in ver host (routes w'))).
Proof.
  intros Hp Hh. post_use CreateIpForwardEntry2_effect as r w' H.
  destruct H as [L [rc [-> [[-> E] | [Hne [E Hex]]]]]].
  - assert (Hc : host_change ver a (routes w) (routes w ++ [h])).
    { exists h. split; [exact Hh | left; reflexivity]. }
    split; [exact L|]. split.
    + right. eexists. split; [exact E|]. exists a. split; [exact Hp | exact Hc].
    + eexists; split; [reflexivity|]. split; [intros C; contradiction|].
      intros _. exists a. split; [exact Hp|].
      rewrite (@routes_push _ _ _ E). exact (host_change_present Hc).
  - split; [exact L|]. split; [left; exact E|].
    eexists; split; [reflexivity|]. split; [intros _; exact E|].
    intros [-> | ->]; [contradiction|].
    exists a. split; [exact Hp|]. rewrite (@routes_same _ _ E).
    exact (@existsb_host ver a h _ (Hex eq_refl) Hh).
Qed.

Lemma add_or_update_host_route_via_effect host via metric ver w :
  post (add_or_update_host_route_via host via metric ver) w
       (fun r w' => log w' = log w
                    /\ table_step (pin_change ver host) w w'
                    /\ (r = Returns tt -> pinned_in ver host (routes w'))).
Proof.
  unfold add_or_update_host_route_via.
  destruct (negb (si_family (DestinationPrefix via) =? fam ver)).
  { post_step. split; [reflexivity|]. split; [left; reflexivity | discriminate]. }
  destruct (if is_V6 ver then inet_pton6 host else inet_pton4 host) as [a|] eqn:Hp.
  2:{ post_step. split; [reflexivity|]. split; [left; reflexivity | discriminate]. }
  change (parse ver host = Some a) in Hp.
  lazy zeta. post_step. post_use GetIpForwardTable2_frame as r w1 H1.
  destruct H1 as [F1 [tbl [-> Htbl]]].
  destruct (match tbl with Some t => find (is_host_entry ver a) t | None => None end)
    as [row|] eqn:Hfind.
  - assert (Hrow : is_host_entry ver a row = true).
    { destruct tbl as [t|]; [|discriminate]. apply find_some in Hfind. apply Hfind. }
    post_step. post_use SetIpForwardEntry2_effect as r w2 H2.
    destruct H2 as [L2 [rc [-> [[-> [Hex E]] | [Hne E]]]]].
    + simpl negb. lazy iota. post_step.
      match type of E with _ = _ ++ [replace_route ?h _] =>
        assert (Hc : host_change ver a (routes w1) (replace_route h (routes w1)))
      end.
      { eexists. split; [|right; split; [exact Hex | reflexivity]]. exact Hrow. }
      split; [destruct F1; congruence|]. split.
      * apply (table_step_frame F1). right. eexists. split; [exact E|].
        exists a. split; [exact Hp | exact Hc].
      * intros _. exists a. split; [exact Hp|]. rewrite (@routes_push _ _ _ E).
        exact (host_change_present Hc).
    + destruct (N.eqb_spec rc NO_ERROR) as [-> | _]; [contradiction|]. simpl negb. lazy iota.
      post_step. split; [destruct F1; congruence|].
      split; [apply (table_step_frame F1); left; exact E | discriminate].
  - clear Hfind. post_step.
    eapply post_weaken.
    { apply (@create_host_effect ver host a); [exact Hp|].
      unfold is_host_entry. simpl. rewrite !N.eqb_refl. reflexivity. }
    cbv beta. intros r w2 [L2 [T2 [rc [-> [Hsame Hok]]]]].
    destruct ((rc =? NO_ERROR) || (rc =? ERROR_OBJECT_ALREADY_EXISTS)) eqn:Hrc.
    + post_step. split; [destruct F1; congruence|].
      split; [exact (table_step_frame F1 T2)|]. intros _. apply Hok.
      apply orb_true_iff in Hrc. rewrite !N.eqb_eq in Hrc. exact Hrc.
    + destruct (is_V6 ver) eqn:Hv.
      { post_step. split; [destruct F1; congruence|].
        split; [exact (table_step_frame F1 T2) | discriminate]. }
      apply orb_false_iff in Hrc. destruct Hrc as [Hrc _]. apply N.eqb_neq in Hrc.
      assert (F2 : ip_frame w w2).
      { apply (ip_frame_trans F1). split; [exact (Hsame Hrc) | exact L2]. }
      clear T2 Hok Hsame L2. post_step. unfold CreateIpForwardEntry. post_step. post_step.
      eapply post_weaken.
      { apply (@create_host_effect ver host a); [exact Hp|].
        unfold is_host_entry, fam, host_prefix_length. rewrite Hv. simpl.
        rewrite N.eqb_refl. reflexivity. }
      cbv beta. intros r w3 [L3 [T3 [rc2 [-> [_ Hok]]]]].
      destruct ((rc2 =? NO_ERROR) || (rc2 =? ERROR_OBJECT_ALREADY_EXISTS)) eqn:Hrc2;
        simpl negb; lazy iota; post_step.
      * split; [destruct F2; congruence|]. split; [exact (table_step_frame F2 T3)|].
        intros _. apply Hok. apply orb_true_iff in Hrc2. rewrite !N.eqb_eq in Hrc2. exact Hrc2.
      * split; [destruct F2; congruence|]. split; [exact (table_step_frame F2 T3)|].
        discriminate.
Qed.

Lemma add_route_via_gateway_effect l prefix len gw metric ver w :
  post (add_route_via_gateway l prefix len gw metric ver) w
       (fun r w' => log w' = log w /\ table_step (row_added ver) w w').
Proof.
  unfold add_route_via_gateway.
  destruct (if is_V6 ver then inet_pton6 prefix else inet_pton4 prefix) as [p|].
  2:{ post_step. split; [reflexivity | left; reflexivity]. }
  destruct (if is_V6 ver then inet_pton6 gw else inet_pton4 gw) as [g|].
  2:{ post_step. split; [reflexivity | left; reflexivity]. }
  post_step. post_use CreateIpForwardEntry2_effect as r w1 H1.
  destruct H1 as [L [rc [-> Hcase]]].
  assert (T : table_step (row_added ver) w w1).
  { destruct Hcase as [[_ E] | [_ [E _]]]; [|left; exact E].
    right. eexists. split; [exact E|]. eexists. split; [|reflexivity]. reflexivity. }
  destruct ((rc =? NO_ERROR) || (rc =? ERROR_OBJECT_ALREADY_EXISTS)); post_step; auto.
Qed.

Lemma pin_server_effect luid server ver w :
  post (pin_server luid server ver) w
       (fun r w' =>
          table_step (pin_change ver server) w w'
          /\ (Bool.eqb (is_V6 ver) (is_v6_string server) = false -> r = Returns false)
          /\ exists events, log w' = log w ++ events
             /\ match r with
                | Returns true =>
                    pinned_in ver server (routes w')
                    /\ exists via, events = [LogPinned (fam ver) server via]
                | Returns false =>
                    route_hist w' = route_hist w
                    /\ (events = [LogNoRouteToServer (fam ver)] \/ events = [LogPinNotNeeded])
                | Throws _ => events = []
                end).
Proof.
  unfold pin_server. lazy zeta.
  destruct (Bool.eqb (is_V6 ver) (is_v6_string server)).
  2:{ post_step. post_use emit_effect as r w1 H1. destruct H1 as [-> [E L]].
      post_step. split; [left; exact E|]. split; [reflexivity|].
      eexists. split; [exact L|]. split; [exact E | right; reflexivity]. }
  post_step. post_use get_best_route_to_generic_frame as r w1 F1.
  assert (Hthrow : forall (e : exn) w2, ip_frame w w2 ->
            table_step (pin_change ver server) w w2
            /\ (true = false -> Throws e = Returns false)
            /\ exists events, log w2 = log w ++ events /\ events = []).
  { intros e w2 [E L]. split; [left; exact E|]. split; [discriminate|].
    exists []. rewrite app_nil_r. auto. }
  destruct r as [best0 | e]; [|exact (Hthrow e _ F1)].
  post_step.
  eapply (@post_weaken _ _ _ _ (fun r w2 => ip_frame w w2)).
  { destruct best0 as [b|]; [post_step; exact F1|].
    post_use fallback_default_route_excluding_frame as r w2 F2.
    exact (ip_frame_trans F1 F2). }
  clear w1 F1. intros r w1 F1. destruct r as [best | e]; [|exact (Hthrow e _ F1)].
  destruct best as [b|].
  - post_step. post_use add_or_update_host_route_via_effect as r w2 H2.
    destruct H2 as [L2 [T2 Hok]]. pose proof (table_step_frame F1 T2) as T.
    destruct r as [[] | e].
    + post_step. post_use emit_effect as r w3 H3. destruct H3 as [-> [E3 L3]].
      post_step. split.
      { destruct T as [E | [t [E HR]]]; [left | right; exists t; split; [|exact HR]];
          congruence. }
      split; [discriminate|]. eexists. split; [destruct F1; rewrite L3, L2; f_equal; eassumption|].
      split; [|eexists; reflexivity]. rewrite (@routes_same _ _ E3). exact (Hok eq_refl).
    + split; [exact T|]. split; [discriminate|]. exists []. rewrite app_nil_r.
      split; [destruct F1; congruence | reflexivity].
  - post_step. post_use emit_effect as r w2 H2. destruct H2 as [-> [E2 L2]].
    post_step. destruct F1 as [E1 L1]. split; [left; congruence|]. split; [discriminate|].
    eexists. split; [rewrite L2, L1; reflexivity|]. split; [congruence | left; reflexivity].
Qed.

Lemma last_cons_default {A} (a : A) l d : last (a :: l) d = last l a.
Proof.
  revert a d. induction l as [|b l IH]; intros a d; [reflexivity|].
  change (last (a :: b :: l) d) with (last (b :: l) d). rewrite (IH b d).
  symmetry. apply (IH b a).
Qed.

Lemma last_app_default {A} (h ts : list A) d : last (h ++ ts) d = last ts (last h d).
Proof.
  revert d. induction h as [|a h IH]; intros d; [reflexivity|].
  rewrite <- app_comm_cons, !last_cons_default. apply IH.
Qed.

Lemma routes_last w w' tables :
  route_hist w' = route_hist w ++ tables -> routes w' = last tables (routes w).
Proof. intros E. unfold routes. rewrite E. apply last_app_default. Qed.

Lemma last_Forall {A} (Q : A -> Prop) ts d : Forall Q ts -> Q d -> Q (last ts d).
Proof.
  intros H. revert d. induction H as [|t ts Ht _ IH]; intros d Hd; [exact Hd|].
  rewrite last_cons_default. apply IH. exact Ht.
Qed.

Lemma rows_added_refl ver t : rows_added ver t t.
Proof. exists []. rewrite app_nil_r. split; [reflexivity | constructor]. Qed.

Lemma rows_added_step ver t0 t1 t2 :
  rows_added ver t0 t1 -> row_added ver t1 t2 -> rows_added ver t0 t2.
Proof.
  intros [rows [-> Hrows]] [row [Hf ->]]. exists (rows ++ [row]).
  rewrite app_assoc. split; [reflexivity|]. apply Forall_app. split; [exact Hrows|].
  constructor; [exact Hf | constructor].
Qed.

Lemma rows_added_foreign ver t0 t : rows_added ver t0 t -> foreign ver t = foreign ver t0.
Proof.
  intros [rows [-> Hrows]]. unfold foreign. rewrite filter_app.
  replace (filter (other_family ver) rows) with (@nil MIB_IPFORWARD_ROW2);
    [apply app_nil_r|].
  induction Hrows as [|row rows Hf _ IH]; [reflexivity|]. simpl.
  unfold other_family at 1. rewrite Hf, N.eqb_refl. exact IH.
Qed.

Lemma rows_added_pinned ver server t0 t :
  rows_added ver t0 t -> pinned_in ver server t0 -> pinned_in ver server t.
Proof.
  intros [rows [-> _]] [dest [Hp [row [Hin Hh]]]]. exists dest. split; [exact Hp|].
  exists row. split; [apply in_app_iff; left; exact Hin | exact Hh].
Qed.

(** The history grew by tables that each stand in relation [R] to the
    table at the start. *)
Lemma add_route_twice ver w (m1 m2 : M World unit) :
  (forall w0, post m1 w0 (fun r w' => log w' = log w0 /\ table_step (row_added ver) w0 w')) ->
  (forall w0, post m2 w0 (fun r w' => log w' = log w0 /\ table_step (row_added ver) w0 w')) ->
  post (m1 ;;; m2) w
       (fun r w' => log w' = log w
                    /\ exists tables, route_hist w' = route_hist w ++ tables
                                      /\ Forall (rows_added ver (routes w)) tables).
Proof.
  intros H1 H2. post_step. post_use (H1 w) as r w1 Q1. destruct Q1 as [L1 T1].
  assert (S1 : exists tables, route_hist w1 = route_hist w ++ tables
                              /\ Forall (rows_added ver (routes w)) tables).
  { destruct T1 as [E | [t [E HR]]].
    - exists []. rewrite app_nil_r. split; [exact E | constructor].
    - exists [t]. split; [exact E|]. constructor; [|constructor].
      exact (rows_added_step (rows_added_refl ver _) HR). }
  destruct r as [[] | e]; [|split; [exact L1 | exact S1]].
  post_use (H2 w1) as r w2 Q2. destruct Q2 as [L2 T2]. split; [congruence|].
  destruct S1 as [tables [E1 F1]]. destruct T2 as [E | [t [E HR]]].
  - exists tables. split; [congruence | exact F1].
  - exists (tables ++ [t]). rewrite app_assoc, <- E1. split; [exact E|].
    apply Forall_app. split; [exact F1|]. constructor; [|constructor].
    refine (rows_added_step _ HR). rewrite (@routes_last _ _ _ E1).
    apply last_Forall; [exact F1 | apply rows_added_refl].
Qed.

Lemma activate_split_default_effect g luid ver w :
  post (activate_split_default g luid ver) w
       (fun r w' =>
          (exists tables, route_hist w' = route_hist w ++ tables
                          /\ Forall (rows_added ver (routes w)) tables)
          /\ exists events, log w' = log w ++ events
                            /\ (events = [] \/ events = [LogDefaultsActivated (fam ver)])).
Proof.
  unfold activate_split_default. post_step.
  eapply (@post_weaken _ _ _ _
            (fun r w' => log w' = log w
                         /\ exists tables, route_hist w' = route_hist w ++ tables
                                           /\ Forall (rows_added ver (routes w)) tables)).
  { destruct ver; simpl is_V6; lazy iota;
      apply add_route_twice; intros w0; apply add_route_via_gateway_effect. }
  intros r w1 [L1 S1]. destruct r as [[] | e].
  - post_use emit_effect as r w2 H2. destruct H2 as [-> [E2 L2]]. split.
    + destruct S1 as [tables [E1 F1]]. exists tables. split; [congruence | exact F1].
    + eexists. split; [rewrite L2, L1; reflexivity | right; reflexivity].
  - split; [exact S1|]. exists []. rewrite app_nil_r. split; [exact L1 | left; reflexivity].
Qed.

Lemma pin_change_safe ver server t0 t :
  pin_change ver server t0 t -> safe_table ver server t0 t.
Proof.
  intros [dest [_ Hc]] row Hin Hhalf. left. exact (@host_change_halves _ _ _ _ _ Hc Hin Hhalf).
Qed.

Lemma pin_change_no_new_half ver server t0 t :
  pin_change ver server t0 t -> no_new_half ver t0 t.
Proof. intros [dest [_ Hc]] row Hin Hhalf. exact (@host_change_halves _ _ _ _ _ Hc Hin Hhalf). Qed.

Lemma pin_change_foreign ver server t0 t :
  pin_change ver server t0 t -> foreign ver t = foreign ver t0.
Proof. intros [dest [_ Hc]]. exact (host_change_foreign Hc). Qed.

Lemma rows_added_safe ver server t0 t1 t :
  pinned_in ver server t1 -> rows_added ver t1 t -> safe_table ver server t0 t.
Proof.
  intros Hp Hr row _ _. right. exact (rows_added_pinned Hr Hp).
Qed.

Lemma configure_effect_frame ver server w w' :
  ip_frame w w' -> configure_effect ver server w w'.
Proof.
  intros [E L]. exists [], []. rewrite !app_nil_r.
  split; [exact E|]. split; [exact L|]. repeat split; auto.
Qed.

Lemma ConfigureNetwork_effect adapter server ver g w :
  post (ConfigureNetwork adapter server ver) (g, w)
       (fun r s' => fst s' = g /\ configure_effect ver server w (snd s')).
Proof.
  unfold ConfigureNetwork. destruct adapter as [luid|].
  2:{ post_step. split; [reflexivity | apply configure_effect_frame, ip_frame_refl]. }
  post_step. post_step. lazy zeta. cbn [fst snd].
  assert (Hdone : forall w', ip_frame w w' ->
            fst (g, w') = g /\ configure_effect ver server w (snd (g, w'))).
  { intros w' F. split; [reflexivity | exact (configure_effect_frame ver server F)]. }
  post_step. post_step. cbn [fst snd]. post_use set_if_mtu_frame as r w1 F1.
  destruct r as [[] | e]; [|exact (Hdone _ F1)].
  post_step.
  eapply (@post_weaken _ _ _ _ (fun r s' => fst s' = g /\ ip_frame w (snd s'))).
  { destruct ver; simpl is_V6; lazy iota; post_step; post_step; cbn [fst snd];
      (post_use add_ip_address_on_if_frame as r w2 F2);
      (destruct r as [[] | e];
       [|split; [reflexivity | exact (ip_frame_trans F1 F2)]]);
      post_step; cbn [fst snd]; (post_use set_if_metric_frame as r w3 F3);
      (split; [reflexivity | exact (ip_frame_trans F1 (ip_frame_trans F2 F3))]). }
  clear w1 F1. intros r [g1 w1] [Hg F1]. cbn [fst snd] in Hg, F1. subst g1.
  destruct r as [[] | e]; [|exact (Hdone _ F1)].
  post_step. post_step. cbn [fst snd]. post_use pin_server_effect as r w2 H2.
  destruct H2 as [T2 [Hneed [events [L2 Hr]]]].
  pose proof (table_step_frame F1 T2) as T. clear T2.
  assert (Hlog : log w2 = log w ++ events) by (destruct F1; congruence).
  clear L2.
  assert (Hpin : exists ptables,
             route_hist w2 = route_hist w ++ ptables
             /\ Forall (pin_change ver server (routes w)) ptables).
  { destruct T as [E | [t [E HR]]].
    - exists []. rewrite app_nil_r. split; [exact E | constructor].
    - exists [t]. split; [exact E | constructor; [exact HR | constructor]]. }
  clear T. destruct Hpin as [ptables [Ept Fpt]].
  assert (Fsafe : Forall (safe_table ver server (routes w)) ptables).
  { eapply Forall_impl; [|exact Fpt]. intros t. apply pin_change_safe. }
  assert (Fhalf : Forall (no_new_half ver (routes w)) ptables).
  { eapply Forall_impl; [|exact Fpt]. intros t. apply pin_change_no_new_half. }
  assert (Ffor : Forall (fun t => foreign ver t = foreign ver (routes w)) ptables).
  { eapply Forall_impl; [|exact Fpt]. intros t. apply pin_change_foreign. }
  destruct r as [pinned | e].
  - destruct pinned.
    + destruct Hr as [Hpinned [via ->]].
      post_step. cbn [fst snd]. post_use activate_split_default_effect as r w3 H3.
      destruct H3 as [[atables [Eat Fat]] [events3 [L3 Hev3]]].
      split; [reflexivity|]. cbn [snd].
      exists (ptables ++ atables), ([LogPinned (fam ver) server via] ++ events3).
      split; [rewrite Eat, Ept, app_assoc; reflexivity|].
      split; [rewrite L3, Hlog, app_assoc; reflexivity|].
      split.
      { apply Forall_app. split; [exact Fsafe|]. eapply Forall_impl; [|exact Fat].
        intros t. apply rows_added_safe. exact Hpinned. }
      split.
      { apply Forall_app. split; [exact Ffor|]. eapply Forall_impl; [|exact Fat].
        intros t Ht. rewrite (rows_added_foreign Ht), (@routes_last _ _ _ Ept).
        apply (@last_Forall _ (fun t => foreign ver t = foreign ver (routes w)));
          [exact Ffor | reflexivity]. }
      split.
      { simpl. rewrite N.eqb_refl, String.eqb_refl. discriminate. }
      split.
      { intros [C | C]; [discriminate|]. destruct Hev3 as [-> | ->]; [destruct C|].
        destruct C as [C | []]. discriminate. }
      intros Hn. specialize (Hneed Hn). discriminate.
    + post_step. destruct Hr as [E Hev]. split; [reflexivity|]. cbn [snd].
      exists [], events. rewrite app_nil_r.
      split; [destruct F1; congruence|]. split; [exact Hlog|].
      repeat split; auto.
  - split; [reflexivity|]. cbn [snd]. subst events.
    exists ptables, []. split; [exact Ept|]. split; [exact Hlog|].
    split; [exact Fsafe|]. split; [exact Ffor|]. split; [intros _; exact Fhalf|].
    split; [intros []|]. intros Hn. specialize (Hneed Hn). discriminate.
Qed.

(** C1. In every invocation of [ConfigureNetwork], whatever the system
    calls answer: each table the invocation goes through is safe (a
    split-default half that was not there at entry stands beside a host
    route to the server); when the invocation does not log a successful
    pin, no table holds a half that was not there at entry; and when it
    logs that no route to the server was found, the table is never
    touched. *)
Theorem ConfigureNetwork_pins_before_split adapter server_ip ver g w :
  exists tables events,
    route_hist (snd (snd (ConfigureNetwork adapter server_ip ver (g, w))))
    = route_hist w ++ tables
    /\ log (snd (snd (ConfigureNetwork adapter server_ip ver (g, w)))) = log w ++ events
    /\ Forall (safe_table ver server_ip (routes w)) tables
    /\ (existsb (is_pinned_event (fam ver) server_ip) events = false ->
        Forall (no_new_half ver (routes w)) tables)
    /\ (In (LogNoRouteToServer (fam ver)) events -> tables = []).
Proof.
  pose proof (ConfigureNetwork_effect adapter server_ip ver g w) as H. unfold post in H.
  destruct H as [_ [tables [events [E [L [S [_ [N [R _]]]]]]]]].
  exists tables, events. auto.
Qed.




End NetFacts.

Section WorkerFacts.
Import IpHelper Network NetSpec Client.
Local Open Scope N_scope.
Context {P : InetPton}.










Lemma throws_after {S A B} (m : M S A) (k : M S B) s :
  (forall s', is_thrown (fst (k s')) = true) -> is_thrown (fst ((m ;;; k) s)) = true.
Proof.
  intros H. unfold bind. destruct (m s) as [[a | e] s1]; [apply H | reflexivity].
Qed.

(** [SetAddressPlan] refuses every MTU above 9000, whatever the rest of
    the plan. *)
Lemma SetAddressPlan_refuses_above_9000 plan g :
  9000 < Network.mtu plan -> is_thrown (fst (SetAddressPlan plan g)) = true.
Proof.
  intros H. unfold SetAddressPlan. do 4 (apply throws_after; intros ?).
  destruct (N.eqb_spec (Network.mtu plan) 0) as [E | _]; [lia|]. simpl negb. lazy iota.
  apply N.ltb_lt in H. rewrite H, orb_true_r. reflexivity.
Qed.

(** The range check of the worker lets through exactly the MTUs from 576
    to 9200. *)
Lemma validate_mtu_range c (m : Machine) :
  server c <> EmptyString -> (0 < port c <= 65535)%Z ->
  (fst (validate c m) = Returns tt <-> (576 <= Client.mtu c <= 9200)%Z).
Proof.
  intros Hs Hp. unfold validate.
  destruct (String.eqb_spec (server c) "") as [E | _]; [contradiction|].
  destruct (Z.leb_spec (port c) 0); [lia|]. destruct (Z.ltb_spec 65535 (port c)); [lia|].
  simpl orb. lazy iota.
  destruct (Z.ltb_spec (Client.mtu c) 576); destruct (Z.ltb_spec 9200 (Client.mtu c));
    simpl; split; intros; try lia; try discriminate; reflexivity.
Qed.

End WorkerFacts.


(** ** The rollback record *)

Section RollbackFacts.
Import IpHelper NetSpec NetworkRollback.
Local Open Scope N_scope.
Context {P : InetPton}.

Lemma DeleteIpForwardEntry2_log row w :
  post (DeleteIpForwardEntry2 row) w (fun r w' => log w' = log w /\ exists rc, r = Returns rc).
Proof.
  unfold DeleteIpForwardEntry2, set_routes. post_step. post_use ip_call_frame as r w1 H1.
  destruct H1 as [[_ L1] [rc [-> _]]].
  destruct (negb (rc =? NO_ERROR)); [post_step; eauto|].
  post_step. post_step. lazy beta.
  destruct (existsb (same_route row) (routes w1)).
  - post_step. post_step. post_step. simpl. eauto.
  - post_step. eauto.
Qed.

Lemma delete_all_log toDel ok w :
  post (delete_all toDel ok) w (fun r w' => log w' = log w /\ exists b, r = Returns b).
Proof.
  revert ok w. induction toDel as [|row rest IH]; intros ok w; simpl.
  - post_step. eauto.
  - post_step. post_use DeleteIpForwardEntry2_log as r w1 H1. destruct H1 as [L1 [rc ->]].
    post_use IH as r w2 H2. destruct H2 as [L2 Hr]. split; [congruence | exact Hr].
Qed.

Lemma delete_routes_where_log family pred w :
  post (delete_routes_where family pred) w
       (fun r w' => log w' = log w /\ exists b, r = Returns b).
Proof.
  unfold delete_routes_where. post_step. post_use GetIpForwardTable2_frame as r w1 H1.
  destruct H1 as [[_ L1] [tbl [-> _]]]. destruct tbl as [t|].
  - post_use delete_all_log as r w2 H2. destruct H2 as [L2 Hr]. split; [congruence | exact Hr].
  - post_step. eauto.
Qed.

Lemma restore_iface_log family l a m t w :
  post (restore_iface family l a m t) w
       (fun r w' => log w' = log w /\ exists b, r = Returns b).
Proof.
  unfold restore_iface, load_ip_if_row. post_step.
  post_use GetIpInterfaceEntry_frame as r w1 H1. destruct H1 as [[_ L1] [got ->]].
  destruct got as [row|]; [|post_step; eauto].
  post_step. post_use SetIpInterfaceEntry_frame as r w2 H2. destruct H2 as [[_ L2] [rc1 ->]].
  post_step. post_use GetIpInterfaceEntry_frame as r w3 H3. destruct H3 as [[_ L3] [got2 ->]].
  destruct got2 as [row2|]; [|post_step; split; [congruence | eauto]].
  post_step. post_use SetIpInterfaceEntry_frame as r w4 H4. destruct H4 as [[_ L4] [rc2 ->]].
  post_step. split; [congruence | eauto].
Qed.

Lemma RemoveSplitDefaults_log this w :
  post (RemoveSplitDefaults_ this) w
       (fun _ w' => log w' = log w ++ [LogRemoveSplitDefaultsBegin]).
Proof.
  unfold RemoveSplitDefaults_. post_step. post_use emit_effect as r w1 H1.
  destruct H1 as [-> [_ L1]]. post_step. post_use delete_routes_where_log as r w2 H2.
  destruct H2 as [L2 [ok4 ->]]. post_step. post_use delete_routes_where_log as r w3 H3.
  destruct H3 as [L3 [ok6 ->]]. destruct (negb ok4 && negb ok6); post_step; congruence.
Qed.

Lemma RemovePinnedRouteToServer_log this w :
  post (RemovePinnedRouteToServer_ this) w
       (fun _ w' => log w' = log w ++ [pinned_marker this]).
Proof.
  unfold RemovePinnedRouteToServer_, pinned_marker.
  destruct (String.eqb (server_ip_ this) "").
  { post_use emit_effect as r w1 H1. apply H1. }
  post_step. post_use emit_effect as r w1 H1. destruct H1 as [-> [_ L1]].
  destruct (inet_pton4 (server_ip_ this)) as [dst4|].
  - post_step. post_use delete_routes_where_log as r w2 H2. destruct H2 as [L2 [ok ->]].
    destruct (negb ok); post_step; congruence.
  - destruct (inet_pton6 (server_ip_ this)) as [dst6|]; [|post_step; exact L1].
    post_step. post_use delete_routes_where_log as r w2 H2. destruct H2 as [L2 [ok ->]].
    destruct (negb ok); post_step; congruence.
Qed.

Lemma RestoreBaseline_log this w :
  post (RestoreBaseline_ this) w (fun _ w' => log w' = log w ++ [LogRestoreBaselineBegin]).
Proof.
  unfold RestoreBaseline_. post_step. post_use emit_effect as r w1 H1.
  destruct H1 as [-> [_ L1]]. lazy zeta. post_step.
  eapply (@post_weaken _ _ _ _ (fun r w' => log w' = log w1 /\ exists b, r = Returns b)).
  { destruct (have_v4 (snap_ this)); [apply restore_iface_log | post_step; eauto]. }
  intros r w2 [L2 [ok4 ->]]. post_step.
  eapply (@post_weaken _ _ _ _ (fun r w' => log w' = log w2 /\ exists b, r = Returns b)).
  { destruct (have_v6 (snap_ this)); [apply restore_iface_log | post_step; eauto]. }
  intros r w3 [L3 [ok6 ->]]. destruct (negb (ok4 && ok6)); post_step; congruence.
Qed.

Lemma Revert_again this w :
  captured_ this = false -> Revert (this, w) = (Throws Revert_without_baseline, (this, w)).
Proof. intros H. unfold Revert, bind, get. simpl. rewrite H. reflexivity. Qed.

End RollbackFacts.


(** ** Scenario 1 *)

Section Scenario1Facts.
Import Scenario1.
Local Open Scope string_scope.


(** C8, counterexample.  After the first [reapply] of scenario 1 the
    table holds the two IPv4 split defaults.  When the system refuses to
    delete them (error 5 on the second and third call of [Revert]), the
    first step has failed to remove the split defaults, yet it does not
    throw, because the pass for IPv6 found nothing to delete: [Revert]
    returns normally, logs no failure, and both split defaults are still
    in the table. *)
Lemma Revert_returns_with_split_defaults_left :
  let w := Variants.configured_world [0; 5; 5]%N in
  let run := @NetworkRollback.Revert RefParser.parser (rollback, w) in
  filter (NetSpec.is_half_default Network.V4) (IpHelper.routes w)
  = [Variants.low_half4; Variants.high_half4]
  /\ fst run = Returns tt
  /\ IpHelper.log (snd (snd run))
     = [IpHelper.LogRemoveSplitDefaultsBegin; IpHelper.LogRemovePinnedBegin "198.51.100.7";
        IpHelper.LogRestoreBaselineBegin]
  /\ filter (NetSpec.is_half_default Network.V4) (IpHelper.routes (snd (snd run)))
     = [Variants.low_half4; Variants.high_half4]
  /\ filter (@NetworkRollback.is_split_default_v4 RefParser.parser rollback)
            (IpHelper.routes (snd (snd run)))
     = [Variants.low_half4; Variants.high_half4].
Proof.
  intros w run.
  do 4 (split; [vm_compute; reflexivity|]). vm_compute; reflexivity.
Qed.

(** C5, counterexample.  On a machine where the LUID of the adapter
    cannot be converted to a GUID, [Apply] on a list with an element that
    is no address throws the runtime error of [LuidToGuidString], not an
    invalid-argument error: the list was never classified. *)
Lemma Apply_bad_element_without_GUID :
  let w := Variants.reg_world_without_guid in
  In "dns.example" bad_servers
  /\ @DnsSpec.valid RefParser.parser "dns.example" = false
  /\ DNS.guid_str_ resolver = ""
  /\ fst (@DNS.Apply RefParser.parser bad_servers (resolver, w))
     = Throws (RuntimeError "ConvertInterfaceLuidToGuid failed")
  /\ (forall what, fst (@DNS.Apply RefParser.parser bad_servers (resolver, w))
                   <> Throws (InvalidArgument what))
  /\ snd (snd (@DNS.Apply RefParser.parser bad_servers (resolver, w))) = w.
Proof.
  intros w.
  split; [right; left; reflexivity|].
  split; [vm_compute; reflexivity|].
  split; [reflexivity|].
  assert (E : fst (@DNS.Apply RefParser.parser bad_servers (resolver, w))
              = Throws (RuntimeError "ConvertInterfaceLuidToGuid failed"))
    by (vm_compute; reflexivity).
  split; [exact E|]. split; [intros what; rewrite E; discriminate|].
  vm_compute; reflexivity.
Qed.


(** C9, counterexample. Scenario 1 starts; the firewall then holds one
    rule, of protocol TCP and named "FlowForge Out TCP to
    198.51.100.7:5555"; no rule bears the UDP name. *)
Lemma scenario1_installs_a_TCP_rule :
  (exists session, fst started = Returns (Client.Serving session))
  /\ map (fun r => (Firewall.Name r, Firewall.IpProtocol r))
         (Firewall.rules (Client.fw_world (snd started)))
     = [("FlowForge Out TCP to 198.51.100.7:5555", Firewall.NET_FW_IP_PROTOCOL_TCP)]
  /\ find (Firewall.has_name "FlowForge Out UDP to 198.51.100.7:5555")
          (Firewall.rules (Client.fw_world (snd started))) = None
  /\ Firewall.MakeRuleName rule Firewall.UDP 5555 = "FlowForge Out UDP to 198.51.100.7:5555".
Proof.
  split; [eexists; vm_compute; reflexivity|].
  split; [vm_compute; reflexivity|].
  split; vm_compute; reflexivity.
Qed.

(** C4. An MTU of 9001 passes the range check of the configuration and
    is then refused by [SetAddressPlan]: the worker ends in the
    exception, the firewall rule installed already. *)
Theorem mtu_9001_passes_validate_and_fails_SetAddressPlan :
  fst (@Client.validate Client.Machine (with_mtu 9001) machine) = Returns tt
  /\ fst (@Client.ClientMain_init RefParser.parser env (with_mtu 9001) machine)
     = Throws (InvalidArgument "Network::SetAddressPlan: invalid MTU")
  /\ length (Firewall.rules
               (Client.fw_world
                  (snd (@Client.ClientMain_init RefParser.parser env (with_mtu 9001) machine))))
     = 1%nat.
Proof.
  split; [vm_compute; reflexivity|].
  split; vm_compute; reflexivity.
Qed.

End Scenario1Facts.

Section Scenario1Instances.
Import Scenario1.
Local Open Scope string_scope.



Lemma Allow_idempotent_witness :
  FirewallSpec.reachable rule fw
  /\ NoDup (map FirewallSpec.key (Firewall.entries_ fw))
  /\ forall proto port w,
       (exists e, In e (Firewall.entries_ fw) /\ FirewallSpec.key e = (proto, port)) ->
       Firewall.Allow proto port (fw, w) = (Returns tt, (fw, w)).
Proof.
  assert (R : FirewallSpec.reachable rule fw).
  { exact (@FirewallSpec.reach_Allow rule (Firewall.FirewallRules_ctor rule) fw_world
             Firewall.TCP 5555%N (FirewallSpec.reach_ctor rule)). }
  split; [exact R|]. exact (@Allow_idempotent rule fw R).
Defined.

Lemma Start_installs_one_TCP_rule_witness :
  Firewall.faults (Client.fw_world machine) = []
  /\ (exists session,
        fst (@Client.ClientMain_init RefParser.parser env config machine)
        = Returns (Client.Serving session))
  /\ let addrs := Client.ResolveFirewallAddressesW (Client.getaddrinfo env)
                    (Client.strip_brackets (Client.server config)) in
     let n := "FlowForge Out TCP to " ++ addrs ++ ":"
              ++ to_wstring (Client.to_uint16 (Client.port config)) in
     find (Firewall.has_name n) (Firewall.rules (Client.fw_world machine)) = None
     /\ exists r,
          Firewall.rules
            (Client.fw_world (snd (@Client.ClientMain_init RefParser.parser env config machine)))
          = (Firewall.rules (Client.fw_world machine) ++ [r])%list
          /\ Firewall.Name r = n
          /\ Firewall.IpProtocol r = Firewall.NET_FW_IP_PROTOCOL_TCP
          /\ Firewall.RemoteAddresses r = addrs
          /\ Firewall.RemotePorts r = to_wstring (Client.to_uint16 (Client.port config)).
Proof.
  assert (F : Firewall.faults (Client.fw_world machine) = []) by reflexivity.
  assert (S : { session | fst (@Client.ClientMain_init RefParser.parser env config machine)
                          = Returns (Client.Serving session) })
    by (eexists; vm_compute; reflexivity).
  destruct S as [session S].
  split; [exact F|]. split; [exists session; exact S|].
  intros addrs n.
  assert (N : find (Firewall.has_name n) (Firewall.rules (Client.fw_world machine)) = None)
    by reflexivity.
  split; [exact N|].
  exact (@Start_installs_one_TCP_rule RefParser.parser env config machine session F S N).
Defined.

Lemma Apply_rejects_bad_list_witness :
  (bad_servers = []
   \/ exists s, In s bad_servers /\ @DnsSpec.valid RefParser.parser s = false)
  /\ snd (snd (@DNS.Apply RefParser.parser bad_servers (resolver, reg_world))) = reg_world
  /\ is_thrown (fst (@DNS.Apply RefParser.parser bad_servers (resolver, reg_world))) = true
  /\ (bad_servers = [] ->
      fst (@DNS.Apply RefParser.parser bad_servers (resolver, reg_world))
      = Throws (InvalidArgument "DNS.Apply: servers list is empty"))
  /\ (DnsSpec.guid_ready resolver reg_world ->
      exists what,
        fst (@DNS.Apply RefParser.parser bad_servers (resolver, reg_world))
        = Throws (InvalidArgument what))
  /\ (bad_servers <> [] -> ~ DnsSpec.guid_ready resolver reg_world ->
      exists what,
        fst (@DNS.Apply RefParser.parser bad_servers (resolver, reg_world))
        = Throws (RuntimeError what)).
Proof.
  assert (H : bad_servers = []
              \/ exists s, In s bad_servers /\ @DnsSpec.valid RefParser.parser s = false).
  { right. exists "dns.example". split; [right; left; reflexivity | vm_compute; reflexivity]. }
  split; [exact H|].
  exact (@Apply_rejects_bad_list RefParser.parser resolver reg_world bad_servers H).
Defined.


Lemma second_Apply_recaptures_snapshot_witness :
  pton_rejects_empty RefParser.parser
  /\ DNS.faults reg_world = []
  /\ DnsSpec.resolves resolver reg_world guid
  /\ DNS.reg reg_world (DnsSpec.key4 guid) = Some (Some (DNS.REG_SZ "192.168.1.1"))
  /\ Some (DNS.REG_SZ "192.168.1.1") <> Some DNS.REG_malformed
  /\ DNS.reg reg_world (DnsSpec.key6 guid) = Some None
  /\ @None DNS.regval <> Some DNS.REG_malformed
  /\ Client.dns config <> []
  /\ Forall (fun s => @DnsSpec.valid RefParser.parser s = true) (Client.dns config)
  /\ other_servers <> []
  /\ Forall (fun s => @DnsSpec.valid RefParser.parser s = true) other_servers
  /\ let s1 := Client.dns config in
     let a4 := Some (DNS.REG_SZ "192.168.1.1") in
     let a6 := @None DNS.regval in
     let run1 := @DNS.Apply RefParser.parser s1 (resolver, reg_world) in
     let run2 := @DNS.Apply RefParser.parser other_servers (snd run1) in
     let run3 := DNS.Revert (snd run2) in
     (fst run1 = Returns tt /\ fst run2 = Returns tt /\ fst run3 = Returns tt)
     /\ DNS.reg (snd (snd run1)) (DnsSpec.key4 guid)
        = Some (DnsSpec.applied_value (@DnsSpec.of_v4 RefParser.parser s1) a4)
     /\ DNS.reg (snd (snd run1)) (DnsSpec.key6 guid)
        = Some (DnsSpec.applied_value (@DnsSpec.of_v6 RefParser.parser s1) a6)
     /\ (DNS.prev_v4_ (fst (snd run2)), DNS.prev_v4_present_ (fst (snd run2)))
        = DnsSpec.snapshot_of (DnsSpec.applied_value (@DnsSpec.of_v4 RefParser.parser s1) a4)
     /\ (DNS.prev_v6_ (fst (snd run2)), DNS.prev_v6_present_ (fst (snd run2)))
        = DnsSpec.snapshot_of (DnsSpec.applied_value (@DnsSpec.of_v6 RefParser.parser s1) a6)
     /\ (@DnsSpec.of_v4 RefParser.parser s1 <> [] ->
         DNS.reg (snd (snd run3)) (DnsSpec.key4 guid)
         = Some (Some (DNS.REG_SZ (DNS.JoinComma (@DnsSpec.of_v4 RefParser.parser s1)))))
     /\ (@DnsSpec.of_v6 RefParser.parser s1 <> [] ->
         DNS.reg (snd (snd run3)) (DnsSpec.key6 guid)
         = Some (Some (DNS.REG_SZ (DNS.JoinComma (@DnsSpec.of_v6 RefParser.parser s1))))).
Proof.
  assert (E : pton_rejects_empty RefParser.parser) by (split; reflexivity).
  assert (Q : DNS.faults reg_world = []) by reflexivity.
  assert (G : DnsSpec.resolves resolver reg_world guid).
  { split; [discriminate | right; split; reflexivity]. }
  assert (R4 : DNS.reg reg_world (DnsSpec.key4 guid) = Some (Some (DNS.REG_SZ "192.168.1.1")))
    by (vm_compute; reflexivity).
  assert (M4 : Some (DNS.REG_SZ "192.168.1.1") <> Some DNS.REG_malformed) by discriminate.
  assert (R6 : DNS.reg reg_world (DnsSpec.key6 guid) = Some None) by (vm_compute; reflexivity).
  assert (M6 : @None DNS.regval <> Some DNS.REG_malformed) by discriminate.
  assert (N1 : Client.dns config <> []) by discriminate.
  assert (V1 : Forall (fun s => @DnsSpec.valid RefParser.parser s = true) (Client.dns config)).
  { repeat (constructor; [vm_compute; reflexivity|]). constructor. }
  assert (N2 : other_servers <> []) by discriminate.
  assert (V2 : Forall (fun s => @DnsSpec.valid RefParser.parser s = true) other_servers).
  { repeat (constructor; [vm_compute; reflexivity|]). constructor. }
  split; [exact E|]. split; [exact Q|]. split; [exact G|]. split; [exact R4|].
  split; [exact M4|]. split; [exact R6|]. split; [exact M6|]. split; [exact N1|].
  split; [exact V1|]. split; [exact N2|]. split; [exact V2|].
  exact (@second_Apply_recaptures_snapshot RefParser.parser resolver reg_world
           (Client.dns config) other_servers guid (Some (DNS.REG_SZ "192.168.1.1")) None
           E Q G R4 M4 R6 M6 N1 V1 N2 V2).
Defined.

End Scenario1Instances.


(** * Further properties of the code *)

Section FirewallRoundTrips.
Import Firewall FirewallSpec.

Lemma find_app_none n (l : list FwRule) x :
  find (has_name n) l = None -> has_name n x = true -> remove_rule n (l ++ [x]) = l.
Proof.
  intros Hn Hx. induction l as [|r l IH]; simpl.
  - rewrite Hx. reflexivity.
  - simpl in Hn. destruct (has_name n r); [discriminate|]. rewrite (IH Hn). reflexivity.
Qed.

Lemma remove_rule_unique n l :
  (length (filter (has_name n) l) <= 1)%nat -> find (has_name n) (remove_rule n l) = None.
Proof.
  induction l as [|r l IH]; simpl; [reflexivity|]. destruct (has_name n r) eqn:Hr; simpl.
  - intros H. destruct (filter (has_name n) l) as [|x xs] eqn:Hfl; [|simpl in H; lia].
    clear IH H. induction l as [|y l IH]; [reflexivity|]. simpl in *.
    destruct (has_name n y); [discriminate | exact (IH Hfl)].
  - rewrite Hr. exact IH.
Qed.

Lemma remove_rule_found n l r :
  find (has_name n) l = Some r -> Permutation (remove_rule n l ++ [r]) l.
Proof.
  induction l as [|x l IH]; simpl; [discriminate|]. destruct (has_name n x).
  - intros H. injection H as ->. apply Permutation_sym, Permutation_cons_append.
  - intros H. simpl. constructor. exact (IH H).
Qed.

Lemma allow_rule_name cfg proto port :
  has_name (MakeRuleName cfg proto port) (allow_rule cfg proto port) = true.
Proof. unfold has_name, allow_rule. simpl. apply String.eqb_refl. Qed.

Lemma find_has_name n l r : find (has_name n) l = Some r -> Name r = n.
Proof.
  intros H. apply find_some in H. destruct H as [_ H]. apply String.eqb_eq. exact H.
Qed.

Lemma Allow_Revert_quiet cfg proto port w :
  faults w = [] -> config_valid cfg -> port <> 0%N ->
  (length (filter (has_name (MakeRuleName cfg proto port)) (rules w)) <= 1)%nat ->
  let n := MakeRuleName cfg proto port in
  let run1 := Allow proto port (FirewallRules_ctor cfg, w) in
  let run2 := Revert (snd run1) in
  fst run1 = Returns tt /\ fst run2 = Returns tt
  /\ rules (snd (snd run1)) = remove_rule n (rules w) ++ [allow_rule cfg proto port]
  /\ rules (snd (snd run2))
     = remove_rule n (rules w)
       ++ (match find (has_name n) (rules w) with Some r => [r] | None => [] end)
  /\ Permutation (rules (snd (snd run2))) (rules w)
  /\ fst (snd run2) = FirewallRules_ctor cfg.
Proof.
  intros Hf Hc Hp Hu n run1 run2.
  pose proof (@Allow_quiet proto port (FirewallRules_ctor cfg) w Hf Hc Hp eq_refl) as H1.
  unfold post in H1. fold run1 in H1. destruct H1 as [E1 [O1 [F1 R1]]].
  cbn [cfg_ FirewallRules_ctor] in O1, R1. fold n in O1, R1.
  assert (H2 : post Revert (snd run1)
                 (fun r s' => r = Returns tt
                    /\ rules (snd s')
                       = remove_rule n (rules w)
                         ++ (match find (has_name n) (rules w) with
                             | Some r => [r] | None => [] end)
                    /\ fst s' = FirewallRules_ctor cfg)).
  { destruct (snd run1) as [this1 w1]. cbn [fst snd] in O1, F1, R1. subst this1.
    unfold Revert. post_step. post_step. lazy zeta. cbn [fst snd recorded applied_].
    simpl negb. lazy iota. post_step. post_step. cbn [fst snd].
    post_use (@ComInit_quiet w1 F1) as r w2 H2. destruct H2 as [-> ->].
    post_step. post_step. unfold recorded.
    cbn [fst snd entries_ cfg_ FirewallRules_ctor app rev Revert_loop]. post_step.
    eapply post_weaken.
    { apply (@Revert_entry_quiet _ false w1 F1); reflexivity. }
    cbv beta. intros r w2 [-> [F2 [R2 _]]]. post_step. post_step. post_step.
    cbn [fst snd cfg_ FirewallRules_ctor]. post_step. cbn [fst snd].
    split; [reflexivity|]. split; [|reflexivity]. rewrite R2. clear R2.
    cbn [had_before e_name snapshot]. rewrite R1. unfold n in *.
    destruct (find (has_name (MakeRuleName cfg proto port)) (rules w)) as [r0|] eqn:Hfind.
    - rewrite restored_snapshot. cbn [snapshot_rule present name].
      rewrite (@find_has_name _ _ _ Hfind).
      rewrite (@find_app_none _ _ _ (@remove_rule_unique _ _ Hu) (allow_rule_name cfg proto port)).
      rewrite (@remove_rule_none _ _ (@remove_rule_unique _ _ Hu)). reflexivity.
    - cbn [snapshot_rule present empty_snapshot]. rewrite (@remove_rule_none _ _ Hfind).
      rewrite (@find_app_none _ _ _ Hfind (allow_rule_name cfg proto port)), app_nil_r.
      reflexivity. }
  unfold post in H2. fold run2 in H2. destruct H2 as [E2 [R2 O2]].
  split; [exact E1|]. split; [exact E2|]. split; [exact R1|]. split; [exact R2|].
  split; [|exact O2]. rewrite R2.
  destruct (find (has_name n) (rules w)) as [r0|] eqn:Hfind.
  - apply remove_rule_found. exact Hfind.
  - rewrite (@remove_rule_none _ _ Hfind), app_nil_r. apply Permutation_refl.
Qed.

(** X1. Round trip of one [Allow] and the [Revert] that follows, every COM
    call succeeding: the rule is installed in place of the rule of that
    name, if there was one, and [Revert] gives the collection back, the
    former rule restored on all its properties at the end of it. *)
Theorem Allow_then_Revert_restores_rules cfg proto port w :
  faults w = [] -> config_valid cfg -> port <> 0%N ->
  (length (filter (has_name (MakeRuleName cfg proto port)) (rules w)) <= 1)%nat ->
  let n := MakeRuleName cfg proto port in
  let run1 := Allow proto port (FirewallRules_ctor cfg, w) in
  let run2 := Revert (snd run1) in
  fst run1 = Returns tt /\ fst run2 = Returns tt
  /\ rules (snd (snd run1)) = remove_rule n (rules w) ++ [allow_rule cfg proto port]
  /\ rules (snd (snd run2))
     = remove_rule n (rules w)
       ++ (match find (has_name n) (rules w) with Some r => [r] | None => [] end)
  /\ Permutation (rules (snd (snd run2))) (rules w)
  /\ fst (snd run2) = FirewallRules_ctor cfg.
Proof. exact (@Allow_Revert_quiet cfg proto port w). Qed.

(** X2. Whatever the world, an [Allow] that throws records nothing: the
    object is as it was (the rule collection may not be). *)
Theorem Allow_throw_keeps_object proto port this w :
  is_thrown (fst (Allow proto port (this, w))) = true ->
  fst (snd (Allow proto port (this, w))) = this.
Proof.
  enough (H : post (Allow proto port) (this, w)
                   (fun r s' => is_thrown r = true -> fst s' = this)) by exact H.
  unfold Allow. post_step. post_step. lazy zeta. cbn [fst snd]. post_step.
  post_use (@ValidateConfig_cases (FirewallRules * World) (cfg_ this) (this, w)) as r s1 H1.
  destruct H1 as [-> _]. destruct r as [[]|e]; [|reflexivity].
  destruct (port =? 0)%N; [post_step; reflexivity|].
  destruct (existsb (same_key proto port) (entries_ this)); [post_step; discriminate|].
  post_step. post_step. cbn [fst snd]. eapply post_weaken; [apply post_true|].
  cbv beta. intros r w1 _. destruct r as [[]|e]; [|reflexivity].
  post_step. post_step. cbn [fst snd]. eapply post_weaken; [apply post_true|].
  cbv beta. intros r w2 _. destruct r as [snap|e]; [|reflexivity].
  post_step. post_step. cbn [fst snd]. eapply post_weaken; [apply post_true|].
  cbv beta. intros r w3 _. destruct r as [[]|e]; [|reflexivity].
  post_step. discriminate.
Qed.

(** X3. [Allow] refuses a configuration with an empty field, and the port
    zero, with [std::invalid_argument], before it makes any COM call: the
    object and the firewall are untouched. *)
Theorem Allow_rejects_invalid_arguments proto port this w :
  config_invalid (cfg_ this) \/ port = 0%N ->
  exists what, Allow proto port (this, w) = (Throws (InvalidArgument what), (this, w)).
Proof.
  intros H. unfold Allow, bind, get, ValidateConfig. cbn [fst snd].
  destruct (String.eqb_spec (rule_prefix (cfg_ this)) ""); [eexists; reflexivity|].
  destruct (String.eqb_spec (app_path (cfg_ this)) ""); [eexists; reflexivity|].
  destruct (String.eqb_spec (server_ip (cfg_ this)) ""); [eexists; reflexivity|].
  destruct H as [[A | [A | A]] | ->]; try contradiction.
  simpl. eexists; reflexivity.
Qed.

(** X4. The invariant of the class: in every state an object can reach
    through [Allow] and [Revert], in whatever worlds, the configuration is
    the one it was constructed with, [applied_] is set exactly when
    entries are recorded, and every entry is touched, bears the name made
    from its key, has a port other than zero, and has [had_before] equal to
    the presence of its snapshot; the name in a snapshot that is present
    is the entry's, or is empty (when the name of the rule found could not
    be read). *)
Theorem FirewallRules_invariant cfg this :
  reachable cfg this ->
  cfg_ this = cfg
  /\ (applied_ this = true <-> entries_ this <> [])
  /\ (forall e, In e (entries_ this) ->
        touched e = true
        /\ had_before e = present (snapshot e)
        /\ e_name e = MakeRuleName cfg (e_proto e) (e_port e)
        /\ e_port e <> 0%N
        /\ (present (snapshot e) = true ->
            name (snapshot e) = e_name e \/ name (snapshot e) = EmptyString))
  /\ (entries_ this <> [] -> config_valid cfg).
Proof.
  intros R. destruct (reachable_well_formed R) as [A [B [_ [D E]]]].
  split; [exact A|]. split.
  - rewrite B. destruct (entries_ this); simpl; split; congruence.
  - split; [|exact E]. intros e He. rewrite Forall_forall in D. exact (D e He).
Qed.

Lemma Revert_entry_returns it err w :
  post (Revert_entry it err) w (fun r _ => exists b, r = Returns b).
Proof.
  unfold Revert_entry. post_step. post_step. eapply post_weaken; [apply post_true|].
  cbv beta. intros r w1 _.
  assert (K : forall (err1 : bool) w2,
             post (try_catch
                     ((if had_before it
                       then emit (LogRevertRestore (name (snapshot it))) ;;;
                            RestoreFromSnapshot (snapshot it)
                       else ret tt) ;;; ret err1)
                     (emit LogRevertRestoreFailed ;;; ret true)) w2
                  (fun r _ => exists b, r = Returns b)).
  { intros err1 w2. post_step. post_step. eapply post_weaken; [apply post_true|].
    cbv beta. intros r2 w3 _. destruct r2 as [[]|e].
    - post_step. eauto.
    - unfold emit. post_step. post_step. post_step. eauto. }
  destruct r as [a|e]; [apply K|]. unfold emit at 1. post_step. post_step. post_step. apply K.
Qed.

Lemma Revert_loop_returns its err w :
  post (Revert_loop its err) w (fun r _ => exists b, r = Returns b).
Proof.
  revert err w. induction its as [|it its IH]; intros err w; simpl.
  - post_step. eauto.
  - post_step. post_use Revert_entry_returns as r w1 H1. destruct H1 as [b ->]. apply IH.
Qed.

Lemma Revert_not_applied this w :
  applied_ this = false -> Revert (this, w) = (Returns tt, (this, w)).
Proof. intros H. unfold Revert, bind, get. cbn [fst snd]. rewrite H. reflexivity. Qed.

(** X5. [Revert] and the initialisation of COM.  When the object has
    entries and [CoInitializeEx] fails, [Revert] throws and leaves the
    object and the rules as they were, so that it can be called again;
    in every other case the object comes out without entries, and every
    later [Revert] returns at once and touches nothing. *)
Theorem Revert_keeps_entries_only_without_COM cfg this w :
  reachable cfg this ->
  (applied_ this = true -> hd false (faults w) = true ->
   fst (Revert (this, w)) = Throws (HrErr "CoInitializeEx")
   /\ fst (snd (Revert (this, w))) = this
   /\ rules (snd (snd (Revert (this, w)))) = rules w)
  /\ (applied_ this = false \/ hd false (faults w) = false ->
      entries_ (fst (snd (Revert (this, w)))) = []
      /\ applied_ (fst (snd (Revert (this, w)))) = false
      /\ forall w2,
           Revert (fst (snd (Revert (this, w))), w2)
           = (Returns tt, (fst (snd (Revert (this, w))), w2))).
Proof.
  intros R. destruct (reachable_well_formed R) as [_ [B _]]. split.
  - intros Ha Hf.
    enough (P : post Revert (this, w)
                  (fun r s' => r = Throws (HrErr "CoInitializeEx") /\ fst s' = this
                               /\ rules (snd s') = rules w)) by exact P.
    unfold Revert. post_step. post_step. lazy zeta. cbn [fst snd]. rewrite Ha.
    simpl negb. lazy iota. post_step. post_step. cbn [fst snd].
    post_use (@ComInit_fails w Hf) as r w1 H1. destruct H1 as [-> [H1 _]]. auto.
  - intros H.
    assert (Q : entries_ (fst (snd (Revert (this, w)))) = []
                /\ applied_ (fst (snd (Revert (this, w)))) = false).
    { destruct (applied_ this) eqn:Ha.
      - destruct H as [H | H]; [discriminate|].
        enough (P : post Revert (this, w)
                      (fun _ s' => entries_ (fst s') = [] /\ applied_ (fst s') = false))
          by exact P.
        unfold Revert. post_step. post_step. lazy zeta. cbn [fst snd]. rewrite Ha.
        simpl negb. lazy iota. post_step. post_step. cbn [fst snd].
        post_use (@ComInit_ok w H) as r w1 H1. destruct H1 as [-> _].
        post_step. post_step. cbn [fst snd].
        post_use Revert_loop_returns as r w2 H2. destruct H2 as [err ->].
        post_step. post_step. cbn [fst snd]. destruct err; post_step; auto.
      - unfold Revert, bind, get. cbn [fst snd]. rewrite Ha. simpl.
        split; [|exact Ha]. destruct (entries_ this); [reflexivity|].
        simpl in B. discriminate. }
    destruct Q as [Q1 Q2]. split; [exact Q1|]. split; [exact Q2|].
    intros w2. apply Revert_not_applied. exact Q2.
Qed.

Lemma others_remove p n l :
  String.prefix p n = true -> others p (remove_rule n l) = others p l.
Proof.
  intros Hp. unfold others. induction l as [|r l IH]; simpl; [reflexivity|].
  destruct (has_name n r) eqn:Hr.
  - apply String.eqb_eq in Hr. rewrite Hr, Hp. reflexivity.
  - simpl. rewrite IH. reflexivity.
Qed.

Lemma com_call_rules w :
  post com_call w (fun r w' => exists f, r = Returns f /\ rules w' = rules w).
Proof. unfold post, com_call. destruct (faults w); simpl; eauto. Qed.

Lemma GetRules_rules w : post GetRules w (fun _ w' => rules w' = rules w).
Proof.
  unfold GetRules, GetPolicy2. post_step. post_step. post_use com_call_rules as r w1 H1.
  destruct H1 as [f [-> E1]]. destruct f; post_step; [exact E1|].
  post_step. post_use com_call_rules as r w2 H2. destruct H2 as [f [-> E2]].
  destruct f; post_step; congruence.
Qed.

Lemma ComInit_rules w : post ComInit w (fun _ w' => rules w' = rules w).
Proof.
  unfold ComInit. post_step. post_use com_call_rules as r w1 H1.
  destruct H1 as [f [-> E1]]. destruct f; post_step; exact E1.
Qed.

Lemma Remove_others p n w :
  String.prefix p n = true ->
  post (Remove n) w (fun r w' => r = Returns tt /\ others p (rules w') = others p (rules w)).
Proof.
  intros Hp. unfold Remove. post_step. post_use com_call_rules as r w1 H1.
  destruct H1 as [f [-> E1]]. destruct f; post_step; (split; [reflexivity|]).
  - rewrite E1. reflexivity.
  - simpl. rewrite (@others_remove p n _ Hp), E1. reflexivity.
Qed.

Lemma for_each_Remove_others p names w :
  Forall (fun n => String.prefix p n = true) names ->
  post (for_each names Remove) w
       (fun r w' => r = Returns tt /\ others p (rules w') = others p (rules w)).
Proof.
  intros H. revert w. induction H as [|n names Hn _ IH]; intros w; simpl.
  - post_step. auto.
  - post_step. post_use (@Remove_others p n w Hn) as r w1 H1. destruct H1 as [-> E1].
    post_use (IH w1) as r w2 H2. destruct H2 as [-> E2]. split; [reflexivity | congruence].
Qed.

Lemma starts_with_prefix p n : starts_with p n = true -> String.prefix p n = true.
Proof. unfold starts_with. intros H. apply andb_true_iff in H. apply H. Qed.

Lemma enumerate_names p l acc w :
  Forall (fun n => String.prefix p n = true) acc ->
  post (enumerate p l acc) w
       (fun r w' => rules w' = rules w
                    /\ exists names, r = Returns names
                                     /\ Forall (fun n => String.prefix p n = true) names).
Proof.
  revert acc w. induction l as [|x l IH]; intros acc w Hacc; simpl.
  - post_step. post_use com_call_rules as r w1 H1. destruct H1 as [f [-> E1]].
    post_step. eauto.
  - assert (K : forall acc' w0, rules w0 = rules w ->
                  Forall (fun n => String.prefix p n = true) acc' ->
                  post (enumerate p l acc') w0
                       (fun r w' => rules w' = rules w
                                    /\ exists names, r = Returns names
                                         /\ Forall (fun n => String.prefix p n = true) names)).
    { intros acc' w0 E0 H0. eapply post_weaken; [apply (IH acc' w0 H0)|].
      cbv beta. intros r w2 [E2 H2]. split; [congruence | exact H2]. }
    post_step. post_use com_call_rules as r w1 H1. destruct H1 as [f [-> E1]].
    destruct f; [post_step; eauto|].
    post_step. post_use com_call_rules as r w2 H2. destruct H2 as [f [-> E2]].
    destruct f; [apply K; [congruence | exact Hacc]|].
    post_step. post_use com_call_rules as r w3 H3. destruct H3 as [f [-> E3]].
    destruct f; [apply K; [congruence | exact Hacc]|].
    post_step. post_use com_call_rules as r w4 H4. destruct H4 as [f [-> E4]].
    destruct f; [apply K; [congruence | exact Hacc]|].
    apply K; [congruence|].
    destruct (starts_with p (Name x)) eqn:Hx; [|exact Hacc].
    apply Forall_app. split; [exact Hacc|]. constructor; [|constructor].
    exact (@starts_with_prefix _ _ Hx).
Qed.

(** X6. [RemoveByPrefix] never removes a rule whose name does not begin
    with the prefix: whatever calls fail, those rules are all there
    afterwards, in their order.  An empty prefix is refused with
    [std::invalid_argument] and nothing is touched. *)
Theorem RemoveByPrefix_spares_other_rules p w :
  others p (rules (snd (RemoveByPrefix p w))) = others p (rules w)
  /\ (p = EmptyString ->
      RemoveByPrefix p w
      = (Throws (InvalidArgument "FirewallRules::RemoveByPrefix: empty prefix"), w)).
Proof.
  split; [|intros ->; reflexivity].
  enough (H : post (RemoveByPrefix p) w
                   (fun _ w' => others p (rules w') = others p (rules w))) by exact H.
  unfold RemoveByPrefix. destruct (String.eqb p ""); [post_step; reflexivity|].
  post_step. post_use ComInit_rules as r w1 E1. rewrite <- E1.
  destruct r as [[]|e]; [|reflexivity]. clear w E1.
  unfold RemoveAllWithPrefix. post_step. post_use GetRules_rules as r w2 E2.
  rewrite <- E2. destruct r as [[]|e]; [|reflexivity]. clear w1 E2.
  post_step. post_use com_call_rules as r w3 H3. destruct H3 as [f [-> E3]].
  rewrite <- E3. destruct f; [post_step; reflexivity|]. clear w2 E3.
  post_step. post_use com_call_rules as r w4 H4. destruct H4 as [f [-> E4]].
  rewrite <- E4. destruct f; [post_step; reflexivity|]. clear w3 E4.
  post_step. post_step. post_step.
  eapply post_weaken; [apply (@enumerate_names p (rules w4) [] w4); constructor|].
  cbv beta. intros r w5 [E5 [names [-> Hn]]]. rewrite <- E5.
  post_use (@for_each_Remove_others p names w5 Hn) as r w6 H6. apply H6.
Qed.

(** Purely: the removals one after the other. *)
Lemma remove_each_cons p names r l :
  Forall (fun n => String.prefix p n = true) names ->
  String.prefix p (Name r) = false ->
  fold_left (fun t n => remove_rule n t) names (r :: l)
  = r :: fold_left (fun t n => remove_rule n t) names l.
Proof.
  intros H Hr. revert l. induction H as [|n names Hn _ IH]; intros l; simpl; [reflexivity|].
  assert (E : has_name n r = false).
  { unfold has_name. apply String.eqb_neq. intros E. rewrite E in Hr. congruence. }
  rewrite E. apply IH.
Qed.

Lemma remove_each_prefixed p l :
  fold_left (fun t n => remove_rule n t)
            (map Name (filter (fun r => String.prefix p (Name r)) l)) l
  = others p l.
Proof.
  induction l as [|r l IH]; [reflexivity|]. unfold others in *. simpl.
  destruct (String.prefix p (Name r)) eqn:Hr; simpl.
  - unfold has_name at 1. rewrite String.eqb_refl. exact IH.
  - rewrite (@remove_each_cons p _ r l); [rewrite IH; reflexivity | | exact Hr].
    apply Forall_forall. intros n Hn. apply in_map_iff in Hn. destruct Hn as [x [<- Hx]].
    apply filter_In in Hx. apply Hx.
Qed.

Lemma Remove_quiet n w :
  faults w = [] ->
  post (Remove n) w
       (fun r w' => r = Returns tt /\ faults w' = [] /\ rules w' = remove_rule n (rules w)).
Proof.
  intros H. unfold Remove. post_step. post_use (@com_call_quiet w H) as r w1 H1.
  destruct H1 as [-> ->]. post_step. simpl. auto.
Qed.

Lemma for_each_Remove_quiet names w :
  faults w = [] ->
  post (for_each names Remove) w
       (fun r w' => r = Returns tt /\ faults w' = []
                    /\ rules w' = fold_left (fun t n => remove_rule n t) names (rules w)).
Proof.
  revert w. induction names as [|n names IH]; intros w H; simpl.
  - post_step. auto.
  - post_step. post_use (@Remove_quiet n w H) as r w1 H1. destruct H1 as [-> [F1 R1]].
    post_use (IH w1 F1) as r w2 H2. destruct H2 as [-> [F2 R2]]. rewrite R2, R1. auto.
Qed.

Lemma enumerate_quiet p l acc w :
  faults w = [] -> p <> EmptyString ->
  post (enumerate p l acc) w
       (fun r w' => w' = w
                    /\ r = Returns (acc ++ map Name (filter (fun r => String.prefix p (Name r)) l))).
Proof.
  intros H Hp. revert acc. induction l as [|x l IH]; intros acc; simpl.
  - post_step. post_use (@com_call_quiet w H) as r w1 H1. destruct H1 as [-> ->].
    post_step. rewrite app_nil_r. auto.
  - do 4 (post_step; post_use (@com_call_quiet w H) as r w1 H1; destruct H1 as [-> ->]).
    eapply post_weaken; [apply IH|]. cbv beta. intros r w1 [-> ->]. split; [reflexivity|].
    unfold starts_with. apply String.eqb_neq in Hp. rewrite Hp. simpl negb. simpl andb.
    destruct (String.prefix p (Name x)); simpl; [rewrite <- app_assoc|]; reflexivity.
Qed.

(** X7. When every COM call succeeds, [RemoveByPrefix] with a prefix that
    is not empty removes exactly the rules whose name begins with it. *)
Theorem RemoveByPrefix_removes_prefixed_rules p w :
  faults w = [] -> p <> EmptyString ->
  fst (RemoveByPrefix p w) = Returns tt
  /\ rules (snd (RemoveByPrefix p w)) = others p (rules w).
Proof.
  intros H Hp.
  enough (Q : post (RemoveByPrefix p) w
                   (fun r w' => r = Returns tt /\ rules w' = others p (rules w))) by exact Q.
  unfold RemoveByPrefix. pose proof Hp as Hp'. apply String.eqb_neq in Hp'. rewrite Hp'.
  post_step. post_use (@ComInit_quiet w H) as r w1 H1. destruct H1 as [-> ->].
  unfold RemoveAllWithPrefix. post_step. post_use (@GetRules_quiet w H) as r w1 H1.
  destruct H1 as [-> ->]. post_step. post_use (@com_call_quiet w H) as r w1 H1.
  destruct H1 as [-> ->]. post_step. post_use (@com_call_quiet w H) as r w1 H1.
  destruct H1 as [-> ->]. post_step. post_step. post_step.
  post_use (@enumerate_quiet p (rules w) [] w H Hp) as r w1 H1. destruct H1 as [-> ->].
  simpl app. eapply post_weaken; [apply (@for_each_Remove_quiet _ w H)|].
  cbv beta. intros r w1 [-> [_ R1]]. split; [reflexivity|]. rewrite R1.
  apply remove_each_prefixed.
Qed.

End FirewallRoundTrips.


Section DnsRoundTrips.
Import DNS DnsSpec.
Context {P : InetPton}.

Lemma Revert_not_applied_dns d w :
  applied_ d = false -> Revert (d, w) = (Returns tt, (d, w)).
Proof. intros H. unfold Revert, bind, get. cbn [fst snd]. rewrite H. reflexivity. Qed.

Lemma Revert_family_returns touched present prev g af err w :
  post (Revert_family touched present prev g af err) w (fun r _ => exists b, r = Returns b).
Proof.
  unfold Revert_family. destruct touched; [|post_step; eauto].
  post_step. post_step. eapply post_weaken; [apply post_true|]. cbv beta.
  intros r w1 _. destruct r as [[]|e]; post_step; eauto.
Qed.

Lemma Revert_resets d w : post Revert (d, w) (fun _ s' => applied_ (fst s') = false).
Proof.
  unfold Revert. post_step. post_step. lazy beta zeta. dns_proj.
  destruct (applied_ d) eqn:Ha; simpl negb; lazy iota; [|post_step; exact Ha].
  post_step. post_step. dns_proj. post_use Revert_family_returns as r w1 H1.
  destruct H1 as [e4 ->]. post_step. post_step. dns_proj.
  post_use Revert_family_returns as r w2 H2. destruct H2 as [e6 ->].
  post_step. post_step. unfold FlushResolverCache. post_step. post_step. post_step.
  dns_proj. destruct e6; post_step; reflexivity.
Qed.

(** X8. [Revert] is idempotent: whatever the first call did and however
    it ended, a second call returns at once and touches nothing. *)
Theorem Revert_twice_is_Revert_once d w :
  Revert (snd (Revert (d, w))) = (Returns tt, snd (Revert (d, w))).
Proof.
  pose proof (Revert_resets d w) as H. unfold post in H.
  destruct (snd (Revert (d, w))) as [d1 w1]. apply Revert_not_applied_dns. exact H.
Qed.

(** What [Apply] does to the members that identify the object and to
    [applied_]. *)
Lemma Apply_object servers d w :
  post (Apply servers) (d, w)
       (fun r s' =>
          luid_ (fst s') = luid_ d
          /\ (guid_str_ d <> EmptyString -> guid_str_ (fst s') = guid_str_ d)
          /\ match r with
             | Returns _ => applied_ (fst s') = true /\ guid_str_ (fst s') <> EmptyString
             | Throws _ => applied_ (fst s') = applied_ d
             end).
Proof.
  unfold Apply. post_step. post_step. lazy beta iota zeta. dns_proj.
  destruct servers as [|s0 rest]; [post_step; dns_proj; auto|].
  post_step. post_step. lazy beta. dns_proj. post_step.
  eapply post_weaken with
    (Q1 := fun r s1 =>
             luid_ (fst s1) = luid_ d /\ applied_ (fst s1) = applied_ d
             /\ (guid_str_ d <> EmptyString -> guid_str_ (fst s1) = guid_str_ d)
             /\ (r = Returns tt -> guid_str_ (fst s1) <> EmptyString)).
  { destruct (String.eqb_spec (guid_str_ d) "") as [Eg | Eg].
    - post_step. post_step. dns_proj. unfold LuidToGuidString, Throw_.
      post_step. post_step. lazy beta. destruct (guid_of w (luid_ d)) as [g|].
      + destruct (String.eqb_spec g "").
        * post_step. dns_proj. dns_fin.
        * post_step. post_step. dns_proj. dns_fin.
      + post_step. dns_proj. dns_fin.
    - post_step. dns_proj. dns_fin. }
  cbv beta. intros r [d1 w1] [L1 [A1 [G1 N1]]]. dns_proj. cbn [fst snd] in L1, A1, G1, N1.
  destruct r as [[]|e]; [|auto]. specialize (N1 eq_refl).
  destruct (classify (s0 :: rest) [] []) as [[v4 v6]|e]; [|post_step; dns_proj; auto].
  post_step. post_step. lazy beta zeta. dns_proj.
  post_step. post_step. dns_proj. eapply post_weaken; [apply post_true|]. cbv beta.
  intros r w2 _. destruct r as [p4|e]; [|dns_proj; auto].
  post_step. post_step. dns_proj.
  post_step. post_step. dns_proj. eapply post_weaken; [apply post_true|]. cbv beta.
  intros r w3 _. destruct r as [p6|e]; [|dns_proj; auto].
  post_step. post_step. dns_proj. post_step.
  eapply post_weaken with
    (Q1 := fun r s1 =>
             luid_ (fst s1) = luid_ d /\ applied_ (fst s1) = applied_ d
             /\ guid_str_ (fst s1) = guid_str_ d1).
  { destruct v4; [post_step; dns_proj; auto|].
    post_step. post_step. dns_proj. eapply post_weaken; [apply post_true|]. cbv beta.
    intros r w4 _. destruct r as [[]|e]; [post_step|]; dns_proj; auto. }
  cbv beta. intros r [d2 w4] [L2 [A2 G2]]. cbn [fst snd] in L2, A2, G2.
  destruct r as [[]|e]; [|dns_proj; repeat split; [exact L2 | intros H; rewrite G2; auto | exact A2]].
  post_step.
  eapply post_weaken with
    (Q1 := fun r s1 =>
             luid_ (fst s1) = luid_ d /\ applied_ (fst s1) = applied_ d
             /\ guid_str_ (fst s1) = guid_str_ d1).
  { destruct v6; [post_step; dns_proj; auto|].
    post_step. post_step. dns_proj. eapply post_weaken; [apply post_true|]. cbv beta.
    intros r w5 _. destruct r as [[]|e]; [post_step|]; dns_proj; auto. }
  cbv beta. intros r [d3 w5] [L3 [A3 G3]]. cbn [fst snd] in L3, A3, G3.
  destruct r as [[]|e]; [|dns_proj; repeat split; [exact L3 | intros H; rewrite G3; auto | exact A3]].
  post_step. post_step. unfold FlushResolverCache. post_step. post_step. dns_proj.
  split; [exact L3|]. split; [intros H; rewrite G3; auto|]. split; [reflexivity|].
  rewrite G3. exact N1.
Qed.

(** X9. A failed [Apply] is never rolled back.  On an object that holds
    no applied state, an [Apply] that throws, at whatever point, leaves
    [applied_] unset, so that the [Revert] that follows (the one of the
    destructor too) returns at once and writes nothing, even when a
    [NameServer] value had been written before the failure. *)
Theorem failed_Apply_is_not_reverted servers d w :
  applied_ d = false ->
  is_thrown (fst (Apply servers (d, w))) = true ->
  forall w2,
    Revert (fst (snd (Apply servers (d, w))), w2)
    = (Returns tt, (fst (snd (Apply servers (d, w))), w2)).
Proof.
  intros Ha Ht w2. apply Revert_not_applied_dns.
  pose proof (Apply_object servers d w) as H. unfold post in H.
  destruct H as [_ [_ H]]. destruct (fst (Apply servers (d, w))); [discriminate|].
  rewrite H. exact Ha.
Qed.

(** X10. [Apply] keeps the identity of the object: the LUID never changes,
    a GUID text once obtained is kept (it is asked of the OS only while
    the cached text is empty), and an [Apply] that returns leaves the
    object applied with a GUID text. *)
Theorem Apply_keeps_identity servers d w :
  luid_ (fst (snd (Apply servers (d, w)))) = luid_ d
  /\ (guid_str_ d <> EmptyString ->
      guid_str_ (fst (snd (Apply servers (d, w)))) = guid_str_ d)
  /\ (fst (Apply servers (d, w)) = Returns tt ->
      applied_ (fst (snd (Apply servers (d, w)))) = true
      /\ guid_str_ (fst (snd (Apply servers (d, w)))) <> EmptyString).
Proof.
  pose proof (Apply_object servers d w) as H. unfold post in H.
  destruct H as [L [G H]]. split; [exact L|]. split; [exact G|].
  intros E. rewrite E in H. exact H.
Qed.

Lemma Apply_rejected_flags servers d w :
  (servers = [] \/ exists s, In s servers /\ valid s = false) ->
  post (Apply servers) (d, w)
       (fun _ s' => touched_v4_ (fst s') = false /\ touched_v6_ (fst s') = false
                    /\ applied_ (fst s') = applied_ d
                    /\ prev_v4_present_ (fst s') = false /\ prev_v6_present_ (fst s') = false).
Proof.
  intros Hbad. unfold Apply. post_step. post_step. lazy beta iota zeta. dns_proj.
  destruct servers as [|s0 rest]; [post_step; dns_proj; dns_fin|].
  destruct Hbad as [Hbad | Hbad]; [discriminate|].
  destruct (@classify_invalid P (s0 :: rest) Hbad [] []) as [what Hc]. rewrite Hc.
  post_step. post_step. lazy beta. dns_proj. post_step.
  eapply post_weaken with
    (Q1 := fun _ s' => touched_v4_ (fst s') = false /\ touched_v6_ (fst s') = false
                       /\ applied_ (fst s') = applied_ d
                       /\ prev_v4_present_ (fst s') = false
                       /\ prev_v6_present_ (fst s') = false).
  { destruct (String.eqb (guid_str_ d) ""); [|post_step; dns_proj; dns_fin].
    post_step. post_step. dns_proj. eapply post_weaken; [apply post_true|]. cbv beta.
    intros r w1 _. destruct r; [post_step|]; dns_proj; dns_fin. }
  cbv beta. intros r s1 H1. destruct r as [[]|e]; [post_step|]; exact H1.
Qed.

(** X11. A rejected [Apply] forgets what an earlier [Apply] saved.  When the
    list is empty or holds an element that is no address, the call throws
    after it has cleared the snapshot and the touched flags, [applied_]
    staying as it was: the [Revert] that follows writes nothing in
    whatever world, and resets the object, so that the values installed
    by an earlier successful [Apply] are never restored. *)
Theorem rejected_Apply_forgets_snapshot servers d w :
  (servers = [] \/ exists s, In s servers /\ valid s = false) ->
  forall w2,
    fst (Revert (fst (snd (Apply servers (d, w))), w2)) = Returns tt
    /\ snd (snd (Revert (fst (snd (Apply servers (d, w))), w2))) = w2
    /\ applied_ (fst (snd (Revert (fst (snd (Apply servers (d, w))), w2)))) = false.
Proof.
  intros Hbad w2. pose proof (@Apply_rejected_flags servers d w Hbad) as H.
  unfold post in H. destruct (fst (snd (Apply servers (d, w)))) as
      [l g a p4 p6 v4 v6 t4 t6]. cbn in H. destruct H as [-> [-> _]].
  unfold Revert, bind, get, liftW, modify, Revert_family, FlushResolverCache, ret.
  cbn [fst snd applied_ touched_v4_ touched_v6_]. destruct a; simpl; auto.
Qed.

Lemma planned_keys g servers x :
  In x (planned_writes g servers) -> key_of x = key4 g \/ key_of x = key6 g.
Proof.
  unfold planned_writes. intros H. apply in_app_iff in H. destruct H as [H | H].
  - destruct (of_v4 servers); [destruct H|]. destruct H as [<- | []]. left. reflexivity.
  - destruct (of_v6 servers); [destruct H|]. destruct H as [<- | []]. right. reflexivity.
Qed.

Lemma restored_same a :
  a <> Some REG_malformed -> a <> Some (REG_SZ "") -> restored a = a.
Proof.
  intros Hm He. destruct a as [[s|]|]; [|congruence|reflexivity].
  unfold restored, written. destruct (String.eqb_spec s ""); [subst; congruence | reflexivity].
Qed.

(** X12. Round trip of [Apply] and [Revert] in a world whose registry calls
    all take their course: both calls return; a family the list had no
    address of holds the value it had; a family that was overridden holds
    its former string again, or no value when it had none (or an empty
    string, which [Revert] deletes); every other key is as it was. *)
Theorem Apply_then_Revert_restores_registry d w servers g a4 a6 :
  pton_rejects_empty P -> faults w = [] -> resolves d w g ->
  reg w (key4 g) = Some a4 -> a4 <> Some REG_malformed ->
  reg w (key6 g) = Some a6 -> a6 <> Some REG_malformed ->
  servers <> [] -> Forall (fun s => valid s = true) servers ->
  let run1 := Apply servers (d, w) in
  let run2 := Revert (snd run1) in
  fst run1 = Returns tt /\ fst run2 = Returns tt
  /\ reg (snd (snd run2)) (key4 g)
     = Some (if is_nil (of_v4 servers) then a4 else restored a4)
  /\ reg (snd (snd run2)) (key6 g)
     = Some (if is_nil (of_v6 servers) then a6 else restored a6)
  /\ (forall k, k <> key4 g -> k <> key6 g -> reg (snd (snd run2)) k = reg w k)
  /\ (a4 <> Some (REG_SZ "") -> a6 <> Some (REG_SZ "") ->
      forall k, reg (snd (snd run2)) k = reg w k).
Proof.
  intros Hempty Hf Hres H4 M4 H6 M6 Hne Hvalid run1 run2.
  pose proof (@Apply_quiet P d w servers g a4 a6 Hempty Hf Hres H4 M4 H6 M6 Hne Hvalid) as A.
  pose proof (@Apply_steps P d w servers Hne Hvalid Hempty) as S.
  unfold post in A, S. fold run1 in A, S.
  destruct A as [E1 [F1 [[G1 Ap1] [P4 [P6 [T4 [T6 [R4 R6]]]]]]]].
  cbv zeta in S. rewrite G1 in S. destruct S as [seg [rest [S1 [Hplan _]]]].
  destruct (snd run1) as [d1 w1] eqn:Es1. cbn [fst snd] in *.
  rewrite <- G1 in R4, R6.
  pose proof (@Revert_quiet d1 w1 _ _ F1 Ap1 R4 R6) as B.
  pose proof (Revert_steps d1 w1) as S2.
  unfold post in B, S2. fold run2 in B, S2. destruct B as [E2 [V4 V6]].
  destruct S2 as [seg2 [S2 K2]]. rewrite G1 in V4, V6, K2.
  assert (Q4 : reg (snd (snd run2)) (key4 g)
               = Some (if is_nil (of_v4 servers) then a4 else restored a4)).
  { rewrite V4, T4. destruct (of_v4 servers); [reflexivity|]. simpl.
    destruct a4 as [[x|]|]; [|congruence|]; simpl in P4; injection P4 as -> ->; reflexivity. }
  assert (Q6 : reg (snd (snd run2)) (key6 g)
               = Some (if is_nil (of_v6 servers) then a6 else restored a6)).
  { rewrite V6, T6. destruct (of_v6 servers); [reflexivity|]. simpl.
    destruct a6 as [[x|]|]; [|congruence|]; simpl in P6; injection P6 as -> ->; reflexivity. }
  assert (Qk : forall k, k <> key4 g -> k <> key6 g -> reg (snd (snd run2)) k = reg w k).
  { intros k N4 N6. destruct S1 as [_ [_ Fr1]]. destruct S2 as [_ [_ Fr2]].
    rewrite Fr2, Fr1; [reflexivity | |].
    - intros Hin. apply in_map_iff in Hin. destruct Hin as [x [<- Hx]].
      assert (Hp : In x (planned_writes g servers)).
      { rewrite Hplan. apply in_app_iff. left. exact Hx. }
      destruct (planned_keys _ _ _ Hp); congruence.
    - intros Hin. apply in_map_iff in Hin. destruct Hin as [x [<- Hx]].
      destruct (K2 x Hx) as [[Hk _] | [Hk _]]; congruence. }
  split; [exact E1|]. split; [exact E2|]. split; [exact Q4|]. split; [exact Q6|].
  split; [exact Qk|]. intros N4 N6 k.
  destruct (String.eqb_spec k (key4 g)) as [-> | D4].
  { rewrite Q4, H4, (restored_same M4 N4). destruct (is_nil (of_v4 servers)); reflexivity. }
  destruct (String.eqb_spec k (key6 g)) as [-> | D6].
  { rewrite Q6, H6, (restored_same M6 N6). destruct (is_nil (of_v6 servers)); reflexivity. }
  exact (Qk k D4 D6).
Qed.

End DnsRoundTrips.


Section NetPlans.
Import IpHelper Network NetSpec.
Local Open Scope N_scope.
Context {P : InetPton}.

Lemma pick_default_fold exclude ver tbl best :
  let res := fold_left
               (fun best row =>
                  if InterfaceLuid row =? exclude then best
                  else if negb (si_family (DestinationPrefix row) =? fam ver) then best
                  else if negb (PrefixLength row =? 0) then best
                  else match best with
                       | None => Some row
                       | Some b => if Metric row <? Metric b then Some row else best
                       end)
               tbl best in
  match res with
  | Some b =>
      (Some b = best \/ (In b tbl /\ default_candidate exclude ver b = true))
      /\ (forall b0, best = Some b0 -> Metric b <= Metric b0)
      /\ (forall c, In c tbl -> default_candidate exclude ver c = true -> Metric b <= Metric c)
  | None => best = None /\ forall c, In c tbl -> default_candidate exclude ver c = false
  end.
Proof.
  revert best. induction tbl as [|row tbl IH]; intros best; cbn [fold_left].
  - destruct best as [b|]; cbv zeta.
    + split; [left; reflexivity|]. split; [intros b0 E; injection E as <-; lia|].
      intros c [].
    + split; [reflexivity | intros c []].
  - set (best' := if InterfaceLuid row =? exclude then best
                  else if negb (si_family (DestinationPrefix row) =? fam ver) then best
                  else if negb (PrefixLength row =? 0) then best
                  else match best with
                       | None => Some row
                       | Some b => if Metric row <? Metric b then Some row else best
                       end).
    specialize (IH best'). cbv zeta in IH |- *.
    assert (Hstep :
              (default_candidate exclude ver row = false /\ best' = best)
              \/ (default_candidate exclude ver row = true
                  /\ match best with
                     | None => best' = Some row
                     | Some b => (Metric row < Metric b /\ best' = Some row)
                                 \/ (Metric b <= Metric row /\ best' = best)
                     end)).
    { unfold best', default_candidate.
      destruct (InterfaceLuid row =? exclude); [left; auto|].
      destruct (si_family (DestinationPrefix row) =? fam ver); [|left; auto].
      destruct (PrefixLength row =? 0); [|left; auto]. right. split; [reflexivity|].
      destruct best as [b|]; [|reflexivity].
      destruct (N.ltb_spec (Metric row) (Metric b)); [left | right]; auto. }
    clearbody best'.
    destruct (fold_left _ tbl best') as [b|].
    + destruct IH as [I1 [I2 I3]].
      destruct Hstep as [[Hc ->] | [Hc Hb]].
      * split; [destruct I1 as [I1 | [I1 I1']]; [left; exact I1 | right; split; [right|]; auto]|].
        split; [exact I2|]. intros c [<- | Hin] Hcc; [congruence | exact (I3 c Hin Hcc)].
      * destruct best as [b0|].
        -- destruct Hb as [[Hlt ->] | [Hle ->]].
           ++ split.
              { destruct I1 as [I1 | [I1 I1']]; [|right; split; [right|]; auto].
                injection I1 as ->. right. split; [left; reflexivity | exact Hc]. }
              split.
              { intros b1 E. injection E as <-. specialize (I2 row eq_refl). lia. }
              intros c [<- | Hin] Hcc; [exact (I2 _ eq_refl) | exact (I3 c Hin Hcc)].
           ++ split; [destruct I1 as [I1 | [I1 I1']]; [left; exact I1
                                                      | right; split; [right|]; auto]|].
              split; [exact I2|].
              intros c [<- | Hin] Hcc; [specialize (I2 b0 eq_refl); lia | exact (I3 c Hin Hcc)].
        -- subst best'. split.
           { destruct I1 as [I1 | [I1 I1']]; [|right; split; [right|]; auto].
             injection I1 as ->. right. split; [left; reflexivity | exact Hc]. }
           split; [intros b1 E; discriminate|].
           intros c [<- | Hin] Hcc; [exact (I2 _ eq_refl) | exact (I3 c Hin Hcc)].
    + destruct IH as [I1 I2]. destruct Hstep as [[Hc ->] | [Hc Hb]].
      * split; [exact I1|]. intros c [<- | Hin]; [exact Hc | exact (I2 c Hin)].
      * exfalso. destruct best as [b0|]; [destruct Hb as [[_ Hb] | [_ Hb]]|]; congruence.
Qed.

(** X13. The fallback search answers with a default route of the family
    that does not go through the excluded interface and whose metric no
    other such route of the table undercuts; it answers with none exactly
    when the table has no such route, throws only when the table cannot be
    read, and leaves the table as it is. *)
Theorem fallback_picks_cheapest_default exclude ver w :
  routes (snd (fallback_default_route_excluding exclude ver w)) = routes w
  /\ match fst (fallback_default_route_excluding exclude ver w) with
     | Returns (Some b) =>
         In b (routes w) /\ default_candidate exclude ver b = true
         /\ forall c, In c (routes w) -> default_candidate exclude ver c = true ->
                      Metric b <= Metric c
     | Returns None =>
         forall c, In c (routes w) -> default_candidate exclude ver c = false
     | Throws e => e = RuntimeError "GetIpForwardTable2 failed"
     end.
Proof.
  enough (H : post (fallback_default_route_excluding exclude ver) w
                (fun r w' =>
                   routes w' = routes w
                   /\ match r with
                      | Returns (Some b) =>
                          In b (routes w) /\ default_candidate exclude ver b = true
                          /\ forall c, In c (routes w) ->
                                       default_candidate exclude ver c = true ->
                                       Metric b <= Metric c
                      | Returns None =>
                          forall c, In c (routes w) -> default_candidate exclude ver c = false
                      | Throws e => e = RuntimeError "GetIpForwardTable2 failed"
                      end)) by exact H.
  unfold fallback_default_route_excluding. post_step.
  post_use GetIpForwardTable2_frame as r w1 H1. destruct H1 as [F1 [tbl [-> Ht]]].
  pose proof (ip_frame_routes F1) as R1.
  destruct tbl as [t|]; post_step; (split; [exact R1|]); [|reflexivity].
  specialize (Ht t eq_refl). subst t.
  assert (Hin : forall c, In c (routes w) -> default_candidate exclude ver c = true ->
                          In c (filter (in_family (fam ver)) (routes w))).
  { intros c Hc Hd. apply filter_In. split; [exact Hc|]. unfold default_candidate in Hd.
    apply andb_true_iff in Hd. destruct Hd as [Hd _]. apply andb_true_iff in Hd.
    destruct Hd as [_ Hd]. unfold in_family. rewrite Hd. apply orb_true_r. }
  pose proof (pick_default_fold exclude ver (filter (in_family (fam ver)) (routes w)) None) as Hp.
  cbv zeta in Hp. unfold pick_default.
  destruct (fold_left _ (filter (in_family (fam ver)) (routes w)) None) as [b|].
  - destruct Hp as [[Hb | [Hb Hc]] [_ Hmin]]; [discriminate|].
    apply filter_In in Hb. split; [apply Hb|]. split; [exact Hc|].
    intros c Hc1 Hc2. exact (Hmin c (Hin c Hc1 Hc2) Hc2).
  - destruct Hp as [_ Hp]. intros c Hc.
    destruct (default_candidate exclude ver c) eqn:Hd; [|reflexivity].
    rewrite <- Hd. exact (Hp c (Hin c Hc Hd)).
Qed.

Lemma field_step (p : string -> option N) (field : string) (e : exn)
      (setter : string -> Globals -> Globals) (k : M Globals unit) g :
  ((if negb (is_empty field) then
      match p field with
      | None => throw e
      | Some _ => modify (setter field)
      end
    else ret tt) ;;; k) g
  = if acceptable p field then k (if is_empty field then g else setter field g)
    else (Throws e, g).
Proof.
  unfold acceptable, bind. destruct (is_empty field); [reflexivity|].
  destruct (p field); reflexivity.
Qed.

Lemma SetAddressPlan_run plan g :
  SetAddressPlan plan g
  = if acceptable inet_pton4 (local4 plan) then
      if acceptable inet_pton4 (peer4 plan) then
        if acceptable inet_pton6 (local6 plan) then
          if acceptable inet_pton6 (peer6 plan) then
            if mtu_acceptable (mtu plan) then
              (Returns tt,
               if mtu plan =? 0 then with_addresses plan g
               else set_mtu (mtu plan) (with_addresses plan g))
            else (Throws (InvalidArgument "Network::SetAddressPlan: invalid MTU"),
                  with_addresses plan g)
          else (Throws (InvalidArgument "Network::SetAddressPlan: invalid peer6"),
                mkGlobals (chosen (local4 plan) (g_LOCAL4 g)) (chosen (peer4 plan) (g_PEER4 g))
                          (chosen (local6 plan) (g_LOCAL6 g)) (g_PEER6 g) (g_mtu g))
        else (Throws (InvalidArgument "Network::SetAddressPlan: invalid local6"),
              mkGlobals (chosen (local4 plan) (g_LOCAL4 g)) (chosen (peer4 plan) (g_PEER4 g))
                        (g_LOCAL6 g) (g_PEER6 g) (g_mtu g))
      else (Throws (InvalidArgument "Network::SetAddressPlan: invalid peer4"),
            mkGlobals (chosen (local4 plan) (g_LOCAL4 g)) (g_PEER4 g)
                      (g_LOCAL6 g) (g_PEER6 g) (g_mtu g))
    else (Throws (InvalidArgument "Network::SetAddressPlan: invalid local4"), g).
Proof.
  unfold SetAddressPlan. destruct g as [l4 p4 l6 p6 m].
  rewrite field_step. destruct (acceptable inet_pton4 (local4 plan)); [|reflexivity].
  rewrite field_step. destruct (acceptable inet_pton4 (peer4 plan)).
  2:{ unfold chosen. destruct (is_empty (local4 plan)); reflexivity. }
  rewrite field_step. destruct (acceptable inet_pton6 (local6 plan)).
  2:{ unfold chosen. destruct (is_empty (local4 plan)), (is_empty (peer4 plan)); reflexivity. }
  rewrite field_step. destruct (acceptable inet_pton6 (peer6 plan)).
  2:{ unfold chosen.
      destruct (is_empty (local4 plan)), (is_empty (peer4 plan)), (is_empty (local6 plan));
        reflexivity. }
  assert (E : (if is_empty (peer6 plan)
               then if is_empty (local6 plan)
                    then if is_empty (peer4 plan)
                         then if is_empty (local4 plan) then mkGlobals l4 p4 l6 p6 m
                              else set_LOCAL4 (local4 plan) (mkGlobals l4 p4 l6 p6 m)
                         else set_PEER4 (peer4 plan)
                                (if is_empty (local4 plan) then mkGlobals l4 p4 l6 p6 m
                                 else set_LOCAL4 (local4 plan) (mkGlobals l4 p4 l6 p6 m))
                    else set_LOCAL6 (local6 plan)
                           (if is_empty (peer4 plan)
                            then if is_empty (local4 plan) then mkGlobals l4 p4 l6 p6 m
                                 else set_LOCAL4 (local4 plan) (mkGlobals l4 p4 l6 p6 m)
                            else set_PEER4 (peer4 plan)
                                   (if is_empty (local4 plan) then mkGlobals l4 p4 l6 p6 m
                                    else set_LOCAL4 (local4 plan) (mkGlobals l4 p4 l6 p6 m)))
               else set_PEER6 (peer6 plan)
                      (if is_empty (local6 plan)
                       then if is_empty (peer4 plan)
                            then if is_empty (local4 plan) then mkGlobals l4 p4 l6 p6 m
                                 else set_LOCAL4 (local4 plan) (mkGlobals l4 p4 l6 p6 m)
                            else set_PEER4 (peer4 plan)
                                   (if is_empty (local4 plan) then mkGlobals l4 p4 l6 p6 m
                                    else set_LOCAL4 (local4 plan) (mkGlobals l4 p4 l6 p6 m))
                       else set_LOCAL6 (local6 plan)
                              (if is_empty (peer4 plan)
                               then if is_empty (local4 plan) then mkGlobals l4 p4 l6 p6 m
                                    else set_LOCAL4 (local4 plan) (mkGlobals l4 p4 l6 p6 m)
                               else set_PEER4 (peer4 plan)
                                      (if is_empty (local4 plan) then mkGlobals l4 p4 l6 p6 m
                                       else set_LOCAL4 (local4 plan)
                                              (mkGlobals l4 p4 l6 p6 m)))))
              = with_addresses plan (mkGlobals l4 p4 l6 p6 m)).
  { unfold with_addresses, chosen.
    destruct (is_empty (local4 plan)), (is_empty (peer4 plan)), (is_empty (local6 plan)),
      (is_empty (peer6 plan)); reflexivity. }
  rewrite E. clear E. unfold mtu_acceptable.
  destruct (mtu plan =? 0) eqn:E0; [reflexivity|]. cbn [negb orb].
  destruct (N.ltb_spec (mtu plan) 576) as [H1 | H1].
  { cbn [orb]. destruct (N.leb_spec 576 (mtu plan)); [lia | reflexivity]. }
  cbn [orb]. destruct (N.leb_spec 576 (mtu plan)); [|lia]. cbn [andb].
  destruct (N.ltb_spec 9000 (mtu plan)), (N.leb_spec (mtu plan) 9000); try lia; reflexivity.
Qed.

(** X14. [SetAddressPlan] returns exactly for the plans whose address
    fields are empty or literals of their family and whose MTU is 0 or in
    576..9000; the variables then hold the fields of the plan, an empty
    field and an MTU of 0 leaving the old value. *)
Theorem SetAddressPlan_accepts_iff plan g :
  (fst (SetAddressPlan plan g) = Returns tt
   <-> addresses_acceptable plan && mtu_acceptable (mtu plan) = true)
  /\ (fst (SetAddressPlan plan g) = Returns tt ->
      snd (SetAddressPlan plan g)
      = mkGlobals (chosen (local4 plan) (g_LOCAL4 g)) (chosen (peer4 plan) (g_PEER4 g))
                  (chosen (local6 plan) (g_LOCAL6 g)) (chosen (peer6 plan) (g_PEER6 g))
                  (if mtu plan =? 0 then g_mtu g else mtu plan)).
Proof.
  rewrite SetAddressPlan_run. unfold addresses_acceptable.
  destruct (acceptable inet_pton4 (local4 plan)); [|split; [split|]; discriminate].
  destruct (acceptable inet_pton4 (peer4 plan)); [|split; [split|]; discriminate].
  destruct (acceptable inet_pton6 (local6 plan)); [|split; [split|]; discriminate].
  destruct (acceptable inet_pton6 (peer6 plan)); [|split; [split|]; discriminate].
  destruct (mtu_acceptable (mtu plan)); [|split; [split|]; discriminate].
  split; [split; reflexivity|]. intros _. cbn [snd].
  destruct (mtu plan =? 0); reflexivity.
Qed.

(** X15. [SetAddressPlan] is not all-or-nothing: when the addresses of the
    plan are acceptable and its MTU is not, the call throws the MTU error
    with the four address variables already overwritten. *)
Theorem SetAddressPlan_stores_addresses_before_MTU_error plan g :
  addresses_acceptable plan = true ->
  mtu_acceptable (mtu plan) = false ->
  SetAddressPlan plan g
  = (Throws (InvalidArgument "Network::SetAddressPlan: invalid MTU"),
     mkGlobals (chosen (local4 plan) (g_LOCAL4 g)) (chosen (peer4 plan) (g_PEER4 g))
               (chosen (local6 plan) (g_LOCAL6 g)) (chosen (peer6 plan) (g_PEER6 g))
               (g_mtu g)).
Proof.
  intros Ha Hm. rewrite SetAddressPlan_run. unfold addresses_acceptable in Ha.
  apply andb_true_iff in Ha. destruct Ha as [Ha ->].
  apply andb_true_iff in Ha. destruct Ha as [Ha ->].
  apply andb_true_iff in Ha. destruct Ha as [-> ->]. rewrite Hm. reflexivity.
Qed.

Lemma keeps_refl ver server t : keeps ver server t t.
Proof. intros row H _. exact H. Qed.

Lemma keeps_trans ver server t0 t1 t2 :
  keeps ver server t0 t1 -> keeps ver server t1 t2 -> keeps ver server t0 t2.
Proof. intros H1 H2 row Hin Hn. apply H2; [apply H1|]; assumption. Qed.

Lemma pin_change_keeps ver server t0 t : pin_change ver server t0 t -> keeps ver server t0 t.
Proof.
  intros [dest [Hp [h [Hh [-> | [_ ->]]]]]] row Hin Hn.
  - apply in_app_iff. left. exact Hin.
  - unfold replace_route. apply in_map_iff. exists row. split; [|exact Hin].
    destruct (same_route h row) eqn:Hs; [|reflexivity].
    pose proof (Hn dest Hp) as Hc.
    rewrite (@same_route_host _ _ _ _ Hs Hh) in Hc. discriminate Hc.
Qed.

Lemma rows_added_keeps ver server t0 t : rows_added ver t0 t -> keeps ver server t0 t.
Proof. intros [rows [-> _]] row Hin _. apply in_app_iff. left. exact Hin. Qed.

Lemma ConfigureNetwork_keeps adapter server ver g w :
  post (ConfigureNetwork adapter server ver) (g, w)
       (fun r s' => exists tables,
            route_hist (snd s') = route_hist w ++ tables
            /\ Forall (keeps ver server (routes w)) tables).
Proof.
  assert (Hdone : forall w', ip_frame w w' ->
            exists tables, route_hist w' = route_hist w ++ tables
                           /\ Forall (keeps ver server (routes w)) tables).
  { intros w' [E _]. exists []. rewrite app_nil_r. split; [exact E | constructor]. }
  unfold ConfigureNetwork. destruct adapter as [luid|].
  2:{ post_step. exact (Hdone _ (ip_frame_refl w)). }
  post_step. post_step. lazy zeta. cbn [fst snd].
  post_step. post_step. cbn [fst snd]. post_use set_if_mtu_frame as r w1 F1.
  destruct r as [[] | e]; [|exact (Hdone _ F1)].
  post_step.
  eapply (@post_weaken _ _ _ _ (fun r s' => fst s' = g /\ ip_frame w (snd s'))).
  { destruct ver; simpl is_V6; lazy iota; post_step; post_step; cbn [fst snd];
      (post_use add_ip_address_on_if_frame as r w2 F2);
      (destruct r as [[] | e];
       [|split; [reflexivity | exact (ip_frame_trans F1 F2)]]);
      post_step; cbn [fst snd]; (post_use set_if_metric_frame as r w3 F3);
      (split; [reflexivity | exact (ip_frame_trans F1 (ip_frame_trans F2 F3))]). }
  clear w1 F1. intros r [g1 w1] [Hg F1]. cbn [fst snd] in Hg, F1. subst g1.
  destruct r as [[] | e]; [|exact (Hdone _ F1)].
  post_step. post_step. cbn [fst snd]. post_use pin_server_effect as r w2 H2.
  destruct H2 as [T2 _].
  pose proof (table_step_frame F1 T2) as T. clear T2.
  assert (Hpin : exists ptables,
             route_hist w2 = route_hist w ++ ptables
             /\ Forall (keeps ver server (routes w)) ptables).
  { destruct T as [E | [t [E HR]]].
    - exists []. rewrite app_nil_r. split; [exact E | constructor].
    - exists [t]. split; [exact E | constructor; [exact (pin_change_keeps HR) | constructor]]. }
  clear T. destruct r as [pinned | e]; [|exact Hpin].
  destruct pinned; [|post_step; exact Hpin].
  destruct Hpin as [ptables [Ept Fpt]].
  post_step. cbn [fst snd]. post_use activate_split_default_effect as r w3 H3.
  destruct H3 as [[atables [Eat Fat]] _]. cbn [snd].
  exists (ptables ++ atables). split; [rewrite Eat, Ept, app_assoc; reflexivity|].
  apply Forall_app. split; [exact Fpt|]. eapply Forall_impl; [|exact Fat].
  intros t Ht. refine (keeps_trans _ (@rows_added_keeps ver server _ _ Ht)).
  rewrite (@routes_last _ _ _ Ept).
  apply (@last_Forall _ (keeps ver server (routes w))); [exact Fpt | apply keeps_refl].
Qed.

(** X16. [ConfigureNetwork] removes no route: whatever the system calls
    answer, every row of the table at entry that is not a host route to
    the server is in every table the invocation goes through, and so in
    the table it leaves. *)
Theorem ConfigureNetwork_removes_no_route adapter server_ip ver g w :
  exists tables,
    route_hist (snd (snd (ConfigureNetwork adapter server_ip ver (g, w))))
    = route_hist w ++ tables
    /\ Forall (keeps ver server_ip (routes w)) tables
    /\ keeps ver server_ip (routes w)
             (routes (snd (snd (ConfigureNetwork adapter server_ip ver (g, w))))).
Proof.
  destruct (ConfigureNetwork_keeps adapter server_ip ver g w) as [tables [E F]].
  exists tables. split; [exact E|]. split; [exact F|].
  rewrite (@routes_last _ _ _ E).
  apply (@last_Forall _ (keeps ver server_ip (routes w))); [exact F | apply keeps_refl].
Qed.

End NetPlans.


Create HintDb untouched.

Ltac walk :=
  repeat (lazy beta iota zeta;
          lazymatch goal with
          | |- post (bind _ _) _ _ => apply post_bind
          | |- post (ret _) _ _ => apply post_ret
          | |- post (throw _) _ _ => apply post_throw
          | |- post get _ _ => apply post_get
          | |- post (modify _) _ _ => apply post_modify
          | |- post (liftW _) _ _ => apply post_liftW; cbn [fst snd]
          | |- post (try_catch _ _) _ _ => apply post_try_catch
          | |- post (if ?b then _ else _) _ _ => destruct b
          | |- post (match ?x with _ => _ end) _ _ => destruct x
          | |- match ?r with Returns _ => _ | Throws _ => _ end => destruct r
          | |- post _ _ _ =>
              eapply post_weaken; [solve [eauto with untouched] | cbv beta; intros ? ? ?]
          end).

Section NetFrames.
Import IpHelper Network NetSpec.
Local Open Scope N_scope.
Context {P : InetPton}.

Lemma net_untouched_refl w : net_untouched w w.
Proof. split; reflexivity. Qed.

Lemma net_untouched_trans w w1 w2 :
  net_untouched w w1 -> net_untouched w1 w2 -> net_untouched w w2.
Proof. intros [A B] [C D]. split; congruence. Qed.

Lemma ip_call_untouched w0 w :
  net_untouched w0 w -> post ip_call w (fun _ w' => net_untouched w0 w').
Proof.
  intros H. unfold post, ip_call. destruct (faults w); simpl; [exact H|].
  destruct H. split; assumption.
Qed.

Lemma emit_untouched ev w0 w :
  net_untouched w0 w -> post (emit ev) w (fun _ w' => net_untouched w0 w').
Proof. intros [A B]. unfold emit. post_step. split; assumption. Qed.

Lemma set_routes_untouched t w0 w :
  net_untouched w0 w -> post (set_routes t) w (fun _ w' => net_untouched w0 w').
Proof. intros [A B]. unfold set_routes. post_step. split; assumption. Qed.

Hint Resolve ip_call_untouched emit_untouched set_routes_untouched : untouched.

Lemma GetIpForwardTable2_untouched f w0 w :
  net_untouched w0 w -> post (GetIpForwardTable2 f) w (fun _ w' => net_untouched w0 w').
Proof. intros H. unfold GetIpForwardTable2. walk; assumption. Qed.

Lemma GetBestRoute2_untouched d w0 w :
  net_untouched w0 w -> post (GetBestRoute2 d) w (fun _ w' => net_untouched w0 w').
Proof. intros H. unfold GetBestRoute2. walk; assumption. Qed.

Lemma GetIpInterfaceEntry_untouched f l w0 w :
  net_untouched w0 w -> post (GetIpInterfaceEntry f l) w (fun _ w' => net_untouched w0 w').
Proof. intros H. unfold GetIpInterfaceEntry. walk; assumption. Qed.

Lemma CreateIpForwardEntry2_untouched row w0 w :
  net_untouched w0 w -> post (CreateIpForwardEntry2 row) w (fun _ w' => net_untouched w0 w').
Proof. intros H. unfold CreateIpForwardEntry2. walk; assumption. Qed.

Lemma SetIpForwardEntry2_untouched row w0 w :
  net_untouched w0 w -> post (SetIpForwardEntry2 row) w (fun _ w' => net_untouched w0 w').
Proof. intros H. unfold SetIpForwardEntry2. walk; assumption. Qed.

Lemma DeleteIpForwardEntry2_untouched row w0 w :
  net_untouched w0 w -> post (DeleteIpForwardEntry2 row) w (fun _ w' => net_untouched w0 w').
Proof. intros H. unfold DeleteIpForwardEntry2. walk; assumption. Qed.

Hint Resolve GetIpForwardTable2_untouched GetBestRoute2_untouched GetIpInterfaceEntry_untouched
     CreateIpForwardEntry2_untouched SetIpForwardEntry2_untouched
     DeleteIpForwardEntry2_untouched : untouched.

Lemma CreateIpForwardEntry_untouched row w0 w :
  net_untouched w0 w -> post (CreateIpForwardEntry row) w (fun _ w' => net_untouched w0 w').
Proof. intros H. unfold CreateIpForwardEntry. walk; assumption. Qed.

Hint Resolve CreateIpForwardEntry_untouched : untouched.

Lemma get_best_route_to_generic_untouched ip ver w0 w :
  net_untouched w0 w ->
  post (get_best_route_to_generic ip ver) w (fun _ w' => net_untouched w0 w').
Proof. intros H. unfold get_best_route_to_generic. walk; assumption. Qed.

Lemma fallback_untouched l ver w0 w :
  net_untouched w0 w ->
  post (fallback_default_route_excluding l ver) w (fun _ w' => net_untouched w0 w').
Proof. intros H. unfold fallback_default_route_excluding. walk; assumption. Qed.

Lemma add_or_update_host_route_via_untouched host via metric ver w0 w :
  net_untouched w0 w ->
  post (add_or_update_host_route_via host via metric ver) w (fun _ w' => net_untouched w0 w').
Proof. intros H. unfold add_or_update_host_route_via. walk; assumption. Qed.

Lemma add_route_via_gateway_untouched l p len gw metric ver w0 w :
  net_untouched w0 w ->
  post (add_route_via_gateway l p len gw metric ver) w (fun _ w' => net_untouched w0 w').
Proof. intros H. unfold add_route_via_gateway. walk; assumption. Qed.

Hint Resolve get_best_route_to_generic_untouched fallback_untouched
     add_or_update_host_route_via_untouched add_route_via_gateway_untouched : untouched.

Lemma pin_server_untouched luid server ver w0 w :
  net_untouched w0 w -> post (pin_server luid server ver) w (fun _ w' => net_untouched w0 w').
Proof. intros H. unfold pin_server. walk; assumption. Qed.

Lemma activate_split_default_untouched g luid ver w0 w :
  net_untouched w0 w ->
  post (activate_split_default g luid ver) w (fun _ w' => net_untouched w0 w').
Proof. intros H. unfold activate_split_default. walk; assumption. Qed.

Hint Resolve pin_server_untouched activate_split_default_untouched : untouched.

Lemma adapter_frame_refl f l w : adapter_frame f l w w.
Proof. split; reflexivity. Qed.

Lemma untouched_adapter f l w0 w w' :
  adapter_frame f l w0 w -> net_untouched w w' -> adapter_frame f l w0 w'.
Proof. intros [A B] [C D]. split; [intros f' l' H; rewrite C; exact (A f' l' H) | congruence]. Qed.

Lemma lift_untouched {A} (m : M World A) f l w0 w :
  (forall w1 w2, net_untouched w1 w2 -> post m w2 (fun _ w' => net_untouched w1 w')) ->
  adapter_frame f l w0 w -> post m w (fun _ w' => adapter_frame f l w0 w').
Proof.
  intros Hm H. eapply post_weaken; [exact (Hm w w (net_untouched_refl w))|].
  cbv beta. intros _ w'. exact (untouched_adapter H).
Qed.

Lemma ip_call_adapter f l w0 w :
  adapter_frame f l w0 w -> post ip_call w (fun _ w' => adapter_frame f l w0 w').
Proof. apply lift_untouched. exact ip_call_untouched. Qed.

Lemma GetIpInterfaceEntry_adapter f0 l0 f l w0 w :
  adapter_frame f l w0 w ->
  post (GetIpInterfaceEntry f0 l0) w (fun _ w' => adapter_frame f l w0 w').
Proof. apply lift_untouched. exact (GetIpInterfaceEntry_untouched f0 l0). Qed.

Lemma pin_server_adapter luid server ver f l w0 w :
  adapter_frame f l w0 w ->
  post (pin_server luid server ver) w (fun _ w' => adapter_frame f l w0 w').
Proof. apply lift_untouched. exact (pin_server_untouched luid server ver). Qed.

Lemma activate_split_default_adapter g luid ver f l w0 w :
  adapter_frame f l w0 w ->
  post (activate_split_default g luid ver) w (fun _ w' => adapter_frame f l w0 w').
Proof. apply lift_untouched. exact (activate_split_default_untouched g luid ver). Qed.

Lemma set_interface_adapter f l row w0 w :
  adapter_frame f l w0 w ->
  post (set_interface f l row) w (fun _ w' => adapter_frame f l w0 w').
Proof.
  intros [A B]. unfold set_interface. post_step. split; [|exact B]. cbn [interfaces].
  intros f' l' H. rewrite <- (A f' l' H).
  destruct (N.eqb_spec f' f) as [-> | Hf]; [|reflexivity].
  destruct (N.eqb_spec l' l) as [-> | Hl]; [|reflexivity]. destruct H; contradiction.
Qed.

Lemma filter_off_replace luid row l :
  AddressLuid row = luid ->
  filter (off_adapter luid) (map (fun a => if same_address row a then row else a) l)
  = filter (off_adapter luid) l.
Proof.
  intros Hr. induction l as [|a l IH]; [reflexivity|]. cbn [map filter].
  destruct (same_address row a) eqn:Hs.
  - assert (Ha : AddressLuid a = luid).
    { unfold same_address in Hs. apply andb_true_iff in Hs. destruct Hs as [Hs _].
      apply andb_true_iff in Hs. destruct Hs as [Hs _]. apply N.eqb_eq in Hs. congruence. }
    assert (E1 : off_adapter luid row = false)
      by (unfold off_adapter; rewrite Hr, N.eqb_refl; reflexivity).
    assert (E2 : off_adapter luid a = false)
      by (unfold off_adapter; rewrite Ha, N.eqb_refl; reflexivity).
    rewrite E1, E2. exact IH.
  - destruct (off_adapter luid a); [f_equal|]; exact IH.
Qed.

Lemma set_addresses_append_adapter f row w0 w :
  adapter_frame f (AddressLuid row) w0 w ->
  post (set_addresses (addresses w ++ [row])) w
       (fun _ w' => adapter_frame f (AddressLuid row) w0 w').
Proof.
  intros [A B]. unfold set_addresses. post_step. split; [exact A|]. cbn [addresses].
  rewrite filter_app, B. cbn [filter]. unfold off_adapter at 2. rewrite N.eqb_refl.
  apply app_nil_r.
Qed.

Lemma set_addresses_replace_adapter f row w0 w :
  adapter_frame f (AddressLuid row) w0 w ->
  post (set_addresses (map (fun a => if same_address row a then row else a) (addresses w))) w
       (fun _ w' => adapter_frame f (AddressLuid row) w0 w').
Proof.
  intros [A B]. unfold set_addresses. post_step. split; [exact A|]. cbn [addresses].
  rewrite (@filter_off_replace _ row (addresses w) eq_refl). exact B.
Qed.

Hint Resolve ip_call_adapter GetIpInterfaceEntry_adapter pin_server_adapter
     activate_split_default_adapter set_interface_adapter : untouched.

Lemma SetIpInterfaceEntry_adapter f l row w0 w :
  adapter_frame f l w0 w ->
  post (SetIpInterfaceEntry f l row) w (fun _ w' => adapter_frame f l w0 w').
Proof. intros H. unfold SetIpInterfaceEntry. walk; assumption. Qed.

Lemma CreateUnicastIpAddressEntry_adapter f row w0 w :
  adapter_frame f (AddressLuid row) w0 w ->
  post (CreateUnicastIpAddressEntry row) w
       (fun _ w' => adapter_frame f (AddressLuid row) w0 w').
Proof.
  intros H. unfold CreateUnicastIpAddressEntry. post_step.
  post_use (@ip_call_adapter _ _ _ _ H) as r w1 H1. destruct r as [rc | e]; [|exact H1].
  destruct (negb (rc =? NO_ERROR)); [post_step; exact H1|].
  post_step. post_step. lazy beta. destruct (existsb (same_address row) (addresses w1)).
  - post_step. exact H1.
  - post_step. post_use (@set_addresses_append_adapter _ _ _ _ H1) as r w2 H2.
    destruct r; [post_step|]; exact H2.
Qed.

Lemma SetUnicastIpAddressEntry_adapter f row w0 w :
  adapter_frame f (AddressLuid row) w0 w ->
  post (SetUnicastIpAddressEntry row) w
       (fun _ w' => adapter_frame f (AddressLuid row) w0 w').
Proof.
  intros H. unfold SetUnicastIpAddressEntry. post_step.
  post_use (@ip_call_adapter _ _ _ _ H) as r w1 H1. destruct r as [rc | e]; [|exact H1].
  destruct (negb (rc =? NO_ERROR)); [post_step; exact H1|].
  post_step. post_step. lazy beta. destruct (existsb (same_address row) (addresses w1)).
  - post_step. post_use (@set_addresses_replace_adapter _ _ _ _ H1) as r w2 H2.
    destruct r; [post_step|]; exact H2.
  - post_step. exact H1.
Qed.

Hint Resolve SetIpInterfaceEntry_adapter : untouched.

Lemma set_if_mtu_adapter l m ver w0 w :
  adapter_frame (fam ver) l w0 w ->
  post (set_if_mtu l m ver) w (fun _ w' => adapter_frame (fam ver) l w0 w').
Proof. intros H. unfold set_if_mtu. walk; assumption. Qed.

Lemma set_if_metric_adapter l m ver w0 w :
  adapter_frame (fam ver) l w0 w ->
  post (set_if_metric l m ver) w (fun _ w' => adapter_frame (fam ver) l w0 w').
Proof. intros H. unfold set_if_metric. walk; assumption. Qed.

Lemma add_ip_address_on_if_adapter l ip len ver w0 w :
  adapter_frame (fam ver) l w0 w ->
  post (add_ip_address_on_if l ip len ver) w (fun _ w' => adapter_frame (fam ver) l w0 w').
Proof.
  intros H. unfold add_ip_address_on_if.
  destruct (if is_V6 ver then inet_pton6 ip else inet_pton4 ip) as [a|]; [|post_step; exact H].
  lazy zeta. set (row := mkUnicast l (mkSockaddr (fam ver) a) len).
  change l with (AddressLuid row) in H |- *.
  post_step. post_use (@CreateUnicastIpAddressEntry_adapter _ _ _ _ H) as r w1 H1.
  destruct r as [err | e]; [|exact H1].
  destruct (err =? NO_ERROR); [post_step; exact H1|].
  post_step. destruct (err =? ERROR_OBJECT_ALREADY_EXISTS).
  - post_step. post_use (@SetUnicastIpAddressEntry_adapter _ _ _ _ H1) as r w2 H2.
    destruct r as [rc | e]; [|exact H2]. post_step.
    destruct (rc =? NO_ERROR); post_step; exact H2.
  - post_step. post_step. exact H1.
Qed.

Hint Resolve set_if_mtu_adapter set_if_metric_adapter add_ip_address_on_if_adapter : untouched.

Lemma ConfigureNetwork_adapter luid server ver g w :
  post (ConfigureNetwork (Some luid) server ver) (g, w)
       (fun _ s' => fst s' = g /\ adapter_frame (fam ver) luid w (snd s')).
Proof.
  pose proof (adapter_frame_refl (fam ver) luid w) as H.
  enough (G : post (ConfigureNetwork (Some luid) server ver) (g, w)
                (fun _ s' => adapter_frame (fam ver) luid w (snd s') /\ fst s' = g)).
  { eapply post_weaken; [exact G|]. cbv beta. intros _ s' [A B]. split; assumption. }
  unfold ConfigureNetwork.
  repeat (lazy beta iota zeta; cbn [fst snd];
          lazymatch goal with
          | |- post (bind _ _) _ _ => apply post_bind
          | |- post (ret _) _ _ => apply post_ret
          | |- post get _ _ => apply post_get
          | |- post (liftW ?m) _ _ =>
              apply post_liftW; cbn [fst snd];
              eapply post_weaken; [solve [eauto with untouched] | cbv beta; intros ? ? ?]
          | |- post (if is_V6 ?v then _ else _) _ _ => destruct v; cbn [is_V6]
          | |- post (if ?b then _ else _) _ _ => destruct b
          | |- match ?r with Returns _ => _ | Throws _ => _ end => destruct r
          end); split; (assumption || reflexivity).
Qed.

(** X17. [ConfigureNetwork] for a family acts on the adapter only:
    whatever the system calls answer, the interface rows of the other
    interfaces and of the other family, and the addresses of the other
    interfaces, are as they were, and the address plan is not written. *)
Theorem ConfigureNetwork_touches_the_adapter_only luid server_ip ver g w :
  let s' := snd (ConfigureNetwork (Some luid) server_ip ver (g, w)) in
  fst s' = g
  /\ (forall f l, f <> fam ver \/ l <> luid -> interfaces (snd s') f l = interfaces w f l)
  /\ filter (off_adapter luid) (addresses (snd s')) = filter (off_adapter luid) (addresses w).
Proof.
  cbv zeta. destruct (ConfigureNetwork_adapter luid server_ip ver g w) as [A [B C]].
  split; [exact A|]. split; [exact B | exact C].
Qed.

End NetFrames.


Lemma bind_run {S A B} (m : M S A) (k : A -> M S B) s a s' :
  m s = (Returns a, s') -> bind m k s = k a s'.
Proof. intros H. unfold bind. rewrite H. reflexivity. Qed.

Tactic Notation "run_step" open_constr(H) := erewrite (@bind_run _ _ _ _ _ _ _ _ H).

Section NetQuiet.
Import IpHelper Network NetSpec.
Local Open Scope N_scope.
Context {P : InetPton}.

Lemma ip_call_run w : faults w = [] -> ip_call w = (Returns NO_ERROR, w).
Proof. intros H. unfold ip_call. rewrite H. reflexivity. Qed.

Lemma GetIpInterfaceEntry_run f l w :
  faults w = [] -> GetIpInterfaceEntry f l w = (Returns (interfaces w f l), w).
Proof. intros H. unfold GetIpInterfaceEntry. run_step (@ip_call_run _ H). reflexivity. Qed.

Lemma SetIpInterfaceEntry_run f l row r0 w :
  faults w = [] -> interfaces w f l = Some r0 ->
  SetIpInterfaceEntry f l row w = (Returns NO_ERROR, with_interface f l row w).
Proof.
  intros H Hi. unfold SetIpInterfaceEntry. run_step (@ip_call_run _ H).
  cbn [negb N.eqb NO_ERROR]. unfold bind at 1, get. rewrite Hi. reflexivity.
Qed.

Lemma with_interface_faults f l row w : faults (with_interface f l row w) = faults w.
Proof. reflexivity. Qed.

Lemma with_interface_same f l row w : interfaces (with_interface f l row w) f l = Some row.
Proof. cbn. rewrite !N.eqb_refl. reflexivity. Qed.






Lemma GetIpForwardTable2_run f w :
  faults w = [] ->
  GetIpForwardTable2 f w = (Returns (Some (filter (in_family f) (routes w))), w).
Proof. intros H. unfold GetIpForwardTable2. run_step (@ip_call_run _ H). reflexivity. Qed.


Lemma DeleteIpForwardEntry2_run row w :
  faults w = [] -> existsb (same_route row) (routes w) = true ->
  DeleteIpForwardEntry2 row w
  = (Returns NO_ERROR, with_table (filter (fun r => negb (same_route row r)) (routes w)) w).
Proof.
  intros H Hn. unfold DeleteIpForwardEntry2. run_step (@ip_call_run _ H).
  cbn [negb N.eqb NO_ERROR]. unfold bind at 1, get. rewrite Hn. reflexivity.
Qed.

Lemma with_table_routes t w : routes (with_table t w) = t.
Proof. unfold routes, with_table. cbn. apply last_last. Qed.

Lemma existsb_none {A} (p : A -> bool) l : (forall x, In x l -> p x = false) -> existsb p l = false.
Proof.
  intros H. induction l as [|a l IH]; [reflexivity|]. cbn. rewrite (H a (or_introl eq_refl)).
  apply IH. intros x Hx. apply H. right. exact Hx.
Qed.

Lemma filter_none {A} (p : A -> bool) l : (forall x, In x l -> p x = false) -> filter p l = [].
Proof.
  intros H. induction l as [|a l IH]; [reflexivity|]. cbn. rewrite (H a (or_introl eq_refl)).
  apply IH. intros x Hx. apply H. right. exact Hx.
Qed.










End NetQuiet.


Tactic Notation "post_apply" open_constr(L) "as" ident(r) ident(s) ident(H) :=
  eapply post_weaken; [eapply L | cbv beta; intros r s H].

Section RollbackFrames.
Import IpHelper Network NetSpec NetworkRollback.
Local Open Scope N_scope.
Context {P : InetPton}.

Lemma pruned_refl this t : pruned this t t.
Proof. split; [apply incl_refl | intros r Hr; left; exact Hr]. Qed.

Lemma pruned_trans this t0 t1 t2 : pruned this t0 t1 -> pruned this t1 t2 -> pruned this t0 t2.
Proof.
  intros [I1 H1] [I2 H2]. split; [exact (incl_tran I2 I1)|]. intros r Hr.
  destruct (H1 r Hr) as [Hin | Hex]; [|right; exact Hex].
  destruct (H2 r Hin) as [Hin2 | [row [Hrow [Ht Hs]]]]; [left; exact Hin2|].
  right. exists row. split; [exact (I1 row Hrow) | split; assumption].
Qed.

Lemma pruned_delete this t row :
  In row t -> rollback_target this row = true ->
  pruned this t (filter (fun r => negb (same_route row r)) t).
Proof.
  intros Hin Ht. split; [intros r Hr; apply filter_In in Hr; apply Hr|].
  intros r Hr. destruct (same_route row r) eqn:Hs.
  - right. exists row. split; [exact Hin | split; assumption].
  - left. apply filter_In. split; [exact Hr|]. rewrite Hs. reflexivity.
Qed.

Lemma reverting_refl this w : reverting this w w.
Proof. split; [apply pruned_refl | split; reflexivity]. Qed.

Lemma ip_call_reverting this w0 w :
  reverting this w0 w -> post ip_call w (fun _ w' => reverting this w0 w').
Proof.
  intros H. unfold post, ip_call. destruct (faults w); simpl; [exact H|].
  destruct H as [A [B C]]. split; [exact A | split; assumption].
Qed.

Lemma emit_reverting this ev w0 w :
  reverting this w0 w -> post (emit ev) w (fun _ w' => reverting this w0 w').
Proof. intros [A [B C]]. unfold emit. post_step. split; [exact A | split; assumption]. Qed.

Hint Resolve ip_call_reverting emit_reverting : untouched.

Lemma GetIpInterfaceEntry_reverting this f l w0 w :
  reverting this w0 w -> post (GetIpInterfaceEntry f l) w (fun _ w' => reverting this w0 w').
Proof. intros H. unfold GetIpInterfaceEntry. walk; assumption. Qed.

Lemma set_interface_reverting this f row w0 w :
  reverting this w0 w ->
  post (set_interface f (luid (snap_ this)) row) w (fun _ w' => reverting this w0 w').
Proof.
  intros [A [B C]]. unfold set_interface. post_step. split; [exact A|]. split; [|exact C].
  cbn [interfaces]. intros f' l' Hl. rewrite <- (B f' l' Hl).
  destruct (N.eqb_spec l' (luid (snap_ this))) as [E | _]; [contradiction|].
  rewrite andb_false_r. reflexivity.
Qed.

Hint Resolve GetIpInterfaceEntry_reverting set_interface_reverting : untouched.

Lemma SetIpInterfaceEntry_reverting this f row w0 w :
  reverting this w0 w ->
  post (SetIpInterfaceEntry f (luid (snap_ this)) row) w (fun _ w' => reverting this w0 w').
Proof. intros H. unfold SetIpInterfaceEntry. walk; assumption. Qed.

Hint Resolve SetIpInterfaceEntry_reverting : untouched.

Lemma restore_iface_reverting this f a m t w0 w :
  reverting this w0 w ->
  post (restore_iface f (luid (snap_ this)) a m t) w (fun _ w' => reverting this w0 w').
Proof. intros H. unfold restore_iface, load_ip_if_row. walk; assumption. Qed.

Lemma DeleteIpForwardEntry2_reverting this row w0 w :
  In row (routes w0) -> rollback_target this row = true ->
  reverting this w0 w ->
  post (DeleteIpForwardEntry2 row) w (fun _ w' => reverting this w0 w').
Proof.
  intros Hin Ht H. unfold DeleteIpForwardEntry2. post_step.
  post_apply (@ip_call_reverting _ _ _ H) as r w1 H1. destruct r as [rc | e]; [|exact H1].
  destruct (negb (rc =? NO_ERROR)); [post_step; exact H1|].
  post_step. post_step. lazy beta. destruct (existsb (same_route row) (routes w1)) eqn:Hex.
  2:{ post_step. exact H1. }
  post_step. unfold set_routes. post_step. post_step.
  destruct H1 as [[I A] [B C]]. split; [|split; assumption].
  unfold routes at 2. cbn [route_hist]. rewrite last_last. split.
  - intros r Hr. apply filter_In in Hr. apply I, Hr.
  - intros r Hr. destruct (A r Hr) as [Hr1 | Hx]; [|right; exact Hx].
    destruct (same_route row r) eqn:Hs.
    + right. exists row. split; [exact Hin | split; assumption].
    + left. apply filter_In. split; [exact Hr1|]. rewrite Hs. reflexivity.
Qed.

Lemma delete_all_reverting this toDel ok w0 w :
  (forall row, In row toDel -> In row (routes w0) /\ rollback_target this row = true) ->
  reverting this w0 w ->
  post (delete_all toDel ok) w (fun _ w' => reverting this w0 w').
Proof.
  revert ok w. induction toDel as [|row rest IH]; intros ok w Hall H; cbn [delete_all].
  - post_step. exact H.
  - destruct (Hall row (or_introl eq_refl)) as [Hin Ht]. post_step.
    post_apply (@DeleteIpForwardEntry2_reverting _ _ _ _ Hin Ht H) as r w1 H1.
    destruct r as [rc | e]; [|exact H1].
    apply IH; [|exact H1]. intros x Hx. apply Hall. right. exact Hx.
Qed.

Lemma GetIpForwardTable2_reverting this f w0 w :
  reverting this w0 w ->
  post (GetIpForwardTable2 f) w
       (fun r w' => reverting this w0 w'
                    /\ forall t, r = Returns (Some t) -> incl t (routes w0)).
Proof.
  intros H. unfold GetIpForwardTable2. post_step.
  post_apply (@ip_call_reverting _ _ _ H) as r w1 H1.
  destruct r as [rc | e]; [|split; [exact H1 | discriminate]].
  post_step. post_step. post_step. split; [exact H1|]. intros t Et.
  destruct (rc =? NO_ERROR); [|discriminate]. injection Et as <-.
  intros x Hx. apply filter_In in Hx. destruct H1 as [[I _] _]. apply I, Hx.
Qed.

Lemma delete_routes_where_reverting this f pred w0 w :
  (forall row, pred row = true -> rollback_target this row = true) ->
  reverting this w0 w ->
  post (delete_routes_where f pred) w (fun _ w' => reverting this w0 w').
Proof.
  intros Hp H. unfold delete_routes_where. post_step.
  post_apply (@GetIpForwardTable2_reverting this f _ _ H) as r w1 H1. destruct H1 as [H1 Ht].
  destruct r as [[t|] | e]; [|post_step; exact H1 | exact H1].
  apply delete_all_reverting; [|exact H1]. intros row Hrow. apply filter_In in Hrow.
  split; [exact (Ht t eq_refl row (proj1 Hrow)) | exact (Hp row (proj2 Hrow))].
Qed.

Lemma RemoveSplitDefaults_reverting this w0 w :
  reverting this w0 w -> post (RemoveSplitDefaults_ this) w (fun _ w' => reverting this w0 w').
Proof.
  intros H. unfold RemoveSplitDefaults_. post_step.
  post_apply (@emit_reverting this _ _ _ H) as r w1 H1. destruct r as [[] | e]; [|exact H1].
  post_step.
  eapply post_weaken;
    [apply (@delete_routes_where_reverting this AF_INET (is_split_default_v4 this) w0 w1);
     [|exact H1]|].
  { intros row Hr. unfold rollback_target. rewrite Hr. reflexivity. }
  cbv beta. intros r w2 H2. destruct r as [ok4 | e]; [|exact H2].
  post_step.
  eapply post_weaken;
    [apply (@delete_routes_where_reverting this AF_INET6 (is_split_default_v6 this) w0 w2);
     [|exact H2]|].
  { intros row Hr. unfold rollback_target. rewrite Hr, orb_true_r. reflexivity. }
  cbv beta. intros r w3 H3. destruct r as [ok6 | e]; [|exact H3].
  destruct (negb ok4 && negb ok6); post_step; exact H3.
Qed.

Lemma RemovePinnedRouteToServer_reverting this w0 w :
  reverting this w0 w ->
  post (RemovePinnedRouteToServer_ this) w (fun _ w' => reverting this w0 w').
Proof.
  intros H. unfold RemovePinnedRouteToServer_.
  destruct (String.eqb (server_ip_ this) "") eqn:He.
  { post_apply (@emit_reverting this _ _ _ H) as r w1 H1. exact H1. }
  post_step. post_apply (@emit_reverting this _ _ _ H) as r w1 H1.
  destruct r as [[] | e]; [|exact H1].
  destruct (inet_pton4 (server_ip_ this)) as [dst4|] eqn:E4.
  - post_step.
    eapply post_weaken;
      [apply (@delete_routes_where_reverting this AF_INET (is_pinned_route AF_INET 32 dst4)
                                              w0 w1); [|exact H1]|].
    { intros row Hr. unfold rollback_target, is_pinned_target. rewrite He, E4, Hr.
      apply orb_true_r. }
    cbv beta. intros r w2 H2. destruct r as [ok | e]; [|exact H2].
    destruct (negb ok); post_step; exact H2.
  - destruct (inet_pton6 (server_ip_ this)) as [dst6|] eqn:E6; [|post_step; exact H1].
    post_step.
    eapply post_weaken;
      [apply (@delete_routes_where_reverting this AF_INET6
                (is_pinned_route AF_INET6 128 dst6) w0 w1); [|exact H1]|].
    { intros row Hr. unfold rollback_target, is_pinned_target. rewrite He, E4, E6, Hr.
      apply orb_true_r. }
    cbv beta. intros r w2 H2. destruct r as [ok | e]; [|exact H2].
    destruct (negb ok); post_step; exact H2.
Qed.

Hint Resolve restore_iface_reverting : untouched.

Lemma RestoreBaseline_reverting this w0 w :
  reverting this w0 w -> post (RestoreBaseline_ this) w (fun _ w' => reverting this w0 w').
Proof. intros H. unfold RestoreBaseline_. walk; assumption. Qed.

Lemma guarded_reverting this (step : M World unit) label error w0 w :
  (forall w1, reverting this w0 w1 -> post step w1 (fun _ w' => reverting this w0 w')) ->
  reverting this w0 w ->
  post (guarded step label error) w
       (fun r w' => reverting this w0 w' /\ exists b, r = Returns b).
Proof.
  intros Hs H. unfold guarded. post_step. post_step. post_use (Hs w H) as r w1 H1.
  destruct r as [[] | e].
  - post_step. split; [exact H1 | eauto].
  - post_step. unfold emit. post_step. post_step. destruct H1 as [A [B C]].
    split; [split; [exact A | split; assumption] | eauto].
Qed.

Lemma Revert_reverting this w :
  post Revert (this, w) (fun _ s' => reverting this w (snd s')).
Proof.
  pose proof (reverting_refl this w) as H.
  unfold Revert. post_step. post_step. lazy zeta. cbn [fst snd].
  destruct (negb (captured_ this)); [post_step; exact H|].
  post_step. post_step. cbn [fst snd].
  eapply post_weaken;
    [apply (@guarded_reverting this _ "RemoveSplitDefaults_" false w w);
     [intros w1; apply RemoveSplitDefaults_reverting | exact H]|].
  cbv beta. intros r w1 [H1 [e1 ->]].
  post_step. post_step. cbn [fst snd].
  eapply post_weaken;
    [apply (@guarded_reverting this _ "RemovePinnedRouteToServer_" e1 w w1);
     [intros w2; apply RemovePinnedRouteToServer_reverting | exact H1]|].
  cbv beta. intros r w2 [H2 [e2 ->]].
  post_step. post_step. cbn [fst snd].
  eapply post_weaken;
    [apply (@guarded_reverting this _ "RestoreBaseline_" e2 w w2);
     [intros w3; apply RestoreBaseline_reverting | exact H2]|].
  cbv beta. intros r w3 [H3 [e3 ->]].
  post_step. post_step. cbn [fst snd]. destruct e3; post_step; exact H3.
Qed.

(** X18. Whatever the system calls answer, [Revert] only takes routes out
    of the table, and only routes the system identifies with a split
    default through the interface or with a pinned host route to the
    server; it changes no address and no interface row of another
    interface.  In particular the address [ConfigureNetwork] gave the
    interface stays. *)
Theorem Revert_removes_only_its_routes this w :
  let w' := snd (snd (Revert (this, w))) in
  incl (routes w') (routes w)
  /\ (forall r, In r (routes w) ->
        In r (routes w')
        \/ exists row, In row (routes w) /\ rollback_target this row = true
                       /\ same_route row r = true)
  /\ addresses w' = addresses w
  /\ (forall f l, l <> luid (snap_ this) -> interfaces w' f l = interfaces w f l).
Proof.
  cbv zeta. destruct (Revert_reverting this w) as [[I A] [B C]].
  split; [exact I|]. split; [exact A|]. split; [exact C | exact B].
Qed.

Lemma save_iface_reads f l w :
  post (save_iface f l) w
       (fun r w' =>
          ip_frame w w' /\ net_untouched w w'
          /\ exists x, r = Returns x
             /\ (forall a m t, x = Some (a, m, t) -> interfaces w f l = Some (mkIfRow a m t))).
Proof.
  unfold post, save_iface, load_ip_if_row, GetIpInterfaceEntry, bind, ip_call, get, ret.
  destruct (faults w) as [|c cs] eqn:Hf; cbn [fst snd].
  - cbn [N.eqb NO_ERROR]. destruct (interfaces w f l) as [row|] eqn:Hi; cbn [fst snd].
    + split; [apply ip_frame_refl|]. split; [apply net_untouched_refl|]. eexists.
      split; [reflexivity|].
      intros a m t E. injection E as <- <- <-. destruct row; reflexivity.
    + split; [apply ip_frame_refl|]. split; [apply net_untouched_refl|]. eexists.
      split; [reflexivity | discriminate].
  - destruct ((if c =? ERROR_OBJECT_ALREADY_EXISTS then NO_ERROR else c) =? NO_ERROR);
      cbn [interfaces]; [destruct (interfaces w f l) as [row|] eqn:Hi|]; cbn [fst snd];
      (split; [split; reflexivity|]); (split; [split; reflexivity|]); eexists;
      (split; [reflexivity|]); try discriminate.
    intros a m t E. injection E as <- <- <-. destruct row; reflexivity.
Qed.

Lemma save_iface_run f l w :
  faults w = [] ->
  save_iface f l w
  = (Returns (match interfaces w f l with
              | Some row => Some (UseAutomaticMetric row, IfMetric row, NlMtu row)
              | None => None
              end), w).
Proof.
  intros H. unfold save_iface, load_ip_if_row.
  run_step (@GetIpInterfaceEntry_run f l _ H). destruct (interfaces w f l); reflexivity.
Qed.

Lemma NetworkRollback_ctor_run if_luid server_ip w :
  faults w = [] ->
  NetworkRollback_ctor if_luid server_ip w
  = (match interfaces w AF_INET if_luid, interfaces w AF_INET6 if_luid with
     | None, None =>
         Throws (RuntimeError "NetworkRollback: failed to capture baseline (v4/v6)")
     | i4, i6 => Returns (mkNetworkRollback (baseline if_luid i4 i6) server_ip true)
     end, w).
Proof.
  intros H. unfold NetworkRollback_ctor, CaptureBaseline_. cbn [snap_ luid].
  run_step (@save_iface_run AF_INET if_luid _ H).
  run_step (@save_iface_run AF_INET6 if_luid _ H).
  destruct (interfaces w AF_INET if_luid) as [r4|], (interfaces w AF_INET6 if_luid) as [r6|];
    reflexivity.
Qed.

(** X19. The constructor of the rollback record only reads: it leaves
    tables, interface rows, addresses and log as they are.  When it
    throws, it is with the runtime error of the failed capture; when it
    returns, the record has its baseline, at least one family is marked as
    captured, and the values held for a captured family are the ones of
    the interface row.  When no call fails, it throws exactly when the
    interface has neither family, and captures exactly the families the
    interface has. *)
Theorem NetworkRollback_ctor_captures_what_is_there if_luid server_ip w :
  let run := NetworkRollback_ctor if_luid server_ip w in
  (route_hist (snd run) = route_hist w /\ interfaces (snd run) = interfaces w
   /\ addresses (snd run) = addresses w /\ log (snd run) = log w)
  /\ match fst run with
     | Returns this =>
         captured_ this = true /\ server_ip_ this = server_ip
         /\ luid (snap_ this) = if_luid
         /\ (have_v4 (snap_ this) = true \/ have_v6 (snap_ this) = true)
         /\ (have_v4 (snap_ this) = true ->
             interfaces w AF_INET if_luid
             = Some (mkIfRow (v4_auto_metric (snap_ this)) (v4_metric (snap_ this))
                             (v4_mtu (snap_ this))))
         /\ (have_v6 (snap_ this) = true ->
             interfaces w AF_INET6 if_luid
             = Some (mkIfRow (v6_auto_metric (snap_ this)) (v6_metric (snap_ this))
                             (v6_mtu (snap_ this))))
     | Throws e => e = RuntimeError "NetworkRollback: failed to capture baseline (v4/v6)"
     end
  /\ (faults w = [] ->
      run = (match interfaces w AF_INET if_luid, interfaces w AF_INET6 if_luid with
             | None, None =>
                 Throws (RuntimeError "NetworkRollback: failed to capture baseline (v4/v6)")
             | i4, i6 => Returns (mkNetworkRollback (baseline if_luid i4 i6) server_ip true)
             end, w)).
Proof.
  cbv zeta.
  enough (H : post (NetworkRollback_ctor if_luid server_ip) w
                (fun r w' =>
                   (ip_frame w w' /\ net_untouched w w')
                   /\ match r with
                      | Returns this =>
                          captured_ this = true /\ server_ip_ this = server_ip
                          /\ luid (snap_ this) = if_luid
                          /\ (have_v4 (snap_ this) = true \/ have_v6 (snap_ this) = true)
                          /\ (have_v4 (snap_ this) = true ->
                              interfaces w AF_INET if_luid
                              = Some (mkIfRow (v4_auto_metric (snap_ this))
                                              (v4_metric (snap_ this)) (v4_mtu (snap_ this))))
                          /\ (have_v6 (snap_ this) = true ->
                              interfaces w AF_INET6 if_luid
                              = Some (mkIfRow (v6_auto_metric (snap_ this))
                                              (v6_metric (snap_ this)) (v6_mtu (snap_ this))))
                      | Throws e =>
                          e = RuntimeError "NetworkRollback: failed to capture baseline (v4/v6)"
                      end)).
  { unfold post in H. destruct H as [[[A B] [C D]] E].
    split; [repeat split; assumption|]. split; [exact E|].
    apply NetworkRollback_ctor_run. }
  unfold NetworkRollback_ctor, CaptureBaseline_. cbn [snap_ luid server_ip_].
  post_step. post_use save_iface_reads as r w1 H1.
  destruct H1 as [F1 [U1 [s4 [-> V4]]]].
  post_step. post_use save_iface_reads as r w2 H2.
  destruct H2 as [F2 [U2 [s6 [-> V6]]]].
  assert (V6' : forall a m t, s6 = Some (a, m, t) ->
                              interfaces w AF_INET6 if_luid = Some (mkIfRow a m t)).
  { intros a m t E. destruct U1 as [<- _]. exact (V6 a m t E). }
  pose proof (conj (ip_frame_trans F1 F2) (net_untouched_trans U1 U2)) as Fr.
  destruct s4 as [[[a4 m4] t4]|], s6 as [[[a6 m6] t6]|]; post_step;
    (split; [exact Fr|]); cbn; try reflexivity;
    (split; [reflexivity|]); (split; [reflexivity|]); (split; [reflexivity|]).
  - split; [left; reflexivity|]. split; intros _; [exact (V4 _ _ _ eq_refl)|].
    exact (V6' _ _ _ eq_refl).
  - split; [left; reflexivity|]. split; [intros _; exact (V4 _ _ _ eq_refl) | discriminate].
  - split; [right; reflexivity|]. split; [discriminate | intros _; exact (V6' _ _ _ eq_refl)].
Qed.

End RollbackFrames.


Section RollbackQuiet.
Import IpHelper Network NetSpec NetworkRollback.
Local Open Scope N_scope.
Context {P : InetPton}.

Lemma delete_all_run toDel ok w :
  faults w = [] -> all_found toDel (routes w) = true ->
  exists w', delete_all toDel ok w = (Returns ok, w')
             /\ quiet_step w w' (prune_table toDel (routes w)).
Proof.
  revert ok w. induction toDel as [|row rest IH]; intros ok w Hq Hall.
  - exists w. split; [reflexivity|]. repeat split. exact Hq.
  - cbn [all_found] in Hall. apply andb_true_iff in Hall. destruct Hall as [Hex Hall].
    set (w1 := with_table (filter (fun r => negb (same_route row r)) (routes w)) w).
    assert (R1 : routes w1 = filter (fun r => negb (same_route row r)) (routes w))
      by apply with_table_routes.
    destruct (IH ok w1 Hq) as [w' [E [Q1 [Q2 [Q3 Q4]]]]]; [rewrite R1; exact Hall|].
    exists w'. split.
    + cbn [delete_all]. run_step (@DeleteIpForwardEntry2_run row w Hq Hex). exact E.
    + split; [exact Q1|]. split; [rewrite Q2, R1; reflexivity|]. split; assumption.
Qed.

Lemma delete_routes_where_run f pred w :
  faults w = [] ->
  all_found (filter pred (filter (in_family f) (routes w))) (routes w) = true ->
  exists w', delete_routes_where f pred w = (Returns true, w')
             /\ quiet_step w w' (prune_table (filter pred (filter (in_family f) (routes w)))
                                             (routes w)).
Proof.
  intros Hq Hall. destruct (@delete_all_run _ true w Hq Hall) as [w' [E Q]].
  exists w'. split; [|exact Q]. unfold delete_routes_where.
  run_step (@GetIpForwardTable2_run f w Hq). exact E.
Qed.



Lemma restore_iface_run f l a m t row w :
  faults w = [] -> interfaces w f l = Some row ->
  restore_iface f l a m t w
  = (Returns true,
     with_interface f l (mkIfRow a m t) (with_interface f l (mkIfRow a m (NlMtu row)) w)).
Proof.
  intros Hq Hi. unfold restore_iface, load_ip_if_row.
  run_step (@GetIpInterfaceEntry_run f l w Hq). rewrite Hi.
  run_step (@SetIpInterfaceEntry_run f l (mkIfRow a m (NlMtu row)) row w Hq Hi).
  set (w1 := with_interface f l (mkIfRow a m (NlMtu row)) w).
  assert (Q1 : faults w1 = []) by exact Hq.
  assert (I1 : interfaces w1 f l = Some (mkIfRow a m (NlMtu row)))
    by apply with_interface_same.
  run_step (@GetIpInterfaceEntry_run f l w1 Q1). rewrite I1.
  run_step (@SetIpInterfaceEntry_run f l _ _ w1 Q1 I1). reflexivity.
Qed.

Lemma same_route_refl r : same_route r r = true.
Proof. unfold same_route. rewrite !N.eqb_refl. reflexivity. Qed.

Lemma filter_keep {A} (p : A -> bool) a l : p a = true -> filter p (a :: l) = a :: filter p l.
Proof. intros H. cbn [filter]. rewrite H. reflexivity. Qed.

Lemma filter_drop {A} (p : A -> bool) a l : p a = false -> filter p (a :: l) = filter p l.
Proof. intros H. cbn [filter]. rewrite H. reflexivity. Qed.

Lemma filter_app_none {A} (p : A -> bool) l rows :
  (forall x, In x l -> p x = false) -> filter p (l ++ rows) = filter p rows.
Proof. intros H. rewrite filter_app, (filter_none p l H). reflexivity. Qed.




Lemma emit_run ev w : emit ev w = (Returns tt, with_line ev w).
Proof. reflexivity. Qed.

Lemma guarded_run (step : M World unit) label error w w' :
  step w = (Returns tt, w') -> guarded step label error w = (Returns error, w').
Proof. intros H. unfold guarded, try_catch, bind. rewrite H. reflexivity. Qed.

















End RollbackQuiet.

(** ** What the steps of a rollback achieve *)

Section RollbackSteps.
Import IpHelper Network NetSpec NetworkRollback.
Local Open Scope N_scope.
Context {P : InetPton}.

Lemma cleared_incl pred w w' : incl (routes w') (routes w) -> cleared pred w -> cleared pred w'.
Proof. intros I C r Hr. apply C, I, Hr. Qed.

(** A deletion the system accepted has taken its row out of the table. *)
Lemma DeleteIpForwardEntry2_gone row w :
  post (DeleteIpForwardEntry2 row) w
       (fun r w' => incl (routes w') (routes w)
                    /\ exists rc, r = Returns rc /\ (rc = NO_ERROR -> ~ In row (routes w'))).
Proof.
  unfold DeleteIpForwardEntry2. post_step. post_use ip_call_frame as r w1 H1.
  destruct H1 as [F [rc [-> _]]]. pose proof (ip_frame_routes F) as R1.
  destruct (N.eqb_spec rc NO_ERROR) as [E | E]; cbn [negb].
  - post_step. post_step. lazy beta.
    destruct (existsb (same_route row) (routes w1)).
    + post_step. unfold set_routes. post_step. post_step.
      erewrite routes_push by reflexivity. split.
      * intros x Hx. apply filter_In in Hx. rewrite <- R1. apply Hx.
      * exists NO_ERROR. split; [reflexivity|]. intros _ Hin. apply filter_In in Hin.
        destruct Hin as [_ Hin]. rewrite same_route_refl in Hin. discriminate.
    + post_step. split; [rewrite R1; apply incl_refl|].
      exists ERROR_NOT_FOUND. split; [reflexivity | discriminate].
  - post_step. split; [rewrite R1; apply incl_refl|].
    exists rc. split; [reflexivity | intros; contradiction].
Qed.

Lemma delete_all_gone toDel ok w :
  post (delete_all toDel ok) w
       (fun r w' => incl (routes w') (routes w)
                    /\ exists b, r = Returns b
                       /\ (b = true -> ok = true
                                       /\ forall row, In row toDel -> ~ In row (routes w'))).
Proof.
  revert ok w. induction toDel as [|row rest IH]; intros ok w; cbn [delete_all].
  - post_step. split; [apply incl_refl|]. exists ok. split; [reflexivity|].
    intros ->. split; [reflexivity | intros row []].
  - post_step. post_use DeleteIpForwardEntry2_gone as r w1 H1.
    destruct H1 as [I1 [rc [-> G1]]].
    post_use IH as r w2 H2. destruct H2 as [I2 [b [-> G2]]].
    split; [exact (incl_tran I2 I1)|]. exists b. split; [reflexivity|].
    intros Hb. destruct (G2 Hb) as [Hok Hrest].
    destruct (N.eqb_spec rc NO_ERROR) as [E | E]; cbn [negb] in Hok; [|discriminate].
    split; [exact Hok|]. intros x [<- | Hx]; [|exact (Hrest x Hx)].
    intros Hin. exact (G1 E (I2 _ Hin)).
Qed.

(** When [delete_routes_where] answers [true], no row of the family that
    the predicate looks for is left. *)
Lemma delete_routes_where_cleared f pred w :
  post (delete_routes_where f pred) w
       (fun r w' => incl (routes w') (routes w)
                    /\ exists b, r = Returns b
                       /\ (b = true ->
                           forall x, In x (routes w') -> in_family f x = true -> pred x = false)).
Proof.
  unfold delete_routes_where. post_step. post_use GetIpForwardTable2_frame as r w1 H1.
  destruct H1 as [F [tbl [-> Ht]]]. pose proof (ip_frame_routes F) as R1.
  destruct tbl as [t|].
  - rewrite (Ht t eq_refl). post_use delete_all_gone as r w2 H2.
    destruct H2 as [I2 [b [-> G2]]]. split; [rewrite <- R1; exact I2|].
    exists b. split; [reflexivity|]. intros Hb x Hx Hf.
    destruct (pred x) eqn:Hp; [|reflexivity]. exfalso.
    destruct (G2 Hb) as [_ Hgone]. apply (Hgone x); [|exact Hx].
    apply filter_In. split; [|exact Hp]. apply filter_In. split; [|exact Hf].
    rewrite <- R1. apply I2, Hx.
  - post_step. split; [rewrite R1; apply incl_refl|].
    exists false. split; [reflexivity | discriminate].
Qed.

Lemma split4_in_family this r :
  is_split_default_v4 this r = true -> in_family AF_INET r = true.
Proof.
  unfold is_split_default_v4, in_family.
  destruct (InterfaceLuid r =? luid (snap_ this)); [|discriminate]. cbn [negb].
  destruct (Protocol r =? MIB_IPPROTO_NETMGMT); [|discriminate]. cbn [negb].
  destruct (si_family (DestinationPrefix r) =? AF_INET); [|discriminate].
  intros _. apply orb_true_r.
Qed.

Lemma split6_in_family this r :
  is_split_default_v6 this r = true -> in_family AF_INET6 r = true.
Proof.
  unfold is_split_default_v6, in_family.
  destruct (InterfaceLuid r =? luid (snap_ this)); [|discriminate]. cbn [negb].
  destruct (Protocol r =? MIB_IPPROTO_NETMGMT); [|discriminate]. cbn [negb].
  destruct (si_family (DestinationPrefix r) =? AF_INET6); [|discriminate].
  intros _. apply orb_true_r.
Qed.

Lemma pinned_in_family f n dst r : is_pinned_route f n dst r = true -> in_family f r = true.
Proof.
  unfold is_pinned_route, in_family.
  destruct (Protocol r =? MIB_IPPROTO_NETMGMT); [|discriminate]. cbn [negb].
  destruct (si_family (DestinationPrefix r) =? f); [|discriminate].
  intros _. apply orb_true_r.
Qed.

Lemma cleared_family f pred w :
  (forall r, pred r = true -> in_family f r = true) ->
  (forall x, In x (routes w) -> in_family f x = true -> pred x = false) ->
  cleared pred w.
Proof.
  intros Hf H r Hr. destruct (pred r) eqn:Hp; [|reflexivity].
  rewrite <- Hp. apply (H r Hr), Hf, Hp.
Qed.

(** [RemoveSplitDefaults_] returns as soon as the removal went through
    for one family: that family has no split default left. *)
Lemma RemoveSplitDefaults_cleared this w :
  post (RemoveSplitDefaults_ this) w
       (fun r w' => is_thrown r = false ->
                    cleared (is_split_default_v4 this) w'
                    \/ cleared (is_split_default_v6 this) w').
Proof.
  unfold RemoveSplitDefaults_. post_step. post_use emit_effect as r w1 H1.
  destruct H1 as [-> [R1 _]]. post_step.
  post_use delete_routes_where_cleared as r w2 H2. destruct H2 as [I2 [ok4 [-> C2]]].
  post_step. post_use delete_routes_where_cleared as r w3 H3.
  destruct H3 as [I3 [ok6 [-> C3]]].
  destruct ok4; cbn [negb andb].
  - post_step. intros _. left. apply (@cleared_incl _ _ _ I3).
    apply (@cleared_family AF_INET); [apply split4_in_family | exact (C2 eq_refl)].
  - destruct ok6; cbn [negb]; post_step; [|discriminate].
    intros _. right.
    apply (@cleared_family AF_INET6); [apply split6_in_family | exact (C3 eq_refl)].
Qed.

(** [RemovePinnedRouteToServer_] returns only when no pinned host route
    to the server is left. *)
Lemma RemovePinnedRouteToServer_cleared this w :
  post (RemovePinnedRouteToServer_ this) w
       (fun r w' => is_thrown r = false -> cleared (is_pinned_target this) w').
Proof.
  unfold RemovePinnedRouteToServer_, cleared, is_pinned_target.
  destruct (String.eqb (server_ip_ this) "").
  { unfold emit. post_step. reflexivity. }
  post_step. post_use emit_effect as r w1 H1. destruct H1 as [-> _].
  destruct (inet_pton4 (server_ip_ this)) as [dst4|].
  - post_step. post_use delete_routes_where_cleared as r w2 H2.
    destruct H2 as [_ [ok [-> C2]]]. destruct ok; cbn [negb]; post_step; [|discriminate].
    intros _.
    apply (@cleared_family AF_INET); [apply pinned_in_family | exact (C2 eq_refl)].
  - destruct (inet_pton6 (server_ip_ this)) as [dst6|]; [|post_step; discriminate].
    post_step. post_use delete_routes_where_cleared as r w2 H2.
    destruct H2 as [_ [ok [-> C2]]]. destruct ok; cbn [negb]; post_step; [|discriminate].
    intros _.
    apply (@cleared_family AF_INET6); [apply pinned_in_family | exact (C2 eq_refl)].
Qed.

(** [try { step } catch (...) { ...; error = true; }]: the flag is raised
    exactly when the step threw, and the world is the one the step left,
    with the line of the failure when it threw. *)
Lemma guarded_post (step : M World unit) label error w (Q : bool -> World -> Prop) :
  post step w (fun r w' => Q (is_thrown r)
                             (if is_thrown r then with_line (LogRevertStepFailed label) w'
                              else w')) ->
  post (guarded step label error) w
       (fun r w' => exists f, r = Returns (error || f) /\ Q f w').
Proof.
  intros H. unfold guarded. post_step. post_step. eapply post_weaken; [exact H|].
  cbv beta. intros r w1 H1. destruct r as [[] | e]; cbn [is_thrown] in H1.
  - post_step. exists false. rewrite orb_false_r. auto.
  - post_step. unfold emit. post_step. post_step. exists true. rewrite orb_true_r. auto.
Qed.

Lemma reverting_line this ev w0 w : reverting this w0 w -> reverting this w0 (with_line ev w).
Proof. intros [A [B C]]. split; [exact A | split; assumption]. Qed.

(** What one guarded step leaves: its lines in the log, a table from which
    rows were only taken out, and what the step achieved if it did not
    throw. *)
Lemma guarded_step this (step : M World unit) label error line (G : World -> Prop) w :
  (forall w0, post step w0 (fun _ w' => log w' = log w0 ++ [line])) ->
  (forall w0, post step w0 (fun _ w' => reverting this w0 w')) ->
  (forall w0, post step w0 (fun r w' => is_thrown r = false -> G w')) ->
  post (guarded step label error) w
       (fun r w' => exists f,
            r = Returns (error || f)
            /\ log w' = log w ++ [line] ++ failure_line f label
            /\ reverting this w w'
            /\ (f = false -> G w')).
Proof.
  intros HL HV HG. apply guarded_post.
  pose proof (HL w) as L. pose proof (HV w) as V. pose proof (HG w) as C.
  unfold post in *. destruct (step w) as [[[] | e] w1]; cbn [fst snd is_thrown] in *.
  - split; [rewrite L, app_nil_r; reflexivity|]. split; [exact V|]. intros _. exact (C eq_refl).
  - split; [cbn; rewrite L, <- app_assoc; reflexivity|].
    split; [apply reverting_line; exact V | discriminate].
Qed.

(** *** When every call succeeds *)

Lemma same_route_sym a b : same_route a b = same_route b a.
Proof.
  unfold same_route.
  rewrite (N.eqb_sym (InterfaceLuid a)), (N.eqb_sym (si_family (DestinationPrefix a))),
    (N.eqb_sym (sin_addr (DestinationPrefix a))), (N.eqb_sym (PrefixLength a)),
    (N.eqb_sym (sin_addr (NextHop a))).
  reflexivity.
Qed.

Lemma keyed_app_cons pre r t :
  keyed (pre ++ r :: t) = true ->
  keyed (pre ++ t) = true
  /\ (forall x, In x (pre ++ t) -> same_route r x = false).
Proof.
  induction pre as [|a pre IH]; cbn [app keyed]; intros H; apply andb_true_iff in H;
    destruct H as [H1 H2]; apply negb_true_iff in H1.
  - split; [exact H2|]. intros x Hx.
    destruct (same_route r x) eqn:E; [|reflexivity].
    assert (existsb (same_route r) t = true); [|congruence].
    apply existsb_exists. exists x. auto.
  - destruct (IH H2) as [K Hr]. rewrite existsb_app in H1. apply orb_false_iff in H1.
    destruct H1 as [Ha1 Ha2]. cbn [existsb] in Ha2. apply orb_false_iff in Ha2.
    destruct Ha2 as [Har Ha2]. split.
    + apply andb_true_iff. split; [|exact K]. apply negb_true_iff.
      rewrite existsb_app, Ha1, Ha2. reflexivity.
    + intros x [<- | Hx]; [rewrite same_route_sym; exact Har | exact (Hr x Hx)].
Qed.

Lemma filter_all_false {A} (p : A -> bool) l : (forall x, In x l -> p x = true) -> filter p l = l.
Proof.
  intros H. induction l as [|a l IH]; [reflexivity|]. cbn. rewrite (H a (or_introl eq_refl)).
  f_equal. apply IH. intros x Hx. apply H. right. exact Hx.
Qed.

(** In a table whose rows the system tells apart, deleting the rows a
    predicate picks finds each of them and takes just them out. *)
Lemma keyed_prune p t pre :
  keyed (pre ++ t) = true -> (forall x, In x pre -> p x = false) ->
  all_found (filter p t) (pre ++ t) = true
  /\ prune_table (filter p t) (pre ++ t) = pre ++ filter (fun r => negb (p r)) t.
Proof.
  revert pre. induction t as [|r t IH]; intros pre K Hpre.
  - split; reflexivity.
  - destruct (p r) eqn:Hp.
    + rewrite (filter_keep _ _ _ Hp). cbn [all_found prune_table fold_left].
      destruct (keyed_app_cons _ _ _ K) as [K' Hr].
      assert (E : filter (fun x => negb (same_route r x)) (pre ++ r :: t) = pre ++ t).
      { rewrite filter_app. cbn [filter]. rewrite same_route_refl. cbn [negb].
        rewrite <- filter_app. apply filter_all_false. intros x Hx. rewrite (Hr x Hx).
        reflexivity. }
      rewrite E. destruct (IH pre K' Hpre) as [A B]. split.
      * rewrite existsb_app. cbn [existsb]. rewrite same_route_refl, orb_true_r. exact A.
      * unfold prune_table in B. rewrite B. cbn [filter]. rewrite Hp. reflexivity.
    + rewrite (filter_drop _ _ _ Hp).
      assert (E : pre ++ r :: t = (pre ++ [r]) ++ t) by (rewrite <- app_assoc; reflexivity).
      rewrite E in K |- *. destruct (IH (pre ++ [r]) K) as [A B].
      { intros x Hx. apply in_app_or in Hx. destruct Hx as [Hx | [<- | []]]; auto. }
      split; [exact A|]. rewrite B, <- app_assoc. cbn [filter app]. rewrite Hp. reflexivity.
Qed.

Lemma keyed_filter p t : keyed t = true -> keyed (filter p t) = true.
Proof.
  induction t as [|r t IH]; [reflexivity|]. cbn [keyed filter]. intros H.
  apply andb_true_iff in H. destruct H as [H1 H2]. destruct (p r); [|exact (IH H2)].
  cbn [keyed]. rewrite (IH H2), andb_true_r. apply negb_true_iff in H1. apply negb_true_iff.
  apply existsb_none. intros x Hx. apply filter_In in Hx. destruct Hx as [Hx _].
  destruct (same_route r x) eqn:E; [|reflexivity].
  assert (existsb (same_route r) t = true); [|congruence].
  apply existsb_exists. eauto.
Qed.

Lemma filter_and {A} (p q : A -> bool) l :
  filter p (filter q l) = filter (fun x => q x && p x) l.
Proof.
  induction l as [|a l IH]; [reflexivity|]. cbn [filter]. destruct (q a); cbn [andb filter];
    [destruct (p a)|]; rewrite IH; reflexivity.
Qed.

(** Every call succeeding, [delete_routes_where] on a keyed table answers
    [true] and takes out the rows of the family the predicate picks. *)
Lemma delete_routes_where_keyed f pred w :
  faults w = [] -> keyed (routes w) = true ->
  (forall r, pred r = true -> in_family f r = true) ->
  exists w', delete_routes_where f pred w = (Returns true, w')
             /\ quiet_step w w' (filter (fun r => negb (pred r)) (routes w)).
Proof.
  intros Hq K Hf.
  assert (E : filter pred (filter (in_family f) (routes w)) = filter pred (routes w)).
  { rewrite filter_and. apply filter_ext_in. intros r _. destruct (pred r) eqn:Hp.
    - rewrite (Hf r Hp). reflexivity.
    - apply andb_false_r. }
  destruct (@keyed_prune pred (routes w) [] K) as [A B]; [intros x []|].
  cbn [app] in A, B.
  destruct (@delete_routes_where_run f pred w Hq) as [w' [R Q]]; [rewrite E; exact A|].
  exists w'. split; [exact R|]. rewrite E, B in Q. exact Q.
Qed.

Lemma restore_iface_quiet f l a m t w :
  faults w = [] -> interfaces w f l <> None ->
  exists w', restore_iface f l a m t w = (Returns true, w')
             /\ faults w' = [] /\ route_hist w' = route_hist w /\ addresses w' = addresses w
             /\ log w' = log w
             /\ forall f' l', interfaces w' f' l'
                              = if (f' =? f) && (l' =? l) then Some (mkIfRow a m t)
                                else interfaces w f' l'.
Proof.
  intros Hq Hi. destruct (interfaces w f l) as [row|] eqn:E; [|contradiction].
  eexists. split; [exact (@restore_iface_run f l a m t row w Hq E)|].
  split; [exact Hq|]. split; [reflexivity|]. split; [reflexivity|]. split; [reflexivity|].
  intros f' l'. cbn. destruct ((f' =? f) && (l' =? l)); reflexivity.
Qed.

(** Every call succeeding, on a keyed table, with a server address it can
    read and the captured interface rows in place, [Revert] returns: the
    table is the one it found without the split defaults through the
    interface and the pinned host routes, the captured interface rows are
    back, the addresses are as they were. *)
Lemma Revert_succeeds this w :
  captured_ this = true -> faults w = [] -> keyed (routes w) = true ->
  server_known this -> rows_present this w ->
  fst (Revert (this, w)) = Returns tt
  /\ routes (snd (snd (Revert (this, w))))
     = filter (fun r => negb (rollback_target this r)) (routes w)
  /\ addresses (snd (snd (Revert (this, w)))) = addresses w
  /\ forall f l, interfaces (snd (snd (Revert (this, w)))) f l = restored_interfaces this w f l.
Proof.
  intros Hc Hq K Hs [Hp4 Hp6].
  (* first step *)
  set (wa := with_line LogRemoveSplitDefaultsBegin w).
  assert (Qa : faults wa = []) by exact Hq.
  destruct (@delete_routes_where_keyed AF_INET (is_split_default_v4 this) wa Qa K
              (split4_in_family this)) as [w1 [E1 [Q1 [R1 [I1 A1]]]]].
  assert (K1 : keyed (routes w1) = true) by (rewrite R1; apply keyed_filter; exact K).
  destruct (@delete_routes_where_keyed AF_INET6 (is_split_default_v6 this) w1 Q1 K1
              (split6_in_family this)) as [w2 [E2 [Q2 [R2 [I2 A2]]]]].
  assert (K2 : keyed (routes w2) = true) by (rewrite R2; apply keyed_filter; exact K1).
  assert (S1 : RemoveSplitDefaults_ this w = (Returns tt, w2)).
  { unfold RemoveSplitDefaults_. run_step (emit_run LogRemoveSplitDefaultsBegin w).
    fold wa. run_step E1. run_step E2. reflexivity. }
  (* second step *)
  assert (S2 : exists w3, RemovePinnedRouteToServer_ this w2 = (Returns tt, w3)
                          /\ faults w3 = []
                          /\ routes w3 = filter (fun r => negb (is_pinned_target this r))
                                                (routes w2)
                          /\ interfaces w3 = interfaces w2 /\ addresses w3 = addresses w2).
  { unfold RemovePinnedRouteToServer_, is_pinned_target.
    destruct (String.eqb_spec (server_ip_ this) "") as [Es | Es].
    { exists (with_line LogRemovePinnedSkip w2). split; [reflexivity|]. split; [exact Q2|].
      split; [|split; reflexivity].
      change (routes (with_line LogRemovePinnedSkip w2)) with (routes w2).
      symmetry. apply filter_all_false. reflexivity. }
    set (wb := with_line (LogRemovePinnedBegin (server_ip_ this)) w2).
    assert (Qb : faults wb = []) by exact Q2.
    run_step (emit_run (LogRemovePinnedBegin (server_ip_ this)) w2). fold wb.
    destruct (inet_pton4 (server_ip_ this)) as [dst4|] eqn:E4.
    - destruct (@delete_routes_where_keyed AF_INET (is_pinned_route AF_INET 32 dst4) wb Qb K2
                  (@pinned_in_family AF_INET 32 dst4)) as [w3 [E3 [Q3 [R3 [I3 A3]]]]].
      exists w3. run_step E3. split; [reflexivity|]. split; [exact Q3|].
      split; [exact R3|]. split; assumption.
    - destruct (inet_pton6 (server_ip_ this)) as [dst6|] eqn:E6.
      + destruct (@delete_routes_where_keyed AF_INET6 (is_pinned_route AF_INET6 128 dst6) wb Qb
                    K2 (@pinned_in_family AF_INET6 128 dst6)) as [w3 [E3 [Q3 [R3 [I3 A3]]]]].
        exists w3. run_step E3. split; [reflexivity|]. split; [exact Q3|].
        split; [exact R3|]. split; assumption.
      + exfalso. destruct Hs as [Hs | [Hs | Hs]]; [exact (Es Hs) | exact (Hs E4) | exact (Hs E6)]. }
  destruct S2 as [w3 [S2 [Q3 [R3 [I3 A3]]]]].
  (* third step *)
  set (wc := with_line LogRestoreBaselineBegin w3).
  assert (Qc : faults wc = []) by exact Q3.
  assert (Iw : interfaces wc = interfaces w).
  { change (interfaces wc) with (interfaces w3). rewrite I3, I2, I1. reflexivity. }
  set (sn := snap_ this).
  assert (T4 : exists w4,
             (if have_v4 sn
              then restore_iface AF_INET (luid sn) (v4_auto_metric sn) (v4_metric sn) (v4_mtu sn)
              else ret true) wc = (Returns true, w4)
             /\ faults w4 = [] /\ route_hist w4 = route_hist wc /\ addresses w4 = addresses wc
             /\ forall f l,
                  interfaces w4 f l
                  = if (f =? AF_INET) && (l =? luid sn) && have_v4 sn
                    then Some (mkIfRow (v4_auto_metric sn) (v4_metric sn) (v4_mtu sn))
                    else interfaces w f l).
  { destruct (have_v4 sn) eqn:H4.
    - destruct (@restore_iface_quiet AF_INET (luid sn) (v4_auto_metric sn) (v4_metric sn)
                  (v4_mtu sn) wc Qc) as [w4 [E4 [Q4 [R4 [A4 [_ I4]]]]]].
      { rewrite Iw. apply Hp4. exact H4. }
      exists w4. split; [exact E4|]. split; [exact Q4|]. split; [exact R4|]. split; [exact A4|].
      intros f l. rewrite I4, andb_true_r, Iw. reflexivity.
    - exists wc. split; [reflexivity|]. split; [exact Qc|]. split; [reflexivity|].
      split; [reflexivity|]. intros f l. rewrite andb_false_r, Iw. reflexivity. }
  destruct T4 as [w4 [E4 [Q4 [R4 [A4 I4]]]]].
  assert (T6 : exists w5,
             (if have_v6 sn
              then restore_iface AF_INET6 (luid sn) (v6_auto_metric sn) (v6_metric sn) (v6_mtu sn)
              else ret true) w4 = (Returns true, w5)
             /\ route_hist w5 = route_hist w4 /\ addresses w5 = addresses w4
             /\ forall f l, interfaces w5 f l = restored_interfaces this w f l).
  { unfold restored_interfaces. fold sn. destruct (have_v6 sn) eqn:H6.
    - destruct (@restore_iface_quiet AF_INET6 (luid sn) (v6_auto_metric sn) (v6_metric sn)
                  (v6_mtu sn) w4 Q4) as [w5 [E5 [Q5 [R5 [A5 [_ I5]]]]]].
      { rewrite I4. cbn [N.eqb AF_INET6 AF_INET Pos.eqb andb]. apply Hp6. exact H6. }
      exists w5. split; [exact E5|]. split; [exact R5|]. split; [exact A5|].
      intros f l. rewrite I5, andb_true_r.
      destruct ((f =? AF_INET6) && (l =? luid sn)); [reflexivity | apply I4].
    - exists w4. split; [reflexivity|]. split; [reflexivity|]. split; [reflexivity|].
      intros f l. rewrite andb_false_r. apply I4. }
  destruct T6 as [w5 [E5 [R5 [A5 I5]]]].
  assert (S3 : RestoreBaseline_ this w3 = (Returns tt, w5)).
  { unfold RestoreBaseline_. run_step (emit_run LogRestoreBaselineBegin w3). fold wc.
    lazy zeta. fold sn. run_step E4. run_step E5. reflexivity. }
  assert (E : Revert (this, w)
              = (Returns tt, (mkNetworkRollback (snap_ this) (server_ip_ this) false, w5))).
  { unfold Revert, bind at 1, get. cbn [fst snd]. rewrite Hc. cbn [negb].
    unfold bind at 1, liftW at 1. cbn [fst snd].
    rewrite (@guarded_run _ "RemoveSplitDefaults_" false _ _ S1).
    unfold bind at 1, liftW at 1. cbn [fst snd].
    rewrite (@guarded_run _ "RemovePinnedRouteToServer_" false _ _ S2).
    unfold bind at 1, liftW at 1. cbn [fst snd].
    rewrite (@guarded_run _ "RestoreBaseline_" false _ _ S3). reflexivity. }
  rewrite E. cbn [fst snd]. split; [reflexivity|]. split.
  - rewrite (routes_same _ _ R5), (routes_same _ _ R4).
    change (routes wc) with (routes w3). rewrite R3, R2, R1.
    change (routes wa) with (routes w). rewrite !filter_and.
    apply filter_ext. intros r. unfold rollback_target.
    destruct (is_split_default_v4 this r), (is_split_default_v6 this r),
      (is_pinned_target this r); reflexivity.
  - split; [|exact I5]. rewrite A5, A4. change (addresses wc) with (addresses w3).
    rewrite A3, A2, A1. reflexivity.
Qed.

(** C8, amended.  A [Revert] with a captured baseline enters its three
    steps in order whatever becomes of the earlier ones, logs a failure
    line for exactly the steps that threw, throws at the end iff one did,
    returns iff none did, and leaves the object without baseline, so that
    every later [Revert] throws the logic error and touches nothing.  A
    step that did not throw has achieved this much: after the first, the
    table holds no split default through the interface for at least one
    of the two families (not necessarily for both); after the second, it
    holds no pinned host route to the server.  When every call succeeds,
    on a table whose rows the system tells apart, with a server address
    that is empty or a literal and the captured interface rows in place,
    no step throws: the table is the one found without the split defaults
    and the pinned routes, and the captured interface rows are back. *)
Theorem Revert_attempts_all_steps this w :
  captured_ this = true ->
  exists f1 f2 f3,
    log (snd (snd (Revert (this, w))))
    = log w ++ [LogRemoveSplitDefaultsBegin] ++ failure_line f1 "RemoveSplitDefaults_"
            ++ [pinned_marker this] ++ failure_line f2 "RemovePinnedRouteToServer_"
            ++ [LogRestoreBaselineBegin] ++ failure_line f3 "RestoreBaseline_"
    /\ (fst (Revert (this, w)) = Throws Revert_failed <-> f1 || f2 || f3 = true)
    /\ (fst (Revert (this, w)) = Returns tt <-> f1 || f2 || f3 = false)
    /\ captured_ (fst (snd (Revert (this, w)))) = false
    /\ (forall w2,
          Revert (fst (snd (Revert (this, w))), w2)
          = (Throws Revert_without_baseline, (fst (snd (Revert (this, w))), w2)))
    /\ (f1 = false ->
        cleared (is_split_default_v4 this) (snd (snd (Revert (this, w))))
        \/ cleared (is_split_default_v6 this) (snd (snd (Revert (this, w)))))
    /\ (f2 = false -> cleared (is_pinned_target this) (snd (snd (Revert (this, w)))))
    /\ (faults w = [] -> keyed (routes w) = true -> server_known this -> rows_present this w ->
        f1 = false /\ f2 = false /\ f3 = false
        /\ routes (snd (snd (Revert (this, w))))
           = filter (fun r => negb (rollback_target this r)) (routes w)
        /\ addresses (snd (snd (Revert (this, w)))) = addresses w
        /\ forall f l, interfaces (snd (snd (Revert (this, w)))) f l
                       = restored_interfaces this w f l).
Proof.
  intros Hc.
  assert (H : post Revert (this, w)
                (fun r s' =>
                   exists f1 f2 f3,
                     log (snd s')
                     = log w ++ [LogRemoveSplitDefaultsBegin]
                             ++ failure_line f1 "RemoveSplitDefaults_"
                             ++ [pinned_marker this]
                             ++ failure_line f2 "RemovePinnedRouteToServer_"
                             ++ [LogRestoreBaselineBegin]
                             ++ failure_line f3 "RestoreBaseline_"
                     /\ r = (if f1 || f2 || f3 then Throws Revert_failed else Returns tt)
                     /\ captured_ (fst s') = false
                     /\ (f1 = false -> cleared (is_split_default_v4 this) (snd s')
                                       \/ cleared (is_split_default_v6 this) (snd s'))
                     /\ (f2 = false -> cleared (is_pinned_target this) (snd s')))).
  { unfold Revert. post_step. post_step. lazy zeta. cbn [fst snd]. rewrite Hc. simpl negb.
    post_step. post_step. cbn [fst snd].
    eapply post_weaken;
      [apply (@guarded_step this _ "RemoveSplitDefaults_" false LogRemoveSplitDefaultsBegin
                (fun w' => cleared (is_split_default_v4 this) w'
                           \/ cleared (is_split_default_v6 this) w'));
       intros w0;
       [apply RemoveSplitDefaults_log
       | apply RemoveSplitDefaults_reverting, reverting_refl
       | apply RemoveSplitDefaults_cleared]|].
    cbv beta. intros r w1 [f1 [-> [L1 [V1 C1]]]].
    post_step. post_step. cbn [fst snd].
    eapply post_weaken;
      [apply (@guarded_step this _ "RemovePinnedRouteToServer_" (false || f1)
                (pinned_marker this) (fun w' => cleared (is_pinned_target this) w'));
       intros w0;
       [apply RemovePinnedRouteToServer_log
       | apply RemovePinnedRouteToServer_reverting, reverting_refl
       | apply RemovePinnedRouteToServer_cleared]|].
    cbv beta. intros r w2 [f2 [-> [L2 [V2 C2]]]].
    post_step. post_step. cbn [fst snd].
    eapply post_weaken;
      [apply (@guarded_step this _ "RestoreBaseline_" (false || f1 || f2)
                LogRestoreBaselineBegin (fun _ => True));
       intros w0;
       [apply RestoreBaseline_log
       | apply RestoreBaseline_reverting, reverting_refl
       | intros _; exact I]|].
    cbv beta. intros r w3 [f3 [-> [L3 [V3 _]]]].
    post_step. post_step. cbn [fst snd].
    assert (L : log w3 = log w ++ [LogRemoveSplitDefaultsBegin]
                               ++ failure_line f1 "RemoveSplitDefaults_"
                               ++ [pinned_marker this]
                               ++ failure_line f2 "RemovePinnedRouteToServer_"
                               ++ [LogRestoreBaselineBegin]
                               ++ failure_line f3 "RestoreBaseline_").
    { rewrite L3, L2, L1. rewrite <- !app_assoc. reflexivity. }
    assert (I32 : incl (routes w3) (routes w2)) by apply V3.
    assert (I21 : incl (routes w2) (routes w1)) by apply V2.
    assert (G1 : f1 = false -> cleared (is_split_default_v4 this) w3
                               \/ cleared (is_split_default_v6 this) w3).
    { intros E. destruct (C1 E) as [C | C]; [left | right];
        exact (@cleared_incl _ _ _ (incl_tran I32 I21) C). }
    assert (G2 : f2 = false -> cleared (is_pinned_target this) w3).
    { intros E. exact (@cleared_incl _ _ _ I32 (C2 E)). }
    simpl orb. destruct (f1 || f2 || f3) eqn:Hf; post_step;
      exists f1, f2, f3; rewrite Hf; cbn [fst snd captured_]; auto. }
  unfold post in H. destruct H as [f1 [f2 [f3 [L [R [C [G1 G2]]]]]]]. exists f1, f2, f3.
  split; [exact L|]. rewrite R.
  split; [destruct (f1 || f2 || f3); split; congruence|].
  split; [destruct (f1 || f2 || f3); split; congruence|].
  split; [exact C|]. split; [intros w2; apply Revert_again; exact C|].
  split; [exact G1|]. split; [exact G2|].
  intros Hq K Hs Hp. destruct (Revert_succeeds Hc Hq K Hs Hp) as [E [Q1 [Q2 Q3]]].
  rewrite R in E. destruct f1, f2, f3; try discriminate.
  repeat split; assumption.
Qed.

End RollbackSteps.


Section WatcherFacts.
Import NetWatcher WatcherSpec.
Local Open Scope N_scope.

Lemma swallow_returns {S} (m : M S unit) s :
  try_catch m (ret tt) s = (Returns tt, snd (m s)).
Proof. unfold try_catch, ret. destruct (m s) as [[[] | e] s']; reflexivity. Qed.

Lemma ThreadMain_from_end {S} (reapply : option (M S unit)) deb script s :
  fst (ThreadMain_from reapply deb script s)
  = Returns (if existsb is_stop script then Exited else Waiting).
Proof.
  revert deb s. induction script as [|[dw now] rest IH]; intros deb s; [reflexivity|].
  cbn [ThreadMain_from existsb]. unfold is_stop at 1. cbn [fst].
  destruct deb; cbn [negb]; destruct dw; cbn [orb]; try apply IH; try reflexivity.
  unfold bind at 1. rewrite swallow_returns. apply IH.
Qed.

(** X22. The worker of the watcher never throws, whatever [reapply] does:
    it exits exactly when one of its waits answers with the stop event,
    and is otherwise still waiting when the answers are used up. *)
Theorem ThreadMain_ends_on_stop_only {S} (reapply : option (M S unit)) script s :
  fst (ThreadMain reapply script s)
  = Returns (if existsb is_stop script then Exited else Waiting).
Proof. apply ThreadMain_from_end. Qed.

Lemma kicks_absorbed {S} (reapply : option (M S unit)) kicks rest s :
  forallb is_kick kicks = true ->
  ThreadMain_from reapply true (kicks ++ rest) s = ThreadMain_from reapply true rest s.
Proof.
  induction kicks as [|[dw now] kicks IH]; intros H; [reflexivity|].
  cbn [forallb] in H. apply andb_true_iff in H. destruct H as [Hk H].
  unfold is_kick in Hk. cbn [fst] in Hk. destruct dw; try discriminate.
  cbn [app ThreadMain_from negb]. exact (IH H).
Qed.

(** X23. A burst of kicks, however long, followed by a debounce interval
    without one, makes the worker run [reapply] exactly once; before it
    does, it moves the suppression deadline to the end of one more
    debounce interval, so that a [Kick] raised before that deadline, by
    the changes [reapply] itself makes, is dropped. *)
Theorem ThreadMain_coalesces_kicks {S} (reapply : M S unit) kick kicks t this s :
  forallb is_kick (kick :: kicks) = true ->
  let this' := set_suppress_until (t + debounce_ms_ this) this in
  ThreadMain (Some reapply) (kick :: kicks ++ [(WAIT_TIMEOUT, t)]) (this, s)
  = (Returns Waiting, (this', snd (reapply s)))
  /\ forall w, now_ms w < t + debounce_ms_ this -> Kick (this', w) = (Returns tt, (this', w)).
Proof.
  intros H. cbv zeta. split.
  - cbn [forallb] in H. apply andb_true_iff in H. destruct H as [Hk H].
    unfold ThreadMain. destruct kick as [dw now]. unfold is_kick in Hk. cbn [fst] in Hk.
    destruct dw; try discriminate. cbn [ThreadMain_from negb].
    rewrite (kicks_absorbed _ _ _ _ H). cbn [ThreadMain_from negb].
    unfold bind at 1. rewrite swallow_returns. unfold bind, get, modify, liftW. cbn [fst snd].
    destruct (reapply s) as [r s']. destruct r; reflexivity.
  - intros w Hw. unfold Kick, bind, get, liftW, NowMs. cbn.
    apply N.ltb_lt in Hw. rewrite Hw. reflexivity.
Qed.

Lemma counted_step {S} (f : M S unit) s n : snd (snd (counted f (s, n))) = Datatypes.S n.
Proof. unfold counted. cbn [fst snd]. destruct (f s). reflexivity. Qed.

Lemma ThreadMain_from_count {S} (f : M S unit) deb script this s n :
  (snd (snd (snd (ThreadMain_from (Some (counted f)) deb script (this, (s, n)))))
   <= n + (if deb then 1 else 0) + length (filter is_kick script))%nat.
Proof.
  revert deb this s n. induction script as [|[dw now] rest IH]; intros deb this s n.
  - cbn. lia.
  - cbn [ThreadMain_from filter]. unfold is_kick at 1. cbn [fst].
    destruct deb; cbn [negb]; destruct dw; cbn [length];
      try (cbn [ret snd]; lia);
      try (specialize (IH false this s n); cbn in IH |- *; lia);
      try (specialize (IH true this s n); cbn in IH |- *; lia).
    unfold bind at 1. rewrite swallow_returns.
    match goal with
    | |- context [ThreadMain_from _ false rest ?st] =>
        assert (E : exists this' s', st = (this', (s', Datatypes.S n)))
    end.
    { unfold bind, get, modify, liftW. cbn [fst snd].
      pose proof (counted_step f s n) as C.
      destruct (counted f (s, n)) as [r [s' n']]. cbn [snd] in C. subst n'.
      destruct r; cbn [snd]; eauto. }
    destruct E as [this' [s' ->]]. specialize (IH false this' s' (Datatypes.S n)).
    cbn in IH |- *. lia.
Qed.

(** X24. The worker runs [reapply] at most once per kick: counting the
    invocations beside the state of [reapply], the count grows by no more
    than the number of waits that answered with the kick event; without a
    kick, [reapply] is not run at all. *)
Theorem ThreadMain_reapplies_at_most_once_per_kick {S} (f : M S unit) script this s n :
  (snd (snd (snd (ThreadMain (Some (counted f)) script (this, (s, n)))))
   <= n + length (filter is_kick script))%nat.
Proof.
  pose proof (ThreadMain_from_count f false script this s n) as H. cbn in H.
  unfold ThreadMain. lia.
Qed.

Lemma without_fresh h l : Forall (fun x => x < h) l -> without h l = l.
Proof.
  intros H. unfold without. induction H as [|x l Hx _ IH]; [reflexivity|].
  cbn [filter]. assert (E : (x =? h) = false) by (apply N.eqb_neq; lia).
  rewrite E. cbn [negb]. f_equal. exact IH.
Qed.

Lemma without_app h l l' : without h (l ++ l') = without h l ++ without h l'.
Proof. apply filter_app. Qed.

Lemma without_hit h l : without h (h :: l) = without h l.
Proof. unfold without. cbn [filter]. rewrite N.eqb_refl. reflexivity. Qed.

Lemma without_miss h x l : x <> h -> without h (x :: l) = x :: without h l.
Proof.
  intros H. unfold without. cbn [filter]. apply N.eqb_neq in H. rewrite H. reflexivity.
Qed.

Lemma fresh_handles_spec w :
  fresh_handles w = true ->
  Forall (fun x => x < next_handle w) (handles w)
  /\ Forall (fun x => x < next_handle w) (notifications w).
Proof.
  unfold fresh_handles. rewrite forallb_app. intros H. apply andb_true_iff in H.
  destruct H as [A B]. rewrite forallb_forall in A, B.
  split; apply Forall_forall; intros x Hx; apply N.ltb_lt; auto.
Qed.

Lemma Forall_lt_weaken (n m : N) l :
  n <= m -> Forall (fun x => x < n) l -> Forall (fun x => x < m) l.
Proof. intros H. apply Forall_impl. intros x Hx. lia. Qed.

Ltac close_handles :=
  repeat first
    [ rewrite without_app
    | rewrite without_hit
    | rewrite without_miss by lia
    | match goal with
      | |- context [without ?h ?l] =>
          is_var l;
          rewrite (@without_fresh h l) by (eapply Forall_lt_weaken; [|eassumption]; lia)
      end ];
  cbn [app]; rewrite ?app_nil_r.

(** X25. The constructor of the watcher is all-or-nothing about kernel
    objects: when it throws, at whichever of its five system calls, the
    open handles and the registered notifications are the ones from
    before; when it returns, the watcher is started and holds two events,
    two registrations and a thread, all new. *)
Theorem NetWatcher_ctor_all_or_nothing debounce w :
  fresh_handles w = true ->
  match fst (NetWatcher_ctor debounce w) with
  | Throws _ =>
      handles (snd (NetWatcher_ctor debounce w)) = handles w
      /\ notifications (snd (NetWatcher_ctor debounce w)) = notifications w
  | Returns this =>
      let n := next_handle w in
      this = mkNetWatcher (Some n) (Some (n + 1)) (Some (n + 4)) (Some (n + 2)) (Some (n + 3))
                          debounce true 0
      /\ handles (snd (NetWatcher_ctor debounce w)) = handles w ++ [n; n + 1; n + 4]
      /\ notifications (snd (NetWatcher_ctor debounce w)) = notifications w ++ [n + 2; n + 3]
  end.
Proof.
  intros Hf. apply fresh_handles_spec in Hf. destruct Hf as [HH HN].
  destruct w as [H N Sg n now fl]. cbn [handles notifications next_handle] in *.
  unfold NetWatcher_ctor, StartCore.
  destruct fl as [|[] [|[] [|[] [|[] [|[] fl]]]]]; lazy -[without N.add app];
    repeat split; close_handles; rewrite <- ?app_assoc; cbn [app];
    try reflexivity; repeat (f_equal; try lia).
Qed.

(** X26. Stopping a watcher the constructor started gives back every
    kernel object: [StopCore] returns, the open handles and the registered
    notifications are the ones from before the constructor, the stop event
    was set once, the watcher holds no handle and is not started, and a
    second [StopCore] does nothing. *)
Theorem StopCore_releases_what_the_constructor_took debounce w this :
  fresh_handles w = true ->
  fst (NetWatcher_ctor debounce w) = Returns this ->
  let run := StopCore (this, snd (NetWatcher_ctor debounce w)) in
  fst run = Returns tt
  /\ fst (snd run) = mkNetWatcher None None None None None debounce false 0
  /\ handles (snd (snd run)) = handles w
  /\ notifications (snd (snd run)) = notifications w
  /\ signaled (snd (snd run)) = signaled w ++ [next_handle w]
  /\ StopCore (snd run) = (Returns tt, snd run).
Proof.
  intros Hf. apply fresh_handles_spec in Hf. destruct Hf as [HH HN].
  destruct w as [H N Sg n now fl]. cbn [handles notifications next_handle signaled] in *.
  unfold NetWatcher_ctor, StartCore.
  destruct fl as [|[] [|[] [|[] [|[] [|[] fl]]]]]; lazy -[without N.add app StopCore];
    intros E; try discriminate E; injection E as <-;
    lazy -[without N.add app]; repeat split; close_handles; rewrite <- ?app_assoc; cbn [app];
    try reflexivity.
Qed.

End WatcherFacts.


Section ClientParsing.
Import Client ClientSpec.
Local Open Scope string_scope.

Lemma last_char_app s c : last_char (s ++ String c EmptyString) = Some c.
Proof.
  induction s as [|a s IH]; [reflexivity|]. cbn [append last_char].
  destruct (s ++ String c EmptyString) eqn:E; [destruct s; discriminate|]. exact IH.
Qed.

Lemma substring_all s t : String.substring 0 (String.length s) (s ++ t) = s.
Proof. induction s as [|a s IH]; cbn; [destruct t; reflexivity | rewrite IH; reflexivity]. Qed.

Lemma length_app s t : String.length (s ++ t) = (String.length s + String.length t)%nat.
Proof. induction s as [|a s IH]; cbn; [reflexivity | rewrite IH; reflexivity]. Qed.

(** X27. [strip_brackets] takes the brackets off a bracketed host and
    leaves every other string as it is. *)
Theorem strip_brackets_spec s :
  strip_brackets ("[" ++ s ++ "]") = s
  /\ (String.get 0 s <> Some "["%char \/ last_char s <> Some "]"%char -> strip_brackets s = s).
Proof.
  split.
  - assert (L : last_char (String "[" (s ++ "]")) = Some "]"%char).
    { change (String "[" (s ++ "]")) with (("[" ++ s) ++ "]"). apply last_char_app. }
    change ("[" ++ s ++ "]") with (String "[" (s ++ "]")).
    unfold strip_brackets. rewrite L. cbn [String.length].
    rewrite length_app. cbn [String.length].
    replace (Datatypes.S (String.length s + 1) - 2)%nat with (String.length s) by lia.
    cbn [String.substring]. apply substring_all.
  - intros H. unfold strip_brackets. destruct s as [|a s]; [reflexivity|].
    destruct (Ascii.eqb_spec a "[") as [-> | Ha].
    + destruct H as [H | H]; [exfalso; apply H; reflexivity|].
      destruct (last_char (String "[" s)) as [c|]; [|reflexivity].
      destruct (Ascii.eqb_spec c "]") as [-> | Hc]; [exfalso; apply H; reflexivity|].
      destruct c as [[] [] [] [] [] [] [] []]; try reflexivity. exfalso. apply Hc. reflexivity.
    + destruct a as [[] [] [] [] [] [] [] []]; try reflexivity. exfalso. apply Ha. reflexivity.
Qed.

Lemma ltb_lt a b : String.ltb a b = true <-> OrderedTypeEx.String_as_OT.lt a b.
Proof.
  rewrite <- OrderedTypeEx.String_as_OT.cmp_lt. unfold String.ltb, OrderedTypeEx.String_as_OT.cmp.
  destruct (String.compare a b); split; congruence.
Qed.

Lemma ltb_trans a b c : String.ltb a b = true -> String.ltb b c = true -> String.ltb a c = true.
Proof. rewrite !ltb_lt. apply OrderedTypeEx.String_as_OT.lt_trans. Qed.

Lemma ltb_total a b : String.ltb a b = false -> String.eqb a b = false -> String.ltb b a = true.
Proof.
  unfold String.ltb. intros Hl He. rewrite String.compare_antisym.
  destruct (String.compare a b) eqn:E; cbn; [|discriminate | reflexivity].
  apply String.compare_eq_iff in E. subst b. rewrite String.eqb_refl in He. discriminate.
Qed.

Lemma set_insert_In x y l : In y (set_insert x l) <-> y = x \/ In y l.
Proof.
  induction l as [|z l IH]; cbn [set_insert].
  - cbn. intuition.
  - destruct (String.eqb_spec x z) as [-> | Hne].
    + cbn. intuition.
    + destruct (String.ltb x z); cbn [In]; [intuition|]. rewrite IH. intuition.
Qed.

Lemma set_insert_sorted x l :
  StronglySorted (fun a b => String.ltb a b = true) l ->
  StronglySorted (fun a b => String.ltb a b = true) (set_insert x l).
Proof.
  intros H. induction H as [|z l Hs IH Hz]; cbn [set_insert].
  - constructor; constructor.
  - destruct (String.eqb x z) eqn:He; [constructor; assumption|].
    destruct (String.ltb x z) eqn:Hl.
    + constructor; [constructor; assumption|]. constructor; [exact Hl|].
      eapply Forall_impl; [|exact Hz]. intros a Ha. exact (ltb_trans _ _ _ Hl Ha).
    + constructor; [exact IH|]. apply Forall_forall. intros a Ha.
      apply set_insert_In in Ha. destruct Ha as [-> | Ha].
      * exact (ltb_total _ _ Hl He).
      * rewrite Forall_forall in Hz. exact (Hz a Ha).
Qed.

Lemma uniq_spec answers u :
  StronglySorted (fun a b => String.ltb a b = true) u ->
  StronglySorted (fun a b => String.ltb a b = true)
                 (fold_left (fun u a => set_insert a u) answers u)
  /\ forall y, In y (fold_left (fun u a => set_insert a u) answers u)
               <-> In y answers \/ In y u.
Proof.
  revert u. induction answers as [|a answers IH]; intros u Hu; cbn [fold_left].
  - split; [exact Hu|]. cbn. intuition.
  - destruct (IH (set_insert a u) (set_insert_sorted a Hu)) as [S I]. split; [exact S|].
    intros y. rewrite I, set_insert_In. cbn [In]. intuition.
Qed.

Lemma take_last l out : fold_left (fun (_ it : string) => it) l out = last l out.
Proof.
  revert out. induction l as [|a l IH]; intros out; [reflexivity|].
  cbn [fold_left]. rewrite IH. symmetry. apply last_cons_default.
Qed.

Lemma last_In {A} (l : list A) d : l <> [] -> In (last l d) l.
Proof.
  induction l as [|a l IH]; [congruence|]. intros _. destruct l as [|b l]; [left; reflexivity|].
  right. apply IH. discriminate.
Qed.

Lemma last_greatest l d a :
  StronglySorted (fun a b => String.ltb a b = true) l -> In a l -> string_le a (last l d).
Proof.
  intros H. revert a. induction H as [|z l Hs IH Hz]; intros a Ha; [destruct Ha|].
  destruct l as [|b l].
  - destruct Ha as [<- | []]. left. reflexivity.
  - change (last (z :: b :: l) d) with (last (b :: l) d). destruct Ha as [<- | Ha].
    + right. rewrite Forall_forall in Hz. apply Hz. apply last_In. discriminate.
    + exact (IH a Ha).
Qed.

(** X28. The remote address of the firewall rule is one address, never a
    list: when [getaddrinfo] fails or answers with nothing it is the host
    without brackets; otherwise it is one of the answers, the greatest
    in the order of the strings, since each pass of the joining loop
    overwrites what the earlier ones left. *)
Theorem ResolveFirewallAddressesW_gives_one_address getaddrinfo host :
  match getaddrinfo (strip_brackets host) with
  | None => ResolveFirewallAddressesW getaddrinfo host = strip_brackets host
  | Some [] => ResolveFirewallAddressesW getaddrinfo host = strip_brackets host
  | Some answers =>
      In (ResolveFirewallAddressesW getaddrinfo host) answers
      /\ forall a, In a answers -> string_le a (ResolveFirewallAddressesW getaddrinfo host)
  end.
Proof.
  unfold ResolveFirewallAddressesW. cbv zeta.
  destruct (getaddrinfo (strip_brackets host)) as [answers|]; [|reflexivity].
  destruct answers as [|a0 answers]; [reflexivity|].
  destruct (@uniq_spec (a0 :: answers) [] (SSorted_nil _)) as [S I].
  set (uniq := fold_left (fun u a => set_insert a u) (a0 :: answers) []) in *.
  assert (Hne : uniq <> []).
  { intros E. assert (H0 : In a0 uniq) by (apply I; left; left; reflexivity).
    rewrite E in H0. destruct H0. }
  destruct uniq as [|u0 us] eqn:Eu; [congruence|]. rewrite <- Eu in *.
  change (fold_left _ uniq EmptyString) with (fold_left (fun (_ it : string) => it) uniq EmptyString).
  rewrite take_last. split.
  - pose proof (@last_In _ uniq EmptyString Hne) as Hl. apply I in Hl.
    destruct Hl as [Hl | []]. exact Hl.
  - intros a Ha. apply last_greatest; [exact S|]. apply I. left. exact Ha.
Qed.

Lemma append_nil_r s : s ++ "" = s.
Proof. induction s as [|a s IH]; cbn; [reflexivity | rewrite IH; reflexivity]. Qed.

Lemma append_assoc s t u : (s ++ t) ++ u = s ++ t ++ u.
Proof. induction s as [|a s IH]; cbn; [reflexivity | rewrite IH; reflexivity]. Qed.

Lemma split_word x rest tok out :
  comma_free x = true -> split_dns (x ++ rest) tok out = split_dns rest (tok ++ x) out.
Proof.
  revert tok. induction x as [|c x IH]; intros tok H.
  - rewrite append_nil_r. reflexivity.
  - unfold comma_free in H. cbn [contains_char] in H. apply negb_true_iff in H.
    apply orb_false_iff in H. destruct H as [Hc Hx].
    cbn [append split_dns]. rewrite Hc. rewrite IH.
    + rewrite append_assoc. reflexivity.
    + unfold comma_free. rewrite Hx. reflexivity.
Qed.

Lemma split_joined items out :
  forallb comma_free items = true ->
  split_dns (join_commas items) EmptyString out
  = fold_left (fun out x => push_token (trim_copy x) out) items out.
Proof.
  revert out. induction items as [|x items IH]; intros out H; [reflexivity|].
  cbn [forallb] in H. apply andb_true_iff in H. destruct H as [Hx H].
  unfold join_commas. cbn [fold_left String.concat]. destruct items as [|y items].
  - rewrite <- (append_nil_r x) at 1. rewrite (split_word x "" "" out Hx). reflexivity.
  - rewrite (split_word x _ "" out Hx). cbn [append split_dns Ascii.eqb Bool.eqb].
    exact (IH _ H).
Qed.

Lemma pushed_nonempty items out :
  Forall (fun x => x <> EmptyString) out ->
  Forall (fun x => x <> EmptyString)
         (fold_left (fun out x => push_token (trim_copy x) out) items out).
Proof.
  revert out. induction items as [|x items IH]; intros out H; [exact H|].
  cbn [fold_left]. apply IH. unfold push_token.
  destruct (String.eqb_spec (trim_copy x) ""); [exact H|].
  apply Forall_app. split; [exact H|]. constructor; [assumption | constructor].
Qed.

(** X29. A "dns" field given as one string is read as the array of its
    comma-separated pieces would be: the pieces are trimmed the same way
    and the ones that are empty after trimming are dropped, so that no
    server of the list is the empty string. *)
Theorem parse_dns_string_as_array items :
  forallb comma_free items = true ->
  parse_dns (DnsString (join_commas items)) = parse_dns (DnsArray items)
  /\ Forall (fun x => x <> EmptyString) (parse_dns (DnsArray items)).
Proof.
  intros H. split.
  - exact (split_joined items [] H).
  - apply pushed_nonempty. constructor.
Qed.

End ClientParsing.


Section WorkerFailures.
Import Client.
Context {P : InetPton}.
Local Open Scope Z_scope.

Lemma validate_run {S} c (s : S) :
  server c <> EmptyString -> 0 < port c <= 65535 -> 576 <= mtu c <= 9200 ->
  validate c s = (Returns tt, s).
Proof.
  intros Hs Hp Hm. unfold validate. apply String.eqb_neq in Hs. rewrite Hs.
  destruct (Z.leb_spec (port c) 0); [lia|]. destruct (Z.ltb_spec 65535 (port c)); [lia|].
  cbn [orb]. destruct (Z.ltb_spec (mtu c) 576); [lia|].
  destruct (Z.ltb_spec 9200 (mtu c)); [lia|]. reflexivity.
Qed.

(** X30. When the plug-in cannot be loaded, or the adapter cannot be
    opened, after the firewall rule was installed, every COM call
    succeeding and at most one rule of the collection found bearing the
    name of the rule to install, the worker exits with code 1 and the
    destructor of the rules object gives the firewall back: the rules are
    the ones that were found, up to their order, and in their order when
    none of them had that name; registry, routes, interfaces and address
    plan were not touched. *)
Theorem failed_start_leaves_firewall_as_found env c h exe :
  elevated env = true -> wintun_loads env = true -> wsa_starts env = true ->
  module_path env = Some exe -> exe <> EmptyString ->
  server c <> EmptyString -> 0 < port c <= 65535 -> 576 <= mtu c <= 9200 ->
  ResolveFirewallAddressesW (getaddrinfo env) (strip_brackets (server c)) <> EmptyString ->
  plugin_loads env = false \/ adapter_luid env = None ->
  Firewall.faults (fw_world h) = [] ->
  let cfg := Firewall.mkClientRule
               "FlowForge" exe
               (ResolveFirewallAddressesW (getaddrinfo env) (strip_brackets (server c))) in
  let n := Firewall.MakeRuleName cfg Firewall.TCP (to_uint16 (port c)) in
  (length (filter (Firewall.has_name n) (Firewall.rules (fw_world h))) <= 1)%nat ->
  let run := ClientMain_init env c h in
  fst run = Returns (Exit 1)
  /\ Permutation (Firewall.rules (fw_world (snd run))) (Firewall.rules (fw_world h))
  /\ (find (Firewall.has_name n) (Firewall.rules (fw_world h)) = None ->
      Firewall.rules (fw_world (snd run)) = Firewall.rules (fw_world h))
  /\ reg_world (snd run) = reg_world h /\ ip_world (snd run) = ip_world h
  /\ globals (snd run) = globals h.
Proof.
  intros He Hw Hs Hm Hexe Hsrv Hport Hmtu Hres Hfail Hq cfg n Hu run.
  assert (Hp : to_uint16 (port c) <> 0%N).
  { unfold to_uint16. rewrite Z.mod_small by lia. lia. }
  assert (Hc : FirewallSpec.config_valid cfg).
  { split; [discriminate|]. split; [exact Hexe | exact Hres]. }
  destruct (@Allow_Revert_quiet cfg Firewall.TCP (to_uint16 (port c)) (fw_world h) Hq Hc Hp Hu)
    as [E1 [E2 [R1 [R2 [Pm O2]]]]].
  fold n in R1, R2.
  set (run1 := Firewall.Allow Firewall.TCP (to_uint16 (port c))
                              (Firewall.FirewallRules_ctor cfg, fw_world h)) in *.
  set (run2 := Firewall.Revert (snd run1)) in *.
  assert (Erun : run = (Returns (Exit 1),
                        mkMachine (snd (snd run2)) (reg_world h) (ip_world h) (globals h))).
  { unfold run, ClientMain_init. rewrite He, Hw, Hs, Hm. cbn [negb].
    unfold bind at 1. rewrite (validate_run c h Hsrv Hport Hmtu).
    fold cfg. unfold bind at 1. unfold on_fw at 1. fold run1.
    destruct run1 as [r1 [o1 w1]] eqn:Erun1. cbn [fst snd] in E1, run2. subst r1.
    cbn [fst snd fw_world reg_world ip_world globals].
    assert (D : destroy_fw o1 (mkMachine w1 (reg_world h) (ip_world h) (globals h))
                = (Returns tt,
                   mkMachine (snd (snd run2)) (reg_world h) (ip_world h) (globals h))).
    { unfold destroy_fw, bind, on_fw, try_catch. cbn [fw_world reg_world ip_world globals].
      fold run2. destruct run2 as [r2 [o2 w2]]. cbn [fst snd] in E2 |- *. subst r2.
      reflexivity. }
    destruct Hfail as [Hpl | Had].
    - rewrite Hpl. cbn [negb]. unfold bind. rewrite D. reflexivity.
    - destruct (plugin_loads env); cbn [negb]; [rewrite Had|]; unfold bind; rewrite D;
        reflexivity. }
  rewrite Erun. cbn [fst snd fw_world reg_world ip_world globals].
  split; [reflexivity|]. split; [exact Pm|]. split; [|repeat split].
  intros Hn. rewrite R2, Hn, app_nil_r.
  exact (@remove_rule_none _ _ Hn).
Qed.

End WorkerFailures.


Section VariantInstances.
Import Scenario1 Variants.
Local Open Scope string_scope.

(** The firewall with the rule of the session installed. *)
Lemma Allow_then_Revert_restores_rules_witness :
  Firewall.faults (Client.fw_world (snd started)) = []
  /\ FirewallSpec.config_valid rule
  /\ 5555%N <> 0%N
  /\ (length (filter (Firewall.has_name (Firewall.MakeRuleName rule Firewall.TCP 5555))
                     (Firewall.rules (Client.fw_world (snd started)))) <= 1)%nat
  /\ let w := Client.fw_world (snd started) in
     let n := Firewall.MakeRuleName rule Firewall.TCP 5555 in
     let run1 := Firewall.Allow Firewall.TCP 5555 (Firewall.FirewallRules_ctor rule, w) in
     let run2 := Firewall.Revert (snd run1) in
     fst run1 = Returns tt /\ fst run2 = Returns tt
     /\ Firewall.rules (snd (snd run1))
        = (Firewall.remove_rule n (Firewall.rules w)
             ++ [FirewallSpec.allow_rule rule Firewall.TCP 5555])%list
     /\ Firewall.rules (snd (snd run2))
        = (Firewall.remove_rule n (Firewall.rules w)
             ++ (match find (Firewall.has_name n) (Firewall.rules w) with
                 | Some r => [r]
                 | None => []
                 end))%list
     /\ Permutation (Firewall.rules (snd (snd run2))) (Firewall.rules w)
     /\ fst (snd run2) = Firewall.FirewallRules_ctor rule.
Proof.
  assert (Q : Firewall.faults (Client.fw_world (snd started)) = [])
    by (vm_compute; reflexivity).
  assert (C : FirewallSpec.config_valid rule) by (repeat split; discriminate).
  assert (N : 5555%N <> 0%N) by discriminate.
  assert (U : (length (filter (Firewall.has_name (Firewall.MakeRuleName rule Firewall.TCP 5555))
                              (Firewall.rules (Client.fw_world (snd started)))) <= 1)%nat)
    by (vm_compute; lia).
  split; [exact Q|]. split; [exact C|]. split; [exact N|]. split; [exact U|].
  exact (@Allow_then_Revert_restores_rules rule Firewall.TCP 5555%N
           (Client.fw_world (snd started)) Q C N U).
Defined.

Lemma Allow_throw_keeps_object_witness :
  is_thrown (fst (Firewall.Allow Firewall.TCP 5555
                    (Firewall.FirewallRules_ctor rule, no_com))) = true
  /\ fst (snd (Firewall.Allow Firewall.TCP 5555
                 (Firewall.FirewallRules_ctor rule, no_com)))
     = Firewall.FirewallRules_ctor rule.
Proof.
  assert (T : is_thrown (fst (Firewall.Allow Firewall.TCP 5555
                                (Firewall.FirewallRules_ctor rule,
                                 no_com))) = true)
    by (vm_compute; reflexivity).
  split; [exact T|].
  exact (@Allow_throw_keeps_object Firewall.TCP 5555%N (Firewall.FirewallRules_ctor rule)
           (no_com) T).
Defined.

Lemma Allow_rejects_invalid_arguments_witness :
  (FirewallSpec.config_invalid (Firewall.cfg_ fw) \/ 0%N = 0%N)
  /\ exists what,
       Firewall.Allow Firewall.TCP 0 (fw, fw_world)
       = (Throws (InvalidArgument what), (fw, fw_world)).
Proof.
  assert (H : FirewallSpec.config_invalid (Firewall.cfg_ fw) \/ 0%N = 0%N) by (right; reflexivity).
  split; [exact H|].
  exact (@Allow_rejects_invalid_arguments Firewall.TCP 0%N fw fw_world H).
Defined.

Lemma FirewallRules_invariant_witness :
  let this := fw_name_unread in
  FirewallSpec.reachable rule this
  /\ map (fun e => (Firewall.present (Firewall.snapshot e), Firewall.name (Firewall.snapshot e)))
         (Firewall.entries_ this) = [(true, "")]
  /\ Firewall.cfg_ this = rule
  /\ (Firewall.applied_ this = true <-> Firewall.entries_ this <> [])
  /\ (forall e, In e (Firewall.entries_ this) ->
        Firewall.touched e = true
        /\ Firewall.had_before e = Firewall.present (Firewall.snapshot e)
        /\ Firewall.e_name e
           = Firewall.MakeRuleName rule (Firewall.e_proto e) (Firewall.e_port e)
        /\ Firewall.e_port e <> 0%N
        /\ (Firewall.present (Firewall.snapshot e) = true ->
            Firewall.name (Firewall.snapshot e) = Firewall.e_name e
            \/ Firewall.name (Firewall.snapshot e) = ""))
  /\ (Firewall.entries_ this <> [] -> FirewallSpec.config_valid rule).
Proof.
  intros this.
  assert (R : FirewallSpec.reachable rule this).
  { exact (@FirewallSpec.reach_Allow rule (Firewall.FirewallRules_ctor rule)
             (Firewall.mkWorld [foreign_rule; former_rule]
                               [false; false; false; false; true] [])
             Firewall.TCP 5555%N (FirewallSpec.reach_ctor rule)). }
  split; [exact R|]. split; [vm_compute; reflexivity|].
  exact (@FirewallRules_invariant rule this R).
Defined.

Lemma Revert_keeps_entries_only_without_COM_witness :
  FirewallSpec.reachable rule fw
  /\ (Firewall.applied_ fw = true -> hd false (Firewall.faults (no_com))
                                     = true ->
      fst (Firewall.Revert (fw, no_com))
      = Throws (Firewall.HrErr "CoInitializeEx")
      /\ fst (snd (Firewall.Revert (fw, no_com))) = fw
      /\ Firewall.rules (snd (snd (Firewall.Revert (fw, no_com))))
         = Firewall.rules (no_com)).
Proof.
  assert (R : FirewallSpec.reachable rule fw).
  { exact (@FirewallSpec.reach_Allow rule (Firewall.FirewallRules_ctor rule) fw_world
             Firewall.TCP 5555%N (FirewallSpec.reach_ctor rule)). }
  split; [exact R|].
  exact (proj1 (@Revert_keeps_entries_only_without_COM rule fw
                  (no_com) R)).
Defined.

Lemma RemoveByPrefix_removes_prefixed_rules_witness :
  Firewall.faults (Client.fw_world (snd started)) = []
  /\ "FlowForge" <> EmptyString
  /\ fst (Firewall.RemoveByPrefix "FlowForge" (Client.fw_world (snd started))) = Returns tt
  /\ Firewall.rules (snd (Firewall.RemoveByPrefix "FlowForge" (Client.fw_world (snd started))))
     = FirewallSpec.others "FlowForge" (Firewall.rules (Client.fw_world (snd started))).
Proof.
  assert (Q : Firewall.faults (Client.fw_world (snd started)) = [])
    by (vm_compute; reflexivity).
  assert (N : "FlowForge" <> EmptyString) by discriminate.
  split; [exact Q|]. split; [exact N|].
  exact (@RemoveByPrefix_removes_prefixed_rules "FlowForge" (Client.fw_world (snd started)) Q N).
Defined.

Lemma failed_Apply_is_not_reverted_witness :
  DNS.applied_ resolver = false
  /\ is_thrown (fst (@DNS.Apply RefParser.parser bad_servers (resolver, reg_world))) = true
  /\ forall w2,
       DNS.Revert (fst (snd (@DNS.Apply RefParser.parser bad_servers (resolver, reg_world))), w2)
       = (Returns tt,
          (fst (snd (@DNS.Apply RefParser.parser bad_servers (resolver, reg_world))), w2)).
Proof.
  assert (A : DNS.applied_ resolver = false) by reflexivity.
  assert (T : is_thrown (fst (@DNS.Apply RefParser.parser bad_servers (resolver, reg_world)))
              = true) by (vm_compute; reflexivity).
  split; [exact A|]. split; [exact T|].
  exact (@failed_Apply_is_not_reverted RefParser.parser bad_servers resolver reg_world A T).
Defined.

Lemma rejected_Apply_forgets_snapshot_witness :
  (bad_servers = []
   \/ exists s, In s bad_servers /\ @DnsSpec.valid RefParser.parser s = false)
  /\ forall w2,
       fst (DNS.Revert (fst (snd (@DNS.Apply RefParser.parser bad_servers
                                             (DNS.DNS_ctor tun_luid, reg_world))), w2))
       = Returns tt
       /\ snd (snd (DNS.Revert (fst (snd (@DNS.Apply RefParser.parser bad_servers
                                                    (DNS.DNS_ctor tun_luid, reg_world))), w2)))
          = w2
       /\ DNS.applied_
            (fst (snd (DNS.Revert (fst (snd (@DNS.Apply RefParser.parser bad_servers
                                                        (DNS.DNS_ctor tun_luid, reg_world))),
                                   w2)))) = false.
Proof.
  assert (H : bad_servers = []
              \/ exists s, In s bad_servers /\ @DnsSpec.valid RefParser.parser s = false).
  { right. exists "dns.example". split; [right; left; reflexivity | vm_compute; reflexivity]. }
  split; [exact H|].
  exact (@rejected_Apply_forgets_snapshot RefParser.parser bad_servers (DNS.DNS_ctor tun_luid)
           reg_world H).
Defined.

Lemma Apply_then_Revert_restores_registry_witness :
  pton_rejects_empty RefParser.parser
  /\ DNS.faults reg_world = []
  /\ DnsSpec.resolves resolver reg_world guid
  /\ DNS.reg reg_world (DnsSpec.key4 guid) = Some (Some (DNS.REG_SZ "192.168.1.1"))
  /\ Some (DNS.REG_SZ "192.168.1.1") <> Some DNS.REG_malformed
  /\ DNS.reg reg_world (DnsSpec.key6 guid) = Some None
  /\ @None DNS.regval <> Some DNS.REG_malformed
  /\ Client.dns config <> []
  /\ Forall (fun s => @DnsSpec.valid RefParser.parser s = true) (Client.dns config)
  /\ let run1 := @DNS.Apply RefParser.parser (Client.dns config) (resolver, reg_world) in
     let run2 := DNS.Revert (snd run1) in
     fst run1 = Returns tt /\ fst run2 = Returns tt
     /\ forall k, DNS.reg (snd (snd run2)) k = DNS.reg reg_world k.
Proof.
  assert (E : pton_rejects_empty RefParser.parser) by (split; reflexivity).
  assert (Q : DNS.faults reg_world = []) by reflexivity.
  assert (G : DnsSpec.resolves resolver reg_world guid).
  { split; [discriminate | right; split; reflexivity]. }
  assert (R4 : DNS.reg reg_world (DnsSpec.key4 guid) = Some (Some (DNS.REG_SZ "192.168.1.1")))
    by (vm_compute; reflexivity).
  assert (M4 : Some (DNS.REG_SZ "192.168.1.1") <> Some DNS.REG_malformed) by discriminate.
  assert (R6 : DNS.reg reg_world (DnsSpec.key6 guid) = Some None) by (vm_compute; reflexivity).
  assert (M6 : @None DNS.regval <> Some DNS.REG_malformed) by discriminate.
  assert (N1 : Client.dns config <> []) by discriminate.
  assert (V1 : Forall (fun s => @DnsSpec.valid RefParser.parser s = true) (Client.dns config)).
  { repeat (constructor; [vm_compute; reflexivity|]). constructor. }
  split; [exact E|]. split; [exact Q|]. split; [exact G|]. split; [exact R4|].
  split; [exact M4|]. split; [exact R6|]. split; [exact M6|]. split; [exact N1|].
  split; [exact V1|].
  pose proof (@Apply_then_Revert_restores_registry RefParser.parser resolver reg_world
                (Client.dns config) guid (Some (DNS.REG_SZ "192.168.1.1")) None
                E Q G R4 M4 R6 M6 N1 V1) as H.
  cbv zeta in H |- *. destruct H as [H1 [H2 [_ [_ [_ H6]]]]].
  split; [exact H1|]. split; [exact H2|]. apply H6; discriminate.
Defined.

Lemma SetAddressPlan_stores_addresses_before_MTU_error_witness :
  @NetSpec.addresses_acceptable RefParser.parser
     plan_9001 = true
  /\ NetSpec.mtu_acceptable 9001 = false
  /\ @Network.SetAddressPlan RefParser.parser
       plan_9001
       Network.initial_globals
     = (Throws (InvalidArgument "Network::SetAddressPlan: invalid MTU"),
        Network.mkGlobals "10.200.0.2" "10.200.0.1" "fd00::2" "fd00::1" 1400).
Proof.
  assert (A : @NetSpec.addresses_acceptable RefParser.parser
                plan_9001
              = true) by (vm_compute; reflexivity).
  assert (M : NetSpec.mtu_acceptable 9001 = false) by (vm_compute; reflexivity).
  split; [exact A|]. split; [exact M|].
  exact (@SetAddressPlan_stores_addresses_before_MTU_error RefParser.parser
           plan_9001
           Network.initial_globals A M).
Defined.



Lemma ThreadMain_coalesces_kicks_witness :
  forallb WatcherSpec.is_kick [kick1; kick2] = true
  /\ let this := watcher in
     let this' := NetWatcher.set_suppress_until (700 + 500) this in
     NetWatcher.ThreadMain (Some (modify Datatypes.S))
                           (kick1
                              :: [kick2]
                              ++ [(NetWatcher.WAIT_TIMEOUT, 700%N)])%list
                           (this, 0%nat)
     = (Returns NetWatcher.Waiting, (this', 1%nat))
     /\ forall w, (NetWatcher.now_ms w < 700 + 500)%N ->
                  NetWatcher.Kick (this', w) = (Returns tt, (this', w)).
Proof.
  assert (K : forallb WatcherSpec.is_kick
                      [kick1; kick2] = true)
    by reflexivity.
  split; [exact K|].
  exact (@ThreadMain_coalesces_kicks nat (modify Datatypes.S) kick1
           [kick2] 700%N
           watcher
           0%nat K).
Defined.

Lemma NetWatcher_ctor_all_or_nothing_witness :
  WatcherSpec.fresh_handles kernel_failing = true
  /\ is_thrown (fst (NetWatcher.NetWatcher_ctor
                       500 kernel_failing))
     = true
  /\ NetWatcher.handles
       (snd (NetWatcher.NetWatcher_ctor
               500 kernel_failing)) = []
  /\ NetWatcher.notifications
       (snd (NetWatcher.NetWatcher_ctor
               500 kernel_failing)) = [].
Proof.
  assert (F : WatcherSpec.fresh_handles
                kernel_failing = true)
    by reflexivity.
  split; [exact F|]. split; [vm_compute; reflexivity|].
  exact (@NetWatcher_ctor_all_or_nothing
           500%N kernel_failing F).
Defined.

Lemma StopCore_releases_what_the_constructor_took_witness :
  WatcherSpec.fresh_handles kernel = true
  /\ fst (NetWatcher.NetWatcher_ctor 500 kernel)
     = Returns watcher
  /\ let w := kernel in
     let this := watcher in
     let run := NetWatcher.StopCore (this, snd (NetWatcher.NetWatcher_ctor 500 w)) in
     fst run = Returns tt
     /\ fst (snd run) = NetWatcher.mkNetWatcher None None None None None 500 false 0
     /\ NetWatcher.handles (snd (snd run)) = NetWatcher.handles w
     /\ NetWatcher.notifications (snd (snd run)) = NetWatcher.notifications w
     /\ NetWatcher.signaled (snd (snd run))
        = (NetWatcher.signaled w ++ [NetWatcher.next_handle w])%list
     /\ NetWatcher.StopCore (snd run) = (Returns tt, snd run).
Proof.
  assert (F : WatcherSpec.fresh_handles kernel = true)
    by reflexivity.
  assert (C : fst (NetWatcher.NetWatcher_ctor 500 kernel)
              = Returns watcher)
    by (vm_compute; reflexivity).
  split; [exact F|]. split; [exact C|].
  exact (@StopCore_releases_what_the_constructor_took
           500%N kernel
           watcher F C).
Defined.

Lemma parse_dns_string_as_array_witness :
  forallb ClientSpec.comma_free dns_items = true
  /\ Client.parse_dns
       (Client.DnsString (ClientSpec.join_commas dns_items))
     = Client.parse_dns (Client.DnsArray dns_items)
  /\ Forall (fun x => x <> EmptyString)
            (Client.parse_dns (Client.DnsArray dns_items)).
Proof.
  assert (H : forallb ClientSpec.comma_free dns_items = true)
    by reflexivity.
  split; [exact H|].
  exact (@parse_dns_string_as_array dns_items H).
Defined.

(** Scenario 1 after its first [reapply], when the system cannot read the
    forwarding table for either family: the first step throws, the two
    others are carried out, [Revert] throws at the end. *)
Lemma Revert_attempts_all_steps_witness :
  let w := configured_world [5; 5]%N in
  NetworkRollback.captured_ rollback = true
  /\ fst (@NetworkRollback.Revert RefParser.parser (rollback, w))
     = Throws NetworkRollback.Revert_failed
  /\ exists f1 f2 f3,
       IpHelper.log (snd (snd (@NetworkRollback.Revert RefParser.parser (rollback, w))))
       = (IpHelper.log w
            ++ [IpHelper.LogRemoveSplitDefaultsBegin]
            ++ NetSpec.failure_line f1 "RemoveSplitDefaults_"
            ++ [NetSpec.pinned_marker rollback]
            ++ NetSpec.failure_line f2 "RemovePinnedRouteToServer_"
            ++ [IpHelper.LogRestoreBaselineBegin]
            ++ NetSpec.failure_line f3 "RestoreBaseline_")%list
       /\ (fst (@NetworkRollback.Revert RefParser.parser (rollback, w))
           = Throws NetworkRollback.Revert_failed <-> f1 || f2 || f3 = true)
       /\ (fst (@NetworkRollback.Revert RefParser.parser (rollback, w))
           = Returns tt <-> f1 || f2 || f3 = false)
       /\ NetworkRollback.captured_
            (fst (snd (@NetworkRollback.Revert RefParser.parser (rollback, w)))) = false
       /\ (forall w2,
             @NetworkRollback.Revert RefParser.parser
               (fst (snd (@NetworkRollback.Revert RefParser.parser (rollback, w))), w2)
             = (Throws NetworkRollback.Revert_without_baseline,
                (fst (snd (@NetworkRollback.Revert RefParser.parser (rollback, w))), w2)))
       /\ (f1 = false ->
           NetSpec.cleared (@NetworkRollback.is_split_default_v4 RefParser.parser rollback)
                           (snd (snd (@NetworkRollback.Revert RefParser.parser (rollback, w))))
           \/ NetSpec.cleared
                (@NetworkRollback.is_split_default_v6 RefParser.parser rollback)
                (snd (snd (@NetworkRollback.Revert RefParser.parser (rollback, w)))))
       /\ (f2 = false ->
           NetSpec.cleared (@NetSpec.is_pinned_target RefParser.parser rollback)
                           (snd (snd (@NetworkRollback.Revert RefParser.parser (rollback, w)))))
       /\ (IpHelper.faults w = [] -> NetSpec.keyed (IpHelper.routes w) = true ->
           @NetSpec.server_known RefParser.parser rollback -> NetSpec.rows_present rollback w ->
           f1 = false /\ f2 = false /\ f3 = false
           /\ IpHelper.routes
                (snd (snd (@NetworkRollback.Revert RefParser.parser (rollback, w))))
              = filter (fun r => negb (@NetSpec.rollback_target RefParser.parser rollback r))
                       (IpHelper.routes w)
           /\ IpHelper.addresses
                (snd (snd (@NetworkRollback.Revert RefParser.parser (rollback, w))))
              = IpHelper.addresses w
           /\ forall f l,
                IpHelper.interfaces
                  (snd (snd (@NetworkRollback.Revert RefParser.parser (rollback, w)))) f l
                = NetSpec.restored_interfaces rollback w f l).
Proof.
  intros w. split; [reflexivity|]. split; [vm_compute; reflexivity|].
  exact (@Revert_attempts_all_steps RefParser.parser rollback w eq_refl).
Defined.

(** The same state when every call succeeds: the conditions of the last
    part of the statement hold there, and the table is back to the two
    default routes. *)
Lemma Revert_succeeds_in_scenario1 :
  let w := configured_world [] in
  IpHelper.faults w = [] /\ NetSpec.keyed (IpHelper.routes w) = true
  /\ @NetSpec.server_known RefParser.parser rollback /\ NetSpec.rows_present rollback w
  /\ fst (@NetworkRollback.Revert RefParser.parser (rollback, w)) = Returns tt
  /\ IpHelper.routes (snd (snd (@NetworkRollback.Revert RefParser.parser (rollback, w))))
     = [default4; default6].
Proof.
  intros w. split; [reflexivity|]. split; [vm_compute; reflexivity|].
  split; [right; left; vm_compute; discriminate|].
  split; [split; intros _; vm_compute; discriminate|].
  destruct (@Revert_succeeds RefParser.parser rollback w eq_refl eq_refl) as [E [R _]].
  - vm_compute; reflexivity.
  - right; left; vm_compute; discriminate.
  - split; intros _; vm_compute; discriminate.
  - split; [exact E|]. rewrite R. vm_compute. reflexivity.
Qed.

Lemma failed_start_leaves_firewall_as_found_witness :
  Client.elevated env_without_plugin = true
  /\ Client.wintun_loads env_without_plugin = true
  /\ Client.wsa_starts env_without_plugin = true
  /\ Client.module_path env_without_plugin = Some "C:\FlowForge\Client.exe"
  /\ "C:\FlowForge\Client.exe" <> EmptyString
  /\ Client.server config <> EmptyString
  /\ (0 < Client.port config <= 65535)%Z
  /\ (576 <= Client.mtu config <= 9200)%Z
  /\ Client.ResolveFirewallAddressesW (Client.getaddrinfo env_without_plugin)
       (Client.strip_brackets (Client.server config)) <> EmptyString
  /\ (Client.plugin_loads env_without_plugin = false
      \/ Client.adapter_luid env_without_plugin = None)
  /\ Firewall.faults (Client.fw_world machine_used) = []
  /\ (length (filter (Firewall.has_name
                        (Firewall.MakeRuleName rule_of_config Firewall.TCP
                                               (Client.to_uint16 (Client.port config))))
                     (Firewall.rules (Client.fw_world machine_used))) <= 1)%nat
  /\ fst (@Client.ClientMain_init RefParser.parser env_without_plugin config machine_used)
     = Returns (Client.Exit 1)
  /\ Firewall.rules (Client.fw_world machine_used) = [foreign_rule; former_rule]
  /\ Permutation
       (Firewall.rules
          (Client.fw_world
             (snd (@Client.ClientMain_init RefParser.parser env_without_plugin config machine_used))))
       (Firewall.rules (Client.fw_world machine_used)).
Proof.
  assert (H1 : Client.elevated env_without_plugin = true) by reflexivity.
  assert (H2 : Client.wintun_loads env_without_plugin = true) by reflexivity.
  assert (H3 : Client.wsa_starts env_without_plugin = true) by reflexivity.
  assert (H4 : Client.module_path env_without_plugin = Some "C:\FlowForge\Client.exe")
    by reflexivity.
  assert (H5 : "C:\FlowForge\Client.exe" <> EmptyString) by discriminate.
  assert (H6 : Client.server config <> EmptyString) by discriminate.
  assert (H7 : (0 < Client.port config <= 65535)%Z) by (cbn; lia).
  assert (H8 : (576 <= Client.mtu config <= 9200)%Z) by (cbn; lia).
  assert (H9 : Client.ResolveFirewallAddressesW (Client.getaddrinfo env_without_plugin)
                 (Client.strip_brackets (Client.server config)) <> EmptyString)
    by (vm_compute; discriminate).
  assert (H10 : Client.plugin_loads env_without_plugin = false
                \/ Client.adapter_luid env_without_plugin = None) by (left; reflexivity).
  assert (H11 : Firewall.faults (Client.fw_world machine_used) = []) by reflexivity.
  assert (H12 : (length (filter (Firewall.has_name
                                   (Firewall.MakeRuleName
                                      rule_of_config Firewall.TCP
                                      (Client.to_uint16 (Client.port config))))
                                (Firewall.rules (Client.fw_world machine_used))) <= 1)%nat)
    by (vm_compute; lia).
  split; [exact H1|]. split; [exact H2|]. split; [exact H3|]. split; [exact H4|].
  split; [exact H5|]. split; [exact H6|]. split; [exact H7|]. split; [exact H8|].
  split; [exact H9|]. split; [exact H10|]. split; [exact H11|]. split; [exact H12|].
  pose proof (@failed_start_leaves_firewall_as_found RefParser.parser env_without_plugin
                config machine_used "C:\FlowForge\Client.exe"
                H1 H2 H3 H4 H5 H6 H7 H8 H9 H10 H11 H12) as H.
  cbv zeta in H. destruct H as [A [B _]]. split; [exact A|]. split; [reflexivity | exact B].
Defined.

End VariantInstances.
